(* ===== verification/_CoqProject ===== *)
-Q . S2P
Prelude.v
Threads.v
F64.v
Config.v
ShmContract.v
RustStr.v
ShmRuntime.v
ConfigRace.v
OpenRace.v
Layers.v
Sockets.v
R1SessionGuard.v
R2ChaosBase.v
LossRace.v
R3FlowControl.v
FlowRace.v
R4TimingVariation.v
R5TransportFaults.v
R6ResolverFaults.v
R7PayloadTransform.v
Observability.v
ChaosEngine.v
Runtime.v
RuntimeRace.v
SetPriority.v
Bridge.v
Tls.v
RecordReplay.v
Process.v
Symbols.v
Interceptor.v
Hooks.v
HookSpecs.v
HookTransparent.v
HookReceive.v
HookLifecycle.v
Gates.v
EndToEnd.v
HostNames.v
TlsNames.v
