(* ===== verification/Prelude.v ===== *)
(** * faultcore: a verification library

    faultcore injects network faults into a process.  A Python package writes a
    configuration row per thread into a shared-memory segment; a preloaded
    library (the crate [faultcore_interceptor]) hooks the socket calls of libc and
    some of TLS, asks the crate [faultcore_network] which configuration applies to
    the call and which fault to inject, and acts on the answer.  This library
    models both crates in Rocq, definition by definition, and proves what makes
    them correct.

    ** The program's parts and where they are modelled

    The names below are those of the code; paths are under
    [faultcore_network/src/], except for the interceptor's.

    - [Prelude] (this file): machine integers as [Z] with the wrapping and
      saturating operations written out, record update, the state-passing monad
      [M], step relations with their invariants and runs, the hint databases.
    - [Threads]: calls of several threads over shared state: the discipline of a
      mutex, the turns of a thread and the end of its calls.  No code.
    - [F64]: the [f64] operations the code uses (conversion, product, quotient,
      minimum, ceiling, truncation) as exact rationals rounded to 53 bits, and
      the error of a rounding.
    - [Config] ([lib.rs]): the configuration record, its directional views, the
      target filter and the schedules ([apply_schedule]).
    - [ShmContract] ([shm_contract.rs]): the packed rows of the segment as field
      layouts with one verified codec, [is_valid], [into_network_config].
    - [RustStr]: the operations of Rust's [str] that names go through.
    - [ShmRuntime] ([shm_runtime.rs]): the segment as a byte memory with the
      address arithmetic of its four regions; the generation-locked writes, the
      stable reads, the table of descriptor owners.  libc and the environment
      are the class [Os].
    - [ConfigRace] ([shm_runtime.rs]): the accesses of overlapping writes and reads
      of one row as a step relation.
    - [OpenRace] ([shm_runtime.rs]): the accesses of overlapping openings of the
      segment as a step relation.
    - [Layers] ([layers/mod.rs], the clock of [socket_runtime.rs]): decisions, mutations, the
      [Layer] trait as a class, the seeded generator shared by the layers.  The
      crate [rand] and the clocks are the class [Host].
    - [Sockets] ([socket_runtime.rs]): the bytes of a socket address, the protocol
      and the peer of a descriptor, the endpoint of a call.  [getsockopt] and
      [getpeername] are the class [Sockets].
    - [R1SessionGuard] to [R7PayloadTransform] ([layers/]): one file a layer, its
      state, its [process] and its accessors, and an instance of [Layer].
    - [LossRace] ([layers/r2_chaos_base.rs]), [FlowRace]
      ([layers/r3_flow_control.rs]): the accesses of overlapping packets on the
      bursts and states of the loss, and on the token bucket, as step relations.
    - [Observability] ([observability.rs]): fault counters, latency histogram,
      percentiles, hits of target rules.
    - [ChaosEngine] ([chaos_engine.rs]): the layers composed, with the layer
      metrics and the observability counters; the evaluation entry points.
    - [Runtime] ([runtime.rs]): reorder queues, non-blocking delay, and the
      translation of decisions into what a hooked call does.
    - [RuntimeRace] ([runtime.rs]): the locks of [with_reorder_pending] as a step
      relation on the calls of several threads.
    - [SetPriority] ([setpriority_compat.rs]): the legacy command channel.
    - [Bridge] ([interceptor_bridge.rs]): observed names, target rules and the
      resolution of the configuration of a call.
    - [Tls] (the interceptor's [lib.rs]): the parser of TLS client hellos, every
      index and slice of which can panic in the model.
    - [RecordReplay] ([record_replay.rs]): the recording session and its replay.
      The JSON and gzip crates and the files are the class [Storage].
    - [Process]: the state of a hooked process (the statics of both crates, the
      thread's own state, the kernel), the bridge's entry points that ask the
      kernel for an endpoint, the global metrics of [lib.rs].  The original
      functions are the class [Libc].
    - [Symbols] (the interceptor's [lib.rs]): how the originals are found.  The
      dynamic linker is the class [Linker].
    - [Interceptor], [Hooks] (the interceptor's [lib.rs]): the helpers and the two
      handlers of sending and receiving; every exported symbol.
    - [HookSpecs], [HookReceive], [HookTransparent], [HookLifecycle], [Gates],
      [EndToEnd], [HostNames], [TlsNames]: theorems about whole hooked calls, no code.

    A hooked call goes through them in this order: [Hooks] takes the guard and
    looks for a server name with [Tls]; [Bridge] resolves a
    configuration from [ShmRuntime]'s rows (decoded by [ShmContract], scheduled
    by [Config]) for the endpoint of [Sockets]; [RecordReplay] wraps [ChaosEngine]'s
    evaluation of the layers;
    [Runtime] maps the decision to an error, a sleep or a queue operation, and
    [Interceptor] makes the original call, or does not.

    ** Conventions

    Code that changes state is a computation [M S A = S -> A * S] on the state of
    its component, and a component runs inside a larger one by [zoom].  A map
    behind a mutex is the map: calls on one component do not overlap in the model
    (each runs to its end), with these exceptions: [RuntimeRace] interleaves the
    calls on the reorder queues lock by lock, [LossRace] and [FlowRace] the packets
    on the loss and on the token bucket, [ConfigRace] the calls on a row and [OpenRace]
    the openings of the segment access by access, and all five relate them to the
    sequential definitions (the other maps are behind a mutex held for the whole
    operation); [Bridge.reload_loop] takes its readers as
    parameters that act on an arbitrary environment; [ShmRuntime.stable_read] takes the sequence of
    observations of a row that another process may be writing.  A [HashMap] is a
    [gmap]; where its iteration order matters it is a parameter
    ([Bridge.HashOrder]).  A panic is [None] in [Config.prefix_match] and
    [Config.matches_target], and a value in [Tls], and is shown to be out of reach
    of their callers.
    Floating point is not IEEE's whole format: the values in play are
    finite and positive, and only their rounding to 53 bits matters.

    Recursion is structural.  The loops the code bounds carry its own bounds: 3
    rounds of the reload loop ([RULESET_READ_RETRY_LIMIT]), 10 passes of a stable
    read (a list of observations, [read_stable_config] taking 10 of them).  The two
    loops of the TLS parser, which the lengths in its input drive, have one round
    per byte of input as fuel; [Tls.tls_parser_total] shows that they never run out,
    as each round moves forward.  The exchange loop of the token bucket is a step
    relation, and [FlowRace.packets_finish] bounds its rounds.

    Interfaces: [Layers.Layer] (what a stage promises to the pipeline),
    [Layers.StageLayer], [Layers.FdLocal] and [Layers.SeedDetermined], which the
    layers' files instantiate and from which [ChaosEngine] proves its theorems,
    [ChaosEngine.Lens] (where a layer sits in the engine),
    [ShmContract.Packed] with [PackedLaws] (what a row type promises to the
    memory), and the classes of code that is not the repository's, with their laws
    apart where something is relied on ([Host] and [HostLaws], [Os], [Storage] and
    [StorageLaws], [HashOrder] and [HashOrderLaw], [Sockets] and [SocketsLaws],
    [Linker] and [LinkerLaws], [Libc]), each with a concrete instance.

    ** What the theorems show

    - The segment: the rows tile it and are disjoint; an update is seen by the next
      lookup of its thread and by no other; a loaded configuration is within the
      documented limits, for either direction; the owner table is a
      finite map under assignment, cloning and clearing; the hash of thread ids
      is injective below 2^16.  Reads are linearizable while one write at a time
      is in progress, and two overlapping writes can produce a row neither wrote.
      A process maps the segment once, and clears no owner of a segment in use.
    - Resolution of a call: which row, which rule and which schedule, end to end
      on a quiet segment; consistency of rule set and row against a concurrent
      writer; the exact meaning and order of target rules; freshness, bound and
      attribution of observed host names; endpoints are well typed.
    - Schedules never amplify a fault; duty cycles and ramps do what they say;
      CIDR filters compare exactly the leading bits.
    - The layers: session budgets are never exceeded, a burst drops exactly
      its length, the Gilbert-Elliott chain steps as configured, the token bucket
      admits and delays as its formula says, half-open connections fail
      after the recorded bytes, DNS faults have their precedence, mutations do what
      their kind says and only when their gates are open, and jitter and
      duplicates are bounded.  Packets of
      several threads are decided as one by one, and bursts are exact, where no two on
      one descriptor can start one; the chain of a correlated loss never loses a step.  Over any interleaving of packets whose payments do not
      fall between a refill's load and store, what is let through is within what the
      rate earns in the elapsed time; the exchange loop is lock-free.
    - The engine: the pipeline's answer is the first terminal decision of an
      applicable stage or else the saturating sum of the delays; counters
      agree with decisions; faults of one descriptor do not depend on another
      one's history; a seeded run is reproducible on any host.
    - The interceptor's runtime: reordering loses and permutes nothing, every
      fault surfaces to the caller; calls on a queue that do not overlap are
      atomic and finish, and overlapping ones can lose a datagram; recorded runs
      replay, and a replay that goes astray fails fast.
    - TLS: the parser answers on every input, without a panic, and finds the name
      a client put in its hello.
    - The hooks: sending hooks account for every datagram and every original call,
      on every path ([HookSpecs]); receiving hooks likewise, and never write past
      the caller's buffer ([HookReceive]); without a segment, and inside another
      hook, a hooked function is the original ([HookTransparent]); descriptors are
      bound, cloned and forgotten as the calls on them say, against an abstract
      owner map ([HookLifecycle]); total loss ends any call that a configuration is
      looked up for before the original, and a call that none applies to is the
      original ([Gates]).
    - The originals: the lookup ends the process exactly when libc lacks one, never
      gives a hook its own address, and leaves no library open that it does not use
      ([Symbols]).
    - End to end: a command given through [setpriority] decides the next call of the
      thread, whichever hook it goes through, and a rule for a server name decides the
      very call that carries the hello ([EndToEnd]); a rule for a host name decides the
      connections to, and the traffic with, the address that [getaddrinfo] answered
      for it ([HostNames]); a name given to the TLS library for a handle decides the
      calls on the descriptor of that handle ([TlsNames]).
    - Defects: [ChaosEngine.reused_descriptor_burst], [ConfigRace.stable_reads_linearize],
      [FlowRace.limit_enforced], [HookLifecycle.emptied_payload_sent_whole],
      [HookLifecycle.mutated_receive_miscounted], [R3FlowControl.refill_starvation],
      [R4TimingVariation.jitter_bounds], [Runtime.nonblocking_delay_then_sleeps],
      [RuntimeRace.overlapping_calls_lose] and [SetPriority.setpriority_channel] state
      behaviour that the code has and probably does not mean; and a [recvfrom] that
      reorders passes the address length its first call wrote to its second
      ([HookReceive.receives_conserve] follows the code).

    ** What is not modelled, and why

    Not modelled: the Python package, the build files, the tests and the documents
    (another language, or no implementation code), and the crates the code depends
    on, which are parameters.

    Limits of the model.  [Symbols] is not composed with the hooks: to them, what the
    originals do and which exist are the parameters [original] and [has_ssl_ctrl] to
    [has_setpriority] of [Libc], and a process that ends for want of one runs no
    hook.  Packets of several threads are interleaved access by access within one
    layer ([LossRace], [FlowRace]) and not through the whole pipeline, which
    [ChaosEngine] runs one packet at a time.  A packet with correlated loss draws
    twice, with the draws of other packets between them: [LossRace.chain_steps_atomic]
    shows that the chain of a descriptor loses no step, but such packets are not
    related to a sequence of whole packets. *)

From Stdlib Require Export ZArith Lia.
From stdpp Require Export base tactics numbers list gmap strings.

#[export] Set Default Goal Selector "!".
#[global] Open Scope Z_scope.

(** ** Machine integers

    A Rust [u64] (or [usize] on the 64-bit targets the crate supports), [u32]
    or [u8] is a [Z]; the operations that wrap or saturate say so. *)

Definition u64_max : Z := 2 ^ 64 - 1.
Definition u32_max : Z := 2 ^ 32 - 1.

Definition is_u64 (z : Z) : Prop := 0 ≤ z < 2 ^ 64.
Definition is_u32 (z : Z) : Prop := 0 ≤ z < 2 ^ 32.
Definition is_byte (z : Z) : Prop := 0 ≤ z < 256.

(** [u64::wrapping_add], [u64::wrapping_mul] and [AtomicU64::fetch_add]. *)
Definition wrapping_add (a b : Z) : Z := (a + b) mod 2 ^ 64.
Definition wrapping_mul (a b : Z) : Z := (a * b) mod 2 ^ 64.

(** [u64::saturating_add], [saturating_sub], [saturating_mul]. *)
Definition saturating_add (a b : Z) : Z := Z.min (a + b) u64_max.
Definition saturating_sub (a b : Z) : Z := Z.max (a - b) 0.
Definition saturating_mul (a b : Z) : Z := Z.min (a * b) u64_max.

(** [as u64] from a signed 32-bit integer: two's complement. *)
Definition as_u64 (z : Z) : Z := z mod 2 ^ 64.

#[export] Instance is_u64_dec z : Decision (is_u64 z).
Proof. unfold is_u64. apply _. Defined.
#[export] Instance is_u32_dec z : Decision (is_u32 z).
Proof. unfold is_u32. apply _. Defined.
#[export] Instance is_byte_dec z : Decision (is_byte z).
Proof. unfold is_byte. apply _. Defined.

Create HintDb mach.
Create Rewrite HintDb runs.

(** Unfolds the integer layer and calls [lia]. *)
Ltac mach :=
  unfold wrapping_add, wrapping_mul, saturating_add, saturating_sub,
    saturating_mul, as_u64, is_u64, is_u32, is_byte, u64_max, u32_max in *; lia.

Lemma wrapping_add_u64 a b : is_u64 (wrapping_add a b).
Proof. unfold wrapping_add, is_u64. apply Z.mod_pos_bound. lia. Qed.

Lemma wrapping_mul_u64 a b : is_u64 (wrapping_mul a b).
Proof. unfold wrapping_mul, is_u64. apply Z.mod_pos_bound. lia. Qed.

Lemma wrapping_add_small a b : 0 ≤ a + b < 2 ^ 64 → wrapping_add a b = a + b.
Proof. intros. unfold wrapping_add. by apply Z.mod_small. Qed.

Lemma saturating_add_u64 a b : is_u64 a → is_u64 b → is_u64 (saturating_add a b).
Proof. mach. Qed.

Lemma saturating_add_0_l a : is_u64 a → saturating_add 0 a = a.
Proof. mach. Qed.

Lemma saturating_add_assoc a b c :
  is_u64 a → is_u64 b → is_u64 c →
  saturating_add (saturating_add a b) c = saturating_add a (saturating_add b c).
Proof. mach. Qed.

Lemma saturating_add_le a b : 0 ≤ b → a ≤ u64_max → a ≤ saturating_add a b.
Proof. mach. Qed.

Lemma saturating_mul_u64 a b : is_u64 a → is_u64 b → is_u64 (saturating_mul a b).
Proof. unfold is_u64, saturating_mul, u64_max. nia. Qed.

#[export] Hint Resolve wrapping_add_u64 wrapping_mul_u64 saturating_add_u64
  saturating_mul_u64 : mach.

(** ** Record update

    [r <| f := v |>] and [r <| f ::= g |>] for any record that declares its
    eta expansion: the setter of a projection is the eta expansion with that
    projection abstracted, so reading another field of an updated record
    computes without destructing the record. *)

Class Eta (R : Type) : Type := eta_expand : R → R.

Class Update {R T : Type} (proj : R → T) : Type := update : (T → T) → R → R.

Ltac derive_update :=
  match goal with
  | |- @Update ?R ?T ?proj =>
      let inst := constr:(_ : Eta R) in
      let body := eval cbv delta [eta_expand] beta in inst in
      let body := eval hnf in body in
      match (eval pattern proj in body) with
      | ?abs _ => let body' := eval cbv beta in
                    (fun (g : T → T) => abs (fun r : R => g (proj r))) in
                  exact body'
      end
  end.

#[export] Hint Extern 0 (Update _) => derive_update : typeclass_instances.

Declare Scope rec_scope.
Delimit Scope rec_scope with rec.
#[global] Open Scope rec_scope.
Notation "r <| f := v |>" := (update (proj:=f) (λ _, v) r)
  (at level 1, left associativity, f at level 9) : rec_scope.
Notation "r <| f ::= g |>" := (update (proj:=f) g r)
  (at level 1, left associativity, f at level 9) : rec_scope.

(** Computes projections of updated records. *)
Ltac rec_simpl := cbn [update] in *.

(** ** State passing

    [M S A] is a computation of type [A] on a state [S]; with stdpp's [x ← c; k]. *)

Definition M (S A : Type) : Type := S → A * S.

#[export] Instance M_ret {S} : MRet (M S) := λ A a s, (a, s).
#[export] Instance M_bind {S} : MBind (M S) := λ A B f c s,
  let r := c s in f r.1 r.2.

Definition get {S} : M S S := λ s, (s, s).
Definition gets {S A} (f : S → A) : M S A := λ s, (f s, s).
Definition modify {S} (f : S → S) : M S unit := λ s, (tt, f s).

(** Runs a computation on one component of a larger state. *)
Definition zoom {S T A} (get : S → T) (put : T → S → S) (c : M T A) : M S A :=
  λ s, let r := c (get s) in (r.1, put r.2 s).

Definition run {S A} (c : M S A) (s : S) : A * S := c s.

Lemma bind_run {S A B} (c : M S A) (f : A → M S B) s :
  (x ← c; f x) s = f (c s).1 (c s).2.
Proof. done. Qed.

Lemma ret_run {S A} (a : A) (s : S) : (mret a : M S A) s = (a, s).
Proof. done. Qed.

Lemma zoom_run {S T A} (g : S → T) p (c : M T A) s :
  zoom g p c s = ((c (g s)).1, p (c (g s)).2 s).
Proof. done. Qed.

Lemma get_run {S} (s : S) : get s = (s, s).
Proof. done. Qed.

Lemma gets_run {S A} (f : S → A) s : gets f s = (f s, s).
Proof. done. Qed.

Lemma modify_run {S} (f : S → S) s : modify f s = (tt, f s).
Proof. done. Qed.

#[export] Hint Rewrite @bind_run @ret_run @zoom_run @get_run @gets_run @modify_run : runs.

(** Runs the primitive steps of a computation. *)
Ltac run_simpl := repeat (autorewrite with runs; cbn beta; cbn [fst snd]).

(** ** Step relations *)

Section star.
Context {S : Type} (R : S → S → Prop).

Inductive star : S → S → Prop :=
| star_refl s : star s s
| star_cons s1 s2 s3 : R s1 s2 → star s2 s3 → star s1 s3.

(** An invariant of every step is an invariant of every run. *)
Lemma star_invariant (I : S → Prop) :
  (∀ s s', I s → R s s' → I s') → ∀ s s', star s s' → I s → I s'.
Proof. intros Hstep s s' Hstar. induction Hstar; eauto. Qed.
End star.

(** A machine that answers an action with the next state, if the action is possible,
    over a sequence of actions. *)
Section machine.
Context {A S : Type} (act : A → S → option S).

Fixpoint run_actions (l : list A) (s : S) : option S :=
  match l with [] => Some s | a :: l => s' ← act a s; run_actions l s' end.

Lemma run_cons a s s1 l s' :
  act a s = Some s1 → run_actions l s1 = Some s' → run_actions (a :: l) s = Some s'.
Proof. intros Ha Hl. cbn [run_actions]. by rewrite Ha. Qed.

Lemma run_app l1 l2 s s1 :
  run_actions l1 s = Some s1 → run_actions (l1 ++ l2) s = run_actions l2 s1.
Proof.
  revert s; induction l1 as [|a l1 IH]; intros s; cbn; [by intros [= ->]|].
  destruct (act a s); [apply IH|done].
Qed.

Lemma run_trans l1 l2 s s1 s' :
  run_actions l1 s = Some s1 → run_actions l2 s1 = Some s' → run_actions (l1 ++ l2) s = Some s'.
Proof. intros H1 H2. by rewrite (run_app _ _ _ _ H1). Qed.

Lemma run_star l s s' : run_actions l s = Some s' → star (λ s s', ∃ a, act a s = Some s') s s'.
Proof.
  revert s; induction l as [|a l IH]; intros s; cbn [run_actions]; [intros [= <-]; constructor|].
  destruct (act a s) as [s1|] eqn:Ha; [|done]. cbn. intros Hl.
  econstructor; [by exists a|by apply IH].
Qed.
End machine.

(** ** Lists *)

Lemma Forall_seq_lookup {A} (P : nat → A → Prop) (l : list A) :
  (∀ i x, l !! i = Some x → P i x) ↔ (∀ i, (i < length l)%nat → ∃ x, l !! i = Some x ∧ P i x).
Proof.
  split.
  - intros H i Hi. destruct (lookup_lt_is_Some_2 l i Hi) as [x Hx]. eauto.
  - intros H i x Hx. destruct (H i) as (y & Hy & HP); [by eapply lookup_lt_Some|]. congruence.
Qed.

Lemma Forall_impl2 {A} (P Q R : A → Prop) l :
  Forall P l → Forall Q l → (∀ x, P x → Q x → R x) → Forall R l.
Proof. rewrite !Forall_forall. eauto. Qed.

(** Sum of a list of integers. *)
Definition zsum (l : list Z) : Z := foldr Z.add 0 l.

Lemma zsum_app l k : zsum (l ++ k) = zsum l + zsum k.
Proof. induction l as [|x l IH]; simpl; [lia|]. unfold zsum in *. simpl. lia. Qed.

Lemma zsum_insert (l : list Z) i x y :
  l !! i = Some x → zsum (<[i := y]> l) = zsum l - x + y.
Proof.
  revert i; induction l as [|z l IH]; intros [|i] H; simplify_eq/=; [unfold zsum; simpl; lia|].
  specialize (IH i H). unfold zsum in *. simpl. lia.
Qed.

Lemma zsum_perm l k : l ≡ₚ k → zsum l = zsum k.
Proof. unfold zsum. induction 1; simpl; lia. Qed.

#[export] Instance zsum_Proper : Proper (Permutation ==> eq) zsum.
Proof. intros l k. apply zsum_perm. Qed.

Lemma zsum_nonneg l : Forall (λ z, 0 ≤ z) l → 0 ≤ zsum l.
Proof. induction 1 as [|z l Hz _ IH]; unfold zsum in *; cbn in *; lia. Qed.
