(* ===== verification/Threads.v ===== *)
(** * Threads over shared state

    What the step relations of the development share: calls of several threads, each
    at some point of its code, a mutex that some of these points hold, and the turns
    of a thread in a run.  No code of the program. *)

From S2P Require Import Prelude.

Open Scope nat_scope.

(** ** A mutex *)

Section mutex.
Context {C : Type} (holds : C → bool).
Implicit Types (calls : gmap nat C) (lock : option nat) (t : nat) (c : C).

(** The mutex and the calls agree: its owner is the one call that is at a point
    that holds it. *)
Definition mutex_ok calls lock : Prop :=
  (∀ t c, calls !! t = Some c → holds c = true → lock = Some t) ∧
  (∀ t, lock = Some t → ∃ c, calls !! t = Some c ∧ holds c = true).

(** What a call does to the mutex from a point to the next: it takes it or keeps it,
    or gives it back, or leaves it alone. *)
Definition passes (held held' : bool) t lock lock' : Prop :=
  if held' then lock' = Some t ∧ (lock = None ∨ lock = Some t)
  else if held then lock' = None else lock' = lock.

Lemma mutex_ok_empty : mutex_ok ∅ None.
Proof. split; [intros t c; by rewrite lookup_empty|done]. Qed.

Lemma mutex_ok_start calls lock t c :
  mutex_ok calls lock → calls !! t = None → holds c = false → mutex_ok (<[t := c]> calls) lock.
Proof.
  intros [H1 H2] Ht Hc. split.
  - intros t' c'. rewrite lookup_insert_Some. intros [[_ <-]|[_ Ht']]; [congruence|by apply H1].
  - intros t' (c' & Ht' & Hh)%H2. exists c'. split; [|done]. rewrite lookup_insert_ne; [done|congruence].
Qed.

Lemma mutex_ok_next calls lock lock' t c c' :
  mutex_ok calls lock → calls !! t = Some c → passes (holds c) (holds c') t lock lock' →
  mutex_ok (<[t := c']> calls) lock'.
Proof.
  intros [H1 H2] Ht Hp. unfold passes in Hp. split.
  - intros t' c1. rewrite lookup_insert_Some. intros [[<- <-]|[Hne Ht']] Hh.
    + rewrite Hh in Hp. by destruct Hp.
    + pose proof (H1 _ _ Ht' Hh). destruct (holds c').
      * destruct Hp as [_ [|]]; congruence.
      * destruct (holds c) eqn:Hc; [|congruence]. pose proof (H1 _ _ Ht Hc). congruence.
  - intros t' Hl. destruct (decide (t' = t)) as [->|Hne].
    + exists c'. rewrite lookup_insert_eq. split; [done|]. destruct (holds c'); [done|].
      destruct (holds c) eqn:Hc; [congruence|]. destruct (H2 t) as (c1 & ? & ?); congruence.
    + rewrite lookup_insert_ne by done. apply H2.
      destruct (holds c'); [destruct Hp; congruence|]. destruct (holds c); congruence.
Qed.

Lemma mutex_ok_end calls lock lock' t c :
  mutex_ok calls lock → calls !! t = Some c → passes (holds c) false t lock lock' →
  mutex_ok (delete t calls) lock'.
Proof.
  intros [H1 H2] Ht Hp. unfold passes in Hp. split.
  - intros t' c'. rewrite lookup_delete_Some. intros [Hne Ht'] Hh. pose proof (H1 _ _ Ht' Hh).
    destruct (holds c) eqn:Hc; [|congruence]. pose proof (H1 _ _ Ht Hc). congruence.
  - intros t' Hl. destruct (holds c) eqn:Hc; [congruence|]. subst lock'.
    destruct (H2 _ Hl) as (c' & Ht' & Hh). exists c'. rewrite lookup_delete_ne; [done|congruence].
Qed.

(** No other call holds a mutex that is free or one's own. *)
Lemma mutex_ok_others calls lock t t' c :
  mutex_ok calls lock → lock = None ∨ lock = Some t → t' ≠ t → calls !! t' = Some c → holds c = false.
Proof.
  intros [H1 _] Hl Hne Ht'. destruct (holds c) eqn:Hh; [|done].
  pose proof (H1 _ _ Ht' Hh). destruct Hl; congruence.
Qed.

(** There is no deadlock: a call that cannot go on waits for one that can. *)
Lemma mutex_ok_waits (waits : C → bool) (can : nat → Prop) calls lock t c :
  mutex_ok calls lock → (∀ c, holds c = true → waits c = false) →
  (∀ t c, calls !! t = Some c → (waits c = true → lock = None) → can t) →
  calls !! t = Some c →
  can t ∨ ∃ t', t' ≠ t ∧ lock = Some t' ∧ can t'.
Proof.
  intros [H1 H2] Hw Hcan Ht. destruct lock as [t'|]; [|left; by eapply Hcan].
  destruct (waits c) eqn:Hc; [|left; eapply Hcan; [done|congruence]].
  destruct (H2 t' eq_refl) as (c' & Ht' & Hh). right. exists t'. split_and!; [|done|].
  - intros ->. pose proof (Hw _ Hh). congruence.
  - eapply Hcan; [exact Ht'|]. rewrite Hw by done. done.
Qed.
End mutex.

(** ** The turns of a thread *)

Section turns.
Context {A S : Type} (act : A → S → option S) (turn : A → bool).

Fixpoint turns (l : list A) : nat :=
  match l with [] => 0 | a :: l => (if turn a then 1 else 0) + turns l end.

(** A call comes to its end.  [left] is how many turns it still needs, if it is
    not over; an action can add to them, by no more than it adds to [work]. *)
Context (left : S → option nat) (work : S → nat) (ok : A → Prop).

Lemma turns_end :
  (∀ s n, left s = Some n → 0 < n) →
  (∀ a s s', act a s = Some s' → work s ≤ work s') →
  (∀ a s s' n, ok a → left s = Some n → act a s = Some s' →
     match left s' with
     | None => turn a = true
     | Some n' => (if turn a then 1 else 0) + n' + work s ≤ n + work s'
     end) →
  ∀ l s s' n, Forall ok l → left s = Some n → run_actions act l s = Some s' →
    n + work s' ≤ turns l + work s →
    ∃ l1 l2 s1, l = l1 ++ l2 ∧ run_actions act l1 s = Some s1 ∧ left s1 = None ∧
      turns l1 + work s ≤ n + work s1.
Proof.
  intros Hpos Hwork Hact l. induction l as [|a l IH]; intros s s' n Hok Hs Hrun Hn.
  { cbn in Hrun. injection Hrun as <-. pose proof (Hpos _ _ Hs). cbn in Hn. lia. }
  apply Forall_cons in Hok as [Ha Hok]. cbn [run_actions] in Hrun.
  destruct (act a s) as [s1|] eqn:Hs1; [|done]. cbn [mbind option_bind] in Hrun.
  pose proof (Hact _ _ _ _ Ha Hs Hs1) as Hstep. pose proof (Hwork _ _ _ Hs1) as Hw.
  destruct (left s1) as [n1|] eqn:Hl.
  - destruct (IH s1 s' n1 Hok Hl Hrun) as (l1 & l2 & s2 & -> & Hr & He & Ht); [cbn [turns] in Hn; lia|].
    exists (a :: l1), l2, s2. split_and!; [done|by eapply run_cons|done|cbn [turns]; lia].
  - exists [a], l, s1. split_and!; [done|cbn [run_actions]; by rewrite Hs1|done|].
    cbn [turns]. rewrite Hstep. pose proof (Hpos _ _ Hs). lia.
Qed.
End turns.

(** ** Runs whose actions are allowed *)

Section allowed.
Context {A S : Type} (act : A → S → option S) (allowed : A → S → Prop) (check : A → S → bool).

Fixpoint run_checked (l : list A) (s : S) : bool :=
  match l with
  | [] => true
  | a :: l => check a s && match act a s with Some s' => run_checked l s' | None => false end
  end.

Lemma run_checked_star l s s' :
  (∀ a s, check a s = true → allowed a s) → run_checked l s = true → run_actions act l s = Some s' →
  star (λ s s', ∃ a, act a s = Some s' ∧ allowed a s) s s'.
Proof.
  intros Hok. revert s; induction l as [|a l IH]; intros s; cbn; [intros _ [= <-]; constructor|].
  destruct (act a s) as [s1|] eqn:Ha; [|by rewrite andb_false_r].
  intros [Hc Hl]%andb_true_iff Hrun. econstructor; [|by apply IH]. exists a. auto.
Qed.
End allowed.
