(* ===== verification/F64.v ===== *)
(** * Non-negative IEEE doubles

    Every [f64] of the code is finite and non-negative: it comes from a [u64]
    or from a [Duration], by additions, products, quotients and minima, and its
    magnitude stays far from the overflow and underflow thresholds.  On those
    values an IEEE operation is the exact operation followed by one rounding to
    53 significant bits, ties to even, which is what this file computes on
    rationals. *)

From Stdlib Require Import QArith Qround Qpower Qabs Lqa.
From S2P Require Import Prelude.

Open Scope Z_scope.

Definition f64 : Type := Q.

Definition pow2 (e : Z) : Q := (2 ^ e)%Q.

(** The exponent of the binade of [q]: [2^e ≤ q < 2^(e+1)]. *)
Definition binade (q : Q) : Z :=
  let l := Z.log2 (Qnum q) - Z.log2 (QDen q) in
  if Qle_bool (pow2 l) q then l else l - 1.

Definition ulp (q : Q) : Q := pow2 (binade q - 52).

(** Round to the nearest integer, ties to even. *)
Definition rne (q : Q) : Z :=
  let f := Qfloor q in
  match (Qcompare (q - inject_Z f) (1 # 2))%Q with
  | Lt => f
  | Gt => f + 1
  | Eq => if Z.even f then f else f + 1
  end.

Definition round53 (q : Q) : f64 :=
  if Qle_bool q 0 then 0%Q else Qred (inject_Z (rne (q / ulp q)) * ulp q)%Q.

(** The operations the code uses. *)
Definition f64_of_u64 (z : Z) : f64 := round53 (inject_Z z).
Definition f64_add (a b : f64) : f64 := round53 (a + b)%Q.
Definition f64_mul (a b : f64) : f64 := round53 (a * b)%Q.
Definition f64_div (a b : f64) : f64 := round53 (a / b)%Q.
Definition f64_min (a b : f64) : f64 := if Qle_bool a b then a else b.
(** [f64::round]: to the nearest integer, halves away from zero. *)
Definition f64_round (a : f64) : Z := Qfloor (a + (1 # 2))%Q.
(** [as u64]: truncation, saturating. *)
Definition f64_trunc_u64 (a : f64) : Z := Z.min (Qfloor a) u64_max.
(** [Duration::as_secs_f64] of a duration in nanoseconds. *)
Definition as_secs_f64 (ns : Z) : f64 :=
  f64_add (f64_of_u64 (ns / 1000000000))
    (f64_div (f64_of_u64 (ns mod 1000000000)) (f64_of_u64 1000000000)).

(** ** Powers of two *)

Lemma pow2_pos e : (0 < pow2 e)%Q.
Proof. unfold pow2. by apply Qpower_0_lt. Qed.

Lemma pow2_plus a b : (pow2 (a + b) == pow2 a * pow2 b)%Q.
Proof. unfold pow2. by apply Qpower_plus. Qed.

Lemma pow2_Z e : 0 ≤ e → (pow2 e == inject_Z (2 ^ e))%Q.
Proof. intros. unfold pow2. by rewrite Zpower_Qpower. Qed.

Lemma pow2_le a b : a ≤ b → (pow2 a <= pow2 b)%Q.
Proof. intros. unfold pow2. apply Qpower_le_compat_l; [done|]. compute; discriminate. Qed.

Lemma pow2_double e : (pow2 (e + 1) == 2 * pow2 e)%Q.
Proof. rewrite pow2_plus. unfold pow2 at 2. simpl. lra. Qed.

Lemma pow2_le_inv a b : (pow2 a < pow2 b)%Q → a < b.
Proof.
  intros H. destruct (Z.lt_ge_cases a b) as [|Hle]; [done|].
  pose proof (pow2_le _ _ Hle). lra.
Qed.

Lemma ulp_pos q : (0 < ulp q)%Q.
Proof. apply pow2_pos. Qed.

(** ** The binade of a positive rational *)

Lemma Qlt_pow2_log n : 0 < n → (pow2 (Z.log2 n) <= inject_Z n)%Q ∧ (inject_Z n < pow2 (Z.log2 n + 1))%Q.
Proof.
  intros Hn. destruct (Z.log2_spec n Hn) as [H1 H2].
  pose proof (Z.log2_nonneg n).
  split.
  - rewrite pow2_Z by lia. by rewrite <- Zle_Qle.
  - rewrite pow2_Z by lia. rewrite <- Zlt_Qlt. by rewrite Z.add_1_r.
Qed.

Lemma binade_bounds n d :
  0 < n → (pow2 (Z.log2 n - Z.log2 (Zpos d) - 1) < n # d)%Q ∧
          ((n # d) < pow2 (Z.log2 n - Z.log2 (Zpos d) + 1))%Q.
Proof.
  intros Hn.
  destruct (Qlt_pow2_log n Hn) as [N1 N2].
  destruct (Qlt_pow2_log (Zpos d) ltac:(lia)) as [D1 D2].
  set (a := Z.log2 n) in *. set (b := Z.log2 (Zpos d)) in *.
  assert (HQ : ((n # d) == inject_Z n / inject_Z (Zpos d))%Q) by apply Qmake_Qdiv.
  assert (Hd : (0 < inject_Z (Zpos d))%Q) by done.
  rewrite HQ. split.
  - apply Qlt_shift_div_l; [done|].
    apply Qlt_le_trans with (pow2 a); [|done].
    replace a with ((a - b - 1) + (b + 1)) at 2 by lia. rewrite pow2_plus.
    apply Qmult_lt_l; [apply pow2_pos|done].
  - apply Qlt_shift_div_r; [done|].
    apply Qlt_le_trans with (pow2 (a + 1)); [done|].
    replace (a + 1) with ((a - b + 1) + b) by lia. rewrite pow2_plus.
    apply Qmult_le_l; [apply pow2_pos|done].
Qed.

Lemma binade_spec q : (0 < q)%Q → (pow2 (binade q) <= q)%Q ∧ (q < pow2 (binade q + 1))%Q.
Proof.
  destruct q as [n d]. intros Hq.
  assert (Hn : 0 < n) by (unfold Qlt in Hq; simpl in Hq; lia).
  destruct (binade_bounds n d Hn) as [B1 B2].
  unfold binade; cbn [Qnum Qden].
  destruct (Qle_bool (pow2 (Z.log2 n - Z.log2 (Zpos d))) (n # d)) eqn:E.
  - apply Qle_bool_iff in E. by split.
  - split; [by apply Qlt_le_weak|]. rewrite Z.sub_add.
    apply Qnot_le_lt. intros H. apply Qle_bool_iff in H. congruence.
Qed.

Lemma binade_mono q r : (0 < q)%Q → (q <= r)%Q → binade q ≤ binade r.
Proof.
  intros Hq Hqr. assert (Hr : (0 < r)%Q) by lra.
  destruct (binade_spec q Hq) as [Q1 _]. destruct (binade_spec r Hr) as [_ R2].
  enough (binade q < binade r + 1) by lia. apply pow2_le_inv. lra.
Qed.

(** ** Rounding to an integer *)

Lemma rne_floor q : Qfloor q ≤ rne q ≤ Qfloor q + 1.
Proof. unfold rne. repeat case_match; lia. Qed.

Lemma Qfloor_bounds q : (inject_Z (Qfloor q) <= q)%Q ∧ (q < inject_Z (Qfloor q) + 1)%Q.
Proof.
  split; [apply Qfloor_le|]. pose proof (Qlt_floor q) as H.
  rewrite inject_Z_plus in H. done.
Qed.

Lemma rne_mono q r : (q <= r)%Q → rne q ≤ rne r.
Proof.
  intros H. pose proof (Qfloor_resp_le _ _ H) as Hf.
  destruct (Z.eq_dec (Qfloor q) (Qfloor r)) as [Heq|].
  2:{ pose proof (rne_floor q). pose proof (rne_floor r). lia. }
  unfold rne. rewrite Heq.
  destruct (Qcompare_spec (q - inject_Z (Qfloor r)) (1 # 2));
    destruct (Qcompare_spec (r - inject_Z (Qfloor r)) (1 # 2));
    try (exfalso; lra); try (destruct (Z.even (Qfloor r))); lia.
Qed.

Lemma rne_Z z : rne (inject_Z z) = z.
Proof.
  unfold rne. rewrite Qfloor_Z.
  destruct (Qcompare_spec (inject_Z z - inject_Z z) (1 # 2)); [exfalso; lra|done|exfalso; lra].
Qed.

Lemma rne_Qeq q r : (q == r)%Q → rne q = rne r.
Proof. intros H. pose proof (rne_mono q r). pose proof (rne_mono r q). lra || idtac.
  assert (q <= r)%Q by lra. assert (r <= q)%Q by lra. intuition lia. Qed.

(** ** Rounding to 53 bits *)

Lemma round53_nonpos q : (q <= 0)%Q → round53 q = 0%Q.
Proof. intros H. unfold round53. by apply Qle_bool_iff in H as ->. Qed.

Lemma round53_pos q :
  (0 < q)%Q → (round53 q == inject_Z (rne (q / ulp q)) * ulp q)%Q.
Proof.
  intros H. unfold round53. destruct (Qle_bool q 0) eqn:E.
  - apply Qle_bool_iff in E. lra.
  - apply Qred_correct.
Qed.

Lemma quotient_bounds q : (0 < q)%Q →
  (inject_Z (2 ^ 52) <= q / ulp q)%Q ∧ (q / ulp q <= inject_Z (2 ^ 53))%Q.
Proof.
  intros Hq. destruct (binade_spec q Hq) as [H1 H2]. unfold ulp.
  split.
  - apply Qle_shift_div_l; [apply pow2_pos|]. rewrite <- pow2_Z, <- pow2_plus by lia.
    by replace (52 + (binade q - 52)) with (binade q) by lia.
  - apply Qle_shift_div_r; [apply pow2_pos|]. rewrite <- pow2_Z, <- pow2_plus by lia.
    replace (53 + (binade q - 52)) with (binade q + 1) by lia. lra.
Qed.

Lemma round53_binade q : (0 < q)%Q →
  (pow2 (binade q) <= round53 q)%Q ∧ (round53 q <= pow2 (binade q + 1))%Q.
Proof.
  intros Hq. destruct (quotient_bounds q Hq) as [H1 H2].
  apply rne_mono in H1. apply rne_mono in H2. rewrite rne_Z in H1, H2.
  rewrite round53_pos by done.
  rewrite Zle_Qle in H1. rewrite Zle_Qle in H2.
  rewrite <- pow2_Z in H1 by lia. rewrite <- pow2_Z in H2 by lia.
  unfold ulp in *. split.
  - replace (binade q) with (52 + (binade q - 52)) at 1 by lia. rewrite pow2_plus.
    apply Qmult_le_compat_r; [done|]. apply Qlt_le_weak, pow2_pos.
  - replace (binade q + 1) with (53 + (binade q - 52)) by lia. rewrite pow2_plus.
    apply Qmult_le_compat_r; [done|]. apply Qlt_le_weak, pow2_pos.
Qed.

Lemma round53_nonneg q : (0 <= round53 q)%Q.
Proof.
  destruct (Qlt_le_dec 0 q) as [H|H].
  - destruct (round53_binade q H) as [H1 _]. pose proof (pow2_pos (binade q)). lra.
  - rewrite round53_nonpos by done. lra.
Qed.

(** Rounding is monotone: the grid of each binade ends on the next one. *)
Lemma round53_mono q r : (q <= r)%Q → (round53 q <= round53 r)%Q.
Proof.
  intros H. destruct (Qlt_le_dec 0 q) as [Hq|Hq].
  2:{ rewrite (round53_nonpos q) by done. apply round53_nonneg. }
  assert (Hr : (0 < r)%Q) by lra.
  pose proof (binade_mono q r Hq H) as Hb.
  destruct (Z.eq_dec (binade q) (binade r)) as [Heq|Hne].
  - rewrite !round53_pos by done. unfold ulp. rewrite Heq.
    apply Qmult_le_compat_r; [|apply Qlt_le_weak, pow2_pos].
    rewrite <- Zle_Qle. apply rne_mono.
    apply Qmult_le_compat_r; [done|]. apply Qlt_le_weak, Qinv_lt_0_compat, pow2_pos.
  - destruct (round53_binade q Hq) as [_ H2]. destruct (round53_binade r Hr) as [H3 _].
    pose proof (pow2_le (binade q + 1) (binade r) ltac:(lia)). lra.
Qed.

Lemma round53_Qeq q r : (q == r)%Q → (round53 q == round53 r)%Q.
Proof. intros H. apply Qle_antisym; apply round53_mono; lra. Qed.

(** Integers below [2^53] are exact. *)
Lemma f64_of_u64_exact z : 0 ≤ z < 2 ^ 53 → (f64_of_u64 z == inject_Z z)%Q.
Proof.
  intros Hz. unfold f64_of_u64. destruct (Z.eq_dec z 0) as [->|Hnz]; [done|].
  assert (Hq : (0 < inject_Z z)%Q) by (rewrite <- (Zlt_Qlt 0); lia).
  destruct (binade_spec _ Hq) as [B1 _].
  assert (Hb : binade (inject_Z z) < 53).
  { apply pow2_le_inv. rewrite (pow2_Z 53) by lia.
    eapply Qle_lt_trans; [done|]. rewrite <- Zlt_Qlt. lia. }
  rewrite round53_pos by done. unfold ulp.
  set (b := binade (inject_Z z)) in *.
  assert (E : (inject_Z z / pow2 (b - 52) == inject_Z (z * 2 ^ (52 - b)))%Q).
  { rewrite inject_Z_mult, <- pow2_Z by lia.
    apply (Qmult_inj_r _ _ (pow2 (b - 52))); [pose proof (pow2_pos (b - 52)); lra|].
    rewrite Qmult_comm, Qmult_div_r by (pose proof (pow2_pos (b - 52)); lra).
    rewrite <- Qmult_assoc, <- pow2_plus.
    replace (52 - b + (b - 52)) with 0 by lia. unfold pow2. simpl. lra. }
  rewrite (rne_Qeq _ _ E), rne_Z, <- E.
  field. pose proof (pow2_pos (b - 52)); lra.
Qed.

Lemma f64_of_u64_mono a b : a ≤ b → (f64_of_u64 a <= f64_of_u64 b)%Q.
Proof. intros. apply round53_mono. by rewrite <- Zle_Qle. Qed.

Lemma f64_of_u64_nonneg a : (0 <= f64_of_u64 a)%Q.
Proof. apply round53_nonneg. Qed.

Lemma f64_of_u64_pos a : 0 < a → (1 <= f64_of_u64 a)%Q.
Proof.
  intros. change 1%Q with (inject_Z 1). rewrite <- (f64_of_u64_exact 1) by lia.
  apply f64_of_u64_mono. lia.
Qed.

(** A quotient of doubles is at most one when the operands are ordered. *)
Lemma f64_div_le_1 a b : (0 < b)%Q → (a <= b)%Q → (f64_div a b <= 1)%Q.
Proof.
  intros Hb Hab. unfold f64_div.
  change 1%Q with (inject_Z 1). rewrite <- (f64_of_u64_exact 1) by lia.
  apply round53_mono. apply Qle_shift_div_r; [done|]. change (inject_Z 1) with 1%Q. lra.
Qed.

Lemma f64_div_mono a a' b : (0 < b)%Q → (a <= a')%Q → (f64_div a b <= f64_div a' b)%Q.
Proof.
  intros Hb H. apply round53_mono.
  apply Qmult_le_compat_r; [done|]. by apply Qlt_le_weak, Qinv_lt_0_compat.
Qed.

Lemma f64_mul_mono a b b' : (0 <= a)%Q → (b <= b')%Q → (f64_mul a b <= f64_mul a b')%Q.
Proof. intros. apply round53_mono. nra. Qed.

Lemma f64_round_mono a b : (a <= b)%Q → f64_round a ≤ f64_round b.
Proof. intros. apply Qfloor_resp_le. lra. Qed.

Lemma f64_round_Z z : f64_round (inject_Z z) = z.
Proof.
  unfold f64_round. apply Z.le_antisymm.
  - enough (Qfloor (inject_Z z + (1 # 2)) < z + 1) by lia. rewrite Zlt_Qlt.
    eapply Qle_lt_trans; [apply Qfloor_le|]. rewrite inject_Z_plus. change (inject_Z 1) with 1%Q. lra.
  - rewrite <- (Qfloor_Z z) at 1. apply Qfloor_resp_le. lra.
Qed.

Lemma f64_trunc_u64_bound a : (0 <= a)%Q → is_u64 (f64_trunc_u64 a).
Proof.
  intros H. apply Qfloor_resp_le in H. change (Qfloor 0) with 0 in H.
  unfold f64_trunc_u64. mach.
Qed.

(** ** The error of a rounding *)

(** Half a unit in the last place, relatively: [2^-53]. *)
Definition half_ulp : Q := pow2 (-53).

Lemma half_ulp_pos : (0 < half_ulp)%Q.
Proof. apply pow2_pos. Qed.

Lemma rne_upper q : (inject_Z (rne q) <= q + (1 # 2))%Q.
Proof.
  destruct (Qfloor_bounds q) as [H1 H2]. unfold rne.
  destruct (Qcompare_spec (q - inject_Z (Qfloor q)) (1 # 2)) as [E|E|E];
    [destruct (Z.even (Qfloor q))| |]; rewrite ?inject_Z_plus; change (inject_Z 1) with 1%Q; lra.
Qed.

Lemma round53_upper q : (0 <= q)%Q → (round53 q <= q * (1 + half_ulp))%Q.
Proof.
  intros Hq. pose proof half_ulp_pos as Hu.
  destruct (Qlt_le_dec 0 q) as [Hpos|]; [|rewrite round53_nonpos by done; nra].
  rewrite round53_pos by done. pose proof (ulp_pos q) as Hulp.
  pose proof (rne_upper (q / ulp q)) as Hr.
  apply (Qmult_le_compat_r _ _ (ulp q)) in Hr; [|lra].
  assert (E : ((q / ulp q + (1 # 2)) * ulp q == q + (1 # 2) * ulp q)%Q) by (field; lra).
  rewrite E in Hr. clear E.
  assert (Hh : ((1 # 2) * ulp q <= q * half_ulp)%Q).
  { destruct (binade_spec q Hpos) as [Hb _].
    assert (E : ((1 # 2) * ulp q == pow2 (binade q) * half_ulp)%Q).
    { unfold ulp, half_ulp. rewrite <- pow2_plus.
      replace (binade q - 52) with ((binade q + -53) + 1) by lia. rewrite pow2_double. lra. }
    rewrite E. apply Qmult_le_compat_r; lra. }
  lra.
Qed.

(** Two and more roundings of a product, bounded by one factor. *)
Definition errors (n : nat) : Q := ((1 + half_ulp) ^ Z.of_nat n)%Q.

Lemma errors_S n : (errors (S n) == (1 + half_ulp) * errors n)%Q.
Proof.
  unfold errors. rewrite Nat2Z.inj_succ, <- Z.add_1_l, Qpower_plus; [by rewrite Qpower_1_r|].
  pose proof half_ulp_pos. lra.
Qed.

Lemma errors_pos n : (1 <= errors n)%Q.
Proof.
  pose proof half_ulp_pos. induction n as [|n IH]; [done|]. rewrite errors_S. nra.
Qed.

(** One more rounding of a value known up to [n]. *)
Lemma round53_errors n q x :
  (0 <= q)%Q → (q <= x * errors n)%Q → (round53 q <= x * errors (S n))%Q.
Proof.
  intros Hq H. pose proof half_ulp_pos. rewrite errors_S.
  eapply Qle_trans; [by apply round53_upper|]. nra.
Qed.

Lemma f64_of_u64_errors z : 0 ≤ z → (f64_of_u64 z <= inject_Z z * errors 1)%Q.
Proof.
  intros Hz. apply round53_errors; [by rewrite (Zle_Qle 0) in Hz|].
  change (errors 0) with 1%Q. lra.
Qed.

Lemma as_secs_errors ns :
  0 ≤ ns → (as_secs_f64 ns <= inject_Z ns / inject_Z 1000000000 * errors 2)%Q.
Proof.
  intros Hns. unfold as_secs_f64, f64_add.
  pose proof (Z.div_pos ns 1000000000 Hns ltac:(lia)) as Hd.
  pose proof (Z.mod_pos_bound ns 1000000000 ltac:(lia)) as Hm.
  apply round53_errors.
  { apply (Qplus_le_compat 0 _ 0); apply round53_nonneg. }
  pose proof (f64_of_u64_errors (ns / 1000000000) Hd) as H1.
  assert (H2 : (f64_div (f64_of_u64 (ns mod 1000000000)) (f64_of_u64 1000000000) <=
                inject_Z (ns mod 1000000000) / inject_Z 1000000000 * errors 1)%Q).
  { assert (E : (f64_of_u64 (ns mod 1000000000) / f64_of_u64 1000000000 ==
                 inject_Z (ns mod 1000000000) / inject_Z 1000000000)%Q)
      by (rewrite !f64_of_u64_exact by lia; reflexivity).
    assert (0 <= inject_Z (ns mod 1000000000))%Q by (rewrite <- (Zle_Qle 0); lia).
    assert (0 <= inject_Z (ns mod 1000000000) / inject_Z 1000000000)%Q
      by (apply Qle_shift_div_l; [done|lra]).
    unfold f64_div. apply round53_errors; rewrite E; [done|]. change (errors 0) with 1%Q. lra. }
  eapply Qle_trans; [apply Qplus_le_compat; [exact H1|exact H2]|].
  rewrite (Z.div_mod ns 1000000000) at 3 by lia. rewrite inject_Z_plus, inject_Z_mult.
  apply Qle_lteq. right. field.
Qed.
