(* ===== verification/Config.v ===== *)
(** * The effective fault configuration

    [Config] of [faultcore_network/src/lib.rs], its target filter, its schedule
    and its directional views. *)

From Stdlib Require Import QArith Lqa.
From S2P Require Import Prelude.
From S2P Require Import F64.

Open Scope Z_scope.

(** ** Endpoints *)

(* faultcore_network/src/lib.rs:157-164 Endpoint *)
Record Endpoint : Type := mkEndpoint {
  address_family : Z;
  addr : list Z;
  ipv4 : Z;
  port : Z;
  protocol : Z
}.

#[export] Instance eta_Endpoint : Eta Endpoint := λ e, mkEndpoint
  (e.(address_family)) (e.(addr)) (e.(ipv4)) (e.(port)) (e.(protocol)).

#[export] Instance Endpoint_eq_dec : EqDecision Endpoint.
Proof. solve_decision. Defined.

(** ** The configuration *)

(* faultcore_network/src/lib.rs:166-248 Config *)
Record Config : Type := mkConfig {
  latency_ns : Z;
  jitter_ns : Z;
  packet_loss_ppm : Z;
  burst_loss_len : Z;
  bandwidth_bps : Z;
  connect_timeout_ms : Z;
  recv_timeout_ms : Z;
  uplink_latency_ns : Z;
  uplink_jitter_ns : Z;
  uplink_packet_loss_ppm : Z;
  uplink_burst_loss_len : Z;
  uplink_bandwidth_bps : Z;
  downlink_latency_ns : Z;
  downlink_jitter_ns : Z;
  downlink_packet_loss_ppm : Z;
  downlink_burst_loss_len : Z;
  downlink_bandwidth_bps : Z;
  ge_enabled : Z;
  ge_p_good_to_bad_ppm : Z;
  ge_p_bad_to_good_ppm : Z;
  ge_loss_good_ppm : Z;
  ge_loss_bad_ppm : Z;
  conn_err_kind : Z;
  conn_err_prob_ppm : Z;
  half_open_after_bytes : Z;
  half_open_err_kind : Z;
  dup_prob_ppm : Z;
  dup_max_extra : Z;
  reorder_prob_ppm : Z;
  reorder_max_delay_ns : Z;
  reorder_window : Z;
  dns_delay_ns : Z;
  dns_timeout_ms : Z;
  dns_nxdomain_ppm : Z;
  target_enabled : Z;
  target_kind : Z;
  target_ipv4 : Z;
  target_prefix_len : Z;
  target_port : Z;
  target_protocol : Z;
  target_address_family : Z;
  target_addr : list Z;
  target_hostname : list Z;
  target_sni : list Z;
  session_budget_enabled : Z;
  session_max_bytes_tx : Z;
  session_max_bytes_rx : Z;
  session_max_ops : Z;
  session_max_duration_ms : Z;
  session_action : Z;
  session_budget_timeout_ms : Z;
  session_error_kind : Z;
  policy_seed : Z;
  payload_mutation_enabled : Z;
  payload_mutation_prob_ppm : Z;
  payload_mutation_type : Z;
  payload_mutation_target : Z;
  payload_mutation_truncate_size : Z;
  payload_mutation_corrupt_count : Z;
  payload_mutation_corrupt_seed : Z;
  payload_mutation_inject_position : Z;
  payload_mutation_inject_data : list Z;
  payload_mutation_inject_len : Z;
  payload_mutation_replace_find : list Z;
  payload_mutation_replace_find_len : Z;
  payload_mutation_replace_with : list Z;
  payload_mutation_replace_with_len : Z;
  payload_mutation_swap_pos1 : Z;
  payload_mutation_swap_pos2 : Z;
  payload_mutation_min_size : Z;
  payload_mutation_max_size : Z;
  payload_mutation_every_n_packets : Z;
  payload_mutation_dry_run : Z;
  payload_mutation_max_buffer_size : Z;
  ruleset_generation : Z;
  schedule_type : Z;
  schedule_param_a_ns : Z;
  schedule_param_b_ns : Z;
  schedule_param_c_ns : Z;
  schedule_started_monotonic_ns : Z
}.

#[export] Instance eta_Config : Eta Config := λ c, mkConfig
  (c.(latency_ns)) (c.(jitter_ns)) (c.(packet_loss_ppm)) (c.(burst_loss_len))
  (c.(bandwidth_bps)) (c.(connect_timeout_ms)) (c.(recv_timeout_ms))
  (c.(uplink_latency_ns)) (c.(uplink_jitter_ns)) (c.(uplink_packet_loss_ppm))
  (c.(uplink_burst_loss_len)) (c.(uplink_bandwidth_bps)) (c.(downlink_latency_ns))
  (c.(downlink_jitter_ns)) (c.(downlink_packet_loss_ppm))
  (c.(downlink_burst_loss_len)) (c.(downlink_bandwidth_bps)) (c.(ge_enabled))
  (c.(ge_p_good_to_bad_ppm)) (c.(ge_p_bad_to_good_ppm)) (c.(ge_loss_good_ppm))
  (c.(ge_loss_bad_ppm)) (c.(conn_err_kind)) (c.(conn_err_prob_ppm))
  (c.(half_open_after_bytes)) (c.(half_open_err_kind)) (c.(dup_prob_ppm))
  (c.(dup_max_extra)) (c.(reorder_prob_ppm)) (c.(reorder_max_delay_ns))
  (c.(reorder_window)) (c.(dns_delay_ns)) (c.(dns_timeout_ms)) (c.(dns_nxdomain_ppm))
  (c.(target_enabled)) (c.(target_kind)) (c.(target_ipv4)) (c.(target_prefix_len))
  (c.(target_port)) (c.(target_protocol)) (c.(target_address_family))
  (c.(target_addr)) (c.(target_hostname)) (c.(target_sni))
  (c.(session_budget_enabled)) (c.(session_max_bytes_tx)) (c.(session_max_bytes_rx))
  (c.(session_max_ops)) (c.(session_max_duration_ms)) (c.(session_action))
  (c.(session_budget_timeout_ms)) (c.(session_error_kind)) (c.(policy_seed))
  (c.(payload_mutation_enabled)) (c.(payload_mutation_prob_ppm))
  (c.(payload_mutation_type)) (c.(payload_mutation_target))
  (c.(payload_mutation_truncate_size)) (c.(payload_mutation_corrupt_count))
  (c.(payload_mutation_corrupt_seed)) (c.(payload_mutation_inject_position))
  (c.(payload_mutation_inject_data)) (c.(payload_mutation_inject_len))
  (c.(payload_mutation_replace_find)) (c.(payload_mutation_replace_find_len))
  (c.(payload_mutation_replace_with)) (c.(payload_mutation_replace_with_len))
  (c.(payload_mutation_swap_pos1)) (c.(payload_mutation_swap_pos2))
  (c.(payload_mutation_min_size)) (c.(payload_mutation_max_size))
  (c.(payload_mutation_every_n_packets)) (c.(payload_mutation_dry_run))
  (c.(payload_mutation_max_buffer_size)) (c.(ruleset_generation)) (c.(schedule_type))
  (c.(schedule_param_a_ns)) (c.(schedule_param_b_ns)) (c.(schedule_param_c_ns))
  (c.(schedule_started_monotonic_ns)).

(* faultcore_network/src/lib.rs:250-254 Config::default *)
Definition Config_default : Config := mkConfig
  0 0 0 0 0 0 0 0 0 0 0 0 0 0 0 0 0 0 0 0 0 0 0 0 0 0 0 0 0 0 0 0 0 0 0 0 0 0 0 0 0
  (replicate 16 0) (replicate 32 0) (replicate 32 0) 0 0 0 0 0 0 0 0 0 0 0 0 0 0 0 0
  0 (replicate 64 0) 0 (replicate 32 0) 0 (replicate 32 0) 0 0 0 0 0 0 0 0 0 0 0 0 0
  0.

(** The [u64] fields, in declaration order. *)
Definition u64_fields (c : Config) : list Z :=
  [c.(latency_ns); c.(jitter_ns); c.(packet_loss_ppm); c.(burst_loss_len);
   c.(bandwidth_bps); c.(connect_timeout_ms); c.(recv_timeout_ms);
   c.(uplink_latency_ns); c.(uplink_jitter_ns); c.(uplink_packet_loss_ppm);
   c.(uplink_burst_loss_len); c.(uplink_bandwidth_bps); c.(downlink_latency_ns);
   c.(downlink_jitter_ns); c.(downlink_packet_loss_ppm); c.(downlink_burst_loss_len);
   c.(downlink_bandwidth_bps); c.(ge_enabled); c.(ge_p_good_to_bad_ppm);
   c.(ge_p_bad_to_good_ppm); c.(ge_loss_good_ppm); c.(ge_loss_bad_ppm);
   c.(conn_err_kind); c.(conn_err_prob_ppm); c.(half_open_after_bytes);
   c.(half_open_err_kind); c.(dup_prob_ppm); c.(dup_max_extra); c.(reorder_prob_ppm);
   c.(reorder_max_delay_ns); c.(reorder_window); c.(dns_delay_ns);
   c.(dns_timeout_ms); c.(dns_nxdomain_ppm); c.(target_enabled); c.(target_kind);
   c.(target_ipv4); c.(target_prefix_len); c.(target_port); c.(target_protocol);
   c.(target_address_family); c.(session_budget_enabled); c.(session_max_bytes_tx);
   c.(session_max_bytes_rx); c.(session_max_ops); c.(session_max_duration_ms);
   c.(session_action); c.(session_budget_timeout_ms); c.(session_error_kind);
   c.(policy_seed); c.(payload_mutation_enabled); c.(payload_mutation_prob_ppm);
   c.(payload_mutation_type); c.(payload_mutation_target);
   c.(payload_mutation_truncate_size); c.(payload_mutation_corrupt_count);
   c.(payload_mutation_corrupt_seed); c.(payload_mutation_inject_position);
   c.(payload_mutation_inject_len); c.(payload_mutation_replace_find_len);
   c.(payload_mutation_replace_with_len); c.(payload_mutation_swap_pos1);
   c.(payload_mutation_swap_pos2); c.(payload_mutation_min_size);
   c.(payload_mutation_max_size); c.(payload_mutation_every_n_packets);
   c.(payload_mutation_dry_run); c.(payload_mutation_max_buffer_size);
   c.(ruleset_generation); c.(schedule_type); c.(schedule_param_a_ns);
   c.(schedule_param_b_ns); c.(schedule_param_c_ns);
   c.(schedule_started_monotonic_ns)].

(** What the type [Config] guarantees of its values. *)
Definition Config_wf (c : Config) : Prop :=
  Forall is_u64 (u64_fields c) ∧
  length c.(target_addr) = 16%nat ∧ Forall is_byte c.(target_addr) ∧
  length c.(payload_mutation_inject_data) = 64%nat ∧
  length c.(payload_mutation_replace_find) = 32%nat ∧
  length c.(payload_mutation_replace_with) = 32%nat.

(* faultcore_network/src/lib.rs:257-289 Config::is_enabled *)
Definition is_enabled (c : Config) : bool :=
  (0 <? c.(latency_ns)) || (0 <? c.(jitter_ns)) || (0 <? c.(packet_loss_ppm)) ||
  (0 <? c.(burst_loss_len)) || (0 <? c.(bandwidth_bps)) ||
  (0 <? c.(connect_timeout_ms)) || (0 <? c.(recv_timeout_ms)) ||
  (0 <? c.(uplink_latency_ns)) || (0 <? c.(uplink_jitter_ns)) ||
  (0 <? c.(uplink_packet_loss_ppm)) || (0 <? c.(uplink_burst_loss_len)) ||
  (0 <? c.(uplink_bandwidth_bps)) || (0 <? c.(downlink_latency_ns)) ||
  (0 <? c.(downlink_jitter_ns)) || (0 <? c.(downlink_packet_loss_ppm)) ||
  (0 <? c.(downlink_burst_loss_len)) || (0 <? c.(downlink_bandwidth_bps)) ||
  (0 <? c.(ge_enabled)) || (0 <? c.(conn_err_kind)) ||
  (0 <? c.(half_open_after_bytes)) || (0 <? c.(dup_prob_ppm)) ||
  (0 <? c.(reorder_prob_ppm)) || (0 <? c.(reorder_max_delay_ns)) ||
  (0 <? c.(dns_delay_ns)) || (0 <? c.(dns_timeout_ms)) || (0 <? c.(dns_nxdomain_ppm)) ||
  (0 <? c.(target_enabled)) || (0 <? c.(session_budget_enabled)) ||
  (0 <? c.(policy_seed)) || (0 <? c.(payload_mutation_enabled)) ||
  (0 <? c.(schedule_type)).

(** ** Directional views *)

(* faultcore_network/src/lib.rs:487-507 apply_direction_overrides *)
Definition apply_direction_overrides (out : Config)
    (latency jitter loss burst bandwidth : Z) : Config :=
  let ov (v old : Z) := if 0 <? v then v else old in
  out <| latency_ns ::= ov latency |> <| jitter_ns ::= ov jitter |>
      <| packet_loss_ppm ::= ov loss |> <| burst_loss_len ::= ov burst |>
      <| bandwidth_bps ::= ov bandwidth |>.

(* faultcore_network/src/lib.rs:291-302 Config::effective_for_send *)
Definition effective_for_send (c : Config) : Config :=
  apply_direction_overrides c c.(uplink_latency_ns) c.(uplink_jitter_ns)
    c.(uplink_packet_loss_ppm) c.(uplink_burst_loss_len) c.(uplink_bandwidth_bps).

(* faultcore_network/src/lib.rs:304-315 Config::effective_for_recv *)
Definition effective_for_recv (c : Config) : Config :=
  apply_direction_overrides c c.(downlink_latency_ns) c.(downlink_jitter_ns)
    c.(downlink_packet_loss_ppm) c.(downlink_burst_loss_len) c.(downlink_bandwidth_bps).

(** ** Address prefixes *)

(** [a[i]] of a Rust array; the code panics where this is [None]. *)
Definition index {A} (l : list A) (i : Z) : option A :=
  if bool_decide (0 ≤ i) then l !! Z.to_nat i else None.

(** [a[..n]], which panics when [n] exceeds the length. *)
Definition slice_to {A} (l : list A) (n : Z) : option (list A) :=
  if bool_decide (n ≤ Z.of_nat (length l)) then Some (take (Z.to_nat n) l) else None.

(** [(!0u8) << k] for [0 ≤ k < 8]. *)
Definition mask_u8 (k : Z) : Z := Z.shiftl 255 k mod 256.

(* faultcore_network/src/lib.rs:509-523 prefix_match *)
Definition prefix_match (candidate network : list Z) (prefix_len : Z) : option bool :=
  if prefix_len =? 0 then Some true else
  let full_bytes := prefix_len / 8 in
  let partial_bits := prefix_len mod 8 in
  differ ← (if 0 <? full_bytes
            then c ← slice_to candidate full_bytes; n ← slice_to network full_bytes;
                 Some (bool_decide (c ≠ n))
            else Some false);
  if (differ : bool) then Some false else
  if partial_bits =? 0 then Some true else
  let mask := mask_u8 (8 - partial_bits) in
  c ← index candidate full_bytes;
  n ← index network full_bytes;
  Some (Z.land c mask =? Z.land n mask).

(* faultcore_network/src/lib.rs:330-358 Config::matches_target *)
Definition matches_target (c : Config) (endpoint : option Endpoint) : option bool :=
  if (c.(target_enabled) =? 0) || (c.(target_kind) =? 0) then Some true else
  match endpoint with
  | None => Some false
  | Some endpoint =>
      if (0 <? c.(target_protocol)) && negb (c.(target_protocol) =? endpoint.(protocol))
      then Some false else
      if (0 <? c.(target_port)) && negb (c.(target_port) =? endpoint.(port))
      then Some false else
      let family := c.(target_address_family) in
      if family =? 0 then Some false else
      if c.(target_kind) =? 1 then
        Some ((endpoint.(address_family) =? family) &&
              bool_decide (endpoint.(addr) = c.(target_addr)))
      else if c.(target_kind) =? 2 then
        let max_prefix := if family =? 1 then 32 else 128 in
        let bounded_prefix := Z.min c.(target_prefix_len) max_prefix in
        if endpoint.(address_family) =? family
        then prefix_match endpoint.(addr) c.(target_addr) bounded_prefix
        else Some false
      else Some false
  end.

(** ** Schedules *)

(* faultcore_network/src/lib.rs:483-485 scale_u64 *)
Definition scale_u64 (value : Z) (factor : f64) : Z :=
  Z.min (f64_round (f64_mul (f64_of_u64 value) factor)) u64_max.

(* faultcore_network/src/lib.rs:405-436 Config::scale_faults *)
Definition scale_faults (c : Config) (factor : f64) : Config :=
  let scale v := scale_u64 v factor in
  c <| latency_ns ::= scale |> <| jitter_ns ::= scale |> <| packet_loss_ppm ::= scale |>
    <| burst_loss_len ::= scale |> <| bandwidth_bps ::= scale |>
    <| connect_timeout_ms ::= scale |> <| recv_timeout_ms ::= scale |>
    <| uplink_latency_ns ::= scale |> <| uplink_jitter_ns ::= scale |>
    <| uplink_packet_loss_ppm ::= scale |> <| uplink_burst_loss_len ::= scale |>
    <| uplink_bandwidth_bps ::= scale |> <| downlink_latency_ns ::= scale |>
    <| downlink_jitter_ns ::= scale |> <| downlink_packet_loss_ppm ::= scale |>
    <| downlink_burst_loss_len ::= scale |> <| downlink_bandwidth_bps ::= scale |>
    <| conn_err_prob_ppm ::= scale |> <| dup_prob_ppm ::= scale |>
    <| reorder_prob_ppm ::= scale |> <| dns_delay_ns ::= scale |>
    <| dns_timeout_ms ::= scale |> <| dns_nxdomain_ppm ::= scale |>.

(* faultcore_network/src/lib.rs:438-480 Config::zero_faults *)
Definition zero_faults (c : Config) : Config :=
  c <| latency_ns := 0 |> <| jitter_ns := 0 |> <| packet_loss_ppm := 0 |>
    <| burst_loss_len := 0 |> <| bandwidth_bps := 0 |> <| connect_timeout_ms := 0 |>
    <| recv_timeout_ms := 0 |> <| uplink_latency_ns := 0 |> <| uplink_jitter_ns := 0 |>
    <| uplink_packet_loss_ppm := 0 |> <| uplink_burst_loss_len := 0 |>
    <| uplink_bandwidth_bps := 0 |> <| downlink_latency_ns := 0 |>
    <| downlink_jitter_ns := 0 |> <| downlink_packet_loss_ppm := 0 |>
    <| downlink_burst_loss_len := 0 |> <| downlink_bandwidth_bps := 0 |>
    <| ge_enabled := 0 |> <| ge_p_good_to_bad_ppm := 0 |> <| ge_p_bad_to_good_ppm := 0 |>
    <| ge_loss_good_ppm := 0 |> <| ge_loss_bad_ppm := 0 |> <| conn_err_kind := 0 |>
    <| conn_err_prob_ppm := 0 |> <| half_open_after_bytes := 0 |>
    <| half_open_err_kind := 0 |> <| dup_prob_ppm := 0 |> <| dup_max_extra := 0 |>
    <| reorder_prob_ppm := 0 |> <| reorder_max_delay_ns := 0 |> <| reorder_window := 0 |>
    <| dns_delay_ns := 0 |> <| dns_timeout_ms := 0 |> <| dns_nxdomain_ppm := 0 |>.

(* faultcore_network/src/lib.rs:360-403 Config::apply_schedule *)
Definition apply_schedule (c : Config) (now_monotonic_ns : Z) : Config :=
  if c.(schedule_type) =? 0 then c else
  let started := c.(schedule_started_monotonic_ns) in
  if (started =? 0) || (now_monotonic_ns <=? started) then c else
  let elapsed := now_monotonic_ns - started in
  if c.(schedule_type) =? 1 then
    let ramp_ns := c.(schedule_param_a_ns) in
    if (ramp_ns =? 0) || (ramp_ns <=? elapsed) then c else
    scale_faults c (f64_div (f64_of_u64 elapsed) (f64_of_u64 ramp_ns))
  else if c.(schedule_type) =? 2 then
    let cycle_ns := c.(schedule_param_a_ns) in
    let active_ns := c.(schedule_param_b_ns) in
    if (cycle_ns =? 0) || (active_ns =? 0) || (cycle_ns <? active_ns) then zero_faults c else
    if active_ns <=? elapsed mod cycle_ns then zero_faults c else c
  else if c.(schedule_type) =? 3 then
    let on_ns := c.(schedule_param_a_ns) in
    let off_ns := c.(schedule_param_b_ns) in
    let cycle_ns := saturating_add on_ns off_ns in
    if (on_ns =? 0) || (off_ns =? 0) || (cycle_ns =? 0) then zero_faults c else
    if on_ns <=? elapsed mod cycle_ns then zero_faults c else c
  else c.

(* faultcore_network/src/lib.rs:317-328 Config::runtime_filtered *)
Definition runtime_filtered (c : Config) (endpoint : option Endpoint)
    (now_monotonic_ns : Z) : option Config :=
  match matches_target c endpoint with
  | Some true => Some (apply_schedule c now_monotonic_ns)
  | _ => None
  end.

(** ** Facts about the schedule *)

Lemma if_leb_ltb {A} (x y : Z) (a b : A) : (if x <=? y then a else b) = (if y <? x then b else a).
Proof. destruct (Z.leb_spec x y), (Z.ltb_spec y x); done || lia. Qed.

(** The fields a ramp scales, and those only an inactive window clears. *)
Definition scaled_fields : list (Config → Z) :=
  [latency_ns; jitter_ns; packet_loss_ppm; burst_loss_len; bandwidth_bps;
   connect_timeout_ms; recv_timeout_ms; uplink_latency_ns; uplink_jitter_ns;
   uplink_packet_loss_ppm; uplink_burst_loss_len; uplink_bandwidth_bps;
   downlink_latency_ns; downlink_jitter_ns; downlink_packet_loss_ppm;
   downlink_burst_loss_len; downlink_bandwidth_bps; conn_err_prob_ppm; dup_prob_ppm;
   reorder_prob_ppm; dns_delay_ns; dns_timeout_ms; dns_nxdomain_ppm].

Definition cleared_only_fields : list (Config → Z) :=
  [ge_enabled; ge_p_good_to_bad_ppm; ge_p_bad_to_good_ppm; ge_loss_good_ppm;
   ge_loss_bad_ppm; conn_err_kind; half_open_after_bytes; half_open_err_kind;
   dup_max_extra; reorder_max_delay_ns; reorder_window].

Definition fault_fields : list (Config → Z) := scaled_fields ++ cleared_only_fields.

Lemma scale_faults_fields c k :
  Forall (λ f, f (scale_faults c k) = scale_u64 (f c) k) scaled_fields.
Proof. repeat constructor. Qed.

Lemma scale_faults_other c k :
  Forall (λ f, f (scale_faults c k) = f c) cleared_only_fields.
Proof. repeat constructor. Qed.

Lemma zero_faults_fields c : Forall (λ f, f (zero_faults c) = 0) fault_fields.
Proof. repeat constructor. Qed.

(** Clearing forgets what scaling did: everything else is left alone. *)
Lemma zero_scale_faults c k : zero_faults (scale_faults c k) = zero_faults c.
Proof. reflexivity. Qed.

Lemma zero_zero_faults c : zero_faults (zero_faults c) = zero_faults c.
Proof. reflexivity. Qed.

(** Below [2^53] a factor of at most one never increases a value. *)
Lemma scale_u64_le v k : 0 ≤ v < 2 ^ 53 → (k <= 1)%Q → scale_u64 v k ≤ v.
Proof.
  intros Hv Hk. unfold scale_u64. apply Z.le_trans with (f64_round (inject_Z v)).
  2:{ by rewrite f64_round_Z. }
  eapply Z.le_trans; [apply Z.le_min_l|]. apply f64_round_mono.
  pose proof (f64_of_u64_exact v Hv) as E. pose proof (f64_of_u64_nonneg v).
  apply Qle_trans with (f64_of_u64 v); [|rewrite E; apply Qle_refl].
  apply round53_mono. rewrite <- E. nra.
Qed.

Lemma scale_u64_mono v k k' : (k <= k')%Q → scale_u64 v k ≤ scale_u64 v k'.
Proof.
  intros H. unfold scale_u64.
  apply Z.min_le_compat_r, f64_round_mono, f64_mul_mono; [apply f64_of_u64_nonneg|done].
Qed.

Lemma ramp_factor_le_1 e r : 0 < r → e ≤ r → (f64_div (f64_of_u64 e) (f64_of_u64 r) <= 1)%Q.
Proof.
  intros Hr He. pose proof (f64_of_u64_pos r Hr).
  apply f64_div_le_1; [eapply Qlt_le_trans; [|done]; done|by apply f64_of_u64_mono].
Qed.

Lemma ramp_factor_mono e e' r :
  0 < r → e ≤ e' →
  (f64_div (f64_of_u64 e) (f64_of_u64 r) <= f64_div (f64_of_u64 e') (f64_of_u64 r))%Q.
Proof.
  intros Hr He. pose proof (f64_of_u64_pos r Hr).
  apply f64_div_mono; [eapply Qlt_le_trans; [|done]; done|by apply f64_of_u64_mono].
Qed.

(** Every outcome of a schedule is the configuration itself, its cleared form,
    or its form scaled by the elapsed share of the ramp. *)
Lemma apply_schedule_cases c now :
  apply_schedule c now = c ∨ apply_schedule c now = zero_faults c ∨
  ∃ k, (k <= 1)%Q ∧ apply_schedule c now = scale_faults c k.
Proof.
  unfold apply_schedule. repeat (case_match; [by auto|]).
  case_match; [|repeat case_match; by auto].
  case_match; [by auto|]. right; right. eexists. split; [|done].
  destruct (Z.le_gt_cases (schedule_param_a_ns c) 0) as [Hneg|Hpos].
  - assert (f64_of_u64 (schedule_param_a_ns c) = 0%Q) as ->.
    { apply round53_nonpos. by rewrite <- (Zle_Qle _ 0). }
    unfold f64_div. rewrite round53_nonpos; [done|].
    unfold Qdiv. change (/ 0)%Q with 0%Q. by rewrite Qmult_0_r.
  - apply ramp_factor_le_1; lia.
Qed.

(** ** Facts about prefixes *)

(** Bit [i] of an address, counted from the most significant bit of byte 0. *)
Definition addr_bit (a : list Z) (i : Z) : bool :=
  Z.testbit (a !!! Z.to_nat (i / 8)) (7 - i mod 8).

Definition is_addr16 (a : list Z) : Prop := length a = 16%nat ∧ Forall is_byte a.

Lemma byte_bits_eq x y :
  is_byte x → is_byte y → (∀ k, 0 ≤ k < 8 → Z.testbit x k = Z.testbit y k) → x = y.
Proof.
  intros Hx Hy H. apply Z.bits_inj'. intros k Hk.
  destruct (Z.lt_ge_cases k 8) as [|Hge]; [by apply H|].
  unfold is_byte in *.
  rewrite <- (Z.mod_small x (2 ^ 8)), <- (Z.mod_small y (2 ^ 8)) by lia.
  by rewrite !Z.mod_pow2_bits_high by lia.
Qed.

Lemma mask_u8_bits k j : 0 ≤ k → 0 ≤ j → Z.testbit (mask_u8 k) j = (k <=? j) && (j <? 8).
Proof.
  intros Hk Hj. unfold mask_u8. change 256 with (2 ^ 8). change 255 with (Z.ones 8).
  destruct (Z.ltb_spec j 8).
  - rewrite Z.mod_pow2_bits_low by lia. rewrite Z.shiftl_spec by lia.
    destruct (Z.leb_spec k j).
    + by rewrite Z.ones_spec_low by lia.
    + by rewrite Z.testbit_neg_r by lia.
  - rewrite Z.mod_pow2_bits_high by lia. by rewrite andb_false_r.
Qed.

Lemma masked_bytes_eq x y p :
  is_byte x → is_byte y → 0 < p < 8 →
  Z.land x (mask_u8 (8 - p)) = Z.land y (mask_u8 (8 - p)) ↔
  ∀ k, 0 ≤ k < p → Z.testbit x (7 - k) = Z.testbit y (7 - k).
Proof.
  intros Hx Hy Hp. split.
  - intros H k Hk. apply (f_equal (λ z, Z.testbit z (7 - k))) in H.
    rewrite !Z.land_spec, !mask_u8_bits in H by lia.
    destruct (Z.leb_spec (8 - p) (7 - k)); [|lia]. destruct (Z.ltb_spec (7 - k) 8); [|lia].
    by rewrite !andb_true_r in H.
  - intros H. apply Z.bits_inj'. intros j Hj. rewrite !Z.land_spec, mask_u8_bits by lia.
    destruct (Z.leb_spec (8 - p) j); [|by rewrite !andb_false_r].
    destruct (Z.ltb_spec j 8); [|by rewrite !andb_false_r].
    specialize (H (7 - j)). replace (7 - (7 - j)) with j in H by lia. rewrite H by lia. done.
Qed.

Lemma addr16_lookup a (j : nat) :
  is_addr16 a → (j < 16)%nat → a !! j = Some (a !!! j) ∧ is_byte (a !!! j).
Proof.
  intros [Hlen Hb] Hj. destruct (lookup_lt_is_Some_2 a j) as [x Hx]; [lia|].
  rewrite (list_lookup_total_correct _ _ _ Hx). split; [done|].
  by eapply Forall_lookup_1.
Qed.

Lemma take_eq_bits a b (f : nat) :
  is_addr16 a → is_addr16 b → (f ≤ 16)%nat →
  take f a = take f b ↔ ∀ i, 0 ≤ i < 8 * Z.of_nat f → addr_bit a i = addr_bit b i.
Proof.
  intros Ha Hb Hf. split.
  - intros H i Hi. unfold addr_bit. f_equal. rewrite !list_lookup_total_alt.
    assert (Hj : (Z.to_nat (i / 8) < f)%nat).
    { apply Nat2Z.inj_lt. rewrite Z2Nat.id; [|apply Z.div_pos; lia].
      apply Z.div_lt_upper_bound; lia. }
    f_equal. by rewrite <- (lookup_take_lt a f), <- (lookup_take_lt b f), H by done.
  - intros H. apply list_eq. intros j.
    destruct (decide (j < f)%nat) as [Hj|Hj].
    2:{ destruct Ha, Hb. rewrite !lookup_take_ge by lia. done. }
    rewrite !lookup_take_lt by done.
    destruct (addr16_lookup a j Ha ltac:(lia)) as [-> Ba].
    destruct (addr16_lookup b j Hb ltac:(lia)) as [-> Bb].
    f_equal. apply byte_bits_eq; [done..|]. intros k Hk.
    specialize (H (8 * Z.of_nat j + (7 - k))). unfold addr_bit in H.
    replace ((8 * Z.of_nat j + (7 - k)) / 8) with (Z.of_nat j) in H
      by (apply (Z.div_unique _ _ _ (7 - k)); lia).
    replace ((8 * Z.of_nat j + (7 - k)) mod 8) with (7 - k) in H
      by (apply (Z.mod_unique _ _ (Z.of_nat j)); lia).
    rewrite Nat2Z.id in H. replace (7 - (7 - k)) with k in H by lia. apply H. lia.
Qed.

Lemma index_addr16 a f : is_addr16 a → 0 ≤ f < 16 → index a f = Some (a !!! Z.to_nat f).
Proof.
  intros Ha Hf. unfold index. rewrite bool_decide_eq_true_2 by lia.
  apply (addr16_lookup a (Z.to_nat f) Ha). lia.
Qed.

Lemma slice_to_addr16 a f : is_addr16 a → f ≤ 16 → slice_to a f = Some (take (Z.to_nat f) a).
Proof. intros [Ha _] Hf. unfold slice_to. by rewrite bool_decide_eq_true_2 by lia. Qed.

(** The prefix test by whole bytes and a masked byte, in closed form. *)
Lemma prefix_match_eval a b p :
  is_addr16 a → is_addr16 b → 0 ≤ p ≤ 128 →
  prefix_match a b p =
    Some (bool_decide (take (Z.to_nat (p / 8)) a = take (Z.to_nat (p / 8)) b) &&
          ((p mod 8 =? 0) ||
           (Z.land (a !!! Z.to_nat (p / 8)) (mask_u8 (8 - p mod 8)) =?
            Z.land (b !!! Z.to_nat (p / 8)) (mask_u8 (8 - p mod 8))))).
Proof.
  intros Ha Hb Hp. unfold prefix_match.
  destruct (Z.eqb_spec p 0) as [->|Hp0]; [done|].
  pose proof (Z.div_mod p 8 ltac:(lia)) as Hdm. pose proof (Z.mod_pos_bound p 8 ltac:(lia)).
  assert (Hf : 0 ≤ p / 8 ≤ 16) by lia.
  assert (Hdiff : (if 0 <? p / 8
     then c ← slice_to a (p / 8); n ← slice_to b (p / 8); Some (bool_decide (c ≠ n))
     else Some false) = Some (negb (bool_decide
       (take (Z.to_nat (p / 8)) a = take (Z.to_nat (p / 8)) b)))).
  { destruct (Z.ltb_spec 0 (p / 8)).
    - rewrite !slice_to_addr16 by (done || lia). simpl. by rewrite bool_decide_not.
    - by replace (Z.to_nat (p / 8)) with 0%nat by lia. }
  rewrite Hdiff. cbn [mbind option_bind].
  destruct (bool_decide _); [cbn [negb andb]|done].
  destruct (Z.eqb_spec (p mod 8) 0); [done|].
  rewrite !index_addr16 by (done || lia). done.
Qed.

Lemma prefix_match_bits a b p :
  is_addr16 a → is_addr16 b → 0 ≤ p ≤ 128 →
  ∃ r, prefix_match a b p = Some r ∧
       (r = true ↔ ∀ i, 0 ≤ i < p → addr_bit a i = addr_bit b i).
Proof.
  intros Ha Hb Hp. rewrite prefix_match_eval by done. eexists; split; [done|].
  pose proof (Z.div_mod p 8 ltac:(lia)) as Hdm. pose proof (Z.mod_pos_bound p 8 ltac:(lia)).
  set (f := p / 8) in *. set (r := p mod 8) in *.
  rewrite andb_true_iff, orb_true_iff, bool_decide_eq_true, take_eq_bits, Z2Nat.id, !Z.eqb_eq
    by (done || lia).
  assert (Hlast : r ≠ 0 →
    (Z.land (a !!! Z.to_nat f) (mask_u8 (8 - r)) = Z.land (b !!! Z.to_nat f) (mask_u8 (8 - r)) ↔
     ∀ i, 8 * f ≤ i < p → addr_bit a i = addr_bit b i)).
  { intros Hr. rewrite masked_bytes_eq; [|apply addr16_lookup; [done|lia]..|lia].
    split; intros H' i Hi; unfold addr_bit in *.
    - specialize (H' (i - 8 * f) ltac:(lia)).
      replace (i / 8) with f by (apply (Z.div_unique _ _ _ (i - 8 * f)); lia).
      by replace (i mod 8) with (i - 8 * f) by (apply (Z.mod_unique _ _ f); lia).
    - specialize (H' (8 * f + i) ltac:(lia)).
      replace ((8 * f + i) / 8) with f in H' by (apply (Z.div_unique _ _ _ i); lia).
      by replace ((8 * f + i) mod 8) with i in H' by (apply (Z.mod_unique _ _ f); lia). }
  split.
  - intros [H1 H2] i Hi. destruct (Z.lt_ge_cases i (8 * f)); [by apply H1; lia|].
    destruct H2 as [?|H2]; [lia|]. destruct (Z.eq_dec r 0); [lia|]. apply Hlast; [done..|lia].
  - intros H1. split; [intros; apply H1; lia|].
    destruct (Z.eq_dec r 0); [by left|right]. apply Hlast; [done|]. intros; apply H1; lia.
Qed.

(** Each [u64] field of a well-formed configuration is in range. *)
Ltac config_u64 H :=
  let Hu := fresh in pose proof (proj1 H) as Hu; unfold u64_fields in Hu;
  repeat (apply Forall_cons in Hu as [? Hu]); assumption.

Lemma matches_target_total c e :
  Config_wf c → (∀ x, e = Some x → is_addr16 x.(addr)) → is_Some (matches_target c e).
Proof.
  intros Hwf He. assert (Hp : is_u64 c.(target_prefix_len)) by config_u64 Hwf.
  destruct Hwf as (_ & Hl & Hb & _).
  destruct e as [x|]; [|unfold matches_target; case_match; by eauto].
  destruct (prefix_match_bits x.(addr) c.(target_addr)
    (Z.min c.(target_prefix_len) (if c.(target_address_family) =? 1 then 32 else 128)))
    as (r & Hr & _); [by apply He|done|case_match; mach|].
  unfold matches_target. rewrite Hr. repeat (case_match; try by eauto).
Qed.

(** ** Properties *)

(** Target filter by network.  For an active CIDR target the filter never
    panics on 16-byte addresses, and it accepts an endpoint exactly when the
    protocol and port filters (zero meaning any) pass, the address family is the
    target's, and the first [min (prefix_len, 32 or 128)] bits of the endpoint's
    address are those of the target's network. *)
Theorem matches_target_cidr c e :
  Config_wf c → is_addr16 e.(addr) →
  c.(target_enabled) ≠ 0 → c.(target_kind) = 2 → c.(target_address_family) ≠ 0 →
  ∃ r, matches_target c (Some e) = Some r ∧
    (r = true ↔
      (c.(target_protocol) = 0 ∨ c.(target_protocol) = e.(protocol)) ∧
      (c.(target_port) = 0 ∨ c.(target_port) = e.(port)) ∧
      e.(address_family) = c.(target_address_family) ∧
      ∀ i, 0 ≤ i < Z.min c.(target_prefix_len)
                     (if c.(target_address_family) =? 1 then 32 else 128) →
           addr_bit e.(addr) i = addr_bit c.(target_addr) i).
Proof.
  intros Hwf He Hen Hk Hf.
  assert (Hp : is_u64 c.(target_prefix_len)) by config_u64 Hwf.
  assert (Hpr : is_u64 c.(target_protocol)) by config_u64 Hwf.
  assert (Hpo : is_u64 c.(target_port)) by config_u64 Hwf.
  destruct Hwf as (_ & Hl & Hb & _).
  destruct (prefix_match_bits e.(addr) c.(target_addr)
    (Z.min c.(target_prefix_len) (if c.(target_address_family) =? 1 then 32 else 128)))
    as (r & Hr & Hbits); [done|done|case_match; mach|].
  unfold matches_target. rewrite Hk, Hr.
  destruct (Z.eqb_spec c.(target_enabled) 0); [done|]. cbn [orb Z.eqb].
  destruct (Z.ltb_spec 0 c.(target_protocol)), (Z.eqb_spec c.(target_protocol) e.(protocol));
    cbn [negb andb]; try (eexists; split; [done|split; [done|mach]]).
  all: destruct (Z.ltb_spec 0 c.(target_port)), (Z.eqb_spec c.(target_port) e.(port));
    cbn [negb andb]; try (eexists; split; [done|split; [done|mach]]).
  all: destruct (Z.eqb_spec c.(target_address_family) 0); [done|].
  all: destruct (Z.eqb_spec e.(address_family) c.(target_address_family));
    [|eexists; split; [done|split; [done|tauto]]].
  all: exists r; split; [done|]; rewrite Hbits; split; [|tauto];
    intros Hi; repeat split; auto; mach.
Qed.


(** A periodic schedule is a duty cycle.  With a well-formed cycle, strictly
    after the schedule started, the faults are those configured during the first
    [active] nanoseconds of each cycle and cleared during the rest. *)
Theorem duty_cycle_schedule c now :
  0 < c.(schedule_started_monotonic_ns) < now →
  (c.(schedule_type) = 2 ∧ 0 < c.(schedule_param_b_ns) ≤ c.(schedule_param_a_ns)) ∨
  (c.(schedule_type) = 3 ∧ 0 < c.(schedule_param_a_ns) ∧ 0 < c.(schedule_param_b_ns) ∧
   c.(schedule_param_a_ns) + c.(schedule_param_b_ns) ≤ u64_max) →
  let cycle := if c.(schedule_type) =? 2 then c.(schedule_param_a_ns)
               else c.(schedule_param_a_ns) + c.(schedule_param_b_ns) in
  let active := if c.(schedule_type) =? 2 then c.(schedule_param_b_ns)
                else c.(schedule_param_a_ns) in
  ∀ k : Z, 0 ≤ k →
    apply_schedule c (now + k * cycle) =
      if (now - c.(schedule_started_monotonic_ns)) mod cycle <? active
      then c else zero_faults c.
Proof.
  intros Hnow H cycle active k Hk.
  assert (Hcyc : 0 < cycle) by (unfold cycle; destruct H as [[Ht ?]|[Ht ?]]; rewrite Ht; simpl; lia).
  assert (Hmod : (now + k * cycle - c.(schedule_started_monotonic_ns)) mod cycle =
                 (now - c.(schedule_started_monotonic_ns)) mod cycle).
  { rewrite <- (Z_mod_plus_full (now - c.(schedule_started_monotonic_ns)) k cycle).
    f_equal. lia. }
  unfold apply_schedule.
  destruct (Z.eqb_spec c.(schedule_type) 0); [lia|].
  destruct (Z.eqb_spec c.(schedule_started_monotonic_ns) 0); [lia|].
  destruct (Z.leb_spec (now + k * cycle) c.(schedule_started_monotonic_ns)); [nia|]. cbn [orb].
  destruct H as [[Ht Hp]|(Ht & Ha & Hb & Hab)]; subst cycle active; rewrite Ht in *;
    cbn [Z.eqb Pos.eqb] in *.
  - destruct (Z.eqb_spec c.(schedule_param_a_ns) 0); [lia|].
    destruct (Z.eqb_spec c.(schedule_param_b_ns) 0); [lia|].
    destruct (Z.ltb_spec c.(schedule_param_a_ns) c.(schedule_param_b_ns)); [lia|]. cbn [orb].
    rewrite Hmod. by apply if_leb_ltb.
  - assert (Hsat : saturating_add c.(schedule_param_a_ns) c.(schedule_param_b_ns) =
      c.(schedule_param_a_ns) + c.(schedule_param_b_ns)) by mach.
    rewrite Hsat.
    destruct (Z.eqb_spec c.(schedule_param_a_ns) 0); [lia|].
    destruct (Z.eqb_spec c.(schedule_param_b_ns) 0); [lia|].
    destruct (Z.eqb_spec (c.(schedule_param_a_ns) + c.(schedule_param_b_ns)) 0); [lia|]. cbn [orb].
    rewrite Hmod. by apply if_leb_ltb.
Qed.

(** A ramp only goes up.  Between the start and the end of a ramp, every
    scaled fault parameter is a non-decreasing function of the clock, and from
    the end of the ramp on the configuration applies in full. *)
Theorem ramp_schedule_monotone c now now' :
  c.(schedule_type) = 1 → 0 < c.(schedule_started_monotonic_ns) < now → now ≤ now' →
  now' < c.(schedule_started_monotonic_ns) + c.(schedule_param_a_ns) →
  Forall (λ f, f (apply_schedule c now) ≤ f (apply_schedule c now')) scaled_fields ∧
  ∀ later, c.(schedule_started_monotonic_ns) + c.(schedule_param_a_ns) ≤ later →
    apply_schedule c later = c.
Proof.
  intros Ht Hs Hn Hr. set (s := c.(schedule_started_monotonic_ns)) in *.
  set (r := c.(schedule_param_a_ns)) in *.
  assert (Hev : ∀ t, s < t < s + r → apply_schedule c t =
    scale_faults c (f64_div (f64_of_u64 (t - s)) (f64_of_u64 r))).
  { intros t Ht'. unfold apply_schedule. rewrite Ht. fold s r. cbn [Z.eqb].
    destruct (Z.eqb_spec s 0); [lia|]. destruct (Z.leb_spec t s); [lia|].
    destruct (Z.eqb_spec r 0); [lia|]. by destruct (Z.leb_spec r (t - s)); [lia|]. }
  split.
  - rewrite !Hev by lia.
    apply (Forall_impl2 _ _ _ _
      (scale_faults_fields c (f64_div (f64_of_u64 (now - s)) (f64_of_u64 r)))
      (scale_faults_fields c (f64_div (f64_of_u64 (now' - s)) (f64_of_u64 r)))).
    intros f Hf Hf'; simpl in *. rewrite Hf, Hf'. apply scale_u64_mono, ramp_factor_mono; lia.
  - intros t Ht'. unfold apply_schedule. rewrite Ht. fold s r. cbn [Z.eqb].
    destruct (Z.eqb_spec s 0); [lia|]. destruct (Z.leb_spec t s); [done|].
    destruct (Z.eqb_spec r 0); [done|]. by destruct (Z.leb_spec r (t - s)); [|lia].
Qed.

(** ** Witnesses *)

Definition example_network : list Z := [10; 1; 128; 0; 0; 0; 0; 0; 0; 0; 0; 0; 0; 0; 0; 0].

Definition example_cidr : Config :=
  Config_default <| target_enabled := 1 |> <| target_kind := 2 |>
    <| target_prefix_len := 17 |> <| target_address_family := 1 |>
    <| target_addr := example_network |>.

Definition example_peer : Endpoint :=
  mkEndpoint 1 [10; 1; 200; 7; 0; 0; 0; 0; 0; 0; 0; 0; 0; 0; 0; 0] 167888903 443 1.

Definition example_ramp : Config :=
  Config_default <| bandwidth_bps := 1000 |> <| latency_ns := 7 |> <| schedule_type := 1 |>
    <| schedule_param_a_ns := 100 |> <| schedule_started_monotonic_ns := 1000 |>.

Definition example_flap : Config :=
  Config_default <| latency_ns := 7 |> <| schedule_type := 3 |>
    <| schedule_param_a_ns := 60 |> <| schedule_param_b_ns := 40 |>
    <| schedule_started_monotonic_ns := 1000 |>.

Example prefix_17_matches : matches_target example_cidr (Some example_peer) = Some true.
Proof. reflexivity. Qed.

Example ramp_halfway :
  apply_schedule example_ramp 1050 = example_ramp <| bandwidth_bps := 500 |> <| latency_ns := 4 |>.
Proof. vm_compute. reflexivity. Qed.

Lemma matches_target_cidr_witness :
  ∃ r, matches_target example_cidr (Some example_peer) = Some r ∧
    (r = true ↔
      (0 = 0 ∨ 0 = 1) ∧ (0 = 0 ∨ 0 = 443) ∧ 1 = 1 ∧
      ∀ i, 0 ≤ i < Z.min 17 32 → addr_bit example_peer.(addr) i = addr_bit example_network i).
Proof.
  apply (matches_target_cidr example_cidr example_peer).
  - unfold Config_wf. split_and!; try reflexivity; apply (bool_decide_unpack _); vm_compute; exact I.
  - split; [reflexivity|]. apply (bool_decide_unpack _); vm_compute; exact I.
  - discriminate.
  - reflexivity.
  - discriminate.
Defined.


Lemma duty_cycle_schedule_witness :
  apply_schedule example_flap (1075 + 3 * 100) = zero_faults example_flap.
Proof.
  apply (duty_cycle_schedule example_flap 1075); [split; reflexivity| |discriminate].
  right. repeat split; discriminate.
Defined.

Lemma ramp_schedule_monotone_witness :
  Forall (λ f, f (apply_schedule example_ramp 1020) ≤ f (apply_schedule example_ramp 1070))
    scaled_fields ∧
  ∀ later, 1000 + 100 ≤ later → apply_schedule example_ramp later = example_ramp.
Proof.
  apply (ramp_schedule_monotone example_ramp 1020 1070);
    [reflexivity|split; reflexivity|discriminate|reflexivity].
Defined.
