(* ===== verification/ShmContract.v ===== *)
(** * The shared-memory contract

    [faultcore_network/src/shm_contract.rs]: the packed rows of the segment,
    their byte layout, the validity check of a configuration row and its
    conversion to the engine's [Config]. *)

From S2P Require Import Prelude.
From S2P Require Import Config.

Open Scope Z_scope.

(** ** Packed little-endian rows

    A [repr(C, packed)] (or padding-free [repr(C)]) struct is a sequence of
    fields, each an array of little-endian unsigned integers. *)

Record field : Type := Field { width : nat; count : nat }.

Definition U32 : field := Field 4 1.
Definition U64 : field := Field 8 1.
Definition Bytes (n : nat) : field := Field 1 n.
Definition U64s (n : nat) : field := Field 8 n.

Definition field_size (f : field) : nat := f.(width) * f.(count).

Definition row_size (l : list field) : nat := sum_list_with field_size l.

Fixpoint le_bytes (n : nat) (z : Z) : list Z :=
  match n with
  | O => []
  | S n => z mod 256 :: le_bytes n (z / 256)
  end.

Fixpoint le_value (bs : list Z) : Z :=
  match bs with
  | [] => 0
  | b :: bs => b + 256 * le_value bs
  end.

Definition enc_field (f : field) (v : list Z) : list Z := v ≫= le_bytes f.(width).

Fixpoint dec_elems (w n : nat) (bs : list Z) : list Z :=
  match n with
  | O => []
  | S n => le_value (take w bs) :: dec_elems w n (drop w bs)
  end.

Fixpoint enc_row (l : list field) (vs : list (list Z)) : list Z :=
  match l, vs with
  | f :: l, v :: vs => enc_field f v ++ enc_row l vs
  | _, _ => []
  end.

Fixpoint dec_row (l : list field) (bs : list Z) : list (list Z) :=
  match l with
  | [] => []
  | f :: l => dec_elems f.(width) f.(count) bs :: dec_row l (drop (field_size f) bs)
  end.

(** A value fits a field. *)
Definition field_wf (f : field) (v : list Z) : Prop :=
  length v = f.(count) ∧ Forall (λ z, 0 ≤ z < 256 ^ Z.of_nat f.(width)) v.

Lemma length_le_bytes n z : length (le_bytes n z) = n.
Proof. revert z; induction n; intros; simpl; auto. Qed.

Lemma le_bytes_byte n z : Forall is_byte (le_bytes n z).
Proof.
  revert z; induction n; intros; simpl; constructor; [|done].
  apply Z.mod_pos_bound. lia.
Qed.

Lemma le_value_bytes n z : 0 ≤ z < 256 ^ Z.of_nat n → le_value (le_bytes n z) = z.
Proof.
  revert z; induction n as [|n IH]; intros z Hz; simpl.
  - rewrite Z.pow_0_r in Hz. lia.
  - rewrite Nat2Z.inj_succ, Z.pow_succ_r in Hz by lia.
    rewrite IH; [pose proof (Z.div_mod z 256); lia|].
    split; [apply Z.div_pos; lia|apply Z.div_lt_upper_bound; lia].
Qed.

Lemma le_value_bound bs : Forall is_byte bs → 0 ≤ le_value bs < 256 ^ Z.of_nat (length bs).
Proof.
  unfold is_byte. induction 1 as [|b bs Hb _ IH]; [by cbn|].
  cbn [le_value length]. rewrite Nat2Z.inj_succ, Z.pow_succ_r by lia. lia.
Qed.

Lemma le_bytes_value bs : Forall is_byte bs → le_bytes (length bs) (le_value bs) = bs.
Proof.
  unfold is_byte. induction 1 as [|b bs Hb _ IH]; [done|]. cbn [le_value length le_bytes].
  rewrite (Z.mul_comm 256), Z_mod_plus_full, Z.mod_small by lia.
  rewrite Z_div_plus_full, Z.div_small by lia. by rewrite Z.add_0_l, IH.
Qed.

Lemma length_enc_field f v : length v = f.(count) → length (enc_field f v) = field_size f.
Proof.
  destruct f as [w n]; unfold enc_field, field_size; cbn. intros <-.
  induction v as [|z v IH]; [cbn; lia|]. rewrite bind_cons, length_app, length_le_bytes, IH.
  cbn. lia.
Qed.

Lemma dec_enc_elems w n v rest :
  length v = n → Forall (λ z, 0 ≤ z < 256 ^ Z.of_nat w) v →
  dec_elems w n ((v ≫= le_bytes w) ++ rest) = v.
Proof.
  intros <-. induction 1 as [|z v Hz _ IH]; [done|].
  rewrite bind_cons. cbn [dec_elems length]. rewrite <- app_assoc, take_app_length', drop_app_length' by (by rewrite length_le_bytes).
  by rewrite le_value_bytes, IH.
Qed.

Lemma dec_enc_row l vs rest :
  Forall2 field_wf l vs → dec_row l (enc_row l vs ++ rest) = vs.
Proof.
  induction 1 as [|f v l vs [Hlen Hv] _ IH]; [done|]. cbn [dec_row enc_row].
  rewrite <- app_assoc. f_equal; [by apply dec_enc_elems|].
  by rewrite drop_app_length' by (by rewrite length_enc_field).
Qed.

Lemma enc_dec_elems w n bs :
  Forall is_byte bs → (w * n ≤ length bs)%nat →
  dec_elems w n bs ≫= le_bytes w = take (w * n) bs.
Proof.
  revert bs; induction n as [|n IH]; intros bs Hb Hl; [by rewrite Nat.mul_0_r|].
  cbn [dec_elems]. rewrite bind_cons, IH; [|by apply Forall_drop|rewrite length_drop; lia].
  assert (E : le_bytes w (le_value (take w bs)) = take w bs).
  { rewrite <- (le_bytes_value (take w bs)) at 2 by (by apply Forall_take).
    by rewrite length_take_le by lia. }
  rewrite E.
  replace (w * S n)%nat with (w + w * n)%nat by lia. by rewrite <- take_take_drop.
Qed.

Lemma enc_dec_row l bs :
  Forall is_byte bs → length bs = row_size l → enc_row l (dec_row l bs) = bs.
Proof.
  revert bs; induction l as [|f l IH]; intros bs Hb Hl; cbn in *; [by destruct bs|].
  rewrite IH; [|by apply Forall_drop|rewrite length_drop; unfold row_size in *; lia].
  unfold enc_field. rewrite enc_dec_elems by (done || (unfold field_size in *; lia)).
  by rewrite take_drop.
Qed.

Lemma length_enc_row l vs : Forall2 field_wf l vs → length (enc_row l vs) = row_size l.
Proof.
  induction 1 as [|f v l vs [Hlen _] _ IH]; [done|]. cbn.
  rewrite length_app, IH, length_enc_field by done. done.
Qed.

Lemma enc_row_byte l vs : Forall is_byte (enc_row l vs).
Proof.
  revert vs; induction l as [|f l IH]; intros [|v vs]; cbn; try constructor.
  apply Forall_app; split; [|done]. unfold enc_field.
  induction v; [constructor|]. rewrite bind_cons. apply Forall_app; split; [apply le_bytes_byte|done].
Qed.

(** The offset of field [i], and the row whose bytes there are replaced. *)
Definition field_offset (l : list field) (i : nat) : nat := row_size (take i l).

Definition splice (off : nat) (new bs : list Z) : list Z :=
  take off bs ++ new ++ drop (off + length new) bs.

Lemma splice_enc_row l vs i f v :
  Forall2 field_wf l vs → l !! i = Some f → length v = f.(count) →
  splice (field_offset l i) (enc_field f v) (enc_row l vs) = enc_row l (<[i := v]> vs).
Proof.
  intros Hwf. revert i; induction Hwf as [|g w l vs [Hlen _] Hwf IH]; intros [|i] Hi Hv; try done.
  - injection Hi as ->. cbn. unfold splice. cbn.
    by rewrite drop_app_length' by (rewrite !length_enc_field; done).
  - specialize (IH i Hi Hv).
    change (<[S i := v]> (w :: vs)) with (w :: <[i := v]> vs).
    change (field_offset (g :: l) (S i)) with (field_size g + field_offset l i)%nat.
    cbn [enc_row]. rewrite <- IH. unfold splice.
    assert (Hg : length (enc_field g w) = field_size g) by (by apply length_enc_field).
    rewrite take_app, drop_app, Hg, take_ge, drop_ge by lia.
    rewrite <- app_assoc. cbn [app]. do 2 f_equal; [f_equal; lia|]. f_equal. f_equal. lia.
Qed.

Lemma field_bytes_enc_row l vs i f v :
  Forall2 field_wf l vs → l !! i = Some f → vs !! i = Some v →
  take (field_size f) (drop (field_offset l i) (enc_row l vs)) = enc_field f v.
Proof.
  intros Hwf. revert i; induction Hwf as [|g w l vs [Hlen ?] Hwf IH]; intros [|i] Hi Hv; try done.
  - injection Hi as ->. injection Hv as ->. unfold field_offset. cbn [enc_row].
    change (row_size (take 0 (f :: l))) with 0%nat. rewrite drop_0.
    by rewrite take_app_length' by (by rewrite length_enc_field).
  - change (field_offset (g :: l) (S i)) with (field_size g + field_offset l i)%nat.
    cbn [enc_row].
    rewrite <- drop_drop, drop_app_length' by (by rewrite length_enc_field). by apply IH.
Qed.

(** A struct with a packed representation. *)
Class Packed (R : Type) : Type := {
  row_layout : list field;
  row_fields : R → list (list Z);
  row_of_fields : list (list Z) → option R;
}.
#[global] Hint Mode Packed ! : typeclass_instances.
Arguments row_layout R {_}.

(** The representation is an isomorphism of the struct with its fields. *)
Class PackedLaws (R : Type) `{Packed R} : Prop := {
  row_of_fields_fields (r : R) : row_of_fields (row_fields r) = Some r;
  row_of_dec bs : ∃ r : R, row_of_fields (dec_row (row_layout R) bs) = Some r ∧
                       row_fields r = dec_row (row_layout R) bs;
}.

(** The bytes of a struct, and [ptr::read_unaligned] at its address. *)
Definition encode `{Packed R} (r : R) : list Z := enc_row (row_layout R) (row_fields r).
Definition decode `{Packed R} (bs : list Z) : option R := row_of_fields (dec_row (row_layout R) bs).

(** The type's own invariant: every field in range. *)
Definition row_wf `{Packed R} (r : R) : Prop := Forall2 field_wf (row_layout R) (row_fields r).

Section packed.
Context `{PackedLaws R}.

Lemma decode_encode_app (r : R) rest : row_wf r → decode (encode r ++ rest) = Some r.
Proof.
  intros Hwf. unfold decode, encode. by rewrite dec_enc_row, row_of_fields_fields.
Qed.

Lemma decode_encode (r : R) : row_wf r → decode (encode r) = Some r.
Proof. intros. rewrite <- (app_nil_r (encode r)). by apply decode_encode_app. Qed.

Lemma length_encode (r : R) : row_wf r → length (encode r) = row_size (row_layout R).
Proof. apply length_enc_row. Qed.

Lemma encode_decode bs :
  Forall is_byte bs → length bs = row_size (row_layout R) →
  ∃ r : R, decode bs = Some r ∧ encode r = bs.
Proof.
  intros Hb Hl. destruct (row_of_dec bs) as (r & Hr & Hf). exists r. split; [done|].
  unfold encode. rewrite Hf. by apply enc_dec_row.
Qed.
End packed.

(** ** Constants *)

(* faultcore_network/src/shm_contract.rs:3-9 FAULTCORE_MAGIC *)
Definition FAULTCORE_MAGIC : Z := 0xFACC0DE.
Definition MAX_FDS : Z := 131072.
Definition MAX_TIDS : Z := 65536.
Definition MAX_POLICIES : Z := 1024.
Definition MAX_TARGET_RULES_PER_TID : Z := 8.
Definition MAX_LATENCY_NS : Z := 60000000000.
Definition MAX_BANDWIDTH_BPS : Z := 100000000000.

(** ** The configuration row *)

Module Fc.

(* faultcore_network/src/shm_contract.rs:16-103 FaultcoreConfig *)
Record FaultcoreConfig : Type := mkFaultcoreConfig {
  magic : Z;
  version : Z;
  latency_ns : Z;
  jitter_ns : Z;
  packet_loss_ppm : Z;
  burst_loss_len : Z;
  bandwidth_bps : Z;
  connect_timeout_ms : Z;
  recv_timeout_ms : Z;
  uplink_latency_ns : Z;
  uplink_jitter_ns : Z;
  uplink_packet_loss_ppm : Z;
  uplink_burst_loss_len : Z;
  uplink_bandwidth_bps : Z;
  downlink_latency_ns : Z;
  downlink_jitter_ns : Z;
  downlink_packet_loss_ppm : Z;
  downlink_burst_loss_len : Z;
  downlink_bandwidth_bps : Z;
  ge_enabled : Z;
  ge_p_good_to_bad_ppm : Z;
  ge_p_bad_to_good_ppm : Z;
  ge_loss_good_ppm : Z;
  ge_loss_bad_ppm : Z;
  conn_err_kind : Z;
  conn_err_prob_ppm : Z;
  half_open_after_bytes : Z;
  half_open_err_kind : Z;
  dup_prob_ppm : Z;
  dup_max_extra : Z;
  reorder_prob_ppm : Z;
  reorder_max_delay_ns : Z;
  reorder_window : Z;
  dns_delay_ns : Z;
  dns_timeout_ms : Z;
  dns_nxdomain_ppm : Z;
  target_enabled : Z;
  target_kind : Z;
  target_ipv4 : Z;
  target_prefix_len : Z;
  target_port : Z;
  target_protocol : Z;
  schedule_type : Z;
  schedule_param_a_ns : Z;
  schedule_param_b_ns : Z;
  schedule_param_c_ns : Z;
  schedule_started_monotonic_ns : Z;
  reserved : Z;
  ruleset_generation : Z;
  target_address_family : Z;
  target_addr : list Z;
  target_hostname : list Z;
  target_sni : list Z;
  session_budget_enabled : Z;
  session_max_bytes_tx : Z;
  session_max_bytes_rx : Z;
  session_max_ops : Z;
  session_max_duration_ms : Z;
  session_action : Z;
  session_budget_timeout_ms : Z;
  session_error_kind : Z;
  policy_seed : Z;
  payload_mutation_enabled : Z;
  payload_mutation_prob_ppm : Z;
  payload_mutation_type : Z;
  payload_mutation_target : Z;
  payload_mutation_truncate_size : Z;
  payload_mutation_corrupt_count : Z;
  payload_mutation_corrupt_seed : Z;
  payload_mutation_inject_position : Z;
  payload_mutation_inject_data : list Z;
  payload_mutation_inject_len : Z;
  payload_mutation_replace_find : list Z;
  payload_mutation_replace_find_len : Z;
  payload_mutation_replace_with : list Z;
  payload_mutation_replace_with_len : Z;
  payload_mutation_swap_pos1 : Z;
  payload_mutation_swap_pos2 : Z;
  payload_mutation_min_size : Z;
  payload_mutation_max_size : Z;
  payload_mutation_every_n_packets : Z;
  payload_mutation_dry_run : Z;
  payload_mutation_max_buffer_size : Z;
  payload_mutation_reserved : list Z
}.

#[global] Instance eta_FaultcoreConfig : Eta FaultcoreConfig := λ c, mkFaultcoreConfig
  (c.(magic)) (c.(version)) (c.(latency_ns)) (c.(jitter_ns)) (c.(packet_loss_ppm))
  (c.(burst_loss_len)) (c.(bandwidth_bps)) (c.(connect_timeout_ms))
  (c.(recv_timeout_ms)) (c.(uplink_latency_ns)) (c.(uplink_jitter_ns))
  (c.(uplink_packet_loss_ppm)) (c.(uplink_burst_loss_len)) (c.(uplink_bandwidth_bps))
  (c.(downlink_latency_ns)) (c.(downlink_jitter_ns)) (c.(downlink_packet_loss_ppm))
  (c.(downlink_burst_loss_len)) (c.(downlink_bandwidth_bps)) (c.(ge_enabled))
  (c.(ge_p_good_to_bad_ppm)) (c.(ge_p_bad_to_good_ppm)) (c.(ge_loss_good_ppm))
  (c.(ge_loss_bad_ppm)) (c.(conn_err_kind)) (c.(conn_err_prob_ppm))
  (c.(half_open_after_bytes)) (c.(half_open_err_kind)) (c.(dup_prob_ppm))
  (c.(dup_max_extra)) (c.(reorder_prob_ppm)) (c.(reorder_max_delay_ns))
  (c.(reorder_window)) (c.(dns_delay_ns)) (c.(dns_timeout_ms)) (c.(dns_nxdomain_ppm))
  (c.(target_enabled)) (c.(target_kind)) (c.(target_ipv4)) (c.(target_prefix_len))
  (c.(target_port)) (c.(target_protocol)) (c.(schedule_type)) (c.(schedule_param_a_ns))
  (c.(schedule_param_b_ns)) (c.(schedule_param_c_ns))
  (c.(schedule_started_monotonic_ns)) (c.(reserved)) (c.(ruleset_generation))
  (c.(target_address_family)) (c.(target_addr)) (c.(target_hostname)) (c.(target_sni))
  (c.(session_budget_enabled)) (c.(session_max_bytes_tx)) (c.(session_max_bytes_rx))
  (c.(session_max_ops)) (c.(session_max_duration_ms)) (c.(session_action))
  (c.(session_budget_timeout_ms)) (c.(session_error_kind)) (c.(policy_seed))
  (c.(payload_mutation_enabled)) (c.(payload_mutation_prob_ppm))
  (c.(payload_mutation_type)) (c.(payload_mutation_target))
  (c.(payload_mutation_truncate_size)) (c.(payload_mutation_corrupt_count))
  (c.(payload_mutation_corrupt_seed)) (c.(payload_mutation_inject_position))
  (c.(payload_mutation_inject_data)) (c.(payload_mutation_inject_len))
  (c.(payload_mutation_replace_find)) (c.(payload_mutation_replace_find_len))
  (c.(payload_mutation_replace_with)) (c.(payload_mutation_replace_with_len))
  (c.(payload_mutation_swap_pos1)) (c.(payload_mutation_swap_pos2))
  (c.(payload_mutation_min_size)) (c.(payload_mutation_max_size))
  (c.(payload_mutation_every_n_packets)) (c.(payload_mutation_dry_run))
  (c.(payload_mutation_max_buffer_size)) (c.(payload_mutation_reserved)).

(* faultcore_network/src/shm_contract.rs:105-109 FaultcoreConfig::default *)
Definition FaultcoreConfig_default : FaultcoreConfig := mkFaultcoreConfig
  0 0 0 0 0 0 0 0 0 0 0 0 0 0 0 0 0 0 0 0 0 0 0 0 0 0 0 0 0 0 0 0 0 0 0 0 0 0 0 0 0 0 0
  0 0 0 0 0 0 0 (replicate 16 0) (replicate 32 0) (replicate 32 0) 0 0 0 0 0 0 0 0 0 0 0
  0 0 0 0 0 0 (replicate 64 0) 0 (replicate 32 0) 0 (replicate 32 0) 0 0 0 0 0 0 0 0
  (replicate 8 0).

(** The declared fields, in order. *)
Definition layout : list (string * field) :=
  [("magic", U32); ("version", U64); ("latency_ns", U64); ("jitter_ns", U64);
   ("packet_loss_ppm", U64); ("burst_loss_len", U64); ("bandwidth_bps", U64);
   ("connect_timeout_ms", U64); ("recv_timeout_ms", U64); ("uplink_latency_ns", U64);
   ("uplink_jitter_ns", U64); ("uplink_packet_loss_ppm", U64);
   ("uplink_burst_loss_len", U64); ("uplink_bandwidth_bps", U64);
   ("downlink_latency_ns", U64); ("downlink_jitter_ns", U64);
   ("downlink_packet_loss_ppm", U64); ("downlink_burst_loss_len", U64);
   ("downlink_bandwidth_bps", U64); ("ge_enabled", U64); ("ge_p_good_to_bad_ppm", U64);
   ("ge_p_bad_to_good_ppm", U64); ("ge_loss_good_ppm", U64); ("ge_loss_bad_ppm", U64);
   ("conn_err_kind", U64); ("conn_err_prob_ppm", U64); ("half_open_after_bytes", U64);
   ("half_open_err_kind", U64); ("dup_prob_ppm", U64); ("dup_max_extra", U64);
   ("reorder_prob_ppm", U64); ("reorder_max_delay_ns", U64); ("reorder_window", U64);
   ("dns_delay_ns", U64); ("dns_timeout_ms", U64); ("dns_nxdomain_ppm", U64);
   ("target_enabled", U64); ("target_kind", U64); ("target_ipv4", U64);
   ("target_prefix_len", U64); ("target_port", U64); ("target_protocol", U64);
   ("schedule_type", U64); ("schedule_param_a_ns", U64); ("schedule_param_b_ns", U64);
   ("schedule_param_c_ns", U64); ("schedule_started_monotonic_ns", U64);
   ("reserved", U32); ("ruleset_generation", U64); ("target_address_family", U64);
   ("target_addr", Bytes 16); ("target_hostname", Bytes 32); ("target_sni", Bytes 32);
   ("session_budget_enabled", U64); ("session_max_bytes_tx", U64);
   ("session_max_bytes_rx", U64); ("session_max_ops", U64);
   ("session_max_duration_ms", U64); ("session_action", U64);
   ("session_budget_timeout_ms", U64); ("session_error_kind", U64);
   ("policy_seed", U64); ("payload_mutation_enabled", U64);
   ("payload_mutation_prob_ppm", U64); ("payload_mutation_type", U64);
   ("payload_mutation_target", U64); ("payload_mutation_truncate_size", U64);
   ("payload_mutation_corrupt_count", U64); ("payload_mutation_corrupt_seed", U64);
   ("payload_mutation_inject_position", U64);
   ("payload_mutation_inject_data", Bytes 64); ("payload_mutation_inject_len", U64);
   ("payload_mutation_replace_find", Bytes 32);
   ("payload_mutation_replace_find_len", U64);
   ("payload_mutation_replace_with", Bytes 32);
   ("payload_mutation_replace_with_len", U64); ("payload_mutation_swap_pos1", U64);
   ("payload_mutation_swap_pos2", U64); ("payload_mutation_min_size", U64);
   ("payload_mutation_max_size", U64); ("payload_mutation_every_n_packets", U64);
   ("payload_mutation_dry_run", U64); ("payload_mutation_max_buffer_size", U64);
   ("payload_mutation_reserved", U64s 8)].

Definition to_fields (c : FaultcoreConfig) : list (list Z) :=
  [[c.(magic)]; [c.(version)]; [c.(latency_ns)]; [c.(jitter_ns)]; [c.(packet_loss_ppm)];
   [c.(burst_loss_len)]; [c.(bandwidth_bps)]; [c.(connect_timeout_ms)];
   [c.(recv_timeout_ms)]; [c.(uplink_latency_ns)]; [c.(uplink_jitter_ns)];
   [c.(uplink_packet_loss_ppm)]; [c.(uplink_burst_loss_len)];
   [c.(uplink_bandwidth_bps)]; [c.(downlink_latency_ns)]; [c.(downlink_jitter_ns)];
   [c.(downlink_packet_loss_ppm)]; [c.(downlink_burst_loss_len)];
   [c.(downlink_bandwidth_bps)]; [c.(ge_enabled)]; [c.(ge_p_good_to_bad_ppm)];
   [c.(ge_p_bad_to_good_ppm)]; [c.(ge_loss_good_ppm)]; [c.(ge_loss_bad_ppm)];
   [c.(conn_err_kind)]; [c.(conn_err_prob_ppm)]; [c.(half_open_after_bytes)];
   [c.(half_open_err_kind)]; [c.(dup_prob_ppm)]; [c.(dup_max_extra)];
   [c.(reorder_prob_ppm)]; [c.(reorder_max_delay_ns)]; [c.(reorder_window)];
   [c.(dns_delay_ns)]; [c.(dns_timeout_ms)]; [c.(dns_nxdomain_ppm)];
   [c.(target_enabled)]; [c.(target_kind)]; [c.(target_ipv4)]; [c.(target_prefix_len)];
   [c.(target_port)]; [c.(target_protocol)]; [c.(schedule_type)];
   [c.(schedule_param_a_ns)]; [c.(schedule_param_b_ns)]; [c.(schedule_param_c_ns)];
   [c.(schedule_started_monotonic_ns)]; [c.(reserved)]; [c.(ruleset_generation)];
   [c.(target_address_family)]; c.(target_addr); c.(target_hostname); c.(target_sni);
   [c.(session_budget_enabled)]; [c.(session_max_bytes_tx)]; [c.(session_max_bytes_rx)];
   [c.(session_max_ops)]; [c.(session_max_duration_ms)]; [c.(session_action)];
   [c.(session_budget_timeout_ms)]; [c.(session_error_kind)]; [c.(policy_seed)];
   [c.(payload_mutation_enabled)]; [c.(payload_mutation_prob_ppm)];
   [c.(payload_mutation_type)]; [c.(payload_mutation_target)];
   [c.(payload_mutation_truncate_size)]; [c.(payload_mutation_corrupt_count)];
   [c.(payload_mutation_corrupt_seed)]; [c.(payload_mutation_inject_position)];
   c.(payload_mutation_inject_data); [c.(payload_mutation_inject_len)];
   c.(payload_mutation_replace_find); [c.(payload_mutation_replace_find_len)];
   c.(payload_mutation_replace_with); [c.(payload_mutation_replace_with_len)];
   [c.(payload_mutation_swap_pos1)]; [c.(payload_mutation_swap_pos2)];
   [c.(payload_mutation_min_size)]; [c.(payload_mutation_max_size)];
   [c.(payload_mutation_every_n_packets)]; [c.(payload_mutation_dry_run)];
   [c.(payload_mutation_max_buffer_size)]; c.(payload_mutation_reserved)].

Definition of_fields (l : list (list Z)) : option FaultcoreConfig :=
  match l with
  | [[v0]; [v1]; [v2]; [v3]; [v4]; [v5]; [v6]; [v7]; [v8]; [v9]; [v10]; [v11]; [v12];
    [v13]; [v14]; [v15]; [v16]; [v17]; [v18]; [v19]; [v20]; [v21]; [v22]; [v23]; [v24];
    [v25]; [v26]; [v27]; [v28]; [v29]; [v30]; [v31]; [v32]; [v33]; [v34]; [v35]; [v36];
    [v37]; [v38]; [v39]; [v40]; [v41]; [v42]; [v43]; [v44]; [v45]; [v46]; [v47]; [v48];
    [v49]; v50; v51; v52; [v53]; [v54]; [v55]; [v56]; [v57]; [v58]; [v59]; [v60]; [v61];
    [v62]; [v63]; [v64]; [v65]; [v66]; [v67]; [v68]; [v69]; v70; [v71]; v72; [v73]; v74;
    [v75]; [v76]; [v77]; [v78]; [v79]; [v80]; [v81]; [v82]; v83] =>
      Some (mkFaultcoreConfig
        v0 v1 v2 v3 v4 v5 v6 v7 v8 v9 v10 v11 v12 v13 v14 v15 v16 v17 v18 v19 v20 v21
        v22 v23 v24 v25 v26 v27 v28 v29 v30 v31 v32 v33 v34 v35 v36 v37 v38 v39 v40 v41
        v42 v43 v44 v45 v46 v47 v48 v49 v50 v51 v52 v53 v54 v55 v56 v57 v58 v59 v60 v61
        v62 v63 v64 v65 v66 v67 v68 v69 v70 v71 v72 v73 v74 v75 v76 v77 v78 v79 v80 v81
        v82 v83)
  | _ => None
  end.

#[global] Instance FaultcoreConfig_packed : Packed FaultcoreConfig := {
  row_layout := layout.*2;
  row_fields := to_fields;
  row_of_fields := of_fields;
}.

#[global] Instance FaultcoreConfig_packed_laws : PackedLaws FaultcoreConfig.
Proof. split; [by intros []|]. intros bs. eexists. split; reflexivity. Qed.

(* faultcore_network/src/shm_contract.rs:139-183 FaultcoreConfig::is_valid *)
Definition is_valid (c : FaultcoreConfig) : bool :=
  (c.(magic) =? FAULTCORE_MAGIC) && (c.(latency_ns) <=? MAX_LATENCY_NS) &&
  (c.(jitter_ns) <=? MAX_LATENCY_NS) && (c.(packet_loss_ppm) <=? 1000000) &&
  (c.(burst_loss_len) <=? 1000000) && (c.(bandwidth_bps) <=? MAX_BANDWIDTH_BPS) &&
  (c.(uplink_packet_loss_ppm) <=? 1000000) && (c.(downlink_packet_loss_ppm) <=? 1000000)
  && (c.(uplink_burst_loss_len) <=? 1000000) && (c.(downlink_burst_loss_len) <=? 1000000)
  && (c.(uplink_bandwidth_bps) <=? MAX_BANDWIDTH_BPS) &&
  (c.(downlink_bandwidth_bps) <=? MAX_BANDWIDTH_BPS) &&
  (c.(uplink_latency_ns) <=? MAX_LATENCY_NS) && (c.(uplink_jitter_ns) <=? MAX_LATENCY_NS)
  && (c.(downlink_latency_ns) <=? MAX_LATENCY_NS) &&
  (c.(downlink_jitter_ns) <=? MAX_LATENCY_NS) && (c.(ge_p_good_to_bad_ppm) <=? 1000000)
  && (c.(ge_p_bad_to_good_ppm) <=? 1000000) && (c.(ge_loss_good_ppm) <=? 1000000) &&
  (c.(ge_loss_bad_ppm) <=? 1000000) && (c.(conn_err_kind) <=? 3) &&
  (c.(conn_err_prob_ppm) <=? 1000000) && (c.(half_open_err_kind) <=? 3) &&
  (c.(dup_prob_ppm) <=? 1000000) && (c.(reorder_prob_ppm) <=? 1000000) &&
  (c.(reorder_window) <=? 1000000) && (c.(dns_delay_ns) <=? MAX_LATENCY_NS) &&
  (c.(dns_nxdomain_ppm) <=? 1000000) && (c.(target_enabled) <=? MAX_TARGET_RULES_PER_TID)
  && (c.(target_kind) <=? 2) && (((c.(target_address_family) =? 2) &&
  (c.(target_prefix_len) <=? 128)) || (negb (c.(target_address_family) =? 2) &&
  (c.(target_prefix_len) <=? 32))) && (c.(target_port) <=? 65535) &&
  (c.(target_protocol) <=? 2) && (c.(target_address_family) <=? 2) &&
  (c.(schedule_type) <=? 3) && (c.(session_budget_enabled) <=? 1) &&
  (c.(session_action) <=? 3) && (c.(session_error_kind) <=? 3) &&
  (c.(payload_mutation_prob_ppm) <=? 1000000) && (c.(payload_mutation_type) <=? 6) &&
  (c.(payload_mutation_target) <=? 2) && (c.(payload_mutation_dry_run) <=? 1).

(* faultcore_network/src/shm_contract.rs:185-268 FaultcoreConfig::into_network_config *)
Definition into_network_config (c : FaultcoreConfig) : Config.Config := Config.mkConfig
  (c.(latency_ns)) (c.(jitter_ns)) (c.(packet_loss_ppm)) (c.(burst_loss_len))
  (c.(bandwidth_bps)) (c.(connect_timeout_ms)) (c.(recv_timeout_ms))
  (c.(uplink_latency_ns)) (c.(uplink_jitter_ns)) (c.(uplink_packet_loss_ppm))
  (c.(uplink_burst_loss_len)) (c.(uplink_bandwidth_bps)) (c.(downlink_latency_ns))
  (c.(downlink_jitter_ns)) (c.(downlink_packet_loss_ppm)) (c.(downlink_burst_loss_len))
  (c.(downlink_bandwidth_bps)) (c.(ge_enabled)) (c.(ge_p_good_to_bad_ppm))
  (c.(ge_p_bad_to_good_ppm)) (c.(ge_loss_good_ppm)) (c.(ge_loss_bad_ppm))
  (c.(conn_err_kind)) (c.(conn_err_prob_ppm)) (c.(half_open_after_bytes))
  (c.(half_open_err_kind)) (c.(dup_prob_ppm)) (c.(dup_max_extra)) (c.(reorder_prob_ppm))
  (c.(reorder_max_delay_ns)) (c.(reorder_window)) (c.(dns_delay_ns))
  (c.(dns_timeout_ms)) (c.(dns_nxdomain_ppm)) (c.(target_enabled)) (c.(target_kind))
  (c.(target_ipv4)) (c.(target_prefix_len)) (c.(target_port)) (c.(target_protocol))
  (c.(target_address_family)) (c.(target_addr)) (c.(target_hostname)) (c.(target_sni))
  (c.(session_budget_enabled)) (c.(session_max_bytes_tx)) (c.(session_max_bytes_rx))
  (c.(session_max_ops)) (c.(session_max_duration_ms)) (c.(session_action))
  (c.(session_budget_timeout_ms)) (c.(session_error_kind)) (c.(policy_seed))
  (c.(payload_mutation_enabled)) (c.(payload_mutation_prob_ppm))
  (c.(payload_mutation_type)) (c.(payload_mutation_target))
  (c.(payload_mutation_truncate_size)) (c.(payload_mutation_corrupt_count))
  (c.(payload_mutation_corrupt_seed)) (c.(payload_mutation_inject_position))
  (c.(payload_mutation_inject_data)) (c.(payload_mutation_inject_len))
  (c.(payload_mutation_replace_find)) (c.(payload_mutation_replace_find_len))
  (c.(payload_mutation_replace_with)) (c.(payload_mutation_replace_with_len))
  (c.(payload_mutation_swap_pos1)) (c.(payload_mutation_swap_pos2))
  (c.(payload_mutation_min_size)) (c.(payload_mutation_max_size))
  (c.(payload_mutation_every_n_packets)) (c.(payload_mutation_dry_run))
  (c.(payload_mutation_max_buffer_size)) (c.(ruleset_generation)) (c.(schedule_type))
  (c.(schedule_param_a_ns)) (c.(schedule_param_b_ns)) (c.(schedule_param_c_ns))
  (c.(schedule_started_monotonic_ns)).

(** The index of a field in the layout. *)
Definition field_index (n : string) : nat :=
  match list_find (λ p, p.1 = n) layout with Some (i, _) => i | None => 0 end.

End Fc.

(** ** Policy rows and target rules *)

(* faultcore_network/src/shm_contract.rs:111-119 PolicyState *)
Definition policy_state_layout : list field :=
  [U32; Bytes 32; Bytes 1; Bytes 3; U64; U64].

Module Rule.

(* faultcore_network/src/shm_contract.rs:121-136 TargetRule *)
Record TargetRule : Type := mkTargetRule {
  enabled : Z;
  priority : Z;
  kind : Z;
  ipv4 : Z;
  prefix_len : Z;
  port : Z;
  protocol : Z;
  reserved : Z;
  address_family : Z;
  addr : list Z;
  hostname : list Z;
  sni : list Z
}.

#[global] Instance eta_TargetRule : Eta TargetRule := λ r, mkTargetRule
  (r.(enabled)) (r.(priority)) (r.(kind)) (r.(ipv4)) (r.(prefix_len)) (r.(port))
  (r.(protocol)) (r.(reserved)) (r.(address_family)) (r.(addr)) (r.(hostname)) (r.(sni)).

Definition TargetRule_default : TargetRule :=
  mkTargetRule 0 0 0 0 0 0 0 0 0 (replicate 16 0) (replicate 32 0) (replicate 32 0).

#[global] Instance TargetRule_packed : Packed TargetRule := {
  row_layout := replicate 9 U64 ++ [Bytes 16; Bytes 32; Bytes 32];
  row_fields r := [[r.(enabled)]; [r.(priority)]; [r.(kind)]; [r.(ipv4)]; [r.(prefix_len)];
    [r.(port)]; [r.(protocol)]; [r.(reserved)]; [r.(address_family)]; r.(addr);
    r.(hostname); r.(sni)];
  row_of_fields l :=
    match l with
    | [[a]; [b]; [c]; [d]; [e]; [f]; [g]; [h]; [i]; j; k; m] =>
        Some (mkTargetRule a b c d e f g h i j k m)
    | _ => None
    end;
}.

#[global] Instance TargetRule_packed_laws : PackedLaws TargetRule.
Proof. split; [by intros []|]. intros bs. eexists. split; reflexivity. Qed.

End Rule.

(** [core::mem::size_of] of the three row types. *)
Definition CONFIG_SIZE : Z := Z.of_nat (row_size (row_layout Fc.FaultcoreConfig)).
Definition POLICY_SIZE : Z := Z.of_nat (row_size policy_state_layout).
Definition RULE_SIZE : Z := Z.of_nat (row_size (row_layout Rule.TargetRule)).

(* faultcore_network/src/shm_contract.rs:10-14 FAULTCORE_SHM_SIZE *)
Definition FAULTCORE_SHM_SIZE : Z :=
  (MAX_FDS + MAX_TIDS) * CONFIG_SIZE + MAX_POLICIES * POLICY_SIZE +
  MAX_TIDS * MAX_TARGET_RULES_PER_TID * RULE_SIZE + MAX_FDS * 8.

Example CONFIG_SIZE_880 : CONFIG_SIZE = 880.
Proof. reflexivity. Qed.

Example RULE_SIZE_152 : RULE_SIZE = 152.
Proof. reflexivity. Qed.

(** ** Facts about rows *)

Lemma generation_field :
  (row_layout Fc.FaultcoreConfig) !! Fc.field_index "ruleset_generation" = Some U64 ∧
  field_offset (row_layout Fc.FaultcoreConfig) (Fc.field_index "ruleset_generation") = 376%nat.
Proof. by split. Qed.

Lemma row_fields_generation (c : Fc.FaultcoreConfig) g :
  row_fields (c <| Fc.ruleset_generation := g |>) =
    <[Fc.field_index "ruleset_generation" := [g]]> (row_fields c).
Proof. done. Qed.

(** Overwriting the eight bytes at offset 376 of a row is assigning the field. *)
Lemma splice_generation (c : Fc.FaultcoreConfig) g :
  row_wf c → splice 376 (le_bytes 8 g) (encode c) = encode (c <| Fc.ruleset_generation := g |>).
Proof.
  intros Hwf. destruct generation_field as [Hi Ho]. unfold encode.
  rewrite row_fields_generation, <- (splice_enc_row _ _ _ _ [g] Hwf Hi eq_refl), Ho.
  done.
Qed.

Lemma generation_bytes (c : Fc.FaultcoreConfig) :
  row_wf c → take 8 (drop 376 (encode c)) = le_bytes 8 c.(Fc.ruleset_generation).
Proof.
  intros Hwf. destruct generation_field as [Hi Ho].
  pose proof (field_bytes_enc_row _ _ _ U64 [c.(Fc.ruleset_generation)] Hwf Hi eq_refl) as E.
  rewrite Ho in E. exact E.
Qed.

Lemma row_wf_generation (c : Fc.FaultcoreConfig) g :
  row_wf c → is_u64 g → row_wf (c <| Fc.ruleset_generation := g |>).
Proof.
  intros Hwf Hg. unfold row_wf. rewrite row_fields_generation.
  destruct generation_field as [Hi _].
  rewrite <- (list_insert_id _ _ _ Hi). apply Forall2_insert; [done|].
  split; [done|]. by constructor.
Qed.

(** A decidable form of the type invariant. *)
#[export] Instance field_wf_dec f v : Decision (field_wf f v).
Proof. unfold field_wf. apply _. Defined.
#[export] Instance row_wf_dec `{Packed R} (r : R) : Decision (row_wf r).
Proof. unfold row_wf. apply _. Defined.

Lemma u64_field_range x : field_wf U64 [x] → is_u64 x.
Proof. intros [_ H]. by inversion H. Qed.

Lemma bytes_field_range n v : field_wf (Bytes n) v → length v = n ∧ Forall is_byte v.
Proof. intros [H1 H2]. done. Qed.

(** The row's type invariant carries over to the engine's configuration. *)
Lemma into_network_config_wf c : row_wf c → Config_wf (Fc.into_network_config c).
Proof.
  intros H. unfold row_wf in H.
  change (row_layout Fc.FaultcoreConfig) with (Fc.layout.*2) in H.
  cbn [row_fields Fc.FaultcoreConfig_packed Fc.to_fields Fc.layout fmap list_fmap snd] in H.
  unfold Fc.to_fields in H.
  repeat match goal with
    | H : Forall2 _ (_ :: _) (_ :: _) |- _ => apply Forall2_cons in H as [? H]
    end.
  destruct c; cbn in *.
  repeat match goal with
    | H : field_wf (Bytes _) _ |- _ => apply bytes_field_range in H as [? ?]
    end.
  split_and!; try done. cbn. by repeat (apply Forall_cons_2; [by apply u64_field_range|]).
Qed.

(** What [is_valid] promises the engine. *)
Definition limits (c : Config) : Prop :=
  Forall (λ f, f c ≤ MAX_LATENCY_NS)
    [latency_ns; jitter_ns; uplink_latency_ns; uplink_jitter_ns; downlink_latency_ns;
     downlink_jitter_ns; dns_delay_ns] ∧
  Forall (λ f, f c ≤ 1000000)
    [packet_loss_ppm; burst_loss_len; uplink_packet_loss_ppm; downlink_packet_loss_ppm;
     uplink_burst_loss_len; downlink_burst_loss_len; ge_p_good_to_bad_ppm;
     ge_p_bad_to_good_ppm; ge_loss_good_ppm; ge_loss_bad_ppm; conn_err_prob_ppm;
     dup_prob_ppm; reorder_prob_ppm; reorder_window; dns_nxdomain_ppm;
     payload_mutation_prob_ppm] ∧
  Forall (λ f, f c ≤ MAX_BANDWIDTH_BPS) [bandwidth_bps; uplink_bandwidth_bps; downlink_bandwidth_bps] ∧
  Forall (λ f, f c ≤ 3)
    [conn_err_kind; half_open_err_kind; schedule_type; session_action; session_error_kind] ∧
  Forall (λ f, f c ≤ 2)
    [target_kind; target_protocol; target_address_family; payload_mutation_target] ∧
  c.(payload_mutation_type) ≤ 6 ∧ c.(target_port) ≤ 65535 ∧
  c.(target_enabled) ≤ MAX_TARGET_RULES_PER_TID ∧
  c.(target_prefix_len) ≤ (if c.(target_address_family) =? 2 then 128 else 32).

Lemma is_valid_limits c : Fc.is_valid c = true → limits (Fc.into_network_config c).
Proof.
  unfold Fc.is_valid. intros H.
  repeat match goal with
    | H : _ && _ = true |- _ => apply andb_true_iff in H as [H ?]
    end.
  repeat match goal with H : (_ <=? _) = true |- _ => apply Z.leb_le in H end.
  destruct c; cbn in *. unfold limits; cbn. split_and!; try assumption;
    try (by repeat (apply Forall_cons_2; [assumption|])).
  case_match; lia.
Qed.
