(* ===== verification/RustStr.v ===== *)
(** * Rust strings

    A [str] is the list of its characters, as Unicode scalar values; this file
    defines the standard-library operations the code applies to names:
    [std::str::from_utf8], [trim], [trim_end_matches], [to_ascii_lowercase],
    [strip_prefix], [strip_suffix] and [ends_with]. *)

From Stdlib Require Import Ascii String.
From S2P Require Import Prelude.

Open Scope Z_scope.

Definition str : Type := list Z.

(** The characters of an ASCII literal. *)
Fixpoint lit (s : string) : str :=
  match s with
  | EmptyString => []
  | String a s => Z.of_N (N_of_ascii a) :: lit s
  end.

(** A character: a Unicode scalar value. *)
Definition is_scalar (c : Z) : Prop := 0 ≤ c < 0x110000 ∧ ¬ (0xD800 ≤ c < 0xE000).

#[export] Instance is_scalar_dec c : Decision (is_scalar c).
Proof. unfold is_scalar. apply _. Defined.

(** ** UTF-8 *)

Definition is_cont (b : Z) : bool := (128 <=? b) && (b <? 192).

Fixpoint from_utf8 (bs : list Z) : option str :=
  match bs with
  | [] => Some []
  | b0 :: t0 =>
      if b0 <? 128 then cons b0 <$> from_utf8 t0 else
      match t0 with
      | b1 :: t1 =>
          if (194 <=? b0) && (b0 <? 224) && is_cont b1
          then cons ((b0 - 192) * 64 + (b1 - 128)) <$> from_utf8 t1 else
          match t1 with
          | b2 :: t2 =>
              let c := ((b0 - 224) * 64 + (b1 - 128)) * 64 + (b2 - 128) in
              if (224 <=? b0) && (b0 <? 240) && is_cont b1 && is_cont b2 &&
                 (2048 <=? c) && negb ((0xD800 <=? c) && (c <? 0xE000))
              then cons c <$> from_utf8 t2 else
              match t2 with
              | b3 :: t3 =>
                  let c := (((b0 - 240) * 64 + (b1 - 128)) * 64 + (b2 - 128)) * 64 +
                           (b3 - 128) in
                  if (240 <=? b0) && (b0 <? 245) && is_cont b1 && is_cont b2 && is_cont b3 &&
                     (65536 <=? c) && (c <? 0x110000)
                  then cons c <$> from_utf8 t3 else None
              | [] => None
              end
          | [] => None
          end
      | [] => None
      end
  end.

(** [char::encode_utf8]. *)
Definition utf8_char (c : Z) : list Z :=
  if c <? 128 then [c] else
  if c <? 2048 then [192 + c / 64; 128 + c mod 64] else
  if c <? 65536 then [224 + c / 4096; 128 + c / 64 mod 64; 128 + c mod 64] else
  [240 + c / 262144; 128 + c / 4096 mod 64; 128 + c / 64 mod 64; 128 + c mod 64].

Definition as_bytes (s : str) : list Z := s ≫= utf8_char.

(** ** Trimming and case *)

(** The characters with the Unicode property [White_Space]. *)
Definition is_whitespace (c : Z) : bool :=
  ((9 <=? c) && (c <=? 13)) || (c =? 0x20) || (c =? 0x85) || (c =? 0xA0) || (c =? 0x1680) ||
  ((0x2000 <=? c) && (c <=? 0x200A)) || (c =? 0x2028) || (c =? 0x2029) || (c =? 0x202F) ||
  (c =? 0x205F) || (c =? 0x3000).

Fixpoint drop_while {A} (p : A → bool) (l : list A) : list A :=
  match l with
  | [] => []
  | x :: l' => if p x then drop_while p l' else l
  end.

Fixpoint take_while {A} (p : A → bool) (l : list A) : list A :=
  match l with
  | [] => []
  | x :: l => if p x then x :: take_while p l else []
  end.

Definition drop_while_end {A} (p : A → bool) (l : list A) : list A :=
  reverse (drop_while p (reverse l)).

Definition trim (s : str) : str := drop_while_end is_whitespace (drop_while is_whitespace s).

Definition trim_end_matches (c : Z) (s : str) : str := drop_while_end (Z.eqb c) s.

Definition lower (c : Z) : Z := if (65 <=? c) && (c <=? 90) then c + 32 else c.

Definition to_ascii_lowercase (s : str) : str := lower <$> s.

(** ** Prefixes and suffixes *)

Definition strip_prefix (p s : str) : option str :=
  if bool_decide (take (length p) s = p) then Some (drop (length p) s) else None.

Definition strip_suffix (suf s : str) : option str :=
  if bool_decide ((length suf ≤ length s)%nat ∧ drop (length s - length suf) s = suf)
  then Some (take (length s - length suf) s) else None.

Definition ends_with (s : str) (c : Z) : bool := bool_decide (last s = Some c).

(** ** Facts *)

Lemma is_cont_128 x : 0 ≤ x < 64 → is_cont (128 + x) = true.
Proof. intros. unfold is_cont. apply andb_true_iff. split; [apply Z.leb_le|apply Z.ltb_lt]; lia. Qed.

Lemma lower_idemp c : lower (lower c) = lower c.
Proof.
  unfold lower. destruct ((65 <=? c) && (c <=? 90)) eqn:E; [|by rewrite E].
  apply andb_true_iff in E as [H1 H2]. apply Z.leb_le in H1, H2.
  destruct (Z.leb_spec (c + 32) 90); [lia|]. by rewrite andb_false_r.
Qed.

Lemma to_ascii_lowercase_idemp s : to_ascii_lowercase (to_ascii_lowercase s) = to_ascii_lowercase s.
Proof.
  unfold to_ascii_lowercase. rewrite <- list_fmap_compose. apply list_fmap_ext.
  intros; apply lower_idemp.
Qed.

Lemma strip_suffix_Some suf s p : strip_suffix suf s = Some p ↔ s = p ++ suf.
Proof.
  unfold strip_suffix. case_bool_decide as H.
  - destruct H as [Hl Hd]. split.
    + intros [= <-]. rewrite <- Hd at 2. by rewrite take_drop.
    + intros ->. rewrite length_app. f_equal. rewrite take_app_le by lia.
      apply take_ge. lia.
  - split; [done|]. intros ->. destruct H. rewrite length_app. split; [lia|].
    apply drop_app_length'. lia.
Qed.

Lemma strip_prefix_Some p s t : strip_prefix p s = Some t ↔ s = p ++ t.
Proof.
  unfold strip_prefix. case_bool_decide as H.
  - split.
    + intros [= <-]. by rewrite <- H at 1; rewrite take_drop.
    + intros ->. by rewrite drop_app_length.
  - split; [done|]. intros ->. destruct H. by rewrite take_app_length.
Qed.

Lemma drop_while_suffix {A} (p : A → bool) l : ∃ k, l = k ++ drop_while p l ∧ Forall (λ x, p x = true) k.
Proof.
  induction l as [|x l (k & Hk & Hp)]; simpl; [by exists []|].
  destruct (p x) eqn:E; [|by exists []]. exists (x :: k). split; [by rewrite Hk at 1|by constructor].
Qed.

Lemma drop_while_head {A} (p : A → bool) l x : head (drop_while p l) = Some x → p x = false.
Proof. induction l as [|y l IH]; simpl; [done|]. destruct (p y) eqn:E; simpl; [done|]. by intros [= ->]. Qed.

Lemma drop_while_end_prefix {A} (p : A → bool) l :
  ∃ k, l = drop_while_end p l ++ k ∧ Forall (λ x, p x = true) k.
Proof.
  destruct (drop_while_suffix p (reverse l)) as (k & Hk & Hp). exists (reverse k). split.
  - unfold drop_while_end. rewrite <- reverse_app, <- Hk. by rewrite reverse_involutive.
  - by apply Forall_reverse.
Qed.

Lemma drop_while_end_last {A} (p : A → bool) l x : last (drop_while_end p l) = Some x → p x = false.
Proof. unfold drop_while_end. rewrite last_reverse. apply drop_while_head. Qed.

(** The decoder accepts what the encoder produces, one character at a time. *)
Lemma from_utf8_char c bs :
  is_scalar c → from_utf8 (utf8_char c ++ bs) = cons c <$> from_utf8 bs.
Proof.
  intros [Hc Hs]. unfold utf8_char.
  destruct (Z.ltb_spec c 128) as [|Hc1]; [cbn; by destruct (Z.ltb_spec c 128); [|lia]|].
  destruct (Z.ltb_spec c 2048) as [|Hc2].
  { pose proof (Z.div_mod c 64). pose proof (Z.mod_pos_bound c 64).
    cbn [app from_utf8]. rewrite is_cont_128 by lia.
    destruct (Z.ltb_spec (192 + c / 64) 128); [lia|].
    destruct (Z.leb_spec 194 (192 + c / 64)); [|lia].
    destruct (Z.ltb_spec (192 + c / 64) 224); [|lia]. cbn [andb].
    do 2 f_equal. lia. }
  pose proof (Z.div_mod c 64). pose proof (Z.mod_pos_bound c 64).
  pose proof (Z.div_mod (c / 64) 64). pose proof (Z.mod_pos_bound (c / 64) 64).
  assert (E1 : c / 4096 = c / 64 / 64) by (rewrite Z.div_div by lia; done).
  destruct (Z.ltb_spec c 65536) as [|Hc3].
  { cbn [app from_utf8]. rewrite !is_cont_128 by lia.
    destruct (Z.ltb_spec (224 + c / 4096) 128); [lia|].
    destruct (Z.leb_spec 194 (224 + c / 4096)); [|lia].
    destruct (Z.ltb_spec (224 + c / 4096) 224); [lia|].
    destruct (Z.leb_spec 224 (224 + c / 4096)); [|lia].
    destruct (Z.ltb_spec (224 + c / 4096) 240); [|lia]. cbn [andb].
    replace (((224 + c / 4096 - 224) * 64 + (128 + c / 64 mod 64 - 128)) * 64 +
             (128 + c mod 64 - 128)) with c by lia.
    destruct (Z.leb_spec 2048 c); [|lia].
    destruct (Z.leb_spec 0xD800 c), (Z.ltb_spec c 0xE000); done || lia. }
  pose proof (Z.div_mod (c / 4096) 64). pose proof (Z.mod_pos_bound (c / 4096) 64).
  assert (E2 : c / 262144 = c / 4096 / 64) by (rewrite Z.div_div by lia; done).
  cbn [app from_utf8]. rewrite !is_cont_128 by lia.
  destruct (Z.ltb_spec (240 + c / 262144) 128); [lia|].
  destruct (Z.leb_spec 194 (240 + c / 262144)); [|lia].
  destruct (Z.ltb_spec (240 + c / 262144) 224); [lia|].
  destruct (Z.leb_spec 224 (240 + c / 262144)); [|lia].
  destruct (Z.ltb_spec (240 + c / 262144) 240); [lia|].
  destruct (Z.leb_spec 240 (240 + c / 262144)); [|lia].
  destruct (Z.ltb_spec (240 + c / 262144) 245); [|lia]. cbn [andb].
  replace ((((240 + c / 262144 - 240) * 64 + (128 + c / 4096 mod 64 - 128)) * 64 +
            (128 + c / 64 mod 64 - 128)) * 64 + (128 + c mod 64 - 128)) with c by lia.
  destruct (Z.leb_spec 65536 c); [|lia]. destruct (Z.ltb_spec c 0x110000); [done|lia].
Qed.

Lemma from_utf8_as_bytes s : Forall is_scalar s → from_utf8 (as_bytes s) = Some s.
Proof.
  unfold as_bytes. induction 1 as [|c s Hc _ IH]; [done|].
  by rewrite bind_cons, from_utf8_char, IH.
Qed.
