(* ===== verification/ShmRuntime.v ===== *)
(** * The shared-memory runtime

    [faultcore_network/src/shm_runtime.rs]: opening the segment, the address
    arithmetic of its four regions, stable reads and generation-published writes
    of configuration rows, and the fd-owner table.  The segment is a byte
    memory addressed by the offset from its base. *)

From Stdlib Require Import Ascii String.
From S2P Require Import Prelude.
From S2P Require Import Config.
From S2P Require Import RustStr.
From S2P Require Import ShmContract.

Open Scope Z_scope.

(** ** Byte memory *)

Definition memory : Type := Z → Z.

Definition read_bytes (m : memory) (a : Z) (n : nat) : list Z :=
  (λ i : nat, m (a + Z.of_nat i)) <$> seq 0 n.

Definition write_bytes (m : memory) (a : Z) (bs : list Z) : memory :=
  λ x, if bool_decide (a ≤ x < a + Z.of_nat (length bs)) then bs !!! Z.to_nat (x - a) else m x.

Definition read_u64 (m : memory) (a : Z) : Z := le_value (read_bytes m a 8).
Definition write_u64 (m : memory) (a : Z) (v : Z) : memory := write_bytes m a (le_bytes 8 v).

(** Every cell holds a byte. *)
Definition mem_ok (m : memory) : Prop := ∀ x, is_byte (m x).

(** ** State *)

(* faultcore_network/src/shm_runtime.rs:19-22 SHM_POINTER *)
Record ShmState : Type := mkShmState {
  SHM_POINTER : Z;
  SHM_OPEN : Z;
  shm_mem : memory
}.

#[export] Instance eta_ShmState : Eta ShmState := λ s, mkShmState
  (s.(SHM_POINTER)) (s.(SHM_OPEN)) (s.(shm_mem)).

Definition INVALID_TID_SLOT : Z := u64_max.

(* faultcore_network/src/shm_runtime.rs:24-31 CONFIG_REGION_SIZE *)
Definition CONFIG_REGION_SIZE : Z := (MAX_FDS + MAX_TIDS) * CONFIG_SIZE.
Definition POLICY_REGION_OFFSET : Z := CONFIG_REGION_SIZE.
Definition POLICY_REGION_SIZE : Z := MAX_POLICIES * POLICY_SIZE.
Definition TARGET_RULES_REGION_OFFSET : Z := POLICY_REGION_OFFSET + POLICY_REGION_SIZE.
Definition TARGET_RULES_REGION_SIZE : Z := MAX_TIDS * MAX_TARGET_RULES_PER_TID * RULE_SIZE.
Definition FD_OWNER_REGION_OFFSET : Z := TARGET_RULES_REGION_OFFSET + TARGET_RULES_REGION_SIZE.
Definition OFFSET_RULESET_GENERATION : Z := 376.

(* faultcore_network/src/shm_runtime.rs:6-6 POLICY_STATE_NAME_OFFSET *)
Definition POLICY_STATE_NAME_OFFSET : Z := 4.

(* faultcore_network/src/shm_runtime.rs:33-37 tid_slot *)
Definition tid_slot (tid : Z) : Z :=
  let hash := Z.lxor (wrapping_mul (Z.lxor tid (Z.shiftr tid 16)) 0x45d9f3b)
                (Z.shiftr tid 16) in
  hash mod MAX_TIDS.

(** ** The process environment and libc

    What [try_open_shm] asks of the operating system. *)

Class Os : Type := {
  env_var : string → option string;
  getpid_str : string;
  os_shm_open : string → bool (* O_CREAT *) → Z;
  os_ftruncate : Z → Z → Z;
  os_fstat : Z → Z * Z;             (* return code, st_size *)
  os_mmap : Z → Z;                  (* address, -1 on failure *)
  os_mapped : Z → memory;           (* the contents of the mapping of a descriptor *)
}.

(* faultcore_network/src/shm_runtime.rs:52-56 ShmOpenMode *)
Inductive ShmOpenMode : Type := Creator | Consumer.

#[export] Instance ShmOpenMode_eq_dec : EqDecision ShmOpenMode.
Proof. solve_decision. Defined.

Definition ascii_lower (a : ascii) : ascii :=
  let n := N_of_ascii a in
  if ((65 <=? n) && (n <=? 90))%N then ascii_of_N (n + 32) else a.

Fixpoint string_lower (s : string) : string :=
  match s with EmptyString => EmptyString | String a s => String (ascii_lower a) (string_lower s) end.

Section os.
  Context `{Os}.

(* faultcore_network/src/shm_runtime.rs:39-44 check_enabled *)
Definition check_enabled : bool :=
  negb (bool_decide (env_var "FAULTCORE_ENABLED" ∈
    [Some "0"; Some "false"; Some "no"; Some "off"]%string)).

(* faultcore_network/src/shm_runtime.rs:46-50 get_shm_name *)
Definition get_shm_name : option string :=
  match env_var "FAULTCORE_CONFIG_SHM" with
  | Some s => if bool_decide (s = ""%string) then None else Some s
  | None => None
  end.

(* faultcore_network/src/shm_runtime.rs:58-63 shm_open_mode *)
Definition shm_open_mode : ShmOpenMode :=
  match env_var "FAULTCORE_SHM_OPEN_MODE" with
  | Some raw => if bool_decide (string_lower raw = "creator"%string) then Creator else Consumer
  | None => Consumer
  end.

(* faultcore_network/src/shm_runtime.rs:147-149 is_shm_open *)
Definition is_shm_open (s : ShmState) : bool := s.(SHM_OPEN) =? 1.

(** The segment opened and mapped: its address and what it holds. *)
(* faultcore_network/src/shm_runtime.rs:74-133 try_open_shm *)
Definition map_segment : option (Z * memory) :=
  let shm_name := default ("/faultcore_" ++ getpid_str ++ "_config")%string get_shm_name in
  let open_mode := shm_open_mode in
  let fd := os_shm_open shm_name (bool_decide (open_mode = Creator)) in
  if fd <? 0 then None else
  if negb (FAULTCORE_SHM_SIZE <? 2 ^ 63) then None else
  let sized := match open_mode with
               | Creator => 0 <=? os_ftruncate fd FAULTCORE_SHM_SIZE
               | Consumer => (0 <=? (os_fstat fd).1) && (FAULTCORE_SHM_SIZE <=? (os_fstat fd).2)
               end in
  if negb sized then None else
  let addr := os_mmap fd in
  if addr =? -1 then None else Some (addr, os_mapped fd).

(** A creator disowns every descriptor. *)
(* faultcore_network/src/shm_runtime.rs:135-138 try_open_shm *)
Definition clear_owners (open_mode : ShmOpenMode) (m : memory) : memory :=
  match open_mode with
  | Creator => write_bytes m FD_OWNER_REGION_OFFSET (replicate (Z.to_nat (8 * MAX_FDS)) 255)
  | Consumer => m
  end.

(* faultcore_network/src/shm_runtime.rs:65-145 try_open_shm *)
Definition try_open_shm : M ShmState bool := λ s,
  if negb check_enabled || is_shm_open s then (is_shm_open s, s) else
  match map_segment with
  | None => (false, s)
  | Some (addr, m) => (true, mkShmState addr 1 (clear_owners shm_open_mode m))
  end.

(** ** Addresses *)

(* faultcore_network/src/shm_runtime.rs:151-172 get_config_ptr *)
Definition get_config_ptr (s : ShmState) (tid_or_fd : Z) (is_tid : bool) : option Z :=
  if s.(SHM_POINTER) =? 0 then None else
  if is_tid then Some ((MAX_FDS + tid_slot tid_or_fd) * CONFIG_SIZE)
  else if MAX_FDS <=? tid_or_fd then None else Some (tid_or_fd * CONFIG_SIZE).

(* faultcore_network/src/shm_runtime.rs:174-180 get_target_rules_base_ptr *)
Definition get_target_rules_base_ptr (s : ShmState) : option Z :=
  if s.(SHM_POINTER) =? 0 then None else Some TARGET_RULES_REGION_OFFSET.

(* faultcore_network/src/shm_runtime.rs:182-188 get_fd_owner_base_ptr *)
Definition get_fd_owner_base_ptr (s : ShmState) : option Z :=
  if s.(SHM_POINTER) =? 0 then None else Some FD_OWNER_REGION_OFFSET.

(** Opens the segment when it is not open yet; the result is ignored. *)
Definition ensure_open (force : bool) : M ShmState unit := λ s,
  if negb (is_shm_open s) || force then (tt, (try_open_shm s).2) else (tt, s).

(** ** Stable reads *)

(** One pass of the reader's loop: the two readings of the generation and the
    row copied between them. *)
Definition observation : Type := Z * Fc.FaultcoreConfig * Z.

Definition row_at {R} `{Packed R} (dflt : R) (m : memory) (a : Z) : R :=
  default dflt (decode (read_bytes m a (row_size (row_layout R)))).

Definition observe (m : memory) (config_ptr : Z) : observation :=
  (read_u64 m (config_ptr + OFFSET_RULESET_GENERATION),
   row_at Fc.FaultcoreConfig_default m config_ptr,
   read_u64 m (config_ptr + OFFSET_RULESET_GENERATION)).

(** The loop over the observations its passes make. *)
Fixpoint stable_read (obs : list observation) : option Fc.FaultcoreConfig :=
  match obs with
  | [] => None
  | (g1, config, g2) :: obs =>
      if negb (g1 mod 2 =? 0) then stable_read obs else
      if negb (g1 =? g2) then stable_read obs else
      if Fc.is_valid config then Some config else None
  end.

(* faultcore_network/src/shm_runtime.rs:338-359 read_stable_config *)
Definition read_stable_config (m : memory) (config_ptr : Z) : option Fc.FaultcoreConfig :=
  stable_read (replicate 10 (observe m config_ptr)).

(* faultcore_network/src/shm_runtime.rs:231-245 get_config_for_fd *)
Definition get_config_for_fd (fd : Z) : M ShmState (option Fc.FaultcoreConfig) :=
  ensure_open (fd <? 0);;
  s ← get;
  mret (if fd <? 0 then None else
        config_ptr ← get_config_ptr s fd false; read_stable_config s.(shm_mem) config_ptr).

(* faultcore_network/src/shm_runtime.rs:247-258 get_config_for_tid *)
Definition get_config_for_tid (tid : Z) : M ShmState (option Fc.FaultcoreConfig) :=
  ensure_open false;;
  s ← get;
  mret (config_ptr ← get_config_ptr s tid true; read_stable_config s.(shm_mem) config_ptr).

(* faultcore_network/src/shm_runtime.rs:260-276 get_config_for_tid_slot *)
Definition get_config_for_tid_slot (slot : Z) : M ShmState (option Fc.FaultcoreConfig) :=
  ensure_open false;;
  s ← get;
  mret (if MAX_TIDS <=? slot then None else
        if s.(SHM_POINTER) =? 0 then None else
        read_stable_config s.(shm_mem) ((MAX_FDS + slot) * CONFIG_SIZE)).

(* faultcore_network/src/shm_runtime.rs:207-209 get_tid_slot_for_tid *)
Definition get_tid_slot_for_tid (tid : Z) : Z := tid_slot tid.

(* faultcore_network/src/shm_runtime.rs:190-205 get_tid_slot_for_fd *)
Definition get_tid_slot_for_fd (fd : Z) : M ShmState (option Z) :=
  ensure_open (fd <? 0);;
  s ← get;
  mret (if (fd <? 0) || (MAX_FDS <=? fd) then None else
        owners ← get_fd_owner_base_ptr s;
        let slot := read_u64 s.(shm_mem) (owners + 8 * fd) in
        if (slot =? INVALID_TID_SLOT) || (MAX_TIDS <=? slot) then None else Some slot).

(* faultcore_network/src/shm_runtime.rs:211-229 get_target_rules_for_tid_slot *)
Definition get_target_rules_for_tid_slot (slot : Z) : M ShmState (option (list Rule.TargetRule)) :=
  ensure_open false;;
  s ← get;
  mret (if MAX_TIDS <=? slot then None else
        base ← get_target_rules_base_ptr s;
        let start := slot * MAX_TARGET_RULES_PER_TID in
        Some ((λ i : nat, row_at Rule.TargetRule_default s.(shm_mem)
                            (base + (start + Z.of_nat i) * RULE_SIZE)) <$>
              seq 0 (Z.to_nat MAX_TARGET_RULES_PER_TID))).

(* faultcore_network/src/shm_runtime.rs:278-297 get_current_policy_name *)
Definition get_current_policy_name (s : ShmState) : option str :=
  if negb (is_shm_open s) then None else
  if s.(SHM_POINTER) =? 0 then None else
  let name_slice :=
    read_bytes s.(shm_mem) (POLICY_REGION_OFFSET + POLICY_STATE_NAME_OFFSET) 32 in
  let name_bytes := take_while (λ b, negb (b =? 0)) name_slice in
  match name_bytes with
  | [] => None
  | _ => from_utf8 name_bytes
  end.

(** ** Writes *)

(* faultcore_network/src/shm_runtime.rs:361-381 write_config_with_generation_publish *)
Definition write_config_with_generation_publish (m : memory) (config_ptr : Z)
    (mutate : Fc.FaultcoreConfig → Fc.FaultcoreConfig) : memory :=
  let generation_ptr := config_ptr + OFFSET_RULESET_GENERATION in
  let start_generation := Z.lor (read_u64 m generation_ptr) 1 in
  let m := write_u64 m generation_ptr start_generation in
  let config := mutate (row_at Fc.FaultcoreConfig_default m config_ptr) in
  let config := config <| Fc.ruleset_generation := start_generation |> in
  let m := write_bytes m config_ptr (encode config) in
  let published_generation := Z.land (wrapping_add start_generation 1) (u64_max - 1) in
  write_u64 m generation_ptr published_generation.

(* faultcore_network/src/shm_runtime.rs:383-397 update_config_for_tid *)
Definition update_config_for_tid (tid : Z) (mutate : Fc.FaultcoreConfig → Fc.FaultcoreConfig) :
    M ShmState bool := λ s,
  match get_config_ptr s tid true with
  | Some config_ptr =>
      (true, s <| shm_mem := write_config_with_generation_publish s.(shm_mem) config_ptr
                 (λ config, (mutate config) <| Fc.magic := FAULTCORE_MAGIC |>) |>)
  | None => (false, s)
  end.

(* faultcore_network/src/shm_runtime.rs:299-308 assign_rule_to_fd *)
Definition assign_rule_to_fd (fd tid : Z) : M ShmState unit := λ s,
  if (fd <? 0) || (MAX_FDS <=? fd) then (tt, s) else
  match get_fd_owner_base_ptr s with
  | Some owners => (tt, s <| shm_mem := write_u64 s.(shm_mem) (owners + 8 * fd) (tid_slot tid) |>)
  | None => (tt, s)
  end.

(* faultcore_network/src/shm_runtime.rs:310-324 clear_rule_for_fd *)
Definition clear_rule_for_fd (fd : Z) : M ShmState unit := λ s,
  if (fd <? 0) || (MAX_FDS <=? fd) then (tt, s) else
  let s := match get_fd_owner_base_ptr s with
           | Some owners => s <| shm_mem := write_u64 s.(shm_mem) (owners + 8 * fd) INVALID_TID_SLOT |>
           | None => s
           end in
  match get_config_ptr s fd false with
  | Some fd_ptr =>
      (tt, s <| shm_mem := write_config_with_generation_publish s.(shm_mem) fd_ptr
                (λ _, Fc.FaultcoreConfig_default) |>)
  | None => (tt, s)
  end.

(* faultcore_network/src/shm_runtime.rs:326-336 clone_rule_for_fd *)
Definition clone_rule_for_fd (src_fd dst_fd : Z) : M ShmState unit := λ s,
  if (src_fd <? 0) || (dst_fd <? 0) || (MAX_FDS <=? src_fd) || (MAX_FDS <=? dst_fd)
  then (tt, s) else
  match get_fd_owner_base_ptr s with
  | Some owners =>
      let src_slot := read_u64 s.(shm_mem) (owners + 8 * src_fd) in
      (tt, s <| shm_mem := write_u64 s.(shm_mem) (owners + 8 * dst_fd) src_slot |>)
  | None => (tt, s)
  end.

End os.

(** ** Facts about the byte memory *)

Lemma length_read_bytes m a n : length (read_bytes m a n) = n.
Proof. unfold read_bytes. by rewrite length_fmap, length_seq. Qed.

Lemma lookup_read_bytes m a n i :
  (i < n)%nat → read_bytes m a n !! i = Some (m (a + Z.of_nat i)).
Proof. intros. unfold read_bytes. rewrite list_lookup_fmap, lookup_seq_lt by done. done. Qed.

Lemma read_bytes_ext m m' a n :
  (∀ i, (i < n)%nat → m (a + Z.of_nat i) = m' (a + Z.of_nat i)) →
  read_bytes m a n = read_bytes m' a n.
Proof.
  intros H. apply list_fmap_ext. intros j i Hi. apply lookup_seq in Hi as [-> ?]. by apply H.
Qed.

Lemma read_bytes_byte m a n : mem_ok m → Forall is_byte (read_bytes m a n).
Proof. intros H. apply Forall_fmap, Forall_true. intros; apply H. Qed.

Lemma write_bytes_outside m a bs x :
  ¬ (a ≤ x < a + Z.of_nat (length bs)) → write_bytes m a bs x = m x.
Proof. intros. unfold write_bytes. by rewrite bool_decide_eq_false_2. Qed.

Lemma write_bytes_inside m a bs (i : nat) :
  (i < length bs)%nat → write_bytes m a bs (a + Z.of_nat i) = bs !!! i.
Proof.
  intros. unfold write_bytes. rewrite bool_decide_eq_true_2 by lia. f_equal. lia.
Qed.

Lemma write_bytes_ok m a bs : mem_ok m → Forall is_byte bs → mem_ok (write_bytes m a bs).
Proof.
  intros Hm Hb x. unfold write_bytes. case_bool_decide; [|done].
  destruct (lookup_lt_is_Some_2 bs (Z.to_nat (x - a))) as [y Hy]; [lia|].
  rewrite (list_lookup_total_correct _ _ _ Hy). by eapply Forall_lookup_1.
Qed.

Lemma read_write_disjoint m a n b bs :
  a + Z.of_nat n ≤ b ∨ b + Z.of_nat (length bs) ≤ a →
  read_bytes (write_bytes m b bs) a n = read_bytes m a n.
Proof. intros. apply read_bytes_ext. intros. apply write_bytes_outside. lia. Qed.

Lemma read_write_inside m a n off new :
  (off + length new ≤ n)%nat →
  read_bytes (write_bytes m (a + Z.of_nat off) new) a n = splice off new (read_bytes m a n).
Proof.
  intros H. apply list_eq. intros i.
  destruct (decide (i < n)%nat) as [Hi|Hi].
  2:{ rewrite !lookup_ge_None_2; [done| |rewrite length_read_bytes; lia].
      unfold splice. rewrite !length_app, length_take, length_drop, length_read_bytes. lia. }
  rewrite lookup_read_bytes by done. unfold splice.
  assert (Ht : length (take off (read_bytes m a n)) = off)
    by (rewrite length_take, length_read_bytes; lia).
  destruct (decide (i < off)%nat).
  { rewrite lookup_app_l, lookup_take_lt, lookup_read_bytes by lia.
    by rewrite write_bytes_outside by lia. }
  rewrite lookup_app_r by lia. rewrite Ht.
  destruct (decide (i < off + length new)%nat).
  - rewrite lookup_app_l by lia.
    replace (a + Z.of_nat i) with (a + Z.of_nat off + Z.of_nat (i - off)) by lia.
    rewrite write_bytes_inside by lia. symmetry. apply list_lookup_lookup_total_lt. lia.
  - rewrite lookup_app_r, lookup_drop by lia.
    replace (off + length new + (i - off - length new))%nat with i by lia.
    rewrite lookup_read_bytes by lia. by rewrite write_bytes_outside by lia.
Qed.

Lemma take_drop_read_bytes m a n off k :
  (off + k ≤ n)%nat → take k (drop off (read_bytes m a n)) = read_bytes m (a + Z.of_nat off) k.
Proof.
  intros H. apply list_eq. intros i. destruct (decide (i < k)%nat) as [Hlt|Hge].
  - rewrite lookup_take_lt, lookup_drop, !lookup_read_bytes by lia. do 2 f_equal. lia.
  - rewrite !lookup_ge_None_2; [done|rewrite length_read_bytes; lia|rewrite length_take; lia].
Qed.

Lemma read_write_same m a n bs : length bs = n → read_bytes (write_bytes m a bs) a n = bs.
Proof.
  intros <-. rewrite <- (Z.add_0_r a) at 1. rewrite (read_write_inside m a _ 0) by done.
  unfold splice. rewrite drop_ge by (rewrite length_read_bytes; lia).
  by rewrite app_nil_r.
Qed.

Lemma read_write_u64 m a v : is_u64 v → read_u64 (write_u64 m a v) a = v.
Proof.
  intros. unfold read_u64, write_u64. rewrite read_write_same by apply length_le_bytes.
  by apply le_value_bytes.
Qed.

Lemma read_write_u64_ne m a b v :
  a + 8 ≤ b ∨ b + 8 ≤ a → read_u64 (write_u64 m b v) a = read_u64 m a.
Proof.
  intros. unfold read_u64, write_u64. rewrite read_write_disjoint; [done|].
  rewrite length_le_bytes. lia.
Qed.

Lemma read_u64_range m a : mem_ok m → is_u64 (read_u64 m a).
Proof.
  intros Hm. pose proof (le_value_bound (read_bytes m a 8) (read_bytes_byte m a 8 Hm)) as H.
  by rewrite length_read_bytes in H.
Qed.

Lemma write_u64_ok m a v : mem_ok m → mem_ok (write_u64 m a v).
Proof. intros. apply write_bytes_ok; [done|apply le_bytes_byte]. Qed.

Lemma write_u64_outside m a v x : ¬ (a ≤ x < a + 8) → write_u64 m a v x = m x.
Proof. intros. apply write_bytes_outside. by rewrite length_le_bytes. Qed.

(** ** Rows in memory *)

Section rows.
Context `{PackedLaws R} (dflt : R).

Lemma row_at_bytes m a :
  mem_ok m → encode (row_at dflt m a) = read_bytes m a (row_size (row_layout R)).
Proof.
  intros Hm. unfold row_at.
  destruct (encode_decode (R:=R) (read_bytes m a (row_size (row_layout R)))) as (r & -> & Hr);
    [by apply read_bytes_byte|apply length_read_bytes|done].
Qed.

Lemma row_at_encode m a (r : R) :
  row_wf r → read_bytes m a (row_size (row_layout R)) = encode r → row_at dflt m a = r.
Proof. intros Hr Hb. unfold row_at. by rewrite Hb, decode_encode. Qed.

Lemma dec_elems_wf w n bs :
  Forall is_byte bs → (w * n ≤ length bs)%nat → field_wf (Field w n) (dec_elems w n bs).
Proof.
  intros Hb. revert bs Hb; induction n as [|n IH]; intros bs Hb Hl; [by split; [|constructor]|].
  destruct (IH (drop w bs)) as [IH1 IH2]; [by apply Forall_drop|rewrite length_drop; lia|].
  split; cbn in *; [lia|]. constructor; [|done].
  pose proof (le_value_bound (take w bs)) as Hle. rewrite length_take_le in Hle by lia.
  apply Hle. by apply Forall_take.
Qed.

Lemma dec_row_wf l bs :
  Forall is_byte bs → length bs = row_size l → Forall2 field_wf l (dec_row l bs).
Proof.
  revert bs; induction l as [|[w n] l IH]; intros bs Hb Hl; cbn in *; constructor.
  - apply dec_elems_wf; [done|]. unfold field_size in *; cbn in *. lia.
  - apply IH; [by apply Forall_drop|]. rewrite length_drop. unfold row_size. lia.
Qed.

Lemma row_at_wf m a : mem_ok m → row_wf (row_at dflt m a).
Proof.
  intros Hm. unfold row_at, decode.
  destruct (row_of_dec (R:=R) (read_bytes m a (row_size (row_layout R)))) as (r & -> & Hr).
  unfold row_wf. cbn. rewrite Hr. apply dec_row_wf; [by apply read_bytes_byte|].
  apply length_read_bytes.
Qed.
End rows.

(** The generation a publishing write leaves behind. *)
Definition published (g : Z) : Z := Z.land (wrapping_add (Z.lor g 1) 1) (u64_max - 1).

Lemma lor_1_u64 g : is_u64 g → is_u64 (Z.lor g 1).
Proof.
  intros [H1 H2]. split; [apply Z.lor_nonneg; lia|].
  destruct (Z.eq_dec g 0) as [->|]; [done|].
  apply Z.log2_lt_pow2.
  - pose proof (Z.lor_nonneg g 1). assert (Z.lor g 1 ≠ 0) by (rewrite Z.lor_eq_0_iff; lia). lia.
  - rewrite Z.log2_lor by lia. change (Z.log2 1) with 0. apply Z.max_lub_lt; [|lia].
    apply Z.log2_lt_pow2; lia.
Qed.

Lemma lor_1_value g : Z.lor g 1 = g + 1 - g mod 2.
Proof.
  pose proof (Z.add_lor_land g 1) as H. change 1 with (Z.ones 1) in H at 2.
  rewrite Z.land_ones in H by lia. change (2 ^ 1) with 2 in H. lia.
Qed.

Lemma land_clear_low x : is_u64 x → Z.land x (u64_max - 1) = x - x mod 2.
Proof.
  intros Hx. pose proof (Z.land_lor_distr_r x (u64_max - 1) 1) as H.
  pose proof (Z.add_lor_land (Z.land x (u64_max - 1)) (Z.land x 1)) as Hs. rewrite <- H in Hs.
  change (Z.lor (u64_max - 1) 1) with (Z.ones 64) in Hs.
  rewrite Z.land_ones, (Z.mod_small x (2 ^ 64)) in Hs by (done || lia).
  replace (Z.land (Z.land x (u64_max - 1)) (Z.land x 1))
    with (Z.land (Z.land x x) (Z.land (u64_max - 1) 1)) in Hs.
  2:{ rewrite <- !Z.land_assoc. f_equal. rewrite !Z.land_assoc. f_equal. apply Z.land_comm. }
  change (Z.land (u64_max - 1) 1) with 0 in Hs. rewrite Z.land_0_r in Hs.
  change 1 with (Z.ones 1) in Hs at 2. rewrite Z.land_ones in Hs by lia.
  change (2 ^ 1) with 2 in Hs. lia.
Qed.

Lemma next_even_mod g : ((g + 2 - g mod 2) mod 2 ^ 64) mod 2 = 0.
Proof.
  pose proof (Z.div_mod g 2). replace (g + 2 - g mod 2) with ((g / 2 + 1) * 2) by lia.
  change (2 ^ 64) with (2 ^ 63 * 2). rewrite Zmult_mod_distr_r. apply Z_mod_mult.
Qed.

Lemma published_value g : is_u64 g → published g = (g + 2 - g mod 2) mod 2 ^ 64.
Proof.
  intros Hg. unfold published. rewrite land_clear_low by apply wrapping_add_u64.
  rewrite lor_1_value. unfold wrapping_add.
  replace (g + 1 - g mod 2 + 1) with (g + 2 - g mod 2) by lia.
  rewrite next_even_mod. lia.
Qed.

Lemma published_even g : is_u64 g → published g mod 2 = 0.
Proof. intros Hg. rewrite published_value by done. apply next_even_mod. Qed.

Lemma published_u64 g : is_u64 g → is_u64 (published g).
Proof. intros Hg. rewrite published_value by done. apply Z.mod_pos_bound. lia. Qed.

(** ** The effect of a publishing write *)

Lemma set_generation_twice (c : Fc.FaultcoreConfig) a b :
  c <| Fc.ruleset_generation := a |> <| Fc.ruleset_generation := b |> =
  c <| Fc.ruleset_generation := b |>.
Proof. by destruct c. Qed.

Abbreviation config_row m p := (row_at Fc.FaultcoreConfig_default m p).

Section publish.
Context (m : memory) (p : Z) (mutate : Fc.FaultcoreConfig → Fc.FaultcoreConfig).
Hypothesis m_ok : mem_ok m.
Let g := read_u64 m (p + OFFSET_RULESET_GENERATION).
(** What the closure of the caller sees: the old row, its generation odd. *)
Let locked := (config_row m p) <| Fc.ruleset_generation := Z.lor g 1 |>.
Hypothesis mutate_wf : row_wf (mutate locked).

Lemma locked_row :
  config_row (write_u64 m (p + OFFSET_RULESET_GENERATION) (Z.lor g 1)) p = locked.
Proof.
  assert (is_u64 (Z.lor g 1)) by (apply lor_1_u64, read_u64_range, m_ok).
  pose proof (row_at_wf Fc.FaultcoreConfig_default m p m_ok) as Hwf.
  apply row_at_encode; [by apply row_wf_generation|].
  unfold write_u64. change OFFSET_RULESET_GENERATION with (Z.of_nat 376).
  rewrite read_write_inside by (rewrite length_le_bytes; vm_compute; lia).
  rewrite <- row_at_bytes with (dflt := Fc.FaultcoreConfig_default) by done.
  by apply splice_generation.
Qed.

Lemma publish_bytes :
  read_bytes (write_config_with_generation_publish m p mutate) p
      (row_size (row_layout Fc.FaultcoreConfig)) =
    encode ((mutate locked) <| Fc.ruleset_generation := published g |>).
Proof.
  assert (Hg : is_u64 g) by apply read_u64_range, m_ok.
  assert (Hl : is_u64 (Z.lor g 1)) by by apply lor_1_u64.
  unfold write_config_with_generation_publish. fold g. rewrite locked_row.
  unfold write_u64. change OFFSET_RULESET_GENERATION with (Z.of_nat 376).
  rewrite read_write_inside by (rewrite length_le_bytes; vm_compute; lia).
  rewrite read_write_same by by apply length_encode, row_wf_generation.
  rewrite splice_generation by by apply row_wf_generation.
  fold (published g). by rewrite set_generation_twice.
Qed.

Lemma publish_row :
  config_row (write_config_with_generation_publish m p mutate) p =
    (mutate locked) <| Fc.ruleset_generation := published g |>.
Proof.
  apply row_at_encode; [|apply publish_bytes].
  apply row_wf_generation; [done|]. apply published_u64, read_u64_range, m_ok.
Qed.

Lemma publish_outside x :
  ¬ (p ≤ x < p + CONFIG_SIZE) → write_config_with_generation_publish m p mutate x = m x.
Proof.
  intros Hx. unfold write_config_with_generation_publish. fold g. rewrite locked_row.
  change CONFIG_SIZE with 880 in Hx. unfold OFFSET_RULESET_GENERATION.
  rewrite write_u64_outside by lia. rewrite write_bytes_outside.
  - by rewrite write_u64_outside by lia.
  - rewrite length_encode; [|apply row_wf_generation; [done|apply lor_1_u64, read_u64_range, m_ok]].
    change (row_size (row_layout Fc.FaultcoreConfig)) with 880%nat. lia.
Qed.

Lemma publish_ok : mem_ok (write_config_with_generation_publish m p mutate).
Proof.
  apply write_u64_ok, write_bytes_ok; [by apply write_u64_ok|apply enc_row_byte].
Qed.
End publish.

(** The generation field of a row is the word the reader polls. *)
Lemma row_generation m p :
  mem_ok m → (config_row m p).(Fc.ruleset_generation) = read_u64 m (p + OFFSET_RULESET_GENERATION).
Proof.
  intros Hm. pose proof (row_at_wf Fc.FaultcoreConfig_default m p Hm) as Hwf.
  pose proof (generation_bytes _ Hwf) as H. rewrite row_at_bytes in H by done.
  assert (Hg : is_u64 (config_row m p).(Fc.ruleset_generation)).
  { destruct generation_field as [Hi _].
    destruct (Forall2_lookup_l _ _ _ _ _ Hwf Hi) as (v & Hv & Hl & Hb).
    injection Hv as <-. by inversion Hb. }
  unfold read_u64. rewrite <- (le_value_bytes 8 _ Hg), <- H. f_equal.
  change OFFSET_RULESET_GENERATION with (Z.of_nat 376).
  by rewrite <- (take_drop_read_bytes _ _ (row_size (row_layout Fc.FaultcoreConfig)))
    by (vm_compute; lia).
Qed.

(** A row at rest is read in the first pass. *)
Lemma stable_read_first g c obs :
  g mod 2 = 0 → stable_read ((g, c, g) :: obs) = if Fc.is_valid c then Some c else None.
Proof. intros Hg. cbn [stable_read]. by rewrite Hg, !Z.eqb_refl. Qed.

Lemma read_stable_even m p :
  read_u64 m (p + OFFSET_RULESET_GENERATION) mod 2 = 0 →
  read_stable_config m p = if Fc.is_valid (config_row m p) then Some (config_row m p) else None.
Proof. intros. by apply stable_read_first. Qed.

(** ** Addresses of rows *)

Lemma tid_slot_range tid : 0 ≤ tid_slot tid < MAX_TIDS.
Proof. apply Z.mod_pos_bound. done. Qed.

Lemma tid_slot_small tid : 0 ≤ tid < 65536 → tid_slot tid = (tid * 0x45d9f3b) mod 65536.
Proof.
  intros H. unfold tid_slot.
  assert (E : Z.shiftr tid 16 = 0) by (rewrite Z.shiftr_div_pow2, Z.div_small by lia; done).
  rewrite E, !Z.lxor_0_r. unfold wrapping_mul. change MAX_TIDS with 65536.
  f_equal. apply Z.mod_small. lia.
Qed.

Lemma get_config_ptr_Some s i t p :
  get_config_ptr s i t = Some p →
  s.(SHM_POINTER) ≠ 0 ∧
  p = (if t then MAX_FDS + tid_slot i else i) * CONFIG_SIZE ∧ (t = false → i < MAX_FDS).
Proof.
  unfold get_config_ptr. destruct (Z.eqb_spec s.(SHM_POINTER) 0); [done|].
  destruct t; [|destruct (Z.leb_spec MAX_FDS i)]; intros; simplify_eq; repeat split; done || lia.
Qed.

(** The segment is mapped and its memory holds bytes. *)
Definition ready (s : ShmState) : Prop :=
  s.(SHM_OPEN) = 1 ∧ s.(SHM_POINTER) ≠ 0 ∧ mem_ok s.(shm_mem).

Lemma ready_open s : ready s → is_shm_open s = true.
Proof. intros (H & _). unfold is_shm_open. by rewrite H. Qed.

Lemma ready_config_ptr_tid s tid :
  ready s → get_config_ptr s tid true = Some ((MAX_FDS + tid_slot tid) * CONFIG_SIZE).
Proof. intros (_ & H & _). unfold get_config_ptr. by rewrite (proj2 (Z.eqb_neq _ _) H). Qed.

Lemma ready_config_ptr_fd s fd :
  ready s → fd < MAX_FDS → get_config_ptr s fd false = Some (fd * CONFIG_SIZE).
Proof.
  intros (_ & H & _) Hfd. unfold get_config_ptr. rewrite (proj2 (Z.eqb_neq _ _) H).
  by rewrite (proj2 (Z.leb_gt _ _) Hfd).
Qed.

Lemma ready_owner_base s : ready s → get_fd_owner_base_ptr s = Some FD_OWNER_REGION_OFFSET.
Proof.
  intros (_ & H & _). unfold get_fd_owner_base_ptr. by rewrite (proj2 (Z.eqb_neq _ _) H).
Qed.

Lemma ready_mem s m : ready s → mem_ok m → ready (s <| shm_mem := m |>).
Proof. intros (? & ? & ?) ?. by split. Qed.

(** The slot an owner word stands for. *)
Definition slot_of_word (slot : Z) : option Z :=
  if (slot =? INVALID_TID_SLOT) || (MAX_TIDS <=? slot) then None else Some slot.

Section ready.
Context `{Os} (s : ShmState) (Hs : ready s).

Lemma ensure_open_ready : ensure_open false s = (tt, s).
Proof. unfold ensure_open. by rewrite ready_open. Qed.

Lemma get_config_for_tid_ready tid :
  get_config_for_tid tid s =
    (read_stable_config s.(shm_mem) ((MAX_FDS + tid_slot tid) * CONFIG_SIZE), s).
Proof.
  unfold get_config_for_tid. run_simpl. rewrite ensure_open_ready. run_simpl.
  by rewrite ready_config_ptr_tid.
Qed.

Lemma get_config_for_fd_ready fd :
  0 ≤ fd < MAX_FDS →
  get_config_for_fd fd s = (read_stable_config s.(shm_mem) (fd * CONFIG_SIZE), s).
Proof.
  intros Hfd. unfold get_config_for_fd. rewrite (proj2 (Z.ltb_ge fd 0)) by lia.
  run_simpl. rewrite ensure_open_ready. run_simpl.
  by rewrite ready_config_ptr_fd by (done || lia).
Qed.

Lemma get_tid_slot_for_fd_ready fd :
  0 ≤ fd < MAX_FDS →
  get_tid_slot_for_fd fd s =
    (slot_of_word (read_u64 s.(shm_mem) (FD_OWNER_REGION_OFFSET + 8 * fd)), s).
Proof.
  intros Hfd. unfold get_tid_slot_for_fd. rewrite (proj2 (Z.ltb_ge fd 0)) by lia.
  run_simpl. rewrite ensure_open_ready. run_simpl.
  rewrite ready_owner_base, (proj2 (Z.leb_gt _ _)) by (done || lia). done.
Qed.
End ready.

(** ** Properties *)

(** Layout of the segment.  Every configuration row the address arithmetic
    yields lies in the configuration region, the four regions tile the segment
    exactly, and two rows are the same or disjoint: the same exactly when both
    are fd rows of one descriptor or both thread rows of one slot. *)
Theorem config_rows_disjoint s a ta b tb pa pb :
  0 ≤ a → 0 ≤ b → get_config_ptr s a ta = Some pa → get_config_ptr s b tb = Some pb →
  0 ≤ pa ∧ pa + CONFIG_SIZE ≤ POLICY_REGION_OFFSET ∧
  FD_OWNER_REGION_OFFSET + 8 * MAX_FDS = FAULTCORE_SHM_SIZE ∧
  (pa = pb ∨ pa + CONFIG_SIZE ≤ pb ∨ pb + CONFIG_SIZE ≤ pa) ∧
  (pa = pb ↔ ta = tb ∧ (if ta then tid_slot a = tid_slot b else a = b)).
Proof.
  intros Ha Hb (_ & -> & Hfa)%get_config_ptr_Some (_ & -> & Hfb)%get_config_ptr_Some.
  pose proof (tid_slot_range a) as Hra. pose proof (tid_slot_range b) as Hrb.
  change MAX_TIDS with 65536 in *. change CONFIG_SIZE with 880.
  change POLICY_REGION_OFFSET with (196608 * 880). change MAX_FDS with 131072 in *.
  destruct ta, tb; try specialize (Hfa eq_refl); try specialize (Hfb eq_refl);
    repeat split; try lia; try (intros [? ?]; lia || done); vm_compute; done.
Qed.

(** Thread slots do not collide.  The row index of a thread is below
    [MAX_TIDS], and the hash is injective on thread ids below 65536, although it
    multiplies: the multiplier is odd, hence invertible modulo the table size. *)
Theorem tid_slot_injective a b :
  0 ≤ a < 65536 → 0 ≤ b < 65536 →
  0 ≤ tid_slot a < MAX_TIDS ∧ (tid_slot a = tid_slot b → a = b).
Proof.
  intros Ha Hb. split; [apply tid_slot_range|]. rewrite !tid_slot_small by done. intros E.
  assert (Hinv : ∀ x, 0 ≤ x < 65536 → ((x * 0x45d9f3b) mod 65536 * 57843) mod 65536 = x).
  { intros x Hx. rewrite Zmult_mod_idemp_l. rewrite <- Z.mul_assoc.
    rewrite <- Zmult_mod_idemp_r. change ((0x45d9f3b * 57843) mod 65536) with 1.
    rewrite Z.mul_1_r. by apply Z.mod_small. }
  rewrite <- (Hinv a), <- (Hinv b) by done. by rewrite E.
Qed.

Lemma read_stable_ext m m' p :
  (∀ x, p ≤ x < p + CONFIG_SIZE → m x = m' x) → read_stable_config m p = read_stable_config m' p.
Proof.
  intros H. assert (E : observe m p = observe m' p).
  { change CONFIG_SIZE with 880 in H. unfold observe, row_at, read_u64.
    change OFFSET_RULESET_GENERATION with 376.
    rewrite (read_bytes_ext m m' (p + 376)) by (intros; apply H; lia).
    rewrite (read_bytes_ext m m' p); [done|]. intros i Hi. apply H.
    change (row_size (row_layout Fc.FaultcoreConfig)) with 880%nat in Hi. lia. }
  unfold read_stable_config. by rewrite E.
Qed.

Lemma row_wf_magic (c : Fc.FaultcoreConfig) g :
  row_wf c → is_u32 g → row_wf (c <| Fc.magic := g |>).
Proof.
  intros Hwf Hg. unfold row_wf.
  change (row_fields (c <| Fc.magic := g |>)) with (<[0%nat := [g]]> (row_fields c)).
  rewrite <- (list_insert_id (row_layout Fc.FaultcoreConfig) 0 U32) by done.
  apply Forall2_insert; [done|]. split; [done|]. by constructor.
Qed.

(** What one writer of a row leaves behind, as the readers see it. *)
Lemma publish_frame m p f p' :
  mem_ok m →
  row_wf (f ((config_row m p) <| Fc.ruleset_generation :=
    Z.lor (read_u64 m (p + OFFSET_RULESET_GENERATION)) 1 |>)) →
  p' + CONFIG_SIZE ≤ p ∨ p + CONFIG_SIZE ≤ p' →
  read_stable_config (write_config_with_generation_publish m p f) p' = read_stable_config m p'.
Proof.
  intros Hm Hwf Hp. apply read_stable_ext. intros x Hx. apply publish_outside; [done|done|lia].
Qed.

Lemma publish_frame_u64 m p f a :
  mem_ok m →
  row_wf (f ((config_row m p) <| Fc.ruleset_generation :=
    Z.lor (read_u64 m (p + OFFSET_RULESET_GENERATION)) 1 |>)) →
  a + 8 ≤ p ∨ p + CONFIG_SIZE ≤ a →
  read_u64 (write_config_with_generation_publish m p f) a = read_u64 m a.
Proof.
  intros Hm Hwf Hp. unfold read_u64. f_equal. apply read_bytes_ext. intros i Hi.
  apply publish_outside; [done|done|lia].
Qed.

Lemma owner_word_above_rows i fd :
  0 ≤ i < MAX_FDS + MAX_TIDS → 0 ≤ fd →
  0 ≤ i * CONFIG_SIZE ∧ i * CONFIG_SIZE + CONFIG_SIZE ≤ FD_OWNER_REGION_OFFSET + 8 * fd.
Proof.
  change MAX_FDS with 131072. change MAX_TIDS with 65536. change CONFIG_SIZE with 880.
  change FD_OWNER_REGION_OFFSET with 252764160. lia.
Qed.

(** The successful update of a thread's row, from a mapped segment. *)
Section update.
Context `{Os} (s : ShmState) (tid : Z) (f : Fc.FaultcoreConfig → Fc.FaultcoreConfig).
Hypothesis Hs : ready s.
Let p := (MAX_FDS + tid_slot tid) * CONFIG_SIZE.
Let g := read_u64 s.(shm_mem) (p + OFFSET_RULESET_GENERATION).
Let old := (config_row s.(shm_mem) p) <| Fc.ruleset_generation := Z.lor g 1 |>.
Hypothesis f_wf : row_wf (f old).
Let stamped (c : Fc.FaultcoreConfig) := (f c) <| Fc.magic := FAULTCORE_MAGIC |>.
Let m' := write_config_with_generation_publish s.(shm_mem) p stamped.
Let row := (f old) <| Fc.magic := FAULTCORE_MAGIC |>
                   <| Fc.ruleset_generation := (g + 2 - g mod 2) mod 2 ^ 64 |>.

Lemma update_run : update_config_for_tid tid f s = (true, s <| shm_mem := m' |>).
Proof. unfold update_config_for_tid. by rewrite ready_config_ptr_tid. Qed.

Lemma stamped_wf : row_wf (stamped old).
Proof. by apply row_wf_magic. Qed.

Lemma update_ready : ready (s <| shm_mem := m' |>).
Proof. pose proof Hs as (_ & _ & Hm). by apply ready_mem, publish_ok. Qed.

Lemma update_read :
  (get_config_for_tid tid (s <| shm_mem := m' |>)).1 = if Fc.is_valid row then Some row else None.
Proof.
  pose proof Hs as (_ & _ & Hm). assert (Hg : is_u64 g) by apply read_u64_range, Hm.
  assert (Hrow : config_row m' p = row).
  { unfold m'. rewrite publish_row by (done || apply stamped_wf). by rewrite published_value. }
  rewrite get_config_for_tid_ready by apply update_ready. cbn [fst shm_mem update].
  rewrite read_stable_even; fold p; [by rewrite Hrow|].
  rewrite <- row_generation, Hrow by by apply publish_ok.
  change (((g + 2 - g mod 2) mod 2 ^ 64) mod 2 = 0). apply next_even_mod.
Qed.

Lemma update_rows i :
  0 ≤ i < MAX_FDS + MAX_TIDS → i ≠ MAX_FDS + tid_slot tid →
  read_stable_config m' (i * CONFIG_SIZE) = read_stable_config s.(shm_mem) (i * CONFIG_SIZE).
Proof.
  intros Hi Hne. pose proof Hs as (_ & _ & Hm).
  apply publish_frame; [done|apply stamped_wf|]. unfold p. change CONFIG_SIZE with 880. lia.
Qed.

Lemma update_owner_words fd :
  0 ≤ fd → read_u64 m' (FD_OWNER_REGION_OFFSET + 8 * fd) =
             read_u64 s.(shm_mem) (FD_OWNER_REGION_OFFSET + 8 * fd).
Proof.
  intros Hfd. pose proof Hs as (_ & _ & Hm). pose proof (tid_slot_range tid) as Ht.
  apply publish_frame_u64; [done|apply stamped_wf|]. right.
  apply (owner_word_above_rows (MAX_FDS + tid_slot tid) fd); unfold MAX_FDS, MAX_TIDS in *; lia.
Qed.
End update.

(** C2. Publishing a row.  In a mapped segment, updating the row of a thread
    succeeds and the next lookup of that thread returns exactly the updated row,
    stamped with the magic and the next even generation, when it is valid (and
    nothing when it is not); the rows of the threads with another slot, all fd
    rows and the whole owner table read as before. *)
Theorem update_then_get `{Os} s tid f :
  ready s →
  let p := (MAX_FDS + tid_slot tid) * CONFIG_SIZE in
  let g := read_u64 s.(shm_mem) (p + OFFSET_RULESET_GENERATION) in
  let old := (config_row s.(shm_mem) p) <| Fc.ruleset_generation := Z.lor g 1 |> in
  row_wf (f old) →
  let row := (f old) <| Fc.magic := FAULTCORE_MAGIC |>
                     <| Fc.ruleset_generation := (g + 2 - g mod 2) mod 2 ^ 64 |> in
  let s' := (update_config_for_tid tid f s).2 in
  (update_config_for_tid tid f s).1 = true ∧ ready s' ∧
  (get_config_for_tid tid s').1 = (if Fc.is_valid row then Some row else None) ∧
  (∀ tid', tid_slot tid' ≠ tid_slot tid →
     (get_config_for_tid tid' s').1 = (get_config_for_tid tid' s).1) ∧
  (∀ fd, 0 ≤ fd < MAX_FDS →
     (get_config_for_fd fd s').1 = (get_config_for_fd fd s).1 ∧
     (get_tid_slot_for_fd fd s').1 = (get_tid_slot_for_fd fd s).1).
Proof.
  intros Hs p g old Hf row s'. unfold s'. rewrite (update_run s tid f Hs). cbn [fst snd].
  pose proof (update_ready s tid f Hs) as Hs'.
  split_and!; [done|done|by apply update_read|..].
  - intros tid' Hne. rewrite !get_config_for_tid_ready by done. cbn [fst shm_mem update].
    pose proof (tid_slot_range tid') as Ht. apply update_rows; [done|done| |lia].
    unfold MAX_FDS, MAX_TIDS in *. lia.
  - intros fd Hfd. pose proof (tid_slot_range tid) as Ht.
    rewrite !get_config_for_fd_ready, !get_tid_slot_for_fd_ready by done.
    cbn [fst shm_mem update]. split.
    + apply update_rows; [done|done|..]; unfold MAX_FDS, MAX_TIDS in *; lia.
    + f_equal. apply update_owner_words; [done|done|lia].
Qed.

(** ** The owner table as a finite map *)

(** The abstract owner of a descriptor. *)
Definition owner `{Os} (s : ShmState) (fd : Z) : option Z := (get_tid_slot_for_fd fd s).1.

Definition owner_word (s : ShmState) (fd : Z) : Z :=
  read_u64 s.(shm_mem) (FD_OWNER_REGION_OFFSET + 8 * fd).

Lemma owner_ready `{Os} s fd :
  ready s → 0 ≤ fd < MAX_FDS → owner s fd = slot_of_word (owner_word s fd).
Proof. intros. unfold owner. by rewrite get_tid_slot_for_fd_ready. Qed.

Lemma slot_of_word_slot tid : slot_of_word (tid_slot tid) = Some (tid_slot tid).
Proof.
  unfold slot_of_word. pose proof (tid_slot_range tid) as H.
  rewrite (proj2 (Z.leb_gt _ _)) by lia.
  rewrite (proj2 (Z.eqb_neq _ _)); [done|]. change MAX_TIDS with 65536 in H.
  unfold INVALID_TID_SLOT, u64_max. lia.
Qed.

(** Rewrites one word of the table. *)
Definition set_owner_word (s : ShmState) (fd w : Z) : ShmState :=
  s <| shm_mem := write_u64 s.(shm_mem) (FD_OWNER_REGION_OFFSET + 8 * fd) w |>.

Lemma set_owner_ready s fd w : ready s → ready (set_owner_word s fd w).
Proof. intros Hs. pose proof Hs as (_ & _ & Hm). by apply ready_mem, write_u64_ok. Qed.

Lemma set_owner_word_spec s fd w x :
  is_u64 w → owner_word (set_owner_word s fd w) x = if decide (x = fd) then w else owner_word s x.
Proof.
  intros Hw. unfold owner_word, set_owner_word. cbn [shm_mem update].
  destruct (decide (x = fd)) as [->|]; [by apply read_write_u64|].
  apply read_write_u64_ne. lia.
Qed.

Lemma set_owner_rows s fd w i :
  0 ≤ fd → 0 ≤ i < MAX_FDS + MAX_TIDS →
  read_stable_config (set_owner_word s fd w).(shm_mem) (i * CONFIG_SIZE) =
    read_stable_config s.(shm_mem) (i * CONFIG_SIZE).
Proof.
  intros Hfd Hi. apply read_stable_ext. intros x Hx. cbn [shm_mem set_owner_word update].
  apply write_u64_outside. pose proof (owner_word_above_rows i fd Hi Hfd). lia.
Qed.

Lemma fd_guards fd :
  0 ≤ fd < MAX_FDS → (fd <? 0) = false ∧ (MAX_FDS <=? fd) = false.
Proof. lia. Qed.

Lemma assign_rule_to_fd_ready s fd tid :
  ready s → 0 ≤ fd < MAX_FDS →
  assign_rule_to_fd fd tid s = (tt, set_owner_word s fd (tid_slot tid)).
Proof.
  intros Hs Hfd. unfold assign_rule_to_fd. destruct (fd_guards fd Hfd) as [-> ->].
  by rewrite ready_owner_base.
Qed.

Lemma clone_rule_for_fd_ready s src dst :
  ready s → 0 ≤ src < MAX_FDS → 0 ≤ dst < MAX_FDS →
  clone_rule_for_fd src dst s = (tt, set_owner_word s dst (owner_word s src)).
Proof.
  intros Hs Hsrc Hdst. unfold clone_rule_for_fd.
  destruct (fd_guards src Hsrc) as [-> ->], (fd_guards dst Hdst) as [-> ->].
  by rewrite ready_owner_base.
Qed.

Lemma default_row_wf g :
  is_u64 g → row_wf (Fc.FaultcoreConfig_default <| Fc.ruleset_generation := g |>).
Proof.
  intros. apply row_wf_generation; [|done].
  apply (bool_decide_unpack (row_wf Fc.FaultcoreConfig_default)). by vm_compute.
Qed.

Lemma clear_rule_for_fd_ready s fd :
  ready s → 0 ≤ fd < MAX_FDS →
  let s1 := set_owner_word s fd INVALID_TID_SLOT in
  clear_rule_for_fd fd s =
    (tt, s1 <| shm_mem := write_config_with_generation_publish s1.(shm_mem) (fd * CONFIG_SIZE)
                            (λ _, Fc.FaultcoreConfig_default) |>).
Proof.
  intros Hs Hfd s1. unfold clear_rule_for_fd. destruct (fd_guards fd Hfd) as [-> ->].
  rewrite ready_owner_base by done. cbn [orb].
  rewrite ready_config_ptr_fd; [done|by apply set_owner_ready|lia].
Qed.

Section clear.
Context `{Os} (s : ShmState) (fd : Z).
Hypotheses (Hs : ready s) (Hfd : 0 ≤ fd < MAX_FDS).
Let s1 := set_owner_word s fd INVALID_TID_SLOT.
Let s2 := (clear_rule_for_fd fd s).2.

Lemma default_locked_wf :
  row_wf Fc.FaultcoreConfig_default.
Proof. apply (bool_decide_unpack _). by vm_compute. Qed.

Lemma clear_mem :
  s2.(shm_mem) = write_config_with_generation_publish s1.(shm_mem) (fd * CONFIG_SIZE)
                   (λ _, Fc.FaultcoreConfig_default).
Proof. unfold s2. by rewrite clear_rule_for_fd_ready. Qed.

Lemma clear_ready : ready s2.
Proof.
  unfold s2. rewrite clear_rule_for_fd_ready by done. cbn [snd].
  pose proof (set_owner_ready s fd INVALID_TID_SLOT Hs) as H1.
  apply ready_mem; [done|]. destruct H1 as (_ & _ & ?). by apply publish_ok.
Qed.

Lemma clear_owner_word x :
  0 ≤ x → owner_word s2 x = if decide (x = fd) then INVALID_TID_SLOT else owner_word s x.
Proof.
  intros Hx. rewrite <- set_owner_word_spec by done. unfold owner_word at 1.
  rewrite clear_mem. pose proof (set_owner_ready s fd INVALID_TID_SLOT Hs) as (_ & _ & Hm).
  apply publish_frame_u64; [done|apply default_locked_wf|]. right.
  apply owner_word_above_rows; [|done]. change MAX_TIDS with 65536. lia.
Qed.

Lemma clear_config : get_config_for_fd fd s2 = (None, s2).
Proof.
  rewrite get_config_for_fd_ready by (done || apply clear_ready). f_equal.
  rewrite clear_mem. pose proof (set_owner_ready s fd INVALID_TID_SLOT Hs) as (_ & _ & Hm).
  assert (Hg := read_u64_range s1.(shm_mem) (fd * CONFIG_SIZE + OFFSET_RULESET_GENERATION) Hm).
  pose proof (publish_row s1.(shm_mem) (fd * CONFIG_SIZE) (λ _, Fc.FaultcoreConfig_default)
    Hm default_locked_wf) as Hrow.
  rewrite read_stable_even; rewrite ?Hrow; [done|].
  rewrite <- row_generation by by apply publish_ok. rewrite Hrow.
  by apply published_even.
Qed.

Lemma clear_rows i :
  0 ≤ i < MAX_FDS + MAX_TIDS → i ≠ fd →
  read_stable_config s2.(shm_mem) (i * CONFIG_SIZE) =
    read_stable_config s.(shm_mem) (i * CONFIG_SIZE).
Proof.
  intros Hi Hne. rewrite clear_mem.
  pose proof (set_owner_ready s fd INVALID_TID_SLOT Hs) as (_ & _ & Hm).
  rewrite publish_frame; [apply set_owner_rows; [lia|done]|done|apply default_locked_wf|].
  change CONFIG_SIZE with 880. lia.
Qed.
End clear.

(** The owner table is a finite map.  In a mapped segment, for descriptors
    of the table: assigning binds a descriptor to the slot of the thread,
    cloning copies the binding of the source, clearing removes the binding and
    leaves the descriptor without a configuration; no other descriptor's binding
    and no thread's configuration is affected by any of the three. *)
Theorem owner_table_refines `{Os} s fd src tid x :
  ready s → 0 ≤ fd < MAX_FDS → 0 ≤ src < MAX_FDS → 0 ≤ x < MAX_FDS →
  let assigned := (assign_rule_to_fd fd tid s).2 in
  let cloned := (clone_rule_for_fd src fd s).2 in
  let cleared := (clear_rule_for_fd fd s).2 in
  owner assigned x = (if decide (x = fd) then Some (tid_slot tid) else owner s x) ∧
  owner cloned x = (if decide (x = fd) then owner s src else owner s x) ∧
  owner cleared x = (if decide (x = fd) then None else owner s x) ∧
  (get_config_for_fd fd cleared).1 = None ∧
  (∀ s' t, s' ∈ [assigned; cloned; cleared] →
     ready s' ∧ (get_config_for_tid t s').1 = (get_config_for_tid t s).1).
Proof.
  intros Hs Hfd Hsrc Hx assigned cloned cleared. pose proof Hs as (_ & _ & Hm).
  assert (Ha : assigned = set_owner_word s fd (tid_slot tid))
    by (unfold assigned; by rewrite assign_rule_to_fd_ready).
  assert (Hc : cloned = set_owner_word s fd (owner_word s src))
    by (unfold cloned; by rewrite clone_rule_for_fd_ready).
  pose proof (tid_slot_range tid) as Ht.
  assert (Hready : ∀ s', s' ∈ [assigned; cloned; cleared] → ready s').
  { intros s' Hin. rewrite !elem_of_cons, elem_of_nil in Hin.
    destruct Hin as [->|[->|[->|[]]]]; [rewrite Ha|rewrite Hc|by apply clear_ready];
      by apply set_owner_ready. }
  assert (Hua : is_u64 (tid_slot tid)) by (change MAX_TIDS with 65536 in Ht; mach).
  assert (Huc : is_u64 (owner_word s src)) by by apply read_u64_range.
  assert (Hown : ∀ s', s' ∈ [assigned; cloned; cleared] → owner s' x = slot_of_word (owner_word s' x))
    by (intros; apply owner_ready; auto).
  split_and!.
  - rewrite Hown, owner_ready, Ha, set_owner_word_spec by (done || (rewrite !elem_of_cons; tauto)).
    case_decide; [apply slot_of_word_slot|done].
  - rewrite Hown, !owner_ready, Hc, set_owner_word_spec
      by (done || (rewrite !elem_of_cons; tauto)).
    by case_decide.
  - rewrite Hown, owner_ready by (done || (rewrite !elem_of_cons; tauto)).
    unfold cleared. rewrite clear_owner_word by (done || lia). by case_decide.
  - unfold cleared. by rewrite clear_config.
  - intros s' t Hin. split; [by apply Hready|].
    rewrite !get_config_for_tid_ready by auto. cbn [fst].
    pose proof (tid_slot_range t) as Htt. rewrite !elem_of_cons, elem_of_nil in Hin.
    destruct Hin as [->|[->|[->|[]]]]; [rewrite Ha|rewrite Hc|apply clear_rows; [done..|lia|lia]];
      apply set_owner_rows; unfold MAX_FDS in *; lia.
Qed.

(** ** What a stable read returns *)

Lemma stable_read_Some obs c :
  stable_read obs = Some c →
  ∃ g, (g, c, g) ∈ obs ∧ g mod 2 = 0 ∧ Fc.is_valid c = true.
Proof.
  induction obs as [|[[g1 c'] g2] obs IH]; cbn [stable_read]; [done|]. intros H.
  destruct (Z.eqb_spec (g1 mod 2) 0) as [Heven|]; cbn [negb] in H.
  2:{ destruct (IH H) as (g & ? & ?). exists g. by split; [right|]. }
  destruct (Z.eqb_spec g1 g2) as [<-|]; cbn [negb] in H.
  2:{ destruct (IH H) as (g & ? & ?). exists g. by split; [right|]. }
  destruct (Fc.is_valid c') eqn:Hv; simplify_eq. exists g1. split; [by left|done].
Qed.

Lemma effective_limits c :
  limits c → limits (effective_for_send c) ∧ limits (effective_for_recv c).
Proof.
  unfold limits. rewrite !Forall_cons. intros H. decompose [and] H. clear H.
  split; split_and!;
    first [assumption | by apply Forall_nil |
      unfold effective_for_send, effective_for_recv, apply_direction_overrides;
      cbn [update latency_ns jitter_ns packet_loss_ppm burst_loss_len bandwidth_bps];
      destruct (0 <? _); assumption].
Qed.


(** ** Witnesses *)

Definition example_os : Os := {|
  env_var := λ _, None;
  getpid_str := "7"%string;
  os_shm_open := λ _ _, 3;
  os_ftruncate := λ _ _, 0;
  os_fstat := λ _, (0, FAULTCORE_SHM_SIZE);
  os_mmap := λ _, 4096;
  os_mapped := λ _ _, 0;
|}.

(** A freshly mapped segment, all zeros. *)
Definition example_segment : ShmState := mkShmState 4096 1 (λ _, 0).

Lemma example_segment_ready : ready example_segment.
Proof. split_and!; [done|done|]. intros x. cbn. unfold is_byte. lia. Qed.

Lemma config_rows_disjoint_witness :
  get_config_ptr example_segment 5 false = Some 4400 ∧
  get_config_ptr example_segment 1 true = Some 151214800 ∧
  (4400 = 151214800 ↔ false = true ∧ 5 = 1).
Proof.
  split; [reflexivity|]. split; [reflexivity|].
  refine (proj2 (proj2 (proj2 (proj2 (config_rows_disjoint example_segment 5 false 1 true
    4400 151214800 _ _ _ _))))); by vm_compute.
Defined.

Lemma tid_slot_injective_witness :
  tid_slot 4242 = 32678 ∧ (tid_slot 4242 = tid_slot 17 → 4242 = 17).
Proof.
  split; [reflexivity|]. refine (proj2 (tid_slot_injective 4242 17 _ _)); lia.
Defined.

Definition example_update (c : Fc.FaultcoreConfig) : Fc.FaultcoreConfig :=
  c <| Fc.latency_ns := 5000000 |>.

Lemma update_then_get_witness :
  (get_config_for_tid (H:=example_os) 1 (update_config_for_tid 1 example_update example_segment).2).1 =
    Some (Fc.FaultcoreConfig_default <| Fc.latency_ns := 5000000 |>
            <| Fc.magic := FAULTCORE_MAGIC |> <| Fc.ruleset_generation := 2 |>).
Proof.
  refine (eq_trans (proj1 (proj2 (proj2 (@update_then_get example_os example_segment 1
    example_update example_segment_ready _)))) _).
  - apply (bool_decide_unpack _). by vm_compute.
  - by vm_compute.
Defined.

Lemma owner_table_refines_witness :
  owner (H:=example_os) (assign_rule_to_fd 9 1 example_segment).2 9 = Some 40763.
Proof.
  refine (proj1 (@owner_table_refines example_os example_segment 9 9 1 9
    example_segment_ready _ _ _)); by vm_compute.
Defined.

