(* ===== verification/ConfigRace.v ===== *)
(** * Threads on one configuration row

    [faultcore_network/src/shm_runtime.rs], [write_config_with_generation_publish]
    and [read_stable_config], as a step relation.  The generation is one aligned
    word, read and written at once; the rest of the row is copied byte by byte, in
    any order, and calls of several threads and processes interleave between any
    two accesses.  [ShmRuntime] has what a call does when no other overlaps it. *)

From S2P Require Import Prelude.
From S2P Require Import ShmContract.
From S2P Require Import ShmRuntime.

Open Scope Z_scope.

Abbreviation Row := Fc.FaultcoreConfig.

Definition ROW : nat := row_size (row_layout Row).

(** The bytes of a row that are still to be copied. *)
Definition all_bytes : gset nat := set_seq 0 ROW.

(** The local row before anything is copied into it. *)
Definition no_bytes : list Z := replicate ROW 0.

(** Where a call is.  Of a write: before reading the generation, before making it
    odd, copying the row out, storing the changed row, before the new generation.
    Of a read: before a pass ([passes] are left), copying the row, before reading
    the generation again.  [since] is how many writes the read began after. *)
Inductive Pc : Type :=
  | Locking (mutate : Row → Row)
  | Marking (mutate : Row → Row) (start_generation : Z)
  | Copying (mutate : Row → Row) (start_generation : Z) (todo : gset nat) (got : list Z)
  | Storing (mutate : Row → Row) (start_generation : Z) (row : list Z) (todo : gset nat)
  | Publishing (mutate : Row → Row) (start_generation : Z)
  | Sampling (since passes : nat)
  | Loading (since passes : nat) (g1 : Z) (todo : gset nat) (got : list Z)
  | Comparing (since passes : nat) (g1 : Z) (got : list Z).

(** What an access leads to: the call goes on, or it ends. *)
Inductive Outcome : Type :=
  | More (pc : Pc)
  | Written (mutate : Row → Row)
  | Answered (since : nat) (answer : option Row).

(** [log] and [answers] remember the writes published and the reads answered. *)
Record State : Type := mkState {
  mem : memory;
  calls : gmap nat Pc;
  log : list (Row → Row);
  answers : list (nat * option Row)
}.

#[export] Instance eta_State : Eta State := λ s,
  mkState (s.(mem)) (s.(calls)) (s.(log)) (s.(answers)).

Definition State_init (m : memory) : State := mkState m ∅ [] [].

(** A thread enters a call, or makes its next access, to byte [i] of the row where
    there is a choice. *)
Inductive Action : Type :=
  | Write (thread : nat) (mutate : Row → Row)
  | Read (thread : nat)
  | Advance (thread : nat) (i : nat).

Definition decoded (got : list Z) : Row := default Fc.FaultcoreConfig_default (decode got).

Section steps.
Context (config_ptr : Z).
Abbreviation generation_ptr := (config_ptr + OFFSET_RULESET_GENERATION).

(** The next access of a write, and the memory after it. *)
(* faultcore_network/src/shm_runtime.rs:361-381 write_config_with_generation_publish *)
Definition write_step (i : nat) (pc : Pc) (m : memory) : option (Outcome * memory) :=
  match pc with
  | Locking mutate => Some (More (Marking mutate (Z.lor (read_u64 m generation_ptr) 1)), m)
  | Marking mutate start_generation =>
      Some (More (Copying mutate start_generation all_bytes no_bytes),
            write_u64 m generation_ptr start_generation)
  | Copying mutate start_generation todo got =>
      if decide (i ∈ todo) then
        let got := <[i := m (config_ptr + Z.of_nat i)]> got in
        let todo := todo ∖ {[i]} in
        Some (More
          (if decide (todo = ∅) then
             let config := (mutate (decoded got)) <| Fc.ruleset_generation := start_generation |> in
             Storing mutate start_generation (encode config) all_bytes
           else Copying mutate start_generation todo got), m)
      else None
  | Storing mutate start_generation row todo =>
      if decide (i ∈ todo) then
        let todo := todo ∖ {[i]} in
        Some (More
          (if decide (todo = ∅) then Publishing mutate start_generation
           else Storing mutate start_generation row todo),
          write_bytes m (config_ptr + Z.of_nat i) [row !!! i])
      else None
  | Publishing mutate start_generation =>
      let published_generation := Z.land (wrapping_add start_generation 1) (u64_max - 1) in
      Some (Written mutate, write_u64 m generation_ptr published_generation)
  | _ => None
  end.

(** The next access of a read. *)
(* faultcore_network/src/shm_runtime.rs:338-359 read_stable_config *)
Definition read_step (i : nat) (pc : Pc) (m : memory) : option Outcome :=
  match pc with
  | Sampling since 0 => Some (Answered since None)
  | Sampling since (S passes) =>
      let g1 := read_u64 m generation_ptr in
      Some (More (if negb (g1 mod 2 =? 0) then Sampling since passes
                  else Loading since passes g1 all_bytes no_bytes))
  | Loading since passes g1 todo got =>
      if decide (i ∈ todo) then
        let got := <[i := m (config_ptr + Z.of_nat i)]> got in
        let todo := todo ∖ {[i]} in
        Some (More (if decide (todo = ∅) then Comparing since passes g1 got
                    else Loading since passes g1 todo got))
      else None
  | Comparing since passes g1 got =>
      let g2 := read_u64 m generation_ptr in
      if negb (g1 =? g2) then Some (More (Sampling since passes)) else
      let config := decoded got in
      Some (Answered since (if Fc.is_valid config then Some config else None))
  | _ => None
  end.

Definition enter (t : nat) (pc : Pc) (s : State) : option State :=
  match s.(calls) !! t with
  | None => Some (s <| calls ::= <[t := pc]> |>)
  | Some _ => None
  end.

Definition proceed (t : nat) (o : Outcome) (s : State) : State :=
  match o with
  | More pc => s <| calls ::= <[t := pc]> |>
  | Written mutate => s <| calls ::= delete t |> <| log ::= λ l, l ++ [mutate] |>
  | Answered since answer =>
      s <| calls ::= delete t |> <| answers ::= λ l, l ++ [(since, answer)] |>
  end.

Definition is_writing (pc : Pc) : bool :=
  match pc with Sampling _ _ | Loading _ _ _ _ _ | Comparing _ _ _ _ => false | _ => true end.

Definition act (a : Action) (s : State) : option State :=
  match a with
  | Write t mutate => enter t (Locking mutate) s
  | Read t => enter t (Sampling (length s.(log)) 10) s
  | Advance t i =>
      pc ← s.(calls) !! t;
      if is_writing pc then
        r ← write_step i pc s.(mem);
        Some (proceed t r.1 (s <| mem := r.2 |>))
      else
        o ← read_step i pc s.(mem);
        Some (proceed t o s)
  end.

Definition step (s s' : State) : Prop := ∃ a, act a s = Some s'.

(** Writes keep rows well typed, as the Rust type does. *)
Definition well_typed (mutate : Row → Row) : Prop := ∀ c, row_wf c → row_wf (mutate c).

(** A step that starts no write while another is in progress. *)
Definition exclusive_step (s s' : State) : Prop :=
  ∃ a, act a s = Some s' ∧
    match a with
    | Write _ mutate =>
        well_typed mutate ∧ ∀ t pc, s.(calls) !! t = Some pc → is_writing pc = false
    | _ => True
    end.

(** The memory after writes that did not overlap anything. *)
Definition after (m : memory) (l : list (Row → Row)) : memory :=
  foldl (λ m mutate, write_config_with_generation_publish m config_ptr mutate) m l.
End steps.

Lemma elem_of_all_bytes i : i ∈ all_bytes ↔ (i < ROW)%nat.
Proof. unfold all_bytes. rewrite elem_of_set_seq. lia. Qed.

Lemma length_no_bytes : length no_bytes = ROW.
Proof. apply length_replicate. Qed.

#[local] Opaque all_bytes no_bytes.

Lemma CONFIG_SIZE_ROW : CONFIG_SIZE = Z.of_nat ROW.
Proof. done. Qed.

Lemma write_bytes_ext m m' a bs x :
  m x = m' x → write_bytes m a bs x = write_bytes m' a bs x.
Proof. intros. unfold write_bytes. by case_bool_decide. Qed.

Lemma not_left i (todo : gset nat) : i ∉ todo ∖ {[i]}.
Proof. rewrite elem_of_difference, elem_of_singleton. tauto. Qed.

Lemma still_left i j (todo : gset nat) : j ≠ i → j ∈ todo ∖ {[i]} ↔ j ∈ todo.
Proof. rewrite elem_of_difference, elem_of_singleton. tauto. Qed.

Definition writing (s : State) (t : nat) : Prop :=
  ∃ pc, s.(calls) !! t = Some pc ∧ is_writing pc = true.

Lemma writing_insert s t pc t' :
  writing (s <| calls ::= <[t := pc]> |>) t' ↔
    (t' = t ∧ is_writing pc = true) ∨ (t' ≠ t ∧ writing s t').
Proof.
  unfold writing; cbn [calls update]. split.
  - intros (pc' & [[<- <-]|[? ?]]%lookup_insert_Some & ?); [by left|].
    right. split; [done|by exists pc'].
  - intros [[-> ?]|(? & pc' & ? & ?)]; [exists pc|exists pc'];
      rewrite lookup_insert_Some; [split; [by left|done]|split; [by right|done]].
Qed.

Lemma writing_delete s t t' :
  writing (s <| calls ::= delete t |>) t' ↔ t' ≠ t ∧ writing s t'.
Proof.
  unfold writing; cbn [calls update]. setoid_rewrite lookup_delete_Some. split.
  - intros (pc & [? ?] & ?). split; [done|by exists pc].
  - intros (? & pc & ? & ?). exists pc. by split; [split|].
Qed.

(** ** Copying *)

Section copying.
Context (p : Z).
Implicit Types (m : memory) (todo : gset nat) (got : list Z).
Abbreviation generation_ptr := (p + OFFSET_RULESET_GENERATION).

Lemma write_byte m a b : write_bytes m a [b] a = b.
Proof.
  pose proof (write_bytes_inside m a [b] 0) as E. rewrite Z.add_0_r in E. apply E. cbn. lia.
Qed.

(** The bytes in [got] agree with the memory but for those in [todo]. *)
Definition loaded m (todo : gset nat) (got : list Z) : Prop :=
  length got = ROW ∧ ∀ i, (i < ROW)%nat → i ∉ todo → got !! i = Some (m (p + Z.of_nat i)).

Lemma ROW_bytes i : (i < ROW)%nat → p ≤ p + Z.of_nat i < p + CONFIG_SIZE.
Proof. rewrite CONFIG_SIZE_ROW. lia. Qed.

(** The first 376 and the last bytes of a row surround its generation. *)
Lemma read_generation m m' :
  (∀ i, (i < ROW)%nat → 376 ≤ Z.of_nat i < 384 → m (p + Z.of_nat i) = m' (p + Z.of_nat i)) →
  read_u64 m generation_ptr = read_u64 m' generation_ptr.
Proof.
  intros H. unfold read_u64. f_equal. apply read_bytes_ext. intros i Hi.
  replace (generation_ptr + Z.of_nat i) with (p + Z.of_nat (376 + i)) by (unfold OFFSET_RULESET_GENERATION; lia).
  apply H; [|lia]. change ROW with 880%nat. lia.
Qed.

Lemma loaded_init m todo : todo = all_bytes → loaded m todo no_bytes.
Proof.
  intros ->. split; [apply length_no_bytes|]. intros i Hi Hn.
  destruct Hn. exact (proj2 (elem_of_all_bytes i) Hi).
Qed.

Lemma loaded_step m m' todo got i :
  loaded m todo got → m' (p + Z.of_nat i) = m (p + Z.of_nat i) →
  loaded m (todo ∖ {[i]}) (<[i := m' (p + Z.of_nat i)]> got).
Proof.
  intros [Hl Hg] Hm. split; [by rewrite length_insert|]. intros j Hj Hn.
  destruct (decide (j = i)) as [->|Hne].
  - rewrite list_lookup_insert_eq by lia. by rewrite Hm.
  - rewrite list_lookup_insert_ne by done. apply Hg; [done|]. set_solver.
Qed.

Lemma loaded_all m got : loaded m ∅ got → got = read_bytes m p ROW.
Proof.
  intros [Hl Hg]. apply (list_eq_same_length _ _ ROW);
    [apply length_read_bytes|done|].
  intros i x y Hi Hx Hy. rewrite Hg in Hx by (done || set_solver).
  rewrite lookup_read_bytes in Hy by done. congruence.
Qed.

Lemma decoded_row m got : loaded m ∅ got → decoded got = config_row m p.
Proof. intros ->%loaded_all. done. Qed.
End copying.

(** ** The invariant *)

Section invariant.
Context (p : Z) (m0 : memory).
Hypothesis m0_ok : mem_ok m0.
Hypothesis at_rest : read_u64 m0 (p + OFFSET_RULESET_GENERATION) mod 2 = 0.
Abbreviation G := (p + OFFSET_RULESET_GENERATION).
Abbreviation Log := (list (Row → Row)).
Implicit Types (l : Log) (m : memory) (f : Row → Row).

Definition generation l : Z := read_u64 (after p m0 l) G.

(** The memory with the generation made odd, and the row a write of [f] stores. *)
Definition start l : Z := Z.lor (generation l) 1.
Definition marked l : memory := write_u64 (after p m0 l) G (start l).
Definition stored l f : list Z :=
  encode ((f (config_row (marked l) p)) <| Fc.ruleset_generation := start l |>).

Definition writer_ok l m (pc : Pc) : Prop :=
  match pc with
  | Locking f => well_typed f ∧ ∀ x, m x = after p m0 l x
  | Marking f g => well_typed f ∧ g = start l ∧ ∀ x, m x = after p m0 l x
  | Copying f g todo got =>
      well_typed f ∧ g = start l ∧ (∀ x, m x = marked l x) ∧ loaded p (marked l) todo got
  | Storing f g row todo =>
      well_typed f ∧ g = start l ∧ row = stored l f ∧ todo ⊆ all_bytes ∧
      (∀ x, ¬ (p ≤ x < p + CONFIG_SIZE) → m x = marked l x) ∧
      ∀ i, (i < ROW)%nat →
        m (p + Z.of_nat i) = if decide (i ∈ todo) then marked l (p + Z.of_nat i) else row !!! i
  | Publishing f g =>
      well_typed f ∧ g = start l ∧ ∀ x, m x = write_bytes (marked l) p (stored l f) x
  | _ => False
  end.

Definition locked (pc : Pc) : bool :=
  match pc with Copying _ _ _ _ | Storing _ _ _ _ | Publishing _ _ => true | _ => false end.

(** A pass that sampled the generation after [a] writes: as long as no other write
    has begun to store, what it has copied is the row they left. *)
Definition sampled l (lock : bool) (since : nat) (g1 : Z) (todo : gset nat) (got : list Z) : Prop :=
  ∃ a, (since ≤ a ≤ length l)%nat ∧ g1 = generation (take a l) ∧ length got = ROW ∧
    (a = length l → lock = false → loaded p (after p m0 l) todo got).

Definition reader_ok l (lock : bool) (pc : Pc) : Prop :=
  match pc with
  | Sampling since _ => (since ≤ length l)%nat
  | Loading since _ g1 todo got => sampled l lock since g1 todo got
  | Comparing since _ g1 got => sampled l lock since g1 ∅ got
  | _ => False
  end.

(** An answer is what a read would have found after some of the writes. *)
Definition answer_ok l (x : nat * option Row) : Prop :=
  match x.2 with
  | None => True
  | Some c => ∃ n, (x.1 ≤ n ≤ length l)%nat ∧ read_stable_config (after p m0 (take n l)) p = Some c
  end.

Lemma after_snoc l f :
  after p m0 (l ++ [f]) = write_config_with_generation_publish (after p m0 l) p f.
Proof. unfold after. by rewrite foldl_snoc. Qed.

(** *** The sequential writes *)

Lemma row_wf_locked m g : mem_ok m → is_u64 g → row_wf ((config_row m p) <| Fc.ruleset_generation := g |>).
Proof. intros Hm Hg. by apply row_wf_generation; [apply row_at_wf|]. Qed.

Lemma after_ok l : mem_ok (after p m0 l).
Proof.
  induction l as [|f l IH] using rev_ind; [done|]. rewrite after_snoc.
  apply write_u64_ok, write_bytes_ok; [by apply write_u64_ok|apply enc_row_byte].
Qed.

Lemma generation_u64 l : is_u64 (generation l).
Proof. apply read_u64_range, after_ok. Qed.

Lemma start_u64 l : is_u64 (start l).
Proof. apply lor_1_u64, generation_u64. Qed.

Lemma marked_ok l : mem_ok (marked l).
Proof. apply write_u64_ok, after_ok. Qed.

Lemma start_odd l : start l mod 2 = 1.
Proof. unfold start. rewrite lor_1_value. Z.div_mod_to_equations. lia. Qed.

Lemma stored_wf l f :
  well_typed f → row_wf ((f (config_row (marked l) p)) <| Fc.ruleset_generation := start l |>).
Proof. intros Hf. apply row_wf_generation; [|apply start_u64]. apply Hf, row_at_wf, marked_ok. Qed.

Lemma length_stored l f : well_typed f → length (stored l f) = ROW.
Proof. intros. by apply length_encode, stored_wf. Qed.

Lemma generation_snoc l f : well_typed f → generation (l ++ [f]) = published (generation l).
Proof.
  intros Hf. unfold generation. rewrite after_snoc.
  rewrite <- row_generation by apply publish_ok, after_ok.
  rewrite publish_row; [done|apply after_ok|].
  apply Hf, row_wf_locked; [apply after_ok|]. apply lor_1_u64, generation_u64.
Qed.

Lemma even_plus n : (generation [] + 2 * n) mod 2 ^ 64 mod 2 = 0.
Proof.
  rewrite Z.mod_mod_divide by by exists (2 ^ 63).
  change (generation []) with (read_u64 m0 G). pose proof at_rest.
  Z.div_mod_to_equations. lia.
Qed.

Lemma generation_after l :
  Forall well_typed l → generation l = (generation [] + 2 * Z.of_nat (length l)) mod 2 ^ 64.
Proof.
  induction l as [|f l IH] using rev_ind; intros Hl.
  { change (2 * Z.of_nat (length [])) with 0.
    by rewrite Z.add_0_r, Z.mod_small by apply (generation_u64 []). }
  apply Forall_app in Hl as [Hl Hf]. rewrite Forall_singleton in Hf.
  rewrite generation_snoc by done. rewrite published_value by apply generation_u64.
  rewrite IH by done. rewrite length_app. cbn [length].
  rewrite even_plus, Z.sub_0_r. rewrite Zplus_mod_idemp_l. f_equal. lia.
Qed.

Lemma generation_even l : Forall well_typed l → generation l mod 2 = 0.
Proof.
  intros. rewrite generation_after by done. apply even_plus.
Qed.

(** The generation tells apart fewer than 2^63 writes. *)
Lemma generation_inj l a :
  Forall well_typed l → Z.of_nat (length l) < 2 ^ 63 → (a ≤ length l)%nat →
  generation (take a l) = generation l → a = length l.
Proof.
  intros Hl Hb Ha. rewrite (generation_after l), (generation_after (take a l)) by (done || by apply Forall_take).
  rewrite length_take_le by done. intros E. apply Nat2Z.inj.
  assert (D : (2 * (Z.of_nat (length l) - Z.of_nat a)) mod 2 ^ 64 = 0).
  { replace (2 * (Z.of_nat (length l) - Z.of_nat a)) with
      ((generation [] + 2 * Z.of_nat (length l)) - (generation [] + 2 * Z.of_nat a)) by lia.
    rewrite Zminus_mod, E, Z.sub_diag. done. }
  rewrite Z.mod_small in D; lia.
Qed.

(** *** Reads *)

Lemma reader_mono l b pc : reader_ok l b pc → reader_ok l true pc.
Proof.
  assert (Hs : ∀ since g1 todo got, sampled l b since g1 todo got → sampled l true since g1 todo got).
  { intros ???? (a & ? & ? & ? & _). exists a.
    split_and!; [lia|lia|assumption|assumption|discriminate]. }
  destruct pc; cbn [reader_ok]; [intros []..|exact id|apply Hs|apply Hs].
Qed.

Lemma reader_grow l f b pc : reader_ok l b pc → reader_ok (l ++ [f]) false pc.
Proof.
  assert (Hs : ∀ since g1 todo got, sampled l b since g1 todo got →
    sampled (l ++ [f]) false since g1 todo got).
  { intros ???? (a & ? & Hg & ? & _). exists a. rewrite length_app. cbn [length].
    rewrite take_app_le by lia. split_and!; [lia|lia|assumption|assumption|lia]. }
  destruct pc; cbn [reader_ok]; [intros []..|rewrite length_app; lia|apply Hs|apply Hs].
Qed.

Lemma answer_grow l f x : answer_ok l x → answer_ok (l ++ [f]) x.
Proof.
  destruct x as [since [c|]]; unfold answer_ok; cbn [fst snd]; [|done]. intros (n & ? & Hn). exists n.
  rewrite length_app, take_app_le by lia. split; [lia|done].
Qed.

Lemma read_step_ok i pc l lock m o :
  Forall well_typed l → Z.of_nat (length l) < 2 ^ 63 →
  (lock = true → read_u64 m G mod 2 = 1) → (lock = false → ∀ x, m x = after p m0 l x) →
  reader_ok l lock pc → read_step p i pc m = Some o →
  match o with
  | More pc' => reader_ok l lock pc' ∧ is_writing pc' = false
  | Written _ => False
  | Answered since answer => answer_ok l (since, answer)
  end.
Proof.
  intros Hl Hb Hlock Hfree Hpc Ho.
  assert (Hgen : read_u64 m G mod 2 = 0 → lock = false ∧ read_u64 m G = generation l).
  { intros He. destruct lock; [rewrite Hlock in He by done; done|].
    split; [done|]. apply read_generation. intros. by apply Hfree. }
  destruct pc as [| | | | |since [|passes]|since passes g1 todo got|since passes g1 got];
    cbn [reader_ok read_step] in Hpc, Ho; try contradiction; [by injection Ho as <-| | |].
  - injection Ho as <-. destruct (Z.eqb_spec (read_u64 m G mod 2) 0) as [He|]; cbn [negb]; [|by split].
    destruct (Hgen He) as [_ Eg]. split; [|done]. exists (length l).
    rewrite take_ge by lia. split_and!; [lia|lia|done|apply length_no_bytes|].
    intros _ _. by apply loaded_init.
  - destruct (decide (i ∈ todo)) as [Hi|]; [|done]. simplify_eq.
    destruct Hpc as (a & Ha & Eg & Hlen & Hgot).
    assert (Hs : sampled l lock since g1 (todo ∖ {[i]}) (<[i := m (p + Z.of_nat i)]> got)).
    { exists a. split_and!; [lia|lia|done|by rewrite length_insert|]. intros E Ef.
      apply loaded_step; [by apply Hgot|by apply Hfree]. }
    destruct (decide (todo ∖ {[i]} = ∅)) as [E|]; [rewrite E in Hs|]; done.
  - destruct (Z.eqb_spec g1 (read_u64 m G)) as [E|]; cbn [negb] in Ho; simplify_eq.
    + destruct Hpc as (a & Ha & Eg & Hlen & Hgot).
      assert (He : read_u64 m G mod 2 = 0)
        by (rewrite Eg; apply generation_even; by apply Forall_take).
      destruct (Hgen He) as [Ef E]. rewrite E in Eg.
      assert (a = length l) as -> by (apply generation_inj; done || lia).
      specialize (Hgot eq_refl Ef). rewrite (decoded_row _ _ _ Hgot).
      unfold answer_ok. cbn [fst snd]. destruct (Fc.is_valid _) eqn:Hv; [|done].
      exists (length l). rewrite take_ge by lia. split; [lia|].
      rewrite read_stable_even by (fold (generation l); by apply generation_even). by rewrite Hv.
    + destruct Hpc as (a & Ha & _). cbn. split; [lia|done].
Qed.

(** *** Writes *)

Lemma generation_ext l m :
  (∀ x, m x = after p m0 l x) → read_u64 m G = generation l.
Proof. intros H. apply read_generation. intros. apply H. Qed.

(** The row stored has the odd generation in it, so storing it in any order keeps
    the generation odd. *)
Lemma stored_generation l f i :
  well_typed f → 376 ≤ Z.of_nat i < 384 →
  stored l f !!! i = marked l (p + Z.of_nat i).
Proof.
  intros Hf Hi.
  assert (E : take 8 (drop 376 (stored l f)) = le_bytes 8 (start l)).
  { unfold stored. rewrite generation_bytes by by apply stored_wf. done. }
  apply list_lookup_total_correct.
  replace i with (376 + (i - 376))%nat by lia.
  rewrite <- lookup_drop, <- (lookup_take_lt _ 8) by lia. rewrite E.
  unfold marked, write_u64.
  replace (p + Z.of_nat (376 + (i - 376))) with (G + Z.of_nat (i - 376))
    by (unfold OFFSET_RULESET_GENERATION; lia).
  rewrite write_bytes_inside by (rewrite length_le_bytes; lia).
  apply list_lookup_lookup_total_lt. rewrite length_le_bytes. lia.
Qed.

Lemma marked_generation l : read_u64 (marked l) G = start l.
Proof. apply read_write_u64, start_u64. Qed.

Lemma writer_locked l m pc :
  writer_ok l m pc → locked pc = true → read_u64 m G mod 2 = 1.
Proof.
  intros Hpc Hlock. enough (read_u64 m G = start l) as -> by apply start_odd.
  rewrite <- marked_generation. apply read_generation. intros i Hr Hi.
  destruct pc as [| |f g todo got|f g row todo|f g| | |]; cbn [locked] in Hlock; try discriminate;
    cbn [writer_ok] in Hpc.
  - apply Hpc.
  - destruct Hpc as (Hf & _ & -> & _ & _ & Hin). rewrite Hin by done.
    case_decide; [done|]. by apply stored_generation.
  - destruct Hpc as (Hf & _ & ->). rewrite write_bytes_inside by by rewrite length_stored.
    by apply stored_generation.
Qed.

Lemma writer_unlocked l m pc :
  writer_ok l m pc → locked pc = false → ∀ x, m x = after p m0 l x.
Proof. destruct pc; cbn [locked writer_ok]; try discriminate; try contradiction; tauto. Qed.

(** Having stored every byte is having written the row. *)
Lemma stored_all l f m :
  well_typed f →
  (∀ x, ¬ (p ≤ x < p + CONFIG_SIZE) → m x = marked l x) →
  (∀ i, (i < ROW)%nat → m (p + Z.of_nat i) = stored l f !!! i) →
  ∀ x, m x = write_bytes (marked l) p (stored l f) x.
Proof.
  intros Hf Hout Hin x. pose proof (length_stored l f Hf) as Hlen.
  destruct (decide (p ≤ x < p + CONFIG_SIZE)) as [Hx|Hx].
  - rewrite CONFIG_SIZE_ROW in Hx. replace x with (p + Z.of_nat (Z.to_nat (x - p))) by lia.
    rewrite Hin by lia. by rewrite write_bytes_inside by lia.
  - rewrite Hout by done. rewrite CONFIG_SIZE_ROW in Hx. by rewrite write_bytes_outside by lia.
Qed.

Lemma store_step i l f m (todo : gset nat) :
  (i < ROW)%nat →
  (∀ x, ¬ (p ≤ x < p + CONFIG_SIZE) → m x = marked l x) →
  (∀ j, (j < ROW)%nat →
     m (p + Z.of_nat j) = if decide (j ∈ todo) then marked l (p + Z.of_nat j) else stored l f !!! j) →
  let m' := write_bytes m (p + Z.of_nat i) [stored l f !!! i] in
  (∀ x, ¬ (p ≤ x < p + CONFIG_SIZE) → m' x = marked l x) ∧
  ∀ j, (j < ROW)%nat →
     m' (p + Z.of_nat j) =
       if decide (j ∈ todo ∖ {[i]}) then marked l (p + Z.of_nat j) else stored l f !!! j.
Proof.
  intros Hi Hout Hin m'. subst m'. split.
  - intros x Hx. pose proof (ROW_bytes p i Hi).
    rewrite write_bytes_outside by (cbn [length]; lia). by apply Hout.
  - intros j Hj. destruct (decide (j = i)) as [->|Hne].
    + rewrite decide_False by apply not_left.
      apply write_byte.
    + rewrite write_bytes_outside by (cbn [length]; lia). rewrite Hin by done.
      destruct (decide (j ∈ todo));
        [by rewrite decide_True by by apply still_left|].
      by rewrite decide_False by by rewrite still_left.
Qed.

Lemma publish_after l f m :
  (∀ x, m x = write_bytes (marked l) p (stored l f) x) →
  ∀ x, write_u64 m G (Z.land (wrapping_add (start l) 1) (u64_max - 1)) x = after p m0 (l ++ [f]) x.
Proof. intros H x. rewrite after_snoc. apply write_bytes_ext, H. Qed.

Lemma write_step_ok i pc l m o m' :
  writer_ok l m pc → write_step p i pc m = Some (o, m') →
  match o with
  | More pc' => writer_ok l m' pc' ∧ is_writing pc' = true ∧ (locked pc = true → locked pc' = true)
  | Written f => well_typed f ∧ ∀ x, m' x = after p m0 (l ++ [f]) x
  | Answered _ _ => False
  end.
Proof.
  intros Hpc Ho.
  destruct pc as [f|f g|f g todo got|f g row todo|f g| | |]; cbn [writer_ok] in Hpc;
    try contradiction; cbn [write_step] in Ho.
  - destruct Hpc as [Hf Hm]. injection Ho as <- <-. split; [|done].
    cbn [writer_ok]. split_and!; [done| |done]. unfold start. by rewrite (generation_ext l m).
  - destruct Hpc as (Hf & -> & Hm). injection Ho as <- <-. split; [|done].
    cbn [writer_ok]. split_and!; [done..| |by apply loaded_init]. intros x. by apply write_bytes_ext.
  - destruct Hpc as (Hf & -> & Hm & Hgot). destruct (decide (i ∈ todo)) as [Hi|]; [|done].
    injection Ho as <- <-. apply (loaded_step _ _ m _ _ i) in Hgot; [|apply Hm].
    destruct (decide (todo ∖ {[i]} = ∅)) as [E|]; [rewrite E in Hgot|done].
    rewrite (decoded_row _ _ _ Hgot). split; [|done].
    cbn [writer_ok]. split_and!; [done..|]. intros j Hj. rewrite decide_True by by apply elem_of_all_bytes. apply Hm.
  - destruct Hpc as (Hf & -> & -> & Hsub & Hout & Hin).
    destruct (decide (i ∈ todo)) as [Hi|]; [|done]. injection Ho as <- <-.
    destruct (store_step i l f m todo) as [Hout' Hin']; [by apply elem_of_all_bytes, Hsub|done..|].
    destruct (decide (todo ∖ {[i]} = ∅)) as [E|]; [|split; [|done]].
    2:{ cbn [writer_ok]. split_and!; [done..|by apply subseteq_difference_l|done|done]. }
    split; [|done]. cbn [writer_ok]. split_and!; [done..|]. apply stored_all; [done..|].
    intros j Hj. rewrite Hin' by done. by rewrite E, decide_False by apply not_elem_of_empty.
  - destruct Hpc as (Hf & -> & Hm). injection Ho as <- <-. split; [done|]. by apply publish_after.
Qed.

(** *** Runs *)

Definition call_ok l m (lock : bool) (pc : Pc) : Prop :=
  if is_writing pc then writer_ok l m pc ∧ locked pc = lock else reader_ok l lock pc.

Record race_inv (s : State) : Prop := {
  log_wt : Forall well_typed s.(log);
  lock_state : ∃ lock,
    (lock = true → read_u64 s.(mem) G mod 2 = 1 ∧ ∃ t, writing s t) ∧
    (lock = false → ∀ x, s.(mem) x = after p m0 s.(log) x) ∧
    ∀ t pc, s.(calls) !! t = Some pc → call_ok s.(log) s.(mem) lock pc;
  one_writer t1 t2 : writing s t1 → writing s t2 → t1 = t2;
  answers_ok : Forall (answer_ok s.(log)) s.(answers);
}.

Lemma enter_inv t pc s s' :
  race_inv s → enter t pc s = Some s' →
  (is_writing pc = true → ∀ t', ¬ writing s t') →
  (∀ lock, (lock = true → ∃ t', writing s t') → (lock = false → ∀ x, s.(mem) x = after p m0 s.(log) x) →
     call_ok s.(log) s.(mem) lock pc) →
  race_inv s'.
Proof.
  unfold enter. intros [Hwt (lock & Hlock & Hfree & Hcalls) Hone Hans] He Hpc Hok.
  destruct (s.(calls) !! t) eqn:Ht; [done|]. injection He as <-.
  assert (Hnt : ¬ writing s t) by (intros (? & ? & _); congruence).
  split; [done|exists lock; split_and!|..|done].
  - intros [Ho [t' Hw]]%Hlock. split; [done|]. exists t'. apply writing_insert. right.
    split; [by intros ->|done].
  - done.
  - cbn [calls update]. intros t' pc' [[<- <-]|[_ Ht']]%lookup_insert_Some; [|by eapply Hcalls].
    apply Hok; [apply Hlock|done].
  - intros t1 t2 [[-> H1]|[_ H1]]%writing_insert [[-> H2]|[_ H2]]%writing_insert;
      [done|by apply Hpc in H2|by apply Hpc in H1|by apply Hone].
Qed.

Lemma read_inv t i pc o s :
  Z.of_nat (length s.(log)) < 2 ^ 63 →
  race_inv s → s.(calls) !! t = Some pc → is_writing pc = false →
  read_step p i pc s.(mem) = Some o → race_inv (proceed t o s).
Proof.
  intros Hb [Hwt (lock & Hlock & Hfree & Hcalls) Hone Hans] Ht Hpc Ho.
  assert (Hrd := Hcalls _ _ Ht). unfold call_ok in Hrd. rewrite Hpc in Hrd.
  assert (Hok := read_step_ok i pc s.(log) lock s.(mem) o Hwt Hb
    (λ H, proj1 (Hlock H)) Hfree Hrd Ho).
  assert (Hnt : ∀ t', writing s t' → t' ≠ t) by (intros ? (? & ? & ?) ->; congruence).
  destruct o as [pc'|f|since answer]; cbn [proceed]; [destruct Hok as [Hok Hw]|done|].
  - split; [done|exists lock; split_and!|..|done].
    + intros [Ho' [t' Hw']]%Hlock. split; [done|]. exists t'. apply writing_insert.
      right. split; [by apply Hnt|done].
    + done.
    + cbn [calls update]. intros t' pc'' [[<- <-]|[_ Ht']]%lookup_insert_Some; [|by eapply Hcalls].
      unfold call_ok. by rewrite Hw.
    + intros t1 t2 [[_ ?]|[_ H1]]%writing_insert [[_ ?]|[_ H2]]%writing_insert;
        [congruence..|by apply Hone].
  - split; [done|exists lock; split_and!|..].
    + intros [Ho' [t' Hw']]%Hlock. split; [done|]. exists t'. apply (writing_delete s t t').
      split; [by apply Hnt|done].
    + done.
    + cbn [calls update]. intros t' pc'' [_ Ht']%lookup_delete_Some. by eapply Hcalls.
    + intros t1 t2 [_ H1]%(writing_delete s t t1) [_ H2]%(writing_delete s t t2). by apply Hone.
    + apply Forall_app. by split; [|apply Forall_singleton].
Qed.

Lemma write_inv t i pc o m' s :
  race_inv s → s.(calls) !! t = Some pc → is_writing pc = true →
  write_step p i pc s.(mem) = Some (o, m') → race_inv (proceed t o (s <| mem := m' |>)).
Proof.
  intros [Hwt (lock & Hlock & Hfree & Hcalls) Hone Hans] Ht Hpc Ho.
  assert (Hw := Hcalls _ _ Ht). unfold call_ok in Hw. rewrite Hpc in Hw. destruct Hw as [Hw <-].
  assert (Hok := write_step_ok i pc s.(log) s.(mem) o m' Hw Ho).
  assert (Ht' : ∀ t', writing s t' → t' = t) by (intros t' H'; apply Hone; [done|by exists pc]).
  assert (Hread : ∀ t' pc', t' ≠ t → s.(calls) !! t' = Some pc' →
    is_writing pc' = false ∧ reader_ok s.(log) (locked pc) pc').
  { intros t' pc' Hne H'. destruct (is_writing pc') eqn:Hw'; [by destruct Hne; apply Ht'; exists pc'|].
    split; [done|]. apply Hcalls in H'. unfold call_ok in H'. by rewrite Hw' in H'. }
  destruct o as [pc'|f|since answer]; cbn [proceed]; [|destruct Hok as [Hf Hm]|done].
  - destruct Hok as (Hw' & Hwr & Hkeep). split; [done|exists (locked pc'); split_and!|..|done].
    + intros Hl. split; [by eapply writer_locked|]. exists t. apply writing_insert. by left.
    + intros Hl. by eapply writer_unlocked.
    + cbn [calls update mem ConfigRace.log].
      intros t' pc'' [[<- <-]|[Hne H']]%lookup_insert_Some; unfold call_ok; [by rewrite Hwr|].
      destruct (Hread t' pc'' (not_eq_sym Hne) H') as [-> Hr].
      destruct (locked pc) eqn:El; [by rewrite Hkeep|].
      destruct (locked pc'); [by eapply reader_mono|done].
    + intros t1 t2 [[-> _]|[_ H1]]%writing_insert [[-> _]|[_ H2]]%writing_insert;
        rewrite ?(Ht' _ H1), ?(Ht' _ H2); done.
  - assert (Hnone : ∀ t', ¬ writing (s <| calls ::= delete t |>) t').
    { intros t' [Hne H']%writing_delete. by apply Hne, Ht'. }
    split; [by apply Forall_app_2, Forall_singleton|exists false; split_and!|..].
    + done.
    + done.
    + cbn [calls update mem ConfigRace.log]. intros t' pc' [Hne H']%lookup_delete_Some.
      destruct (Hread t' pc' (not_eq_sym Hne) H') as [Hrd Hr]. unfold call_ok. rewrite Hrd.
      by eapply reader_grow.
    + intros t1 t2 H1. by destruct (Hnone t1).
    + eapply Forall_impl; [done|]. intros. by apply answer_grow.
Qed.

Lemma inv_init : race_inv (State_init m0).
Proof.
  split; [done|exists false; split_and!; [done|done|]|..|done].
  - intros t pc H. cbn [State_init calls] in H. by rewrite lookup_empty in H.
  - intros t1 t2 (pc & H & _). cbn [State_init calls] in H. by rewrite lookup_empty in H.
Qed.

Lemma step_log a s s' : act p a s = Some s' → (length s.(log) ≤ length s'.(log))%nat.
Proof.
  destruct a as [t f|t|t i]; cbn; unfold enter; intros H.
  1,2: destruct (s.(calls) !! t); by simplify_eq.
  destruct (s.(calls) !! t) as [pc|]; [|done]. cbn in H.
  destruct (is_writing pc).
  - destruct (write_step p i pc s.(mem)) as [[o m']|]; [|done]. injection H as <-.
    destruct o; cbn; rewrite ?length_app; lia.
  - destruct (read_step p i pc s.(mem)) as [o|]; [|done]. injection H as <-.
    destruct o; cbn; rewrite ?length_app; lia.
Qed.

Lemma exclusive_step_inv s s' :
  (Z.of_nat (length s.(log)) < 2 ^ 63 → race_inv s) → exclusive_step p s s' →
  Z.of_nat (length s'.(log)) < 2 ^ 63 → race_inv s'.
Proof.
  intros Hinv (a & Ha & Hexcl) Hb. pose proof (step_log _ _ _ Ha).
  assert (Hs : race_inv s) by (apply Hinv; lia). destruct a as [t f|t|t i]; cbn [act] in Ha.
  - destruct Hexcl as [Hf Hno].
    assert (Hnw : ∀ t', ¬ writing s t') 
      by (intros t' (pc & Hc%Hno & Hw); congruence).
    eapply enter_inv; [done..|]. intros lock Hlock Hfree. unfold call_ok; cbn.
    destruct lock; [by destruct (Hlock eq_refl) as [t' []%Hnw]|].
    split; [|done]. split; [done|by apply Hfree].
  - eapply enter_inv; [done..|]. intros. unfold call_ok; cbn. done.
  - destruct (s.(calls) !! t) as [pc|] eqn:Ht; [|done]. cbn in Ha.
    destruct (is_writing pc) eqn:Hpc.
    + destruct (write_step p i pc s.(mem)) as [[o m']|] eqn:Ho; [|done]. injection Ha as <-.
      by eapply write_inv.
    + destruct (read_step p i pc s.(mem)) as [o|] eqn:Ho; [|done]. injection Ha as <-.
      eapply read_inv; try done. lia.
Qed.
End invariant.

(** ** Calls that copy a row at a stretch *)

Definition advances (t n : nat) : list Action := Advance t <$> seq 0 n.

Section stretch.
Context (p : Z) (t : nat).

Fixpoint left_after (k : nat) : gset nat :=
  match k with O => all_bytes | S k => left_after k ∖ {[k]} end.
Fixpoint loads (m : memory) (k : nat) : list Z :=
  match k with O => no_bytes | S k => <[k := m (p + Z.of_nat k)]> (loads m k) end.
Fixpoint stores (m : memory) (row : list Z) (k : nat) : memory :=
  match k with O => m | S k => write_bytes (stores m row k) (p + Z.of_nat k) [row !!! k] end.

Lemma elem_of_left_after k i : i ∈ left_after k ↔ (k ≤ i < ROW)%nat.
Proof.
  induction k as [|k IH]; cbn [left_after]; [rewrite elem_of_all_bytes; lia|].
  rewrite elem_of_difference, elem_of_singleton, IH. lia.
Qed.

Lemma left_after_empty k : left_after k = ∅ ↔ (ROW ≤ k)%nat.
Proof.
  split; intros H.
  - destruct (decide (ROW ≤ k)%nat); [done|]. exfalso.
    apply (not_elem_of_empty (C:=gset nat) k). rewrite <- H. apply elem_of_left_after. lia.
  - apply leibniz_equiv, equiv_empty. intros i Hi%elem_of_left_after. lia.
Qed.

Lemma loads_loaded m k : (k ≤ ROW)%nat → loaded p m (left_after k) (loads m k).
Proof.
  induction k as [|k IH]; intros Hk; [by apply loaded_init|]. apply loaded_step; [apply IH; lia|done].
Qed.

Lemma loads_all m : loads m ROW = read_bytes m p ROW.
Proof.
  pose proof (loads_loaded m ROW (Nat.le_refl _)) as H.
  rewrite (proj2 (left_after_empty ROW)) in H by lia. by apply loaded_all.
Qed.

Lemma stores_spec m row k x :
  (k ≤ length row)%nat → stores m row k x = write_bytes m p (take k row) x.
Proof.
  induction k as [|k IH]; intros Hk; cbn [stores]; [rewrite write_bytes_outside; [done|rewrite take_0; cbn [length]; lia]|].
  assert (Hl : length (take k row) = k ∧ length (take (S k) row) = S k)
    by (rewrite !length_take; lia).
  assert (Hx : x = p + Z.of_nat k ∨ ¬ (p ≤ x < p + Z.of_nat (S k)) ∨
    ∃ i, (i < k)%nat ∧ x = p + Z.of_nat i).
  { destruct (decide (p ≤ x < p + Z.of_nat k)); [|lia].
    right; right. exists (Z.to_nat (x - p)). lia. }
  destruct Hx as [->|[Hx|(i & Hi & ->)]].
  - rewrite write_byte, write_bytes_inside by lia. by rewrite !list_lookup_total_alt, lookup_take_lt by lia.
  - rewrite !write_bytes_outside by (cbn [length]; lia). rewrite IH by lia.
    apply write_bytes_outside. lia.
  - rewrite write_bytes_outside by (cbn [length]; lia). rewrite IH by lia.
    rewrite !write_bytes_inside by lia. by rewrite !list_lookup_total_alt, !lookup_take_lt by lia.
Qed.

Lemma advances_run (pcs : nat → Pc) (mems : nat → memory) k s :
  s.(calls) !! t = Some (pcs 0%nat) → s.(mem) = mems 0%nat →
  (∀ i s', (i < k)%nat → s'.(calls) !! t = Some (pcs i) → s'.(mem) = mems i →
     act p (Advance t i) s' = Some (s' <| mem := mems (S i) |> <| calls ::= <[t := pcs (S i)]> |>)) →
  run_actions (act p) (advances t k) s = Some (s <| mem := mems k |> <| calls ::= <[t := pcs k]> |>).
Proof.
  intros Hpc Hm Hstep. induction k as [|k IH].
  - cbn. f_equal. destruct s; cbn [calls mem] in *. subst. unfold update. cbn. by rewrite insert_id.
  - unfold advances. rewrite seq_S, fmap_app. cbn [fmap list_fmap].
    rewrite (run_app _ _ _ _ _ (IH ltac:(intros; apply Hstep; auto with lia))). cbn [run_actions].
    rewrite (Hstep k); [|lia|by cbn; rewrite lookup_insert_eq|done].
    unfold update. cbn. by rewrite insert_insert_eq.
Qed.

Lemma left_here i : (i < ROW)%nat → i ∈ left_after i.
Proof. intros. apply elem_of_left_after. lia. Qed.

Lemma left_some i : (i < ROW)%nat → left_after i ≠ ∅.
Proof. rewrite left_after_empty. lia. Qed.

Lemma left_none : left_after ROW = ∅.
Proof. by apply left_after_empty. Qed.

Lemma act_advance i s pc :
  s.(calls) !! t = Some pc →
  act p (Advance t i) s =
    (if is_writing pc then
       r ← write_step p i pc s.(mem); Some (proceed t r.1 (s <| mem := r.2 |>))
     else o ← read_step p i pc s.(mem); Some (proceed t o s)).
Proof. intros H. unfold act. by rewrite H. Qed.

Lemma act_read s :
  s.(calls) !! t = None →
  act p (Read t) s = Some (s <| calls ::= <[t := Sampling (length s.(log)) 10]> |>).
Proof. intros H. cbn [act]. unfold enter. by rewrite H. Qed.

Lemma copy_run f g s :
  s.(calls) !! t = Some (Copying f g all_bytes no_bytes) →
  run_actions (act p) (advances t ROW) s = Some (s <| mem := s.(mem) |> <| calls ::= <[t :=
    Storing f g (encode ((f (config_row s.(mem) p)) <| Fc.ruleset_generation := g |>)) all_bytes]> |>).
Proof.
  intros Hpc.
  pose (pcs i := if decide (left_after i = ∅)
    then Storing f g (encode ((f (decoded (loads s.(mem) i))) <| Fc.ruleset_generation := g |>)) all_bytes
    else Copying f g (left_after i) (loads s.(mem) i)).
  rewrite (advances_run pcs (λ _, s.(mem))); [| |done|].
  - subst pcs. cbn beta. rewrite decide_True by apply left_none. rewrite loads_all. done.
  - subst pcs. cbn beta. rewrite decide_False by (apply (left_some 0); vm_compute; lia). done.
  - intros i s' Hi Hs' Hm. subst pcs. cbn beta in *. rewrite decide_False in Hs' by by apply left_some.
    rewrite (act_advance i s' _ Hs'). cbn [is_writing write_step].
    rewrite decide_True by by apply left_here. rewrite Hm. done.
Qed.

Lemma load_run since passes g1 s :
  s.(calls) !! t = Some (Loading since passes g1 all_bytes no_bytes) →
  run_actions (act p) (advances t ROW) s = Some (s <| mem := s.(mem) |> <| calls ::= <[t :=
    Comparing since passes g1 (read_bytes s.(mem) p ROW)]> |>).
Proof.
  intros Hpc.
  pose (pcs i := if decide (left_after i = ∅) then Comparing since passes g1 (loads s.(mem) i)
    else Loading since passes g1 (left_after i) (loads s.(mem) i)).
  rewrite (advances_run pcs (λ _, s.(mem))); [| |done|].
  - subst pcs. cbn beta. rewrite decide_True by apply left_none. rewrite loads_all. done.
  - subst pcs. cbn beta. rewrite decide_False by (apply (left_some 0); vm_compute; lia). done.
  - intros i s' Hi Hs' Hm. subst pcs. cbn beta in *. rewrite decide_False in Hs' by by apply left_some.
    rewrite (act_advance i s' _ Hs'). cbn [is_writing read_step].
    rewrite decide_True by by apply left_here. rewrite Hm. cbn [mbind option_bind proceed].
    f_equal. rewrite <- Hm. by destruct s'.
Qed.

Lemma store_run f g row k s :
  s.(calls) !! t = Some (Storing f g row all_bytes) → (k ≤ ROW)%nat →
  run_actions (act p) (advances t k) s = Some (s <| mem := stores s.(mem) row k |> <| calls ::= <[t :=
    if decide (left_after k = ∅) then Publishing f g else Storing f g row (left_after k)]> |>).
Proof.
  intros Hpc Hk.
  rewrite (advances_run (λ i, if decide (left_after i = ∅) then Publishing f g
    else Storing f g row (left_after i)) (stores s.(mem) row)); [done| |done|].
  - rewrite decide_False by (apply (left_some 0); vm_compute; lia). done.
  - intros i s' Hi Hs' Hm. cbn beta in Hs'. rewrite decide_False in Hs' by (apply left_some; lia).
    rewrite (act_advance i s' _ Hs'). cbn [is_writing write_step].
    rewrite decide_True by (apply left_here; lia). rewrite Hm. done.
Qed.

Lemma store_all_run f g row s :
  s.(calls) !! t = Some (Storing f g row all_bytes) →
  run_actions (act p) (advances t ROW) s = Some (s <| mem := stores s.(mem) row ROW |>
    <| calls ::= <[t := Publishing f g]> |>).
Proof. intros H. rewrite (store_run f g row ROW s H) by done. by rewrite decide_True by apply left_none. Qed.

(** A whole pass over a row at rest. *)
Definition read_pass : list Action := [Advance t 0] ++ advances t ROW ++ [Advance t 0].

Lemma read_alone since passes s :
  s.(calls) !! t = Some (Sampling since (S passes)) →
  read_u64 s.(mem) (p + OFFSET_RULESET_GENERATION) mod 2 = 0 →
  ∃ s', run_actions (act p) read_pass s = Some s' ∧ s'.(mem) = s.(mem) ∧ s'.(log) = s.(log) ∧
    s'.(calls) = delete t s.(calls) ∧
    s'.(answers) = s.(answers) ++ [(since, read_stable_config s.(mem) p)].
Proof.
  intros Hpc Hg. unfold read_pass. cbn [app run_actions].
  rewrite (act_advance 0 s _ Hpc). cbn [is_writing read_step]. rewrite Hg.
  cbn [Z.eqb negb mbind option_bind proceed].
  set (g1 := read_u64 s.(mem) _) in *.
  set (s1 := s <| calls ::= _ |>).
  assert (H1 : s1.(calls) !! t = Some (Loading since passes g1 all_bytes no_bytes))
    by (cbn; apply lookup_insert_eq).
  rewrite (run_app _ _ _ _ _ (load_run _ _ _ s1 H1)). cbn [run_actions].
  set (s2 := s1 <| mem := _ |> <| calls ::= _ |>).
  assert (H2 : s2.(calls) !! t = Some (Comparing since passes g1 (read_bytes s1.(mem) p ROW)))
    by (cbn; apply lookup_insert_eq).
  rewrite (act_advance 0 s2 _ H2). cbn [is_writing read_step].
  change (read_u64 s2.(mem) _) with g1. rewrite Z.eqb_refl.
  cbn [negb mbind option_bind proceed]. eexists. split; [reflexivity|]. split_and!; [done..| |].
  - subst s2 s1. unfold update. cbn [calls]. by rewrite !delete_insert_eq.
  - subst s2 s1. unfold update. cbn [answers]. do 3 f_equal. by rewrite read_stable_even.
Qed.

Definition copy_and_publish : list Action := advances t ROW ++ advances t ROW ++ [Advance t 0].

Lemma copy_publish_run f g s :
  s.(calls) !! t = Some (Copying f g all_bytes no_bytes) →
  let row := encode ((f (config_row s.(mem) p)) <| Fc.ruleset_generation := g |>) in
  ∃ s', run_actions (act p) copy_and_publish s = Some s' ∧
    s'.(calls) = delete t s.(calls) ∧ s'.(answers) = s.(answers) ∧ s'.(log) = s.(log) ++ [f] ∧
    s'.(mem) = write_u64 (stores s.(mem) row ROW) (p + OFFSET_RULESET_GENERATION)
                 (Z.land (wrapping_add g 1) (u64_max - 1)).
Proof.
  intros Hpc row. unfold copy_and_publish. rewrite (run_app _ _ _ _ _ (copy_run _ _ s Hpc)).
  fold row. set (s1 := s <| mem := _ |> <| calls ::= _ |>).
  assert (H1 : s1.(calls) !! t = Some (Storing f g row all_bytes)) by apply lookup_insert_eq.
  rewrite (run_app _ _ _ _ _ (store_all_run _ _ _ s1 H1)).
  set (s2 := s1 <| mem := _ |> <| calls ::= _ |>).
  assert (H2 : s2.(calls) !! t = Some (Publishing f g)) by apply lookup_insert_eq.
  cbn [run_actions]. rewrite (act_advance 0 s2 _ H2).
  eexists. split; [reflexivity|]. split; [|done].
  subst s2 s1. unfold proceed, update. cbn [calls fst snd]. by rewrite !delete_insert_eq.
Qed.
End stretch.

(** ** Two writes that overlap

    One write has copied the row when another, which found the same generation,
    publishes it; while the first stores its copy the generation is even. *)

Definition stamp (c : Row) : Row := c <| Fc.magic := FAULTCORE_MAGIC |>.
Definition slow (c : Row) : Row :=
  c <| Fc.latency_ns := 7 |> <| Fc.jitter_ns := 7 |> <| Fc.magic := FAULTCORE_MAGIC |>.

Definition zeros : memory := λ _, 0.

Definition both_locked : list Action :=
  [Write 1 slow; Write 2 stamp; Advance 1 0; Advance 1 0; Advance 2 0; Advance 2 0].

Definition tearing : list Action :=
  both_locked ++ advances 1 ROW ++ copy_and_publish 2 ++ advances 1 20 ++ [Read 3] ++ read_pass 3.

Definition locked_zeros : memory := write_u64 zeros OFFSET_RULESET_GENERATION 1.
Definition row_of (f : Row → Row) : list Z :=
  encode ((f (config_row locked_zeros 0)) <| Fc.ruleset_generation := 1 |>).

(** The row after the second write, with the first twenty bytes of the first. *)
Definition torn_memory : memory :=
  write_bytes (write_u64 (write_bytes locked_zeros 0 (row_of stamp)) OFFSET_RULESET_GENERATION 2)
    0 (take 20 (row_of slow)).

Lemma torn_config :
  (λ c, (c.(Fc.latency_ns), c.(Fc.jitter_ns))) <$> read_stable_config torn_memory 0 = Some (7, 0) ∧
  read_u64 torn_memory OFFSET_RULESET_GENERATION = 2.
Proof. by vm_compute. Qed.

Lemma both_locked_run :
  ∃ s, run_actions (act 0) both_locked (State_init zeros) = Some s ∧
    s.(calls) !! 1%nat = Some (Copying slow 1 all_bytes no_bytes) ∧
    s.(calls) !! 2%nat = Some (Copying stamp 1 all_bytes no_bytes) ∧
    s.(calls) !! 3%nat = None ∧
    (∀ x, s.(mem) x = locked_zeros x) ∧ s.(log) = [] ∧ s.(answers) = [].
Proof.
  eexists. split; [reflexivity|]. split; [reflexivity|]. split; [reflexivity|].
  split; [reflexivity|]. split; [|by split]. intros x.
  change (write_u64 locked_zeros OFFSET_RULESET_GENERATION 1 x = locked_zeros x).
  unfold write_u64 at 1. unfold write_bytes. case_bool_decide as Hx; [|done].
  unfold locked_zeros, write_u64, write_bytes. by rewrite bool_decide_eq_true_2.
Qed.

Lemma config_row_ext m m' p : (∀ x, m x = m' x) → config_row m p = config_row m' p.
Proof. intros H. unfold row_at. by rewrite (read_bytes_ext m m') by (intros; apply H). Qed.

Lemma row_of_locked f m :
  (∀ x, m x = locked_zeros x) →
  encode ((f (config_row m 0)) <| Fc.ruleset_generation := 1 |>) = row_of f.
Proof. intros H. unfold row_of. by rewrite (config_row_ext m locked_zeros). Qed.

(** What the reader's copy of the memory is. *)
Lemma torn_stores m m' :
  (∀ x, m x = locked_zeros x) →
  m' = write_u64 (stores 0 m (row_of stamp) ROW) OFFSET_RULESET_GENERATION 2 →
  ∀ x, stores 0 m' (row_of slow) 20 x = torn_memory x.
Proof.
  intros Hm -> x. assert (Hl : length (row_of slow) = ROW ∧ length (row_of stamp) = ROW)
    by by vm_compute.
  rewrite stores_spec by (rewrite (proj1 Hl); vm_compute; lia). unfold torn_memory.
  do 2 apply write_bytes_ext.
  rewrite stores_spec by (rewrite (proj2 Hl); lia).
  rewrite take_ge by (rewrite (proj2 Hl); lia). by apply write_bytes_ext.
Qed.

Lemma tear_run :
  ∃ s c, run_actions (act 0) tearing (State_init zeros) = Some s ∧ (1%nat, Some c) ∈ s.(answers) ∧
    c.(Fc.latency_ns) = 7 ∧ c.(Fc.jitter_ns) = 0.
Proof.
  destruct both_locked_run as (s0 & H0 & Hs1 & Hs2 & Hs3 & Hm & Hlog & Hans).
  unfold tearing. rewrite (run_app _ _ _ _ _ H0).
  rewrite (run_app _ _ _ _ _ (copy_run 0 1 _ _ s0 Hs1)).
  rewrite (row_of_locked slow s0.(mem) Hm).
  set (s1 := s0 <| mem := _ |> <| calls ::= _ |>).
  assert (H1 : s1.(calls) !! 1%nat = Some (Storing slow 1 (row_of slow) all_bytes))
    by apply lookup_insert_eq.
  assert (H2 : s1.(calls) !! 2%nat = Some (Copying stamp 1 all_bytes no_bytes))
    by (etrans; [by apply lookup_insert_ne|done]).
  destruct (copy_publish_run 0 2 _ _ s1 H2) as (s2 & Hw & Hc & Ha & Hl & Hm2).
  rewrite (row_of_locked stamp s1.(mem) Hm) in Hm2.
  rewrite (run_app _ _ _ _ _ Hw).
  assert (H3 : s2.(calls) !! 1%nat = Some (Storing slow 1 (row_of slow) all_bytes))
    by (rewrite Hc; etrans; [by apply lookup_delete_ne|done]).
  rewrite (run_app _ _ _ _ _ (store_run 0 1 _ _ _ 20 s2 H3 ltac:(vm_compute; lia))).
  set (s3 := s2 <| mem := _ |> <| calls ::= _ |>).
  assert (Hm3 : ∀ x, s3.(mem) x = torn_memory x) by by apply (torn_stores s1.(mem)).
  assert (H4 : s3.(calls) !! 3%nat = None).
  { etrans; [by apply lookup_insert_ne|]. change (s2.(calls) !! 3%nat = None). rewrite Hc.
    etrans; [by apply lookup_delete_ne|]. etrans; [by apply lookup_insert_ne|done]. }
  assert (Hlen : length s3.(log) = 1%nat).
  { change (length s2.(log) = 1%nat). rewrite Hl. change (length (s0.(log) ++ [stamp]) = 1%nat).
    by rewrite Hlog. }
  cbn [app run_actions]. rewrite (act_read 0 3 s3 H4), Hlen. cbn [mbind option_bind].
  set (s4 := s3 <| calls ::= _ |>).
  destruct torn_config as [Hread Hgen].
  destruct (read_alone 0 3 1 9 s4) as (s5 & Hrun & _ & _ & _ & Hans5).
  - apply lookup_insert_eq.
  - change (read_u64 s3.(mem) OFFSET_RULESET_GENERATION mod 2 = 0).
    unfold read_u64. rewrite (read_bytes_ext _ torn_memory) by (intros; apply Hm3).
    fold (read_u64 torn_memory OFFSET_RULESET_GENERATION). by rewrite Hgen.
  - change s4.(mem) with s3.(mem) in Hans5.
    rewrite (read_stable_ext _ torn_memory) in Hans5 by (intros; apply Hm3).
    destruct (read_stable_config torn_memory 0) as [c|]; [|done]. injection Hread as Hl7 Hj.
    exists s5, c. split; [exact Hrun|]. split; [|done]. rewrite Hans5. apply elem_of_app. right.
    by apply list_elem_of_singleton.
Qed.

(** Writes that keep two fields equal, one after the other, never show them
    different. *)
Definition careful (f : Row → Row) : Prop :=
  well_typed f ∧
  ∀ c, c.(Fc.latency_ns) = c.(Fc.jitter_ns) → (f c).(Fc.latency_ns) = (f c).(Fc.jitter_ns).

Definition writes (l : list Action) : list (Row → Row) :=
  omap (λ a, match a with Write _ f => Some f | _ => None end) l.

Lemma row_wf_field (c c' : Row) i v :
  row_fields c' = <[i := [v]]> (row_fields c) → row_layout Row !! i = Some U64 →
  row_wf c → is_u64 v → row_wf c'.
Proof.
  intros E Hi Hc Hv. unfold row_wf. rewrite E, <- (list_insert_id _ _ _ Hi).
  apply Forall2_insert; [done|]. split; [done|]. by constructor.
Qed.

Lemma careful_stamp : careful stamp.
Proof. split; [|done]. intros c Hc. by apply row_wf_magic. Qed.

Lemma careful_slow : careful slow.
Proof.
  split; [|done]. intros c Hc. unfold slow. apply row_wf_magic; [|done].
  apply (row_wf_field (c <| Fc.latency_ns := 7 |>) _ 3 7); [done|done| |done].
  by apply (row_wf_field c _ 2 7).
Qed.

Lemma read_stable_row m p c : read_stable_config m p = Some c → c = config_row m p.
Proof.
  intros (g & Hin & _)%stable_read_Some. apply elem_of_replicate in Hin as [Hin _].
  by injection Hin.
Qed.

Lemma after_careful p m l :
  mem_ok m → (config_row m p).(Fc.latency_ns) = (config_row m p).(Fc.jitter_ns) →
  Forall careful l →
  (config_row (after p m l) p).(Fc.latency_ns) = (config_row (after p m l) p).(Fc.jitter_ns).
Proof.
  intros Hm H0. induction l as [|f l IH] using rev_ind; [done|].
  rewrite Forall_app, Forall_singleton. intros [Hl [Hwt Hf]].
  pose proof (after_ok p m Hm l) as Hok. rewrite after_snoc.
  rewrite publish_row; [|done|].
  - cbn [update Fc.latency_ns Fc.jitter_ns]. apply Hf. by apply IH.
  - apply Hwt, row_wf_locked; [done|]. by apply lor_1_u64, read_u64_range.
Qed.

(** C3. Reads of a row that others write are atomic when writes do not overlap, and
    not otherwise.  However reads, from any threads, interleave access by access
    with writes, as long as one write at a time is in progress, and fewer than
    2^63: every configuration that is read is what a read would find after the
    first [n] of the writes done one after the other, where [n] is no less than the
    number published when the read began; and between writes the memory is what
    these leave.  But two writes that overlap share a generation, and the first to
    publish unlocks the row for the second: writes that all keep two fields equal
    can be read with the fields different, which no order of them gives. *)
Theorem stable_reads_linearize p m s :
  (mem_ok m → read_u64 m (p + OFFSET_RULESET_GENERATION) mod 2 = 0 →
   star (exclusive_step p) (State_init m) s → Z.of_nat (length s.(log)) < 2 ^ 63 →
   (∀ since c, (since, Some c) ∈ s.(answers) →
      ∃ n, (since ≤ n ≤ length s.(log))%nat ∧
        read_stable_config (after p m (take n s.(log))) p = Some c) ∧
   ((∀ t, ¬ writing s t) → ∀ x, s.(mem) x = after p m s.(log) x)) ∧
  (∃ l s' since c,
     Forall careful (writes l) ∧ run_actions (act 0) l (State_init zeros) = Some s' ∧
     (since, Some c) ∈ s'.(answers) ∧ c.(Fc.latency_ns) ≠ c.(Fc.jitter_ns)) ∧
  (∀ l c, Forall careful l → read_stable_config (after 0 zeros l) 0 = Some c →
     c.(Fc.latency_ns) = c.(Fc.jitter_ns)).
Proof.
  split_and!.
  - intros Hm Hg Hs Hb.
    assert (Hinv : race_inv p m s).
    { exact (star_invariant _ (λ s, Z.of_nat (length s.(log)) < 2 ^ 63 → race_inv p m s)
        (exclusive_step_inv p m Hm Hg) _ _ Hs (λ _, inv_init p m) Hb). }
    destruct Hinv as [_ (lock & Hlock & Hfree & _) _ Hans]. split.
    + intros since c Hin. rewrite Forall_forall in Hans. exact (Hans _ Hin).
    + intros Hnw. apply Hfree. destruct lock; [|done].
      by destruct (Hlock eq_refl) as (_ & t & []%Hnw).
  - destruct tear_run as (s' & c & Hrun & Hin & Hl & Hj).
    exists tearing, s', 1%nat, c. split; [|split; [exact Hrun|split; [done|by rewrite Hl, Hj]]].
    change (writes tearing) with [slow; stamp].
    apply Forall_cons; split; [apply careful_slow|]. apply Forall_singleton, careful_stamp.
  - intros l c Hl ->%read_stable_row. by apply after_careful.
Qed.

(** ** A write and a read, for the witness *)

Definition write_then_read : list Action :=
  [Advance 1 0; Advance 1 0] ++ copy_and_publish 1 ++ [Read 2] ++ read_pass 2.

(** Runs that start no write are exclusive. *)
Lemma run_exclusive p l s s' :
  writes l = [] → run_actions (act p) l s = Some s' → star (exclusive_step p) s s'.
Proof.
  revert s; induction l as [|a l IH]; intros s Hw; cbn; [intros [= ->]; constructor|].
  destruct (act p a s) as [s1|] eqn:Ha; [|done]. cbn. intros H.
  eapply star_cons; [|apply IH; [|exact H]]; [exists a; split; [done|]|]; by destruct a.
Qed.

Definition published_memory : memory :=
  write_u64 (write_bytes locked_zeros 0 (row_of slow)) OFFSET_RULESET_GENERATION 2.

Lemma published_config :
  (λ c, c.(Fc.latency_ns)) <$> read_stable_config published_memory 0 = Some 7 ∧
  read_u64 published_memory OFFSET_RULESET_GENERATION = 2.
Proof. by vm_compute. Qed.

Definition writing_slow : State := (State_init zeros) <| calls := {[1%nat := Locking slow]} |>.

Lemma write_then_read_run :
  ∃ s c, run_actions (act 0) write_then_read writing_slow = Some s ∧ s.(log) = [slow] ∧
    (1%nat, Some c) ∈ s.(answers) ∧ c.(Fc.latency_ns) = 7.
Proof.
  assert (H0 : ∃ s, run_actions (act 0) [Advance 1 0; Advance 1 0] writing_slow = Some s ∧
    s.(calls) = {[1%nat := Copying slow 1 all_bytes no_bytes]} ∧ s.(mem) = locked_zeros ∧
    s.(log) = []).
  { eexists. split; [reflexivity|]. by split_and!. }
  destruct H0 as (s0 & H0 & Hc0 & Hm0 & Hlog0).
  unfold write_then_read. rewrite (run_app _ _ _ _ _ H0).
  assert (H1 : s0.(calls) !! 1%nat = Some (Copying slow 1 all_bytes no_bytes)) by by rewrite Hc0.
  destruct (copy_publish_run 0 1 _ _ s0 H1) as (s1 & Hw & Hc & _ & Hl & Hm).
  rewrite (row_of_locked slow s0.(mem)) in Hm by by rewrite Hm0.
  rewrite (run_app _ _ _ _ _ Hw), Hlog0 in *.
  assert (Hm1 : ∀ x, s1.(mem) x = published_memory x).
  { intros x. rewrite Hm, Hm0. assert (Hlen : length (row_of slow) = ROW) by by vm_compute.
    apply write_bytes_ext. rewrite stores_spec by (rewrite Hlen; lia).
    by rewrite take_ge by (rewrite Hlen; lia). }
  assert (H2 : s1.(calls) !! 2%nat = None) by by rewrite Hc, Hc0.
  cbn [app run_actions]. rewrite (act_read 0 2 s1 H2), Hl. cbn [mbind option_bind].
  set (s2 := s1 <| calls ::= _ |>). destruct published_config as [Hread Hgen].
  destruct (read_alone 0 2 1 9 s2) as (s3 & Hrun & _ & Hl3 & _ & Hans).
  - apply lookup_insert_eq.
  - change (read_u64 s1.(mem) OFFSET_RULESET_GENERATION mod 2 = 0).
    unfold read_u64. rewrite (read_bytes_ext _ published_memory) by (intros; apply Hm1).
    fold (read_u64 published_memory OFFSET_RULESET_GENERATION). by rewrite Hgen.
  - change s2.(mem) with s1.(mem) in Hans.
    rewrite (read_stable_ext _ published_memory) in Hans by (intros; apply Hm1).
    destruct (read_stable_config published_memory 0) as [c|]; [|done]. injection Hread as Hl7.
    exists s3, c. split; [exact Hrun|]. split; [by rewrite Hl3|]. split; [|done].
    rewrite Hans. apply elem_of_app. right. by apply list_elem_of_singleton.
Qed.

Lemma stable_reads_linearize_witness :
  ∃ s c n, (1%nat, Some c) ∈ s.(answers) ∧ c.(Fc.latency_ns) = 7 ∧ (1 ≤ n ≤ 1)%nat ∧
    read_stable_config (after 0 zeros (take n s.(log))) 0 = Some c.
Proof.
  destruct write_then_read_run as (s & c & Hrun & Hlog & Hin & Hl).
  assert (Hstar : star (exclusive_step 0) (State_init zeros) s).
  { eapply star_cons; [|by apply (run_exclusive 0 write_then_read)].
    exists (Write 1 slow). split; [done|]. split; [apply careful_slow|].
    intros t pc Hpc. cbn [State_init calls] in Hpc. by rewrite lookup_empty in Hpc. }
  assert (Hb : Z.of_nat (length s.(log)) < 2 ^ 63) by (rewrite Hlog; cbn; lia).
  assert (Hz : mem_ok zeros) by (intros x; split; [done|reflexivity]).
  assert (Hg : read_u64 zeros (0 + OFFSET_RULESET_GENERATION) mod 2 = 0) by (vm_compute; reflexivity).
  destruct (proj1 (stable_reads_linearize 0 zeros s) Hz Hg Hstar Hb) as [Hreads _].
  destruct (Hreads 1%nat c Hin) as (n & Hn & Hc). exists s, c, n.
  rewrite Hlog in Hn. split; [exact Hin|]. split; [exact Hl|]. split; [exact Hn|exact Hc].
Defined.
