(* ===== verification/OpenRace.v ===== *)
(** * Threads that open the segment

    [faultcore_network/src/shm_runtime.rs], [try_open_shm], as a step relation: the
    flag is read without the lock and again under it, and the pointer and the flag
    are stored one after the other; calls of several threads interleave between any
    two accesses.  The release of the lock is one step with the access before it.
    What the operating system answers can differ from step to step.  [ShmRuntime]
    has what a call does when no other overlaps it. *)

From S2P Require Import Prelude.
From S2P Require Import Threads.
From S2P Require Import ShmContract.
From S2P Require Import ShmRuntime.

Open Scope Z_scope.

(** Where a call is: before the first reading of the flag, before the second one of
    a call that has nothing to do, before the lock, before the reading under it,
    before mapping, before clearing the owners, before storing the pointer and
    before storing the flag. *)
Inductive Pc : Type :=
  | Checking
  | Reporting
  | Locking
  | Rechecking
  | Mapping
  | Clearing (open_mode : ShmOpenMode) (addr : Z) (m : memory)
  | Pointing (addr : Z) (m : memory)
  | Publishing.

Inductive Outcome : Type :=
  | More (pc : Pc)
  | Answered (opened : bool).

(** [mapped] has the addresses of the mappings ever made; [cleared] counts how often
    the owners were cleared; [answers] has what calls returned. *)
Record State : Type := mkState {
  shared : ShmState;
  SHM_INIT_LOCK : option nat;
  calls : gmap nat Pc;
  mapped : list Z;
  cleared : nat;
  answers : list (nat * bool)
}.

#[export] Instance eta_State : Eta State := λ s, mkState (s.(shared)) (s.(SHM_INIT_LOCK))
  (s.(calls)) (s.(mapped)) (s.(cleared)) (s.(answers)).

(** A process that has not opened the segment. *)
Definition State_init (m : memory) : State := mkState (mkShmState 0 0 m) None ∅ [] 0 [].

(** A thread calls [try_open_shm], or makes its next access with what the operating
    system answers now. *)
Inductive Action : Type :=
  | Open (thread : nat)
  | Advance (thread : nat) (os : Os).

(* faultcore_network/src/shm_runtime.rs:65-145 try_open_shm *)
Definition open_step (t : nat) (os : Os) (pc : Pc) (s : State) : option (Outcome * State) :=
  let unlocked := s <| SHM_INIT_LOCK := None |> in
  match pc with
  | Checking => Some (More (if negb check_enabled || is_shm_open s.(shared) then Reporting else Locking), s)
  | Reporting => Some (Answered (is_shm_open s.(shared)), s)
  | Locking =>
      match s.(SHM_INIT_LOCK) with
      | None => Some (More Rechecking, s <| SHM_INIT_LOCK := Some t |>)
      | Some _ => None
      end
  | Rechecking =>
      Some (if is_shm_open s.(shared) then (Answered true, unlocked) else (More Mapping, s))
  | Mapping =>
      Some match map_segment with
           | None => (Answered false, unlocked)
           | Some (addr, m) => (More (Clearing shm_open_mode addr m), s <| mapped ::= λ l, l ++ [addr] |>)
           end
  | Clearing open_mode addr m =>
      Some (More (Pointing addr (clear_owners open_mode m)),
            match open_mode with Creator => s <| cleared ::= S |> | Consumer => s end)
  | Pointing addr m => Some (More Publishing, s <| shared := mkShmState addr s.(shared).(SHM_OPEN) m |>)
  | Publishing => Some (Answered true, unlocked <| shared ::= λ x, x <| SHM_OPEN := 1 |> |>)
  end.

Definition proceed (t : nat) (r : Outcome * State) : State :=
  match r.1 with
  | More pc => r.2 <| calls ::= <[t := pc]> |>
  | Answered b => r.2 <| calls ::= delete t |> <| answers ::= λ l, l ++ [(t, b)] |>
  end.

Definition act (a : Action) (s : State) : option State :=
  match a with
  | Open t =>
      match s.(calls) !! t with
      | None => Some (s <| calls ::= <[t := Checking]> |>)
      | Some _ => None
      end
  | Advance t os => pc ← s.(calls) !! t; proceed t <$> open_step t os pc s
  end.

Definition step (s s' : State) : Prop := ∃ a, act a s = Some s'.

(** ** The lock *)

Definition holds (pc : Pc) : bool :=
  match pc with Checking | Reporting | Locking => false | _ => true end.

Definition locked (s : State) : Prop := mutex_ok holds s.(calls) s.(SHM_INIT_LOCK).

Lemma open_step_calls t os pc s r : open_step t os pc s = Some r → r.2.(calls) = s.(calls).
Proof.
  intros Ho. destruct pc as [| | | | |[]| |]; cbn [open_step] in Ho;
    try (destruct (SHM_INIT_LOCK s); [done|]); apply (inj Some) in Ho as <-;
    try destruct (is_shm_open _); by try destruct map_segment as [[addr m]|].
Qed.

Lemma open_step_lock t os pc s r :
  open_step t os pc s = Some r → (holds pc = true → s.(SHM_INIT_LOCK) = Some t) →
  passes (holds pc) (match r.1 with More pc' => holds pc' | Answered _ => false end) t
    s.(SHM_INIT_LOCK) r.2.(SHM_INIT_LOCK).
Proof.
  intros Ho Hl. unfold passes. destruct pc as [| | | | |[]| |]; cbn [open_step] in Ho;
    try (destruct (SHM_INIT_LOCK s); [done|]); apply (inj Some) in Ho as <-; cbn; auto.
  - by destruct (negb _ || _).
  - destruct (is_shm_open _); cbn; auto.
  - destruct map_segment as [[addr m]|]; cbn; auto.
Qed.

Lemma opening_inv a s s' :
  act a s = Some s' →
  (∃ t, a = Open t ∧ s.(calls) !! t = None ∧ s' = s <| calls ::= <[t := Checking]> |>) ∨
  ∃ t os pc r, a = Advance t os ∧ s.(calls) !! t = Some pc ∧ open_step t os pc s = Some r ∧ s' = proceed t r.
Proof.
  destruct a as [t|t os]; cbn [act]; destruct (calls s !! t) as [pc|] eqn:Ht; try done.
  - intros [= <-]. left. by exists t.
  - cbn. destruct (open_step t os pc s) as [r|] eqn:Ho; [|done]. intros [= <-]. right. by exists t, os, pc, r.
Qed.

Lemma opening_locked a s s' : locked s → act a s = Some s' → locked s'.
Proof.
  intros Hs [(t & -> & Ht & ->)|(t & os & pc & [o s1] & -> & Ht & Ho & ->)]%opening_inv.
  { by apply mutex_ok_start. }
  pose proof (open_step_calls _ _ _ _ _ Ho) as Ec.
  pose proof (open_step_lock _ _ _ _ _ Ho (proj1 Hs _ _ Ht)) as Hl.
  unfold locked, proceed. cbn [fst snd] in *. destruct o; cbn; rewrite Ec.
  - by apply (mutex_ok_next _ _ s.(SHM_INIT_LOCK) _ _ pc).
  - by apply (mutex_ok_end _ _ s.(SHM_INIT_LOCK) _ _ pc).
Qed.

(** ** Opened once *)

(** The process has, or has not, opened the segment. *)
Definition closed (s : State) : Prop :=
  s.(shared).(SHM_POINTER) = 0 ∧ s.(shared).(SHM_OPEN) = 0.

Definition untouched (s : State) : Prop := closed s ∧ s.(mapped) = [] ∧ s.(cleared) = 0%nat.

Definition opened (s : State) : Prop :=
  s.(shared).(SHM_OPEN) = 1 ∧ s.(mapped) = [s.(shared).(SHM_POINTER)] ∧ (s.(cleared) ≤ 1)%nat.

(** What holds while a call is at a point, for the call that has the lock. *)
Definition phase (pc : Pc) (s : State) : Prop :=
  match pc with
  | Mapping => untouched s
  | Clearing _ addr _ => closed s ∧ s.(mapped) = [addr] ∧ s.(cleared) = 0%nat
  | Pointing addr _ => closed s ∧ s.(mapped) = [addr] ∧ (s.(cleared) ≤ 1)%nat
  | Publishing =>
      s.(shared).(SHM_OPEN) = 0 ∧ s.(mapped) = [s.(shared).(SHM_POINTER)] ∧ (s.(cleared) ≤ 1)%nat
  | _ => untouched s ∨ opened s
  end.

Record once (s : State) : Prop := {
  once_locked : locked s;
  once_free : s.(SHM_INIT_LOCK) = None → untouched s ∨ opened s;
  once_held t pc : s.(SHM_INIT_LOCK) = Some t → s.(calls) !! t = Some pc → phase pc s;
  once_answered t : (t, true) ∈ s.(answers) → is_shm_open s.(shared) = true;
}.

(** Nothing of the segment depends on who is where. *)
Definition same_segment (s s' : State) : Prop :=
  s'.(shared) = s.(shared) ∧ s'.(mapped) = s.(mapped) ∧ s'.(cleared) = s.(cleared).

Lemma phase_same pc s s' : same_segment s s' → phase pc s → phase pc s'.
Proof.
  intros (E1 & E2 & E3). destruct pc; cbn [phase]; unfold untouched, opened, closed;
    by rewrite E1, E2, E3.
Qed.

Lemma settled_same s s' : same_segment s s' → untouched s ∨ opened s → untouched s' ∨ opened s'.
Proof. apply (phase_same Checking). Qed.

Lemma once_init m : once (State_init m).
Proof.
  split; [apply mutex_ok_empty|by left|done|]. intros t H. by apply elem_of_nil in H.
Qed.

Definition next_calls (t : nat) (o : Outcome) (s : State) : gmap nat Pc :=
  match o with More pc => <[t := pc]> s.(calls) | Answered _ => delete t s.(calls) end.

Lemma next_calls_step t os pc s o s1 :
  open_step t os pc s = Some (o, s1) → (proceed t (o, s1)).(calls) = next_calls t o s.
Proof. intros Ec%open_step_calls. cbn in Ec. unfold proceed, next_calls. rewrite <- Ec. by destruct o. Qed.

(** A step outside the lock, or into it, leaves the segment alone. *)
Lemma outside_step t os pc s o s1 :
  once s → s.(calls) !! t = Some pc → holds pc = false → open_step t os pc s = Some (o, s1) →
  same_segment s s1 ∧ s1.(answers) = s.(answers) ∧
  (o = Answered true → is_shm_open s1.(shared) = true) ∧
  match o with
  | More Rechecking => s.(SHM_INIT_LOCK) = None ∧ s1.(SHM_INIT_LOCK) = Some t
  | More pc' => s1.(SHM_INIT_LOCK) = s.(SHM_INIT_LOCK) ∧ holds pc' = false
  | Answered _ => s1.(SHM_INIT_LOCK) = s.(SHM_INIT_LOCK)
  end.
Proof.
  intros Hs Ht Hh Ho. destruct pc; try discriminate Hh; cbn [open_step] in Ho.
  - apply (inj Some) in Ho. injection Ho as <- <-. split_and!; try done. by destruct (negb _ || _).
  - apply (inj Some) in Ho. injection Ho as <- <-. split_and!; try done. by intros [= ->].
  - destruct (SHM_INIT_LOCK s); [done|]. apply (inj Some) in Ho. injection Ho as <- <-. done.
Qed.

(** A step under the lock. *)
Lemma inside_step t os pc s o s1 :
  holds pc = true → phase pc s → open_step t os pc s = Some (o, s1) →
  s1.(answers) = s.(answers) ∧ (is_shm_open s.(shared) = true → is_shm_open s1.(shared) = true) ∧
  match o with
  | More pc' => s1.(SHM_INIT_LOCK) = s.(SHM_INIT_LOCK) ∧ phase pc' s1
  | Answered b => s1.(SHM_INIT_LOCK) = None ∧ (untouched s1 ∨ opened s1) ∧
      (b = true → is_shm_open s1.(shared) = true)
  end.
Proof.
  intros Hh Hp Ho. destruct pc as [| | | | |mode addr m|addr m|]; try discriminate Hh;
    cbn [open_step phase] in Ho, Hp; apply (inj Some) in Ho.
  - destruct (is_shm_open (shared s)) eqn:E; injection Ho as <- <-; (split_and!; try done).
    destruct Hp as [?|[Hopen _]]; [done|]. unfold is_shm_open in E. by rewrite Hopen in E.
  - destruct Hp as (Hc & Hm & Hn). destruct map_segment as [[addr m]|]; injection Ho as <- <-;
      (split_and!; try done); [cbn; by rewrite Hm|by left].
  - destruct Hp as (Hc & Hm & Hn). assert (E : More (Pointing addr (clear_owners mode m)) = o) by congruence.
    assert (E' : match mode with Creator => s <| cleared ::= S |> | Consumer => s end = s1) by congruence.
    subst o s1. clear Ho. cbn [phase].
    destruct mode; (split_and!; [done|done|done|exact Hc|exact Hm|cbn; lia]).
  - destruct Hp as ([Hc1 Hc2] & Hm & Hn). injection Ho as <- <-. split_and!; try done.
  - destruct Hp as (Hopen & Hm & Hn). injection Ho as <- <-. split_and!; try done. by right.
Qed.

Lemma once_step t os pc s o s1 :
  once s → s.(calls) !! t = Some pc → open_step t os pc s = Some (o, s1) → once (proceed t (o, s1)).
Proof.
  intros Hs Ht Ho. pose proof (once_locked s Hs) as Hlock.
  assert (Hlock' : locked (proceed t (o, s1))).
  { apply (opening_locked (Advance t os) s); [done|]. cbn [act]. rewrite Ht. cbn. by rewrite Ho. }
  pose proof (next_calls_step _ _ _ _ _ _ Ho) as Hcalls.
  assert (Hseg : same_segment s1 (proceed t (o, s1)) ∧
    (proceed t (o, s1)).(SHM_INIT_LOCK) = s1.(SHM_INIT_LOCK)) by by destruct o.
  destruct Hseg as [Hseg El].
  assert (Hans : (∀ t', (t', true) ∈ s1.(answers) → is_shm_open s1.(shared) = true) →
    (o = Answered true → is_shm_open s1.(shared) = true) →
    ∀ t', (t', true) ∈ (proceed t (o, s1)).(answers) → is_shm_open (proceed t (o, s1)).(shared) = true).
  { intros H1 H2 t'. destruct o as [pc'|b]; [apply H1|]. unfold proceed. cbn.
    rewrite elem_of_app, list_elem_of_singleton. intros [Hin|[= _ <-]]; [by eapply H1|by apply H2]. }
  destruct (holds pc) eqn:Hh.
  - pose proof (once_held s Hs t pc (proj1 Hlock _ _ Ht Hh) Ht) as Hp.
    destruct (inside_step t os pc s o s1 Hh Hp Ho) as (Ea & Hopen & Hres).
    pose proof (proj1 Hlock _ _ Ht Hh) as Hl. split; [done| | |].
    + rewrite El. intros Hn. apply (settled_same _ _ Hseg). destruct o; [|by apply Hres].
      destruct Hres as [E _]. congruence.
    + rewrite El, Hcalls. intros t' pc' Hl' Hpc'. apply (phase_same _ _ _ Hseg). destruct o as [pc1|b].
      * destruct Hres as [E Hp1]. assert (t' = t) as -> by congruence. cbn in Hpc'.
        rewrite lookup_insert_eq in Hpc'. by injection Hpc' as <-.
      * destruct Hres as [E _]. congruence.
    + apply Hans; [rewrite Ea; intros t' Hin; apply Hopen; by eapply once_answered|].
      intros ->. by apply Hres.
  - destruct (outside_step t os pc s o s1 Hs Ht Hh Ho) as (Hseg0 & Ea & Htrue & Hres).
    assert (Hseg1 : same_segment s (proceed t (o, s1))).
    { destruct Hseg0 as (E1 & E2 & E3), Hseg as (F1 & F2 & F3). split_and!; congruence. }
    assert (Hcase : o = More Rechecking ∨ s1.(SHM_INIT_LOCK) = s.(SHM_INIT_LOCK))
      by (destruct o as [[]|]; first [by left | right; exact Hres | right; exact (proj1 Hres)]).
    split; [done| | |].
    + rewrite El. intros Hn. apply (settled_same _ _ Hseg1). apply (once_free s Hs).
      destruct Hcase as [->|E]; [by destruct Hres|congruence].
    + rewrite El, Hcalls. intros t' pc' Hl' Hpc'. apply (phase_same _ _ _ Hseg1).
      destruct Hcase as [->|E].
      * destruct Hres as [Hn E]. assert (t' = t) as -> by congruence. cbn in Hpc'.
        rewrite lookup_insert_eq in Hpc'. injection Hpc' as <-. by apply (once_free s Hs).
      * assert (Hl : s.(SHM_INIT_LOCK) = Some t') by congruence.
        destruct (decide (t' = t)) as [->|Htt].
        { destruct (proj2 Hlock t Hl) as (pc0 & Ht0 & Hh0). congruence. }
        apply (once_held s Hs t'); [done|]. destruct o; cbn in Hpc'; by rewrite ?lookup_insert_ne, ?lookup_delete_ne in Hpc'.
    + apply Hans; [|done]. rewrite Ea. destruct Hseg0 as (-> & _ & _). apply (once_answered s Hs).
Qed.

Lemma once_act a s s' : once s → act a s = Some s' → once s'.
Proof.
  intros Hs [(t & -> & Ht & ->)|(t & os & pc & [o s1] & -> & Ht & Ho & ->)]%opening_inv; [|by eapply once_step].
  assert (Hseg : same_segment s (s <| calls ::= <[t := Checking]> |>)) by done.
  split; [by apply mutex_ok_start; [apply Hs|..]| | |exact (once_answered s Hs)].
  - intros Hn. apply (settled_same _ _ Hseg). by apply (once_free s Hs).
  - intros t' pc' Hl. cbn. rewrite lookup_insert_Some. intros [[<- _]|[_ Ht']].
    + destruct (proj2 (once_locked s Hs) t Hl) as (pc & ? & _). congruence.
    + apply (phase_same _ _ _ Hseg). by apply (once_held s Hs t').
Qed.

(** ** The segment in use *)

(** A thread can have found it. *)
Definition in_use (s : State) : Prop := s.(shared).(SHM_POINTER) ≠ 0 ∨ is_shm_open s.(shared) = true.

Definition unmoved (s s' : State) : Prop :=
  s'.(shared).(SHM_POINTER) = s.(shared).(SHM_POINTER) ∧ s'.(shared).(shm_mem) = s.(shared).(shm_mem) ∧
  s'.(mapped) = s.(mapped) ∧ s'.(cleared) = s.(cleared).

Lemma closed_unused s : closed s → ¬ in_use s.
Proof. intros [H1 H2] [?|Hopen]; [done|]. unfold is_shm_open in Hopen. by rewrite H2 in Hopen. Qed.

Lemma same_unmoved s s' : same_segment s s' → unmoved s s'.
Proof. intros (E1 & E2 & E3). unfold unmoved. by rewrite E1, E2, E3. Qed.

Lemma inside_unmoved t os pc s o s1 :
  holds pc = true → phase pc s → in_use s → open_step t os pc s = Some (o, s1) → unmoved s s1.
Proof.
  intros Hh Hp Hu Ho. destruct pc as [| | | | |mode addr m|addr m|]; try discriminate Hh;
    cbn [open_step phase] in Ho, Hp; apply (inj Some) in Ho.
  - destruct (is_shm_open (shared s)); by injection Ho as <- <-.
  - destruct (closed_unused s (proj1 Hp) Hu).
  - destruct (closed_unused s (proj1 Hp) Hu).
  - destruct (closed_unused s (proj1 Hp) Hu).
  - by injection Ho as <- <-.
Qed.

Lemma in_use_act a s s' :
  once s → in_use s → act a s = Some s' →
  unmoved s s' ∧ (is_shm_open s.(shared) = true → is_shm_open s'.(shared) = true).
Proof.
  intros Hs Hu [(t & -> & Ht & ->)|(t & os & pc & [o s1] & -> & Ht & Ho & ->)]%opening_inv; [done|].
  assert (E : unmoved s1 (proceed t (o, s1)) ∧ (proceed t (o, s1)).(shared) = s1.(shared)) by by destruct o.
  destruct E as [Hmove ->]. enough (unmoved s s1 ∧ (is_shm_open s.(shared) = true → is_shm_open s1.(shared) = true))
    as [(E1 & E2 & E3 & E4) ?].
  { destruct Hmove as (F1 & F2 & F3 & F4). split; [|done]. split_and!; congruence. }
  destruct (holds pc) eqn:Hh.
  - pose proof (proj1 (once_locked s Hs) _ _ Ht Hh) as Hl. pose proof (once_held s Hs t pc Hl Ht) as Hp.
    split; [by eapply inside_unmoved|]. by destruct (inside_step t os pc s o s1 Hh Hp Ho) as (_ & ? & _).
  - destruct (outside_step t os pc s o s1 Hs Ht Hh Ho) as (Hseg & _). split; [by apply same_unmoved|].
    by destruct Hseg as (-> & _).
Qed.

Lemma in_use_star s s' :
  once s → in_use s → star step s s' →
  unmoved s s' ∧ (is_shm_open s.(shared) = true → is_shm_open s'.(shared) = true).
Proof.
  intros Hs Hu Hrun.
  assert (Hinv : once s' ∧ unmoved s s' ∧ (is_shm_open s.(shared) = true → is_shm_open s'.(shared) = true)); [|tauto].
  apply (star_invariant step (λ s', once s' ∧ unmoved s s' ∧
    (is_shm_open s.(shared) = true → is_shm_open s'.(shared) = true)) ltac:(
    intros s1 s2 (Hs1 & (E1 & E2 & E3 & E4) & Ho1) [a Ha];
    (assert (Hu1 : in_use s1) by (destruct Hu as [Hu|Hu]; [left; by rewrite E1|right; by apply Ho1]));
    destruct (in_use_act a s1 s2 Hs1 Hu1 Ha) as [(F1 & F2 & F3 & F4) Ho2];
    split; [by eapply once_act|]; split; [split_and!; congruence|auto]) _ _ Hrun).
  by split_and!.
Qed.

(** In every reachable state some call is at a point that describes it. *)
Lemma once_phase s : once s → ∃ pc, phase pc s.
Proof.
  intros Hs. destruct (SHM_INIT_LOCK s) as [t|] eqn:Hl.
  - destruct (proj2 (once_locked s Hs) t Hl) as (pc & Ht & _). exists pc. by eapply once_held.
  - exists Checking. by apply (once_free s Hs).
Qed.

Lemma phase_mapped pc s : phase pc s → (length s.(mapped) ≤ 1)%nat ∧ (s.(cleared) ≤ 1)%nat.
Proof.
  assert (H : ∀ s, untouched s ∨ opened s → (length s.(mapped) ≤ 1)%nat ∧ (s.(cleared) ≤ 1)%nat).
  { intros s' [(_ & -> & ->)|(_ & -> & ?)]; cbn; lia. }
  destruct pc; cbn [phase]; try apply H.
  - intros ?. by apply H; left.
  - intros (_ & -> & ->). cbn. lia.
  - intros (_ & -> & ?). cbn. lia.
  - intros (_ & -> & ?). cbn. lia.
Qed.

Lemma phase_pointer pc s : phase pc s → in_use s → s.(mapped) = [s.(shared).(SHM_POINTER)].
Proof.
  assert (H : ∀ s, untouched s ∨ opened s → in_use s → s.(mapped) = [s.(shared).(SHM_POINTER)]).
  { intros s' [(Hc & _)|(_ & ? & _)] Hu; [by destruct (closed_unused s' Hc)|done]. }
  destruct pc; cbn [phase]; try apply H.
  - intros ?. by apply H; left.
  - by intros (Hc & _) Hu%(closed_unused s Hc).
  - by intros (Hc & _) Hu%(closed_unused s Hc).
  - by intros (_ & ? & _) _.
Qed.

(** ** Progress *)

(** The accesses a call has before it. *)
Definition remaining (pc : Pc) : nat :=
  match pc with
  | Checking => 7 | Locking => 6 | Rechecking => 5 | Mapping => 4 | Clearing _ _ _ => 3
  | Pointing _ _ => 2 | Publishing => 1 | Reporting => 1
  end.

Definition turn (t : nat) (a : Action) : bool :=
  match a with Advance t' _ => Nat.eqb t' t | Open _ => false end.

Definition left_of (t : nat) (s : State) : option nat := remaining <$> s.(calls) !! t.

Lemma step_remaining t os pc s pc' s1 :
  open_step t os pc s = Some (More pc', s1) → (remaining pc' < remaining pc)%nat.
Proof.
  intros Ho. destruct pc as [| | | | |mode addr m|addr m|]; cbn [open_step] in Ho;
    try (destruct (SHM_INIT_LOCK s); [done|]); apply (inj Some) in Ho;
    apply (f_equal fst) in Ho; cbn [fst] in Ho.
  - destruct (negb _ || _); injection Ho as <-; cbn; lia.
  - done.
  - injection Ho as <-. cbn. lia.
  - destruct (is_shm_open _); [done|]. injection Ho as <-. cbn. lia.
  - destruct map_segment as [[addr m]|]; [|done]. injection Ho as <-. cbn. lia.
  - assert (Pointing addr (clear_owners mode m) = pc') as <- by congruence. cbn. lia.
  - injection Ho as <-. cbn. lia.
  - done.
Qed.

Lemma opening_turns t a s s' n :
  left_of t s = Some n → act a s = Some s' →
  match left_of t s' with
  | None => turn t a = true
  | Some n' => (if turn t a then 1 else 0) + n' ≤ n
  end%nat.
Proof.
  unfold left_of. intros Hn Ha. destruct (calls s !! t) as [pc|] eqn:Ht; [|done]. injection Hn as <-.
  apply opening_inv in Ha as [(t' & -> & Ht' & ->)|(t' & os & pc' & [o s1] & -> & Ht' & Ho & ->)].
  { cbn. rewrite lookup_insert_ne by congruence. rewrite Ht. cbn. lia. }
  rewrite (next_calls_step _ _ _ _ _ _ Ho). cbn [turn]. destruct (Nat.eqb_spec t' t) as [->|Hne].
  - assert (pc' = pc) as -> by congruence. destruct o as [pc1|b]; cbn.
    + rewrite lookup_insert_eq. cbn. apply step_remaining in Ho. lia.
    + by rewrite lookup_delete_eq.
  - destruct o; cbn; rewrite ?lookup_insert_ne, ?lookup_delete_ne by done; by rewrite Ht; cbn.
Qed.

Lemma opening_advances t pc s :
  s.(calls) !! t = Some pc → (pc = Locking → s.(SHM_INIT_LOCK) = None) →
  ∀ os, is_Some (act (Advance t os) s).
Proof.
  intros Ht Hl os. cbn [act]. rewrite Ht. cbn. rewrite fmap_is_Some.
  destruct pc; cbn [open_step]; try done. by rewrite Hl.
Qed.

(** ** A call on its own *)

Section alone.
Context `{O : Os} (t : nat).

(** The state with the call at a point, over other calls. *)
Definition at_point (pc : Pc) (s : State) : State := s <| calls ::= <[t := pc]> |>.

Lemma opening_more pc pc' s s1 :
  open_step t O pc (at_point pc s) = Some (More pc', at_point pc s1) →
  act (Advance t O) (at_point pc s) = Some (at_point pc' s1).
Proof.
  intros Ho. cbn [act]. rewrite (lookup_insert_eq s.(calls) t pc : calls (at_point pc s) !! t = Some pc).
  cbn [mbind option_bind]. rewrite Ho. unfold proceed, at_point, update. cbn. by rewrite insert_insert_eq.
Qed.

Lemma opening_ends pc b s s1 :
  s1.(calls) !! t = None → open_step t O pc (at_point pc s) = Some (Answered b, at_point pc s1) →
  act (Advance t O) (at_point pc s) = Some (s1 <| answers ::= λ l, l ++ [(t, b)] |>).
Proof.
  intros Ht Ho. cbn [act]. rewrite (lookup_insert_eq s.(calls) t pc : calls (at_point pc s) !! t = Some pc).
  cbn [mbind option_bind]. rewrite Ho. unfold proceed, at_point, update. cbn. by rewrite delete_insert_id.
Qed.

(** The mapping, with the lock. *)
Lemma map_alone s :
  s.(calls) !! t = None → is_shm_open s.(shared) = false →
  let s0 := s <| SHM_INIT_LOCK := Some t |> in
  ∃ n s', run_actions act (replicate n (Advance t O)) (at_point Mapping s0) = Some s' ∧ (n ≤ 4)%nat ∧
    s'.(calls) = s.(calls) ∧ s'.(SHM_INIT_LOCK) = None ∧
    match map_segment with
    | None => s'.(answers) = s.(answers) ++ [(t, false)] ∧ s'.(shared) = s.(shared)
    | Some (addr, m) => s'.(answers) = s.(answers) ++ [(t, true)] ∧
        s'.(shared) = mkShmState addr 1 (clear_owners shm_open_mode m)
    end.
Proof.
  intros Ht Hopen s0. destruct map_segment as [[addr m]|] eqn:Em.
  - set (s1 := s0 <| mapped ::= λ l, l ++ [addr] |>).
    set (s2 := match shm_open_mode with Creator => s1 <| cleared ::= S |> | Consumer => s1 end).
    set (m' := clear_owners shm_open_mode m).
    set (s3 := s2 <| shared := mkShmState addr s2.(shared).(SHM_OPEN) m' |>).
    set (s4 := s3 <| SHM_INIT_LOCK := None |> <| shared ::= λ x, x <| SHM_OPEN := 1 |> |>).
    assert (Hs2 : s2.(calls) = s.(calls) ∧ s2.(answers) = s.(answers))
      by (unfold s2; by destruct shm_open_mode).
    destruct Hs2 as [Ec2 Ea2].
    exists 4%nat, (s4 <| answers ::= λ l, l ++ [(t, true)] |>). split; [|split; [lia|]].
    + cbn [replicate]. eapply run_cons.
      { apply (opening_more Mapping (Clearing shm_open_mode addr m) s0 s1). cbn [open_step]. by rewrite Em. }
      eapply run_cons.
      { apply (opening_more (Clearing shm_open_mode addr m) (Pointing addr m') s1 s2). cbn [open_step].
        unfold s2. by destruct shm_open_mode. }
      eapply run_cons; [by apply (opening_more (Pointing addr m') Publishing s2 s3)|].
      eapply run_cons; [apply (opening_ends Publishing true s3 s4); [|done]|done]. by rewrite <- Ht, <- Ec2.
    + split_and!; [exact Ec2|done| |done]. change ((answers s2) ++ [(t, true)] = answers s ++ [(t, true)]).
      by rewrite Ea2.
  - exists 1%nat, (s0 <| SHM_INIT_LOCK := None |> <| answers ::= λ l, l ++ [(t, false)] |>).
    split_and!; [|lia|done..]. cbn [replicate]. eapply run_cons; [|done].
    apply (opening_ends Mapping false s0 (s0 <| SHM_INIT_LOCK := None |>)); [done|].
    cbn [open_step]. by rewrite Em.
Qed.

Lemma open_alone s :
  s.(SHM_INIT_LOCK) = None → s.(calls) !! t = None →
  let r := try_open_shm s.(shared) in
  ∃ n s', run_actions act (Open t :: replicate n (Advance t O)) s = Some s' ∧ (n ≤ 7)%nat ∧
    s'.(calls) = s.(calls) ∧ s'.(SHM_INIT_LOCK) = None ∧
    s'.(answers) = s.(answers) ++ [(t, r.1)] ∧ s'.(shared) = r.2.
Proof.
  intros Hl Ht r. unfold r, try_open_shm.
  assert (H0 : act (Open t) s = Some (at_point Checking s)) by (cbn [act]; by rewrite Ht).
  destruct (negb check_enabled || is_shm_open (shared s)) eqn:E.
  - exists 2%nat, (s <| answers ::= λ l, l ++ [(t, is_shm_open s.(shared))] |>).
    split_and!; [|lia|done..]. eapply run_cons; [exact H0|]. cbn [replicate].
    eapply run_cons; [apply (opening_more Checking Reporting s s); cbn [open_step at_point shared update]; by rewrite E|].
    eapply run_cons; [|done]. by apply (opening_ends Reporting _ s s).
  - assert (Hopen : is_shm_open s.(shared) = false) by by apply orb_false_iff in E as [_ ?].
    set (s0 := s <| SHM_INIT_LOCK := Some t |>).
    destruct (map_alone s Ht Hopen) as (n & s' & Hrun & Hn & Hc & Hl' & Hres).
    exists (3 + n)%nat, s'. split_and!; [|lia|done|done| |].
    + eapply run_cons; [exact H0|]. rewrite replicate_add. eapply (run_trans _ (replicate 3 _)); [|exact Hrun].
      cbn [replicate].
      eapply run_cons; [apply (opening_more Checking Locking s s); cbn [open_step at_point shared update]; by rewrite E|].
      eapply run_cons; [apply (opening_more Locking Rechecking s s0); cbn [open_step at_point SHM_INIT_LOCK update]; by rewrite Hl|].
      eapply run_cons; [|done]. apply (opening_more Rechecking Mapping s0 s0). cbn [open_step at_point shared update s0].
      by rewrite Hopen.
    + destruct map_segment as [[addr m]|]; by destruct Hres.
    + destruct map_segment as [[addr m]|]; by destruct Hres.
Qed.
End alone.

(** ** Properties *)

(** C31. The segment is opened once.  However calls of [try_open_shm] of any threads
    interleave access by access, and whatever the operating system answers to each:
    a process makes at most one mapping and clears the owners at most once.  A thread
    that finds the pointer set or the flag up finds the address of that one mapping;
    from then on the pointer, the mapping and its contents are left alone by every
    opening, so that no owner recorded in a segment in use is cleared, and the flag
    stays up.  A call that returns true has the flag up. *)
Theorem opened_once m s :
  star step (State_init m) s →
  (length s.(mapped) ≤ 1)%nat ∧ (s.(cleared) ≤ 1)%nat ∧
  (∀ t, (t, true) ∈ s.(answers) → is_shm_open s.(shared) = true) ∧
  (in_use s → s.(mapped) = [s.(shared).(SHM_POINTER)] ∧
   ∀ s', star step s s' → unmoved s s' ∧
     (is_shm_open s.(shared) = true → is_shm_open s'.(shared) = true)).
Proof.
  intros Hrun.
  assert (Hs : once s) by (apply (star_invariant step once
    ltac:(intros s1 s2 H1 [a Ha]; by eapply once_act) _ _ Hrun), once_init).
  destruct (once_phase s Hs) as [pc Hp]. destruct (phase_mapped pc s Hp). split_and!; [done|done|apply Hs|].
  intros Hu. split; [by eapply phase_pointer|]. intros s'. by apply in_use_star.
Qed.

(** Openings finish.  A call that finds the lock free, and whose accesses nobody
    interrupts, makes at most seven, answers what [try_open_shm] answers and leaves
    the segment as it does, whatever points the other calls are at.  In every
    reachable state a call in progress can make its next access, or waits for the
    lock and its owner can make one; and in every run in which its thread makes seven
    accesses, however the others' are interleaved, it comes to its end. *)
Theorem openings_finish :
  (∀ (O : Os) t s, s.(SHM_INIT_LOCK) = None → s.(calls) !! t = None →
     let r := try_open_shm s.(shared) in
     ∃ n s', run_actions act (Open t :: replicate n (Advance t O)) s = Some s' ∧ (n ≤ 7)%nat ∧
       s'.(calls) = s.(calls) ∧ s'.(SHM_INIT_LOCK) = None ∧
       s'.(answers) = s.(answers) ++ [(t, r.1)] ∧ s'.(shared) = r.2) ∧
  (∀ m s t pc, star step (State_init m) s → s.(calls) !! t = Some pc →
     (∀ os, is_Some (act (Advance t os) s)) ∨
     ∃ t', t' ≠ t ∧ s.(SHM_INIT_LOCK) = Some t' ∧ ∀ os, is_Some (act (Advance t' os) s)) ∧
  (∀ s t pc l s', s.(calls) !! t = Some pc → run_actions act l s = Some s' → (7 ≤ turns (turn t) l)%nat →
     ∃ l1 l2 s1, l = l1 ++ l2 ∧ run_actions act l1 s = Some s1 ∧ s1.(calls) !! t = None).
Proof.
  split_and!.
  - intros O t s. apply open_alone.
  - intros m s t pc Hrun Ht.
    assert (Hs : locked s) by (apply (star_invariant step locked
      ltac:(intros s1 s2 H1 [a Ha]; by eapply opening_locked) _ _ Hrun), mutex_ok_empty).
    refine (mutex_ok_waits _ (λ pc, match pc with Locking => true | _ => false end)
      (λ t, ∀ os, is_Some (act (Advance t os) s)) _ _ t pc Hs _ _ Ht).
    + by intros [].
    + intros t' pc' Ht' Hl. apply (opening_advances t' pc' s Ht'). intros ->. by apply Hl.
  - intros s t pc l s' Ht Hrun Hn.
    destruct (turns_end act (turn t) (left_of t) (λ _, 0)%nat (λ _, True))
      with (l := l) (s := s) (s' := s') (n := remaining pc) as (l1 & l2 & s1 & -> & Hr & He & _); try done.
    + intros s1 n. unfold left_of. destruct (calls s1 !! t) as [pc1|]; [|done]. intros [= <-].
      destruct pc1; cbn; lia.
    + intros a s1 s2 n _ Hn1 Ha. pose proof (opening_turns t a s1 s2 n Hn1 Ha). destruct (left_of t s2); [lia|done].
    + by apply Forall_true.
    + unfold left_of. by rewrite Ht.
    + enough (remaining pc ≤ 7)%nat by lia. destruct pc; cbn; lia.
    + exists l1, l2, s1. split_and!; [done..|]. unfold left_of in He. by destruct (calls s1 !! t).
Qed.

(** ** Witnesses *)

(** Two creators have found the flag down; the second takes the lock when the first
    has opened the segment, and finds it open. *)
Definition creator_os : Os := {|
  env_var := λ name, if bool_decide (name = "FAULTCORE_SHM_OPEN_MODE"%string) then Some "creator"%string else None;
  getpid_str := "7"%string;
  os_shm_open := λ _ _, 3;
  os_ftruncate := λ _ _, 0;
  os_fstat := λ _, (0, FAULTCORE_SHM_SIZE);
  os_mmap := λ _, 4096;
  os_mapped := λ _ _, 0;
|}.

Definition two_creators : list Action :=
  [Open 1; Open 2; Advance 1 creator_os; Advance 2 creator_os] ++ replicate 6 (Advance 1 creator_os) ++
  replicate 2 (Advance 2 creator_os).

Lemma opened_once_witness :
  ∃ s, run_actions act two_creators (State_init (λ _, 0)) = Some s ∧
    s.(answers) = [(1%nat, true); (2%nat, true)] ∧ s.(mapped) = [4096] ∧ s.(cleared) = 1%nat ∧
    is_shm_open s.(shared) = true ∧ ∀ s', star step s s' → unmoved s s'.
Proof.
  assert (H : (λ s, (s.(answers), s.(mapped), s.(cleared), s.(shared).(SHM_OPEN))) <$>
      run_actions act two_creators (State_init (λ _, 0)) =
    Some ([(1%nat, true); (2%nat, true)], [4096], 1%nat, 1)) by by vm_compute.
  destruct (run_actions act two_creators (State_init (λ _, 0))) as [s|] eqn:E; [|discriminate H].
  apply (inj Some) in H. injection H as Ha Hm Hc Hopen.
  destruct (opened_once _ _ (run_star _ _ _ _ E)) as (_ & _ & Htrue & Huse).
  assert (Hup : is_shm_open s.(shared) = true) by (apply (Htrue 1%nat); rewrite Ha; by left).
  exists s. split_and!; [done..|]. intros s' Hs'. by apply Huse; [by right|].
Defined.
