(* ===== verification/Layers.v ===== *)
(** * Fault layers: the shared vocabulary

    [faultcore_network/src/layers/mod.rs]: decisions, mutations, the packet
    context and the [Layer] trait; the host services the layers draw on (random
    words, clocks); and the counter-based random generator that the layers
    R2, R4, R5 and R6 each carry a copy of. *)

From Stdlib Require Import Ascii.
From S2P Require Import Prelude.
From S2P Require Import Config.

Open Scope Z_scope.

(** ** Data *)

(* faultcore_network/src/layers/mod.rs:19-23 Direction *)
Inductive Direction : Type := Uplink | Downlink.

(* faultcore_network/src/layers/mod.rs:25-31 Operation *)
Inductive Operation : Type := Connect | Send | Recv | DnsLookup.

(* faultcore_network/src/layers/mod.rs:33-44 LayerStage *)
Inductive LayerStage : Type := R0 | R1 | R2 | R3 | R4 | R5 | R6 | R7 | R8.

(* faultcore_network/src/layers/mod.rs:46-55 MutationKind *)
Inductive MutationKind : Type :=
  | KNone | KTruncate | KCorruptBytes | KInjectBytes | KReplacePattern
  | KCorruptEncoding | KSwapBytes.

Definition kind_code (k : MutationKind) : Z :=
  match k with
  | KNone => 0 | KTruncate => 1 | KCorruptBytes => 2 | KInjectBytes => 3
  | KReplacePattern => 4 | KCorruptEncoding => 5 | KSwapBytes => 6
  end.

(* faultcore_network/src/layers/mod.rs:57-62 MutationTarget *)
Inductive MutationTarget : Type := Both | UplinkOnly | DownlinkOnly.

Definition target_code (t : MutationTarget) : Z :=
  match t with Both => 0 | UplinkOnly => 1 | DownlinkOnly => 2 end.

(* faultcore_network/src/layers/mod.rs:64-89 Mutation *)
Inductive Mutation : Type :=
  | Truncate (size : Z)
  | CorruptBytes (count seed : Z)
  | InjectBytes (position : Z) (data : list Z) (len : Z)
  | ReplacePattern (find : list Z) (find_len : Z) (replace : list Z) (replace_len : Z)
  | CorruptEncoding
  | SwapBytes (pos1 pos2 : Z).

(* faultcore_network/src/layers/mod.rs:91-98 MutationOutcome *)
Record MutationOutcome : Type := mkMutationOutcome {
  applied : bool;
  input_len : Z;
  output_len : Z;
  skipped_rules : Z;
  error_count : Z
}.

(* faultcore_network/src/layers/mod.rs:100-112 LayerDecision *)
Inductive LayerDecision : Type :=
  | Continue
  | DelayNs (ns : Z)
  | Drop
  | TimeoutMs (ms : Z)
  | Error (msg : string)
  | ConnectionErrorKind (kind : Z)
  | StageReorder
  | Duplicate (count : Z)
  | NxDomain
  | Mutate (mutations : list Mutation).

#[export] Instance Direction_eq_dec : EqDecision Direction.
Proof. solve_decision. Defined.
#[export] Instance Operation_eq_dec : EqDecision Operation.
Proof. solve_decision. Defined.
#[export] Instance LayerStage_eq_dec : EqDecision LayerStage.
Proof. solve_decision. Defined.
#[export] Instance Mutation_eq_dec : EqDecision Mutation.
Proof. solve_decision. Defined.
#[export] Instance LayerDecision_eq_dec : EqDecision LayerDecision.
Proof. solve_decision. Defined.

(* faultcore_network/src/layers/mod.rs:114-121 PacketContext *)
Record PacketContext : Type := mkPacketContext {
  fd : Z;
  bytes : Z;
  operation : Operation;
  direction : option Direction;
  config : Config;
  now_ns : Z
}.

#[export] Instance eta_PacketContext : Eta PacketContext := λ c, mkPacketContext
  (c.(fd)) (c.(bytes)) (c.(operation)) (c.(direction)) (c.(config)) (c.(now_ns)).

(* faultcore_network/src/layers/mod.rs:123-143 PacketContext::is_stream *)
Definition is_stream (ctx : PacketContext) : bool :=
  match ctx.(operation) with Send | Recv => true | _ => false end.
Definition is_dns (ctx : PacketContext) : bool :=
  match ctx.(operation) with DnsLookup => true | _ => false end.
Definition is_connect (ctx : PacketContext) : bool :=
  match ctx.(operation) with Connect => true | _ => false end.
Definition is_send (ctx : PacketContext) : bool :=
  match ctx.(operation) with Send => true | _ => false end.
Definition is_recv (ctx : PacketContext) : bool :=
  match ctx.(operation) with Recv => true | _ => false end.

(** ** The host

    The crate [rand] (a seedable generator and the thread's own), and the two
    clocks: [std::time::Instant] and [clock_gettime(CLOCK_MONOTONIC)].  Draws
    and readings are numbered; [World] holds the numbers of the next ones. *)

Class Host : Type := {
  StdRng : Type;
  seed_from_u64 : Z → StdRng;
  next_u32 : StdRng → Z * StdRng;
  entropy : nat → Z;
  instant : nat → Z;
  clock_gettime : nat → option (Z * Z);   (* tv_sec, tv_nsec; None is a failure *)
}.

(** What the host documents: 32-bit words, and a clock that does not go back. *)
Class HostLaws `{Host} : Prop := {
  next_u32_range rng : is_u32 (next_u32 rng).1;
  entropy_range n : is_u32 (entropy n);
  instant_mono m n : (m ≤ n)%nat → instant m ≤ instant n;
}.

Record World : Type := mkWorld { draws : nat; ticks : nat }.

#[export] Instance eta_World : Eta World := λ w, mkWorld (w.(draws)) (w.(ticks)).

Section host.
Context `{Host}.

(** [rand::random::<u32>()] *)
Definition random : M World Z := λ w, (entropy w.(draws), w <| draws ::= S |>).

(** [Instant::now()] *)
Definition instant_now : M World Z := λ w, (instant w.(ticks), w <| ticks ::= S |>).

(* faultcore_network/src/socket_runtime.rs:92-104 monotonic_now_ns *)
Definition monotonic_now_ns : M World Z := λ w,
  (match clock_gettime w.(ticks) with
   | None => 0
   | Some (tv_sec, tv_nsec) =>
       saturating_add (saturating_mul (as_u64 tv_sec) 1000000000) (as_u64 tv_nsec)
   end, w <| ticks ::= S |>).
End host.

(** ** The [Layer] trait *)

(* faultcore_network/src/layers/mod.rs:145-158 Layer *)
Class Layer `{Host} (L : Type) : Type := {
  stage : LayerStage;
  applies_to : PacketContext → bool;
  process : PacketContext → M (L * World) LayerDecision;
  name : string;
  process_with_buffer : PacketContext → list Z → M (L * World) (LayerDecision * option (list Z));
}.
Arguments stage {_} L {_}.
Arguments applies_to {_} L {_}.
Arguments name {_} L {_}.

(** The trait's default for [process_with_buffer]. *)
Definition default_process_with_buffer {L} (process : PacketContext → M (L * World) LayerDecision)
    (ctx : PacketContext) (_ : list Z) : M (L * World) (LayerDecision * option (list Z)) :=
  d ← process ctx; mret (d, None).

(** ** The layers' random generator *)

(* faultcore_network/src/layers/r2_chaos_base.rs:44-50 R2ChaosBase::splitmix64 *)
Definition splitmix64 (x : Z) : Z :=
  let x := wrapping_add x 0x9E3779B97F4A7C15 in
  let z := x in
  let z := wrapping_mul (Z.lxor z (Z.shiftr z 30)) 0xBF58476D1CE4E5B9 in
  let z := wrapping_mul (Z.lxor z (Z.shiftr z 27)) 0x94D049BB133111EB in
  Z.lxor z (Z.shiftr z 31).

(** The fields [seeded_rng] and [policy_counter] of R2, R4, R5 and R6. *)
Record Dice `{Host} : Type := mkDice {
  seeded_rng : option StdRng;
  policy_counter : Z
}.

#[export] Instance eta_Dice `{Host} : Eta Dice := λ d, mkDice _ (d.(seeded_rng)) (d.(policy_counter)).

(** [str::parse::<u64>]: an optional plus sign and one or more digits. *)
Fixpoint parse_digits (s : string) (acc : Z) : option Z :=
  match s with
  | EmptyString => Some acc
  | String a s =>
      let d := Z.of_N (N_of_ascii a) - 48 in
      if (0 <=? d) && (d <=? 9) && (acc * 10 + d <=? u64_max)
      then parse_digits s (acc * 10 + d) else None
  end.

Definition parse_u64 (s : string) : option Z :=
  match s with
  | EmptyString => None
  | String "+"%char EmptyString => None
  | String "+"%char s => parse_digits s 0
  | s => parse_digits s 0
  end.

Section dice.
Context `{Host}.

(** The generator of a layer built by [new] from the environment variable
    [FAULTCORE_SEED], and by [with_seed]. *)
Definition dice_new (faultcore_seed : option string) : Dice :=
  mkDice _ (seed_from_u64 <$> (faultcore_seed ≫= parse_u64)) 0.
Definition dice_with_seed (seed : Z) : Dice := mkDice _ (Some (seed_from_u64 seed)) 0.

(** [random_u32] of the layer whose salt is [salt]. *)
Definition roll (salt policy_seed : Z) : M (Dice * World) Z := λ s,
  let (d, w) := s in
  if 0 <? policy_seed then
    let step := d.(policy_counter) in
    let mixed := splitmix64 (Z.lxor (Z.lxor policy_seed salt) step) in
    (Z.land mixed 0xFFFFFFFF, (d <| policy_counter := wrapping_add step 1 |>, w))
  else
    match d.(seeded_rng) with
    | Some rng => let (x, rng) := next_u32 rng in (x, (d <| seeded_rng := Some rng |>, w))
    | None => let (x, w) := random w in (x, (d, w))
    end.

(** [event_happens] of that layer. *)
Definition toss (salt probability_ppm policy_seed : Z) : M (Dice * World) bool :=
  if probability_ppm =? 0 then mret false else
  if 1000000 <=? probability_ppm then mret true else
  r ← roll salt policy_seed;
  mret (r mod 1000000 <? probability_ppm).
End dice.

(** Runs a computation on the generator of a layer. *)
Definition on_dice `{Host} {L A} (get : L → Dice) (put : Dice → L → L)
    (c : M (Dice * World) A) : M (L * World) A :=
  zoom (λ s, (get s.1, s.2)) (λ dw s, (put dw.1 s.1, dw.2)) c.

(** ** Facts about the generator *)

Lemma lxor_u64 a b : is_u64 a → is_u64 b → is_u64 (Z.lxor a b).
Proof.
  intros [Ha1 Ha2] [Hb1 Hb2]. assert (0 ≤ Z.lxor a b) by (apply Z.lxor_nonneg; lia).
  split; [done|]. destruct (Z.eq_dec (Z.lxor a b) 0) as [->|]; [lia|].
  apply Z.log2_lt_pow2; [lia|]. pose proof (Z.log2_lxor a b Ha1 Hb1).
  assert (∀ x, 0 ≤ x → x < 2 ^ 64 → Z.log2 x < 64).
  { intros x ? ?. destruct (Z.eq_dec x 0) as [->|]; [done|]. by apply Z.log2_lt_pow2; lia. }
  pose proof (H1 a Ha1 Ha2). pose proof (H1 b Hb1 Hb2). lia.
Qed.

Lemma land_u32 x : 0 ≤ Z.land x 0xFFFFFFFF < 2 ^ 32.
Proof.
  change 0xFFFFFFFF with (Z.ones 32). rewrite Z.land_ones by lia. apply Z.mod_pos_bound. lia.
Qed.

Section facts.
Context `{HostLaws}.

Lemma roll_range salt seed s : is_u32 (roll salt seed s).1.
Proof.
  destruct s as [d w]. unfold roll. destruct (0 <? seed); [apply land_u32|].
  destruct (seeded_rng d) as [rng|].
  - pose proof (next_u32_range rng). by destruct (next_u32 rng).
  - apply entropy_range.
Qed.

Lemma toss_never salt seed s : toss salt 0 seed s = (false, s).
Proof. done. Qed.

Lemma toss_always salt p seed s : 1000000 ≤ p → toss salt p seed s = (true, s).
Proof.
  intros. unfold toss. rewrite (proj2 (Z.eqb_neq _ _)), (proj2 (Z.leb_le _ _)) by lia. done.
Qed.

(** With a policy seed, the outcome is a function of the seed and the counter:
    neither the process-wide generator nor the host takes part. *)
Lemma roll_seeded salt seed d w :
  0 < seed →
  roll salt seed (d, w) =
    (Z.land (splitmix64 (Z.lxor (Z.lxor seed salt) d.(policy_counter))) 0xFFFFFFFF,
     (d <| policy_counter := wrapping_add d.(policy_counter) 1 |>, w)).
Proof. intros. unfold roll. by rewrite (proj2 (Z.ltb_lt _ _)) by lia. Qed.

Lemma toss_seeded salt p seed d w :
  0 < seed →
  (toss salt p seed (d, w)).2.2 = w ∧
  ∀ d' w', d'.(policy_counter) = d.(policy_counter) →
    (toss salt p seed (d', w')).1 = (toss salt p seed (d, w)).1 ∧
    (toss salt p seed (d', w')).2.1.(policy_counter) =
      (toss salt p seed (d, w)).2.1.(policy_counter).
Proof.
  intros Hs. unfold toss. destruct (p =? 0); [done|]. destruct (1000000 <=? p); [done|].
  run_simpl. rewrite roll_seeded by done. split; [done|]. intros d' w' E.
  run_simpl. rewrite !roll_seeded, E by done. done.
Qed.
End facts.

(** ** What the engine relies on

    The promises a stage of the main pipeline makes to the engine; each layer
    file discharges them, and the engine's theorems use nothing else. *)

(** A decision the main pipeline has a meaning for. *)
Definition main_decision (d : LayerDecision) : Prop :=
  match d with
  | Continue | Drop | TimeoutMs _ | ConnectionErrorKind _ | NxDomain => True
  | DelayNs ns => is_u64 ns
  | Error _ | StageReorder | Duplicate _ | Mutate _ => False
  end.

Definition ctx_ok (ctx : PacketContext) : Prop :=
  Config_wf ctx.(config) ∧ is_u64 ctx.(bytes) ∧ is_u64 ctx.(now_ns) ∧
  ctx.(config).(jitter_ns) < u64_max.

(** A stage keeps its own invariant and yields main-pipeline decisions only. *)
Class StageLayer `{HostLaws} (L : Type) `{!Layer L} : Type := {
  layer_ok : L → Prop;
  process_ok ctx l w : layer_ok l → ctx_ok ctx → layer_ok (process ctx (l, w)).2.1;
  process_main ctx l w : layer_ok l → ctx_ok ctx → main_decision (process ctx (l, w)).1;
}.

(** The state a stage keeps per descriptor is touched for the packet's own
    descriptor only. *)
Class FdLocal `{Host} (L : Type) `{!Layer L} : Type := {
  View : Type;
  view : L → Z → View;
  process_view ctx l w i : i ≠ ctx.(fd) → view (process ctx (l, w)).2.1 i = view l i;
}.
Arguments View {_} L {_ _}.

(** With a policy seed and no rate limit, a stage's behaviour is a function of
    the packet and of the state that [same] compares: the process-wide
    generator, the entropy and the clock take no part. *)
Class SeedDetermined `{Host} (L : Type) `{!Layer L} : Type := {
  same : L → L → Prop;
  process_seeded ctx l l' w w' :
    0 < ctx.(config).(policy_seed) → ctx.(config).(bandwidth_bps) = 0 → same l l' →
    (process ctx (l, w)).1 = (process ctx (l', w')).1 ∧
    same (process ctx (l, w)).2.1 (process ctx (l', w')).2.1;
  process_clockless ctx n : process (ctx <| now_ns := n |>) = process ctx;
}.

(** ** Determinism of computations

    [det R c]: from states that [R] relates, and whatever the worlds, [c] gives
    the same result and states that [R] relates again. *)

Section det.
Context {L : Type} (R : L → L → Prop).

Definition det {A} (c : M (L * World) A) : Prop :=
  ∀ l l' w w', R l l' →
    (c (l, w)).1 = (c (l', w')).1 ∧ R (c (l, w)).2.1 (c (l', w')).2.1.

Lemma det_ret {A} (a : A) : det (mret a).
Proof. by intros l l' w w' Hl. Qed.

Lemma det_bind {A B} (c : M (L * World) A) (f : A → M (L * World) B) :
  det c → (∀ a, det (f a)) → det (c ≫= f).
Proof.
  intros Hc Hf l l' w w' Hl. destruct (Hc l l' w w' Hl) as [E HR]. rewrite !bind_run, <- E.
  destruct (c (l, w)) as [a [l1 w1]], (c (l', w')) as [a' [l1' w1']]. by apply Hf.
Qed.

Lemma det_if {A} (b : bool) (c d : M (L * World) A) : det c → det d → det (if b then c else d).
Proof. by destruct b. Qed.

Lemma det_gets {A} (f : L → A) : (∀ l l', R l l' → f l = f l') → det (gets (λ s, f s.1)).
Proof. intros Hf l l' w w' Hl. split; [by apply Hf|done]. Qed.

Lemma det_modify (g : L → L) :
  (∀ l l', R l l' → R (g l) (g l')) → det (modify (λ s, (g s.1, s.2))).
Proof. intros Hg l l' w w' Hl. split; [done|by apply Hg]. Qed.

Lemma det_zoom {A} (c : M L A) :
  (∀ l l', R l l' → (c l).1 = (c l').1 ∧ R (c l).2 (c l').2) →
  det (zoom fst (λ r s, (r, s.2)) c).
Proof. intros Hc l l' w w' Hl. by apply Hc. Qed.
End det.

Create HintDb det.
#[export] Hint Resolve det_ret det_bind det_if : det.

(** A toss of a layer's generator under a policy seed. *)
Lemma det_toss `{HostLaws} {L} (R : L → L → Prop) get put salt p seed :
  0 < seed →
  (∀ l l', R l l' → (get l).(policy_counter) = (get l').(policy_counter)) →
  (∀ l l' d d', R l l' → d.(policy_counter) = d'.(policy_counter) → R (put d l) (put d' l')) →
  det R (on_dice get put (toss salt p seed)).
Proof.
  intros Hs Hget Hput l l' w w' Hl. unfold on_dice. rewrite !zoom_run. cbn [fst snd].
  destruct (toss_seeded salt p seed (get l') w' Hs) as [_ E].
  destruct (E (get l) w (Hget _ _ Hl)) as [E1 E2]. split; [done|]. by apply Hput.
Qed.

Lemma det_roll `{HostLaws} {L} (R : L → L → Prop) get put salt seed :
  0 < seed →
  (∀ l l', R l l' → (get l).(policy_counter) = (get l').(policy_counter)) →
  (∀ l l' d d', R l l' → d.(policy_counter) = d'.(policy_counter) → R (put d l) (put d' l')) →
  det R (on_dice get put (roll salt seed)).
Proof.
  intros Hs Hget Hput l l' w w' Hl. unfold on_dice. rewrite !zoom_run. cbn [fst snd].
  rewrite !roll_seeded, (Hget _ _ Hl) by done. cbn [fst snd]. split; [done|]. by apply Hput.
Qed.

(** ** A concrete host, for the witnesses *)

Definition example_host : Host := {|
  StdRng := Z;
  seed_from_u64 s := s;
  next_u32 s := (Z.land (splitmix64 s) 0xFFFFFFFF, wrapping_add s 1);
  entropy n := Z.of_nat n mod 2 ^ 32;
  instant n := Z.of_nat n * 1000;
  clock_gettime n := Some (Z.of_nat n, 500);
|}.

#[export] Instance example_host_laws : @HostLaws example_host.
Proof.
  split; cbn.
  - intros. apply land_u32.
  - intros. apply Z.mod_pos_bound. lia.
  - intros. lia.
Qed.

Definition example_world : World := mkWorld 0 0.

(** A packet of 100 bytes sent on a descriptor. *)
Definition example_packet (c : Config) (i : Z) : PacketContext :=
  mkPacketContext i 100 Send (Some Uplink) c 5000.
