(* ===== verification/Sockets.v ===== *)
(** * Socket addresses

    [faultcore_network/src/socket_runtime.rs]: the endpoint in a [sockaddr] and
    the endpoint of a socket.  A pointer to a [sockaddr] is its bytes, or [None]
    when null; what the kernel answers about a descriptor is the class
    [Sockets]. *)

From S2P Require Import Prelude.
From S2P Require Import Config.
From S2P Require Import ShmContract.

Open Scope Z_scope.

Definition AF_INET : Z := 2.
Definition AF_INET6 : Z := 10.
Definition SOCK_STREAM : Z := 1.
Definition SOCK_DGRAM : Z := 2.

(** [core::mem::size_of] of the two address structures on Linux. *)
Definition SIZEOF_SOCKADDR_IN : Z := 16.
Definition SIZEOF_SOCKADDR_IN6 : Z := 28.

(** [n] bytes at an offset, and the integer they are in network order. *)
Definition bytes_at (bs : list Z) (off n : nat) : list Z := take n (drop off bs).
Definition be_value (bs : list Z) : Z := le_value (reverse bs).
Definition be_bytes (n : nat) (z : Z) : list Z := reverse (le_bytes n z).

(** What [getsockopt(SO_TYPE)] and [getpeername] answer in a state of the kernel;
    [None] is a failure. *)
Class Sockets (N : Type) : Type := {
  so_type : Z → N → option Z;
  peer_name : Z → N → option (list Z * Z);
}.

(** The kernel writes an address into zeroed storage that is as long as any. *)
Class SocketsLaws (N : Type) `{Sockets N} : Prop := {
  peer_name_bytes fd n bs l :
    peer_name fd n = Some (bs, l) → length bs = 128%nat ∧ Forall is_byte bs ∧ l ≤ 128;
}.

(* faultcore_network/src/socket_runtime.rs:27-69 sockaddr_endpoint *)
Definition sockaddr_endpoint (a : option (list Z)) (addr_len : Z) : option Endpoint :=
  match a with
  | None => None
  | Some a =>
      let family := le_value (bytes_at a 0 2) in
      if family =? AF_INET then
        if addr_len <? SIZEOF_SOCKADDR_IN then None else
        let ipv4 := be_value (bytes_at a 4 4) in
        let octets := be_bytes 4 ipv4 in
        Some (mkEndpoint 1 (octets ++ replicate 12 0) ipv4 (be_value (bytes_at a 2 2)) 0)
      else if family =? AF_INET6 then
        if addr_len <? SIZEOF_SOCKADDR_IN6 then None else
        Some (mkEndpoint 2 (bytes_at a 8 16) 0 (be_value (bytes_at a 2 2)) 0)
      else None
  end.

Section sockets.
Context {N : Type} `{Sockets N}.

(* faultcore_network/src/socket_runtime.rs:4-25 socket_protocol_for_fd *)
Definition socket_protocol_for_fd (fd : Z) (n : N) : Z :=
  match so_type fd n with
  | None => 0
  | Some sock_type =>
      if sock_type =? SOCK_STREAM then 1 else if sock_type =? SOCK_DGRAM then 2 else 0
  end.

(* faultcore_network/src/socket_runtime.rs:71-90 peer_endpoint_for_fd *)
Definition peer_endpoint_for_fd (fd : Z) (n : N) : option Endpoint :=
  match peer_name fd n with
  | None => None
  | Some (storage, len) => sockaddr_endpoint (Some storage) len
  end.

(* faultcore_network/src/socket_runtime.rs:106-110 endpoint_for_fd *)
Definition endpoint_for_fd (fd : Z) (n : N) : option Endpoint :=
  endpoint ← peer_endpoint_for_fd fd n;
  Some (endpoint <| protocol := socket_protocol_for_fd fd n |>).

(* faultcore_network/src/socket_runtime.rs:112-124 endpoint_for_addr_or_fd *)
Definition endpoint_for_addr_or_fd (fd : Z) (a : option (list Z)) (addr_len : Z) (n : N) : option Endpoint :=
  let protocol := socket_protocol_for_fd fd n in
  endpoint ← match sockaddr_endpoint a addr_len with
             | Some e => Some e
             | None => peer_endpoint_for_fd fd n
             end;
  Some (endpoint <| Config.protocol := protocol |>).
End sockets.

(** ** Facts *)

Lemma length_be_bytes n z : length (be_bytes n z) = n.
Proof. unfold be_bytes. by rewrite length_reverse, length_le_bytes. Qed.

Lemma be_bytes_byte n z : Forall is_byte (be_bytes n z).
Proof. unfold be_bytes. rewrite Forall_reverse. apply le_bytes_byte. Qed.

Lemma be_value_bytes n z : 0 ≤ z < 256 ^ Z.of_nat n → be_value (be_bytes n z) = z.
Proof. intros. unfold be_value, be_bytes. rewrite reverse_involutive. by apply le_value_bytes. Qed.

Lemma be_bytes_value bs n : Forall is_byte bs → length bs = n → be_bytes n (be_value bs) = bs.
Proof.
  intros Hb <-. unfold be_value, be_bytes. rewrite <- length_reverse, le_bytes_value.
  - apply reverse_involutive.
  - by rewrite Forall_reverse.
Qed.

Lemma be_value_bound bs : Forall is_byte bs → 0 ≤ be_value bs < 256 ^ Z.of_nat (length bs).
Proof.
  intros Hb. unfold be_value. rewrite <- length_reverse. apply le_value_bound.
  by rewrite Forall_reverse.
Qed.

Lemma bytes_at_app (pre mid post : list Z) off n :
  length pre = off → length mid = n → bytes_at (pre ++ mid ++ post) off n = mid.
Proof. intros <- <-. unfold bytes_at. by rewrite drop_app_length, take_app_length. Qed.

Lemma bytes_at_byte bs off n : Forall is_byte bs → Forall is_byte (bytes_at bs off n).
Proof. intros H. unfold bytes_at. by apply Forall_take, Forall_drop. Qed.

Lemma length_bytes_at bs off n : (off + n ≤ length bs)%nat → length (bytes_at bs off n) = n.
Proof. intros. unfold bytes_at. rewrite length_take, length_drop. lia. Qed.

(** The two structures the code reads, as libc lays them out. *)
Definition sockaddr_in (port : Z) (octets zero : list Z) : list Z :=
  le_bytes 2 AF_INET ++ be_bytes 2 port ++ octets ++ zero.
Definition sockaddr_in6 (port : Z) (flow octets scope : list Z) : list Z :=
  le_bytes 2 AF_INET6 ++ be_bytes 2 port ++ flow ++ octets ++ scope.

Lemma sockaddr_in_fields port octets zero :
  0 ≤ port < 2 ^ 16 → length octets = 4%nat →
  let a := sockaddr_in port octets zero in
  le_value (bytes_at a 0 2) = AF_INET ∧ be_value (bytes_at a 2 2) = port ∧ bytes_at a 4 4 = octets.
Proof.
  intros Hp Hlen. unfold sockaddr_in. split_and!; [done| |].
  - rewrite (bytes_at_app (le_bytes 2 AF_INET)); [by apply be_value_bytes|done|apply length_be_bytes].
  - rewrite app_assoc. apply bytes_at_app; [by rewrite length_app, length_be_bytes|done].
Qed.

Lemma sockaddr_in6_fields port flow octets scope :
  0 ≤ port < 2 ^ 16 → length flow = 4%nat → length octets = 16%nat →
  let a := sockaddr_in6 port flow octets scope in
  le_value (bytes_at a 0 2) = AF_INET6 ∧ be_value (bytes_at a 2 2) = port ∧ bytes_at a 8 16 = octets.
Proof.
  intros Hp Hflow Hlen. unfold sockaddr_in6. split_and!; [done| |].
  - rewrite (bytes_at_app (le_bytes 2 AF_INET6)); [by apply be_value_bytes|done|apply length_be_bytes].
  - rewrite 2!app_assoc. apply bytes_at_app; [by rewrite !length_app, length_be_bytes, Hflow|done].
Qed.

(** The endpoints that reach the rest of the code. *)
Definition endpoint_wf (e : Endpoint) : Prop :=
  (e.(address_family) = 1 ∨ e.(address_family) = 2) ∧ is_addr16 e.(addr) ∧
  0 ≤ e.(port) < 2 ^ 16 ∧ 0 ≤ e.(protocol) ≤ 2 ∧ is_u32 e.(ipv4).

Lemma sockaddr_endpoint_wf a l e :
  Forall is_byte a → l ≤ Z.of_nat (length a) →
  sockaddr_endpoint (Some a) l = Some e → endpoint_wf e.
Proof.
  intros Hb Hl. unfold sockaddr_endpoint.
  assert (Hport : (4 ≤ length a)%nat → 0 ≤ be_value (bytes_at a 2 2) < 2 ^ 16).
  { intros Hlen. pose proof (be_value_bound (bytes_at a 2 2) (bytes_at_byte a 2 2 Hb)) as Hp.
    by rewrite length_bytes_at in Hp by lia. }
  destruct (_ =? AF_INET).
  - destruct (Z.ltb_spec l SIZEOF_SOCKADDR_IN) as [|Hlen]; [done|]. unfold SIZEOF_SOCKADDR_IN in Hlen.
    intros <-%(inj Some). pose proof (be_value_bound (bytes_at a 4 4) (bytes_at_byte a 4 4 Hb)) as Hv.
    rewrite length_bytes_at in Hv by lia. unfold endpoint_wf, is_addr16, is_u32.
    cbn [address_family addr port protocol ipv4]. split; [by left|]. split.
    { rewrite length_app, length_be_bytes, length_replicate. split; [done|].
      apply Forall_app. split; [apply be_bytes_byte|]. by apply Forall_replicate. }
    split; [apply Hport; lia|]. split; [done|]. exact Hv.
  - destruct (_ =? AF_INET6); [|done].
    destruct (Z.ltb_spec l SIZEOF_SOCKADDR_IN6) as [|Hlen]; [done|]. unfold SIZEOF_SOCKADDR_IN6 in Hlen.
    intros <-%(inj Some). unfold endpoint_wf, is_addr16, is_u32.
    cbn [address_family addr port protocol ipv4]. split; [by right|]. split.
    { split; [apply length_bytes_at; lia|by apply bytes_at_byte]. }
    split; [apply Hport; lia|]. done.
Qed.

Lemma with_protocol_wf e p :
  endpoint_wf e → 0 ≤ p ≤ 2 → endpoint_wf (e <| protocol := p |>).
Proof. intros (H1 & H2 & H3 & _ & H5) Hp. exact (conj H1 (conj H2 (conj H3 (conj Hp H5)))). Qed.

(** ** Properties *)

Lemma socket_protocol_range {N} `{Sockets N} fd (n : N) : 0 ≤ socket_protocol_for_fd fd n ≤ 2.
Proof. unfold socket_protocol_for_fd. repeat case_match; lia. Qed.

Lemma peer_endpoint_wf {N} `{SocketsLaws N} fd (n : N) e :
  peer_endpoint_for_fd fd n = Some e → endpoint_wf e.
Proof.
  unfold peer_endpoint_for_fd. destruct (peer_name fd n) as [[bs len]|] eqn:Hn; [|done].
  apply peer_name_bytes in Hn as (Hlen & Hb & Hle). apply sockaddr_endpoint_wf; [done|lia].
Qed.

(** Endpoints round-trip through socket addresses.  The endpoint read from an
    IPv4 or IPv6 socket address is the one that was written: its port and its four
    or sixteen octets, the former padded with zeros; a null pointer, a truncated
    structure or another family gives none. *)
Theorem sockaddr_roundtrip port octets fill flow l :
  0 ≤ port < 2 ^ 16 → Forall is_byte octets →
  (length octets = 4%nat → SIZEOF_SOCKADDR_IN ≤ l →
     sockaddr_endpoint (Some (sockaddr_in port octets fill)) l =
       Some (mkEndpoint 1 (octets ++ replicate 12 0) (be_value octets) port 0)) ∧
  (length flow = 4%nat → length octets = 16%nat → SIZEOF_SOCKADDR_IN6 ≤ l →
     sockaddr_endpoint (Some (sockaddr_in6 port flow octets fill)) l =
       Some (mkEndpoint 2 octets 0 port 0)) ∧
  (∀ a l, l < SIZEOF_SOCKADDR_IN → sockaddr_endpoint a l = None).
Proof.
  intros Hport Hoct. split_and!.
  - intros Hlen Hl. destruct (sockaddr_in_fields port octets fill Hport Hlen) as (Hf & Hp & Ho).
    unfold sockaddr_endpoint. rewrite Hf, Hp, Ho.
    change (AF_INET =? AF_INET) with true. cbv iota. rewrite (proj2 (Z.ltb_ge l _) Hl).
    by rewrite be_bytes_value.
  - intros Hflow Hlen Hl.
    destruct (sockaddr_in6_fields port flow octets fill Hport Hflow Hlen) as (Hf & Hp & Ho).
    unfold sockaddr_endpoint. rewrite Hf, Hp, Ho.
    change (AF_INET6 =? AF_INET) with false. change (AF_INET6 =? AF_INET6) with true. cbv iota.
    by rewrite (proj2 (Z.ltb_ge l _) Hl).
  - intros [a|] k Hk; [|done]. unfold sockaddr_endpoint, SIZEOF_SOCKADDR_IN, SIZEOF_SOCKADDR_IN6 in *.
    repeat case_match; try done; lia.
Qed.


(** ** Witnesses *)

(** A kernel with one connected TCP socket, descriptor 9, to 10.1.200.7:443. *)
#[export] Instance example_sockets : Sockets unit := {|
  so_type fd _ := if fd =? 9 then Some SOCK_STREAM else None;
  peer_name fd _ :=
    if fd =? 9 then Some (sockaddr_in 443 [10; 1; 200; 7] (replicate 120 0), 16) else None;
|}.

#[export] Instance example_sockets_laws : SocketsLaws unit.
Proof.
  split. intros fd [] bs l H. cbn [peer_name example_sockets] in H. destruct (fd =? 9); [|done].
  injection H as <- <-. split_and!; [done| |done]. by apply (bool_decide_unpack _); vm_compute.
Qed.

Lemma sockaddr_roundtrip_witness :
  sockaddr_endpoint (Some (sockaddr_in 443 [10; 1; 200; 7] (replicate 8 0))) 16 = Some
    (mkEndpoint 1 [10; 1; 200; 7; 0; 0; 0; 0; 0; 0; 0; 0; 0; 0; 0; 0] 167888903 443 0).
Proof.
  refine (proj1 (sockaddr_roundtrip 443 [10; 1; 200; 7] (replicate 8 0) [] 16 _ _) eq_refl _).
  - lia.
  - by apply (bool_decide_unpack _); vm_compute.
  - done.
Defined.

