(* ===== verification/R1SessionGuard.v ===== *)
(** * R1: session budgets

    [faultcore_network/src/layers/r1_session_guard.rs]: per-descriptor budgets
    of bytes, operations and time, and the decision once one is exceeded. *)

From S2P Require Import Prelude.
From S2P Require Import Config.
From S2P Require Import Layers.

Open Scope Z_scope.

(* faultcore_network/src/layers/r1_session_guard.rs:8-14 SessionState *)
Record SessionState : Type := mkSessionState {
  started_monotonic_ns : Z;
  tx_bytes : Z;
  rx_bytes : Z;
  ops : Z
}.

#[export] Instance eta_SessionState : Eta SessionState := λ s, mkSessionState
  (s.(started_monotonic_ns)) (s.(tx_bytes)) (s.(rx_bytes)) (s.(ops)).

#[export] Instance SessionState_eq_dec : EqDecision SessionState.
Proof. solve_decision. Defined.

(* faultcore_network/src/layers/r1_session_guard.rs:16-26 R1SessionGuard *)
Record R1SessionGuard : Type := mkR1 { state_by_fd : gmap Z SessionState }.

#[export] Instance eta_R1 : Eta R1SessionGuard := λ g, mkR1 (g.(state_by_fd)).

Definition R1_new : R1SessionGuard := mkR1 ∅.

(* faultcore_network/src/layers/r1_session_guard.rs:27-38 R1SessionGuard::action_decision *)
Definition action_decision (c : Config) : LayerDecision :=
  match c.(session_action) with
  | 1 => Drop
  | 2 => TimeoutMs (Z.max c.(session_budget_timeout_ms) 1)
  | 3 => ConnectionErrorKind (if c.(session_error_kind) =? 0 then 1 else c.(session_error_kind))
  | _ => Continue
  end.

(* faultcore_network/src/layers/r1_session_guard.rs:40-95 R1SessionGuard::precheck *)
Definition precheck (fd bytes : Z) (direction : Direction) (c : Config) (now_monotonic_ns : Z) :
    M R1SessionGuard LayerDecision := λ g,
  if (fd <? 0) || (c.(session_budget_enabled) =? 0) || (c.(session_action) =? 0)
  then (Continue, g) else
  let state := default (mkSessionState now_monotonic_ns 0 0 0) (g.(state_by_fd) !! fd) in
  let put state := g <| state_by_fd := <[fd := state]> g.(state_by_fd) |> in
  if (0 <? c.(session_max_duration_ms)) &&
     (saturating_mul c.(session_max_duration_ms) 1000000 <=?
        saturating_sub now_monotonic_ns state.(started_monotonic_ns))
  then (action_decision c, put state) else
  if (0 <? c.(session_max_ops)) && (c.(session_max_ops) <=? state.(ops))
  then (action_decision c, put state) else
  let over := match direction with
              | Uplink => (0 <? c.(session_max_bytes_tx)) &&
                          (c.(session_max_bytes_tx) <? saturating_add state.(tx_bytes) bytes)
              | Downlink => (0 <? c.(session_max_bytes_rx)) &&
                            (c.(session_max_bytes_rx) <? saturating_add state.(rx_bytes) bytes)
              end in
  if over then (action_decision c, put state) else
  let state := state <| ops ::= λ n, saturating_add n 1 |> in
  let state := match direction with
               | Uplink => state <| tx_bytes ::= λ n, saturating_add n bytes |>
               | Downlink => state <| rx_bytes ::= λ n, saturating_add n bytes |>
               end in
  (Continue, put state).

(* faultcore_network/src/layers/r1_session_guard.rs:97-103 R1SessionGuard::clear_fd_state *)
Definition clear_fd_state (fd : Z) (g : R1SessionGuard) : R1SessionGuard :=
  if fd <? 0 then g else g <| state_by_fd ::= delete fd |>.

(* faultcore_network/src/layers/r1_session_guard.rs:116-122 R1SessionGuard::process *)
Definition R1_process (ctx : PacketContext) : M (R1SessionGuard * World) LayerDecision := λ s,
  match ctx.(direction) with
  | Some d =>
      let r := precheck ctx.(fd) ctx.(bytes) d ctx.(config) ctx.(now_ns) s.1 in
      (r.1, (r.2, s.2))
  | None => (Continue, s)
  end.

(* faultcore_network/src/layers/r1_session_guard.rs:111-127 Layer for R1SessionGuard *)
#[export] Instance R1_layer `{Host} : Layer R1SessionGuard := {
  stage := R1;
  applies_to _ := true;
  process := R1_process;
  name := "R1_SessionGuard";
  process_with_buffer := default_process_with_buffer R1_process;
}.

(** ** One check *)

(** The configurations under which the guard does anything. *)
Definition guard_active (c : Config) : Prop :=
  c.(session_budget_enabled) ≠ 0 ∧ 1 ≤ c.(session_action) ≤ 3.

Lemma action_decision_stops c : guard_active c → action_decision c ≠ Continue.
Proof.
  intros [_ H]. unfold action_decision.
  assert (c.(session_action) = 1 ∨ c.(session_action) = 2 ∨ c.(session_action) = 3)
    as [-> | [-> | ->]] by lia; done.
Qed.

(** The account of a descriptor: a fresh one starts at the time of its first check. *)
Definition account (g : R1SessionGuard) (fd now : Z) : SessionState :=
  default (mkSessionState now 0 0 0) (g.(state_by_fd) !! fd).

(** The account after admitting one operation. *)
Definition charge (d : Direction) (bytes : Z) (s : SessionState) : SessionState :=
  let s := s <| ops ::= λ n, saturating_add n 1 |> in
  match d with
  | Uplink => s <| tx_bytes ::= λ n, saturating_add n bytes |>
  | Downlink => s <| rx_bytes ::= λ n, saturating_add n bytes |>
  end.

(** What admission requires. *)
Definition within_budget (c : Config) (d : Direction) (bytes now : Z) (s : SessionState) : Prop :=
  (0 < c.(session_max_duration_ms) →
     saturating_sub now s.(started_monotonic_ns) <
       saturating_mul c.(session_max_duration_ms) 1000000) ∧
  (0 < c.(session_max_ops) → s.(ops) < c.(session_max_ops)) ∧
  match d with
  | Uplink => 0 < c.(session_max_bytes_tx) →
                saturating_add s.(tx_bytes) bytes ≤ c.(session_max_bytes_tx)
  | Downlink => 0 < c.(session_max_bytes_rx) →
                  saturating_add s.(rx_bytes) bytes ≤ c.(session_max_bytes_rx)
  end.

Lemma precheck_frame fd bytes d c now g i :
  i ≠ fd → (precheck fd bytes d c now g).2.(state_by_fd) !! i = g.(state_by_fd) !! i.
Proof.
  intros Hi. unfold precheck.
  repeat match goal with |- context [if ?b then _ else _] => destruct b end; cbn; try done;
    by rewrite lookup_insert_ne.
Qed.

(** Every check either admits the operation and charges the account, or refuses
    it with the configured action and leaves the account alone. *)
Lemma precheck_step fd bytes d c now g :
  0 ≤ fd → guard_active c →
  let s := account g fd now in
  let r := precheck fd bytes d c now g in
  (r.1 = Continue ∧ within_budget c d bytes now s ∧
     r.2.(state_by_fd) !! fd = Some (charge d bytes s)) ∨
  (r.1 = action_decision c ∧ ¬ within_budget c d bytes now s ∧
     r.2.(state_by_fd) !! fd = Some s).
Proof.
  intros Hfd [Hen Hac] s r. unfold r, precheck. fold (account g fd now). fold s.
  rewrite (proj2 (Z.ltb_ge fd 0)), (proj2 (Z.eqb_neq _ _) Hen), (proj2 (Z.eqb_neq _ _)) by lia.
  cbn [orb]. unfold within_budget.
  destruct (Z.ltb_spec 0 c.(session_max_duration_ms)); cbn [andb];
    [destruct (Z.leb_spec (saturating_mul c.(session_max_duration_ms) 1000000)
                (saturating_sub now s.(started_monotonic_ns)))|].
  1: { right. cbn. rewrite lookup_insert_eq. split; [done|]. split; [lia|done]. }
  all: destruct (Z.ltb_spec 0 c.(session_max_ops)); cbn [andb];
    [destruct (Z.leb_spec c.(session_max_ops) s.(ops))|].
  1, 4: right; cbn; rewrite lookup_insert_eq; split; [done|]; split; [lia|done].
  all: destruct d; cbn [andb];
    repeat match goal with
      | |- context [0 <? ?x] => destruct (Z.ltb_spec 0 x); cbn [andb]
      | |- context [?x <? ?y] => destruct (Z.ltb_spec x y)
      end;
    solve [left; cbn; rewrite lookup_insert_eq; split; [done|]; split; [lia|done]
          |right; cbn; rewrite lookup_insert_eq; split; [done|]; split; [lia|done]].
Qed.

(** The first check of a descriptor opens its account. *)
Lemma precheck_fresh fd bytes d c now g :
  0 ≤ fd → c.(session_budget_enabled) ≠ 0 → c.(session_action) ≠ 0 →
  g.(state_by_fd) !! fd = None →
  precheck fd bytes d c now (g <| state_by_fd ::= <[fd := mkSessionState now 0 0 0]> |>) =
    precheck fd bytes d c now g.
Proof.
  intros Hfd Hen Hac Hnone. unfold precheck.
  rewrite (proj2 (Z.ltb_ge _ 0)), (proj2 (Z.eqb_neq _ _) Hen), (proj2 (Z.eqb_neq _ _) Hac) by lia.
  cbn [orb state_by_fd update eta_R1]. rewrite lookup_insert_eq, Hnone. cbn [default]. unfold id.
  repeat match goal with |- context [if ?b then _ else _] => destruct b end;
    unfold update; cbn beta; by rewrite ?insert_insert_eq.
Qed.

(** ** Traces *)

Record Request : Type := mkRequest {
  req_fd : Z;
  req_bytes : Z;
  req_direction : Direction;
  req_config : Config;
  req_now : Z
}.

(** The guard over a sequence of requests, with what it decided on each. *)
Fixpoint run_checks (reqs : list Request) (g : R1SessionGuard) :
    list (Request * LayerDecision) * R1SessionGuard :=
  match reqs with
  | [] => ([], g)
  | r :: reqs =>
      let step := precheck r.(req_fd) r.(req_bytes) r.(req_direction) r.(req_config) r.(req_now) g in
      let rest := run_checks reqs step.2 in
      ((r, step.1) :: rest.1, rest.2)
  end.

(** The requests of a descriptor that were let through. *)
Definition admitted (fd : Z) (out : list (Request * LayerDecision)) : list Request :=
  (filter (λ p, p.1.(req_fd) = fd ∧ p.2 = Continue) out).*1.

Definition total_bytes (d : Direction) (rs : list Request) : Z :=
  zsum (req_bytes <$> filter (λ r, r.(req_direction) = d) rs).

Lemma admitted_cons fd r d out :
  admitted fd ((r, d) :: out) =
    (if bool_decide (r.(req_fd) = fd ∧ d = Continue) then [r] else []) ++ admitted fd out.
Proof.
  unfold admitted. rewrite filter_cons. cbn [fst snd].
  destruct (decide _); case_bool_decide; done.
Qed.

Lemma total_bytes_cons d r rs :
  total_bytes d (r :: rs) =
    (if bool_decide (r.(req_direction) = d) then r.(req_bytes) else 0) + total_bytes d rs.
Proof.
  unfold total_bytes. rewrite filter_cons.
  destruct (decide _); case_bool_decide; try done; cbn; lia.
Qed.

(** The remaining budget of an account bounds everything admitted later. *)
Definition budget_left (c : Config) (s : SessionState) (rs : list Request) : Prop :=
  (0 < c.(session_max_ops) → s.(ops) ≤ c.(session_max_ops) →
     s.(ops) + Z.of_nat (length rs) ≤ c.(session_max_ops)) ∧
  (0 < c.(session_max_bytes_tx) < u64_max → s.(tx_bytes) ≤ c.(session_max_bytes_tx) →
     s.(tx_bytes) + total_bytes Uplink rs ≤ c.(session_max_bytes_tx)) ∧
  (0 < c.(session_max_bytes_rx) < u64_max → s.(rx_bytes) ≤ c.(session_max_bytes_rx) →
     s.(rx_bytes) + total_bytes Downlink rs ≤ c.(session_max_bytes_rx)) ∧
  (0 < c.(session_max_duration_ms) →
     Forall (λ r, r.(req_now) - s.(started_monotonic_ns) < c.(session_max_duration_ms) * 1000000) rs).

Lemma budget_left_charge c r s rs :
  c.(session_max_ops) ≤ u64_max →
  within_budget c r.(req_direction) r.(req_bytes) r.(req_now) s →
  budget_left c (charge r.(req_direction) r.(req_bytes) s) rs →
  budget_left c s (r :: rs).
Proof.
  intros Hops (Hd & Ho & Hb) (H1 & H2 & H3 & H4). unfold budget_left.
  rewrite !total_bytes_cons. cbn [length].
  destruct (r.(req_direction)); cbn in *; repeat split; intros;
    try first [case_bool_decide; [|done] | case_bool_decide; [done|]].
  all: try (constructor; [specialize (Hd ltac:(done)); mach | auto]).
  all: try (specialize (Ho ltac:(lia)); assert (saturating_add (ops s) 1 = ops s + 1) as E by mach;
    rewrite E in *; lia).
  all: try (assert (saturating_add (tx_bytes s) (req_bytes r) = tx_bytes s + req_bytes r) as E by mach;
    rewrite E in *; lia).
  all: try (assert (saturating_add (rx_bytes s) (req_bytes r) = rx_bytes s + req_bytes r) as E by mach;
    rewrite E in *; lia).
  all: lia.
Qed.

Section traces.
Context (c : Config) (fd : Z).
Hypotheses (c_wf : c.(session_max_ops) ≤ u64_max) (c_active : guard_active c) (fd_ok : 0 ≤ fd).

(** Requests on the descriptor carry the configuration; others carry any. *)
Definition governed (reqs : list Request) : Prop :=
  Forall (λ r, r.(req_fd) = fd → r.(req_config) = c) reqs.

Lemma run_checks_budget reqs g s :
  governed reqs → g.(state_by_fd) !! fd = Some s →
  budget_left c s (admitted fd (run_checks reqs g).1) ∧
  Forall (λ p, p.1.(req_fd) = fd → p.2 = Continue ∨ p.2 = action_decision c)
    (run_checks reqs g).1.
Proof.
  intros Hg. revert g s; induction Hg as [|r reqs Hr _ IH]; intros g s Hs.
  { split; [|by constructor]. unfold budget_left, total_bytes; cbn.
    split_and!; try (intros; lia). intros; constructor. }
  cbn [run_checks fst snd]. rewrite admitted_cons.
  destruct (decide (r.(req_fd) = fd)) as [Efd|Hne].
  - rewrite (Hr Efd), Efd.
    assert (Hacc : account g fd r.(req_now) = s) by (unfold account; by rewrite Hs).
    destruct (precheck_step fd r.(req_bytes) r.(req_direction) c r.(req_now) g fd_ok c_active)
      as [(E & Hin & Hst)|(E & Hout & Hst)]; rewrite Hacc in *.
    + rewrite E, bool_decide_eq_true_2 by done. destruct (IH _ _ Hst) as [IH1 IH2].
      split; [by apply budget_left_charge|]. constructor; [by left|done].
    + rewrite E, bool_decide_eq_false_2
        by (intros [_ ?]; by apply (action_decision_stops c c_active)).
      destruct (IH _ _ Hst) as [IH1 IH2]. split; [done|]. constructor; [by right|done].
  - rewrite bool_decide_eq_false_2 by tauto.
    destruct (IH (precheck r.(req_fd) r.(req_bytes) r.(req_direction) r.(req_config) r.(req_now) g).2 s)
      as [IH1 IH2]; [by rewrite precheck_frame|].
    split; [done|]. by constructor.
Qed.
End traces.

(** ** Promises to the engine *)

Lemma precheck_main fd bytes d c now g :
  main_decision (precheck fd bytes d c now g).1.
Proof.
  unfold precheck.
  repeat match goal with |- context [if ?b then _ else _] => destruct b end; cbn; try done;
    unfold action_decision; repeat case_match; done.
Qed.

Lemma R1_process_view `{Host} ctx (g : R1SessionGuard) w i :
  i ≠ ctx.(fd) → (R1_process ctx (g, w)).2.1.(state_by_fd) !! i = g.(state_by_fd) !! i.
Proof.
  intros Hi. unfold R1_process. destruct (direction ctx); [|done]. by apply precheck_frame.
Qed.

#[export] Instance R1_fd_local `{Host} : FdLocal R1SessionGuard := {
  View := option SessionState;
  view g i := g.(state_by_fd) !! i;
  process_view := R1_process_view;
}.

(** ** Properties *)

(** C20. Session budgets hold.  Take any interleaving of requests in which those
    of one descriptor carry one configuration with an active guard, starting
    with the first request of that descriptor.  Whatever the other descriptors
    do, the requests of the descriptor that are let through never exceed the
    operation budget, nor the byte budget of their direction, nor are they made
    at or after the duration limit; and each request that is not let through
    gets the configured action. *)
Theorem session_budget_enforced c fd r reqs g :
  c.(session_max_ops) ≤ u64_max → guard_active c → 0 ≤ fd →
  r.(req_fd) = fd → governed c fd (r :: reqs) → g.(state_by_fd) !! fd = None →
  let out := (run_checks (r :: reqs) g).1 in
  let ok := admitted fd out in
  (0 < c.(session_max_ops) → Z.of_nat (length ok) ≤ c.(session_max_ops)) ∧
  (0 < c.(session_max_bytes_tx) < u64_max → total_bytes Uplink ok ≤ c.(session_max_bytes_tx)) ∧
  (0 < c.(session_max_bytes_rx) < u64_max → total_bytes Downlink ok ≤ c.(session_max_bytes_rx)) ∧
  (0 < c.(session_max_duration_ms) →
     Forall (λ q, q.(req_now) - r.(req_now) < c.(session_max_duration_ms) * 1000000) ok) ∧
  Forall (λ p, p.1.(req_fd) = fd → p.2 = Continue ∨ p.2 = action_decision c) out.
Proof.
  intros Hc Hact Hfd Er Hgov Hnone out ok.
  set (s := mkSessionState r.(req_now) 0 0 0).
  assert (Efresh : run_checks (r :: reqs) g =
                   run_checks (r :: reqs) (g <| state_by_fd ::= <[fd := s]> |>)).
  { inversion Hgov as [|? ? Hr ?]; subst. cbn [run_checks]. destruct Hact as [? ?].
    by rewrite precheck_fresh by (rewrite ?(Hr eq_refl); done || lia). }
  destruct (run_checks_budget c fd Hc Hact Hfd (r :: reqs) (g <| state_by_fd ::= <[fd := s]> |>) s)
    as [(H1 & H2 & H3 & H4) H5]; [done|cbn; by rewrite lookup_insert_eq|].
  unfold ok, out. rewrite Efresh. cbn [s ops tx_bytes rx_bytes started_monotonic_ns] in *.
  split_and!; [intros; rewrite <- (Z.add_0_l (Z.of_nat _)); apply H1; lia|..];
    [intros; rewrite <- Z.add_0_l; apply H2; lia
    |intros; rewrite <- Z.add_0_l; apply H3; lia|done|done].
Qed.

(** ** Witnesses *)

Definition example_budget : Config :=
  Config_default <| session_budget_enabled := 1 |> <| session_action := 1 |>
                 <| session_max_ops := 2 |>.

Definition example_request (i : Z) : Request := mkRequest i 10 Uplink example_budget 1000.

Definition example_trace : list Request := map example_request [3; 4; 3].

Lemma session_budget_enforced_witness :
  map snd (run_checks (example_request 3 :: example_trace) R1_new).1 =
    [Continue; Continue; Continue; Drop] ∧
  Z.of_nat (length (admitted 3 (run_checks (example_request 3 :: example_trace) R1_new).1)) ≤ 2.
Proof.
  split; [by vm_compute|].
  refine (proj1 (session_budget_enforced example_budget 3 (example_request 3)
    example_trace R1_new _ _ _ _ _ _) _); try done.
  by repeat constructor.
Defined.
