(* ===== verification/R2ChaosBase.v ===== *)
(** * R2: loss, latency, duplication and reordering

    [faultcore_network/src/layers/r2_chaos_base.rs]: independent and correlated
    (Gilbert-Elliott) loss, loss bursts, fixed latency, and the two decisions the
    engine asks for after the pipeline. *)

From S2P Require Import Prelude.
From S2P Require Import Config.
From S2P Require Import Layers.

Open Scope Z_scope.

(* faultcore_network/src/layers/r2_chaos_base.rs:10-15 R2ChaosBase *)
Record R2ChaosBase `{Host} : Type := mkR2 {
  r2_dice : Dice;
  burst_remaining_by_fd : gmap Z Z;
  ge_state_by_fd : gmap Z Z
}.

#[export] Instance eta_R2 `{Host} : Eta R2ChaosBase := λ r, mkR2 _
  (r.(r2_dice)) (r.(burst_remaining_by_fd)) (r.(ge_state_by_fd)).

Section r2.
  Context `{Host}.

(* faultcore_network/src/layers/r2_chaos_base.rs:17-29 R2ChaosBase::new *)
Definition R2_new (faultcore_seed : option string) : R2ChaosBase :=
  mkR2 _ (dice_new faultcore_seed) ∅ ∅.

(* faultcore_network/src/layers/r2_chaos_base.rs:31-38 R2ChaosBase::with_seed *)
Definition R2_with_seed (seed : Z) : R2ChaosBase := mkR2 _ (dice_with_seed seed) ∅ ∅.

Definition with_dice {A} (c : M (Dice * World) A) : M (R2ChaosBase * World) A :=
  on_dice r2_dice (λ d r, r <| r2_dice := d |>) c.

(* faultcore_network/src/layers/r2_chaos_base.rs:52-63 R2ChaosBase::random_u32 *)
Definition random_u32 (c : Config) : M (R2ChaosBase * World) Z :=
  with_dice (roll 0x4C31DA05 c.(policy_seed)).

(* faultcore_network/src/layers/r2_chaos_base.rs:65-74 R2ChaosBase::event_happens *)
Definition event_happens (probability_ppm : Z) (c : Config) : M (R2ChaosBase * World) bool :=
  with_dice (toss 0x4C31DA05 probability_ppm c.(policy_seed)).

(* faultcore_network/src/layers/r2_chaos_base.rs:76-99 R2ChaosBase::correlated_loss_ppm *)
Definition correlated_loss_ppm (fd : Z) (c : Config) : M (R2ChaosBase * World) (option Z) :=
  if c.(ge_enabled) =? 0 then mret None else
  current_state ← gets (λ s, default 0 (s.1.(ge_state_by_fd) !! fd));
  next_state ←
    (if current_state =? 0 then
       e ← event_happens c.(ge_p_good_to_bad_ppm) c;
       mret (if e : bool then 1 else current_state)
     else
       e ← event_happens c.(ge_p_bad_to_good_ppm) c;
       mret (if e : bool then 0 else current_state));
  if next_state =? 0 then
    modify (λ s, (s.1 <| ge_state_by_fd ::= delete fd |>, s.2));;
    mret (Some c.(ge_loss_good_ppm))
  else
    modify (λ s, (s.1 <| ge_state_by_fd ::= <[fd := 1]> |>, s.2));;
    mret (Some c.(ge_loss_bad_ppm)).

Fixpoint count_events (n : nat) (probability_ppm : Z) (c : Config) (count : Z) :
    M (R2ChaosBase * World) Z :=
  match n with
  | O => mret count
  | S n =>
      e ← event_happens probability_ppm c;
      count_events n probability_ppm c (if e : bool then count + 1 else count)
  end.

(* faultcore_network/src/layers/r2_chaos_base.rs:101-117 R2ChaosBase::duplicate_extra *)
Definition duplicate_extra (c : Config) : M (R2ChaosBase * World) Z :=
  if c.(dup_prob_ppm) =? 0 then mret 0 else
  let max_extra := if c.(dup_max_extra) =? 0 then 1 else c.(dup_max_extra) in
  count_events (Z.to_nat max_extra) c.(dup_prob_ppm) c 0.

(* faultcore_network/src/layers/r2_chaos_base.rs:119-121 R2ChaosBase::should_reorder *)
Definition should_reorder (c : Config) : M (R2ChaosBase * World) bool :=
  event_happens c.(reorder_prob_ppm) c.

(* faultcore_network/src/layers/r2_chaos_base.rs:123-130 R2ChaosBase::duplicate_decision *)
Definition duplicate_decision (c : Config) : M (R2ChaosBase * World) LayerDecision :=
  count ← duplicate_extra c;
  mret (if 0 <? count then Duplicate count else Continue).

(* faultcore_network/src/layers/r2_chaos_base.rs:132-139 R2ChaosBase::reorder_decision *)
Definition reorder_decision (c : Config) : M (R2ChaosBase * World) LayerDecision :=
  r ← should_reorder c;
  mret (if r : bool then StageReorder else Continue).

(** The block at the head of [process]: one packet of a burst. *)
(* faultcore_network/src/layers/r2_chaos_base.rs:158-169 R2ChaosBase::process *)
Definition take_burst (fd : Z) (r : R2ChaosBase) : bool * R2ChaosBase :=
  match r.(burst_remaining_by_fd) !! fd with
  | Some current =>
      if 0 <? current then
        let current := current - 1 in
        (true, r <| burst_remaining_by_fd ::=
                   (if current =? 0 then delete fd else <[fd := current]>) |>)
      else (false, r)
  | None => (false, r)
  end.

(* faultcore_network/src/layers/r2_chaos_base.rs:156-189 R2ChaosBase::process *)
Definition R2_process (ctx : PacketContext) : M (R2ChaosBase * World) LayerDecision :=
  let c := ctx.(config) in
  in_burst ← zoom fst (λ r s, (r, s.2)) (take_burst ctx.(fd));
  if in_burst : bool then mret Drop else
  correlated ← correlated_loss_ppm ctx.(fd) c;
  let effective_loss := default c.(packet_loss_ppm) correlated in
  lost ← event_happens effective_loss c;
  if lost : bool then
    (if 0 <? c.(burst_loss_len) then
       modify (λ s, (s.1 <| burst_remaining_by_fd ::=
                       <[ctx.(fd) := saturating_sub c.(burst_loss_len) 1]> |>, s.2))
     else mret tt);;
    mret Drop
  else if 0 <? c.(latency_ns) then mret (DelayNs c.(latency_ns))
  else mret Continue.
End r2.

(* faultcore_network/src/layers/r2_chaos_base.rs:147-194 Layer for R2ChaosBase *)
#[export] Instance R2_layer `{Host} : Layer R2ChaosBase := {
  stage := R2;
  applies_to ctx := negb (is_dns ctx);
  process := R2_process;
  name := "R2_ChaosBase";
  process_with_buffer := default_process_with_buffer R2_process;
}.

(** ** Frames *)

Section facts.
Context `{Host}.

Lemma event_happens_run p c s :
  event_happens p c s =
    let t := toss 0x4C31DA05 p c.(policy_seed) (s.1.(r2_dice), s.2) in
    (t.1, (s.1 <| r2_dice := t.2.1 |>, t.2.2)).
Proof. done. Qed.

Lemma correlated_loss_frame fd c (r : R2ChaosBase) w :
  let r' := (correlated_loss_ppm fd c (r, w)).2.1 in
  r'.(burst_remaining_by_fd) = r.(burst_remaining_by_fd) ∧
  ∀ i, i ≠ fd → r'.(ge_state_by_fd) !! i = r.(ge_state_by_fd) !! i.
Proof.
  unfold correlated_loss_ppm. destruct (ge_enabled c =? 0); [done|]. run_simpl.
  destruct (default 0 _ =? 0); run_simpl; rewrite event_happens_run; cbn zeta;
    destruct (toss _ _ _ _) as [[] [d w']]; cbn [fst snd];
    repeat match goal with |- context [if ?b then _ else _] => destruct b end;
    run_simpl; (split; [done|]); intros i Hi; cbn;
    rewrite ?lookup_delete_ne, ?lookup_insert_ne by done; done.
Qed.

(** The packets of a burst still to be dropped. *)
Definition burst_left (r : R2ChaosBase) (fd : Z) : Z :=
  default 0 (r.(burst_remaining_by_fd) !! fd).

Lemma R2_process_in_burst ctx (r : R2ChaosBase) w :
  0 < burst_left r ctx.(fd) →
  (R2_process ctx (r, w)).1 = Drop ∧
  burst_left (R2_process ctx (r, w)).2.1 ctx.(fd) = burst_left r ctx.(fd) - 1 ∧
  (R2_process ctx (r, w)).2.2 = w ∧
  (R2_process ctx (r, w)).2.1.(r2_dice) = r.(r2_dice) ∧
  (R2_process ctx (r, w)).2.1.(ge_state_by_fd) = r.(ge_state_by_fd).
Proof.
  unfold burst_left. intros Hb. unfold R2_process. run_simpl. unfold take_burst. cbn [fst].
  destruct (burst_remaining_by_fd r !! fd ctx) as [k|] eqn:E; cbn in Hb; [|lia].
  rewrite (proj2 (Z.ltb_lt 0 k)) by done. cbn. split_and!; try done.
  destruct (Z.eqb_spec (k - 1) 0) as [Ek|].
  - rewrite lookup_delete_eq. cbn. lia.
  - by rewrite lookup_insert_eq.
Qed.

(** A packet outside a burst: what it decides and the burst it may start. *)
Lemma R2_process_no_burst ctx (r : R2ChaosBase) w :
  burst_left r ctx.(fd) ≤ 0 →
  let c := ctx.(config) in
  let a := correlated_loss_ppm ctx.(fd) c (r, w) in
  let e := event_happens (default c.(packet_loss_ppm) a.1) c a.2 in
  R2_process ctx (r, w) =
    if e.1 then
      (Drop, (if 0 <? c.(burst_loss_len)
              then e.2.1 <| burst_remaining_by_fd ::=
                     <[ctx.(fd) := saturating_sub c.(burst_loss_len) 1]> |>
              else e.2.1, e.2.2))
    else (if 0 <? c.(latency_ns) then DelayNs c.(latency_ns) else Continue, e.2).
Proof.
  intros Hb c a e. unfold burst_left in Hb. unfold R2_process. run_simpl.
  assert (Ht : take_burst (fd ctx) r = (false, r)).
  { unfold take_burst. destruct (burst_remaining_by_fd r !! fd ctx) as [k|]; cbn in Hb; [|done].
    by rewrite (proj2 (Z.ltb_ge 0 k)). }
  rewrite Ht. cbn [fst snd]. run_simpl. fold c a e.
  destruct e as [[] [r' w']]; cbn [fst snd]; run_simpl.
  - by destruct (0 <? burst_loss_len c).
  - by destruct (0 <? latency_ns c).
Qed.

Lemma burst_left_dec (r : R2ChaosBase) i : {0 < burst_left r i} + {burst_left r i ≤ 0}.
Proof. destruct (Z_lt_le_dec 0 (burst_left r i)); [by left|by right]. Qed.

(** Only the packet's own descriptor is affected. *)
Lemma R2_process_view ctx (r : R2ChaosBase) w i :
  i ≠ ctx.(fd) →
  let r' := (R2_process ctx (r, w)).2.1 in
  (r'.(burst_remaining_by_fd) !! i, r'.(ge_state_by_fd) !! i) =
    (r.(burst_remaining_by_fd) !! i, r.(ge_state_by_fd) !! i).
Proof.
  intros Hi. destruct (burst_left_dec r ctx.(fd)) as [Hb|Hb].
  - cbn zeta. destruct (R2_process_in_burst ctx r w Hb) as (_ & _ & _ & _ & ->). f_equal.
    unfold R2_process. run_simpl. unfold take_burst, burst_left in *.
    destruct (burst_remaining_by_fd r !! fd ctx) as [k|]; cbn in Hb; [|lia].
    rewrite (proj2 (Z.ltb_lt 0 k)) by done. cbn.
    destruct (k - 1 =? 0); by rewrite ?lookup_delete_ne, ?lookup_insert_ne by done.
  - cbn zeta. rewrite R2_process_no_burst by done. rewrite event_happens_run. cbn zeta.
    pose proof (correlated_loss_frame ctx.(fd) ctx.(config) r w) as [E1 E2].
    destruct (correlated_loss_ppm _ _ _) as [a [r1 w1]]. cbn [fst snd] in *.
    specialize (E2 i Hi).
    destruct (toss _ _ _ _) as [[] [d w2]]; cbn [fst snd].
    + destruct (0 <? _); cbn; rewrite ?lookup_insert_ne by done; by rewrite E1, E2.
    + cbn. by rewrite E1, E2.
Qed.

Lemma burst_left_other ctx (r : R2ChaosBase) w i :
  i ≠ ctx.(fd) → burst_left (R2_process ctx (r, w)).2.1 i = burst_left r i.
Proof.
  intros Hi. unfold burst_left. pose proof (R2_process_view ctx r w i Hi) as E.
  cbn zeta in E. by injection E as -> _.
Qed.

(** What a packet outside a burst leaves of a burst. *)
Lemma burst_left_new ctx (r : R2ChaosBase) w :
  burst_left r ctx.(fd) = 0 →
  burst_left (R2_process ctx (r, w)).2.1 ctx.(fd) =
    if bool_decide ((R2_process ctx (r, w)).1 = Drop) then
      Z.max 0 (ctx.(config).(burst_loss_len) - 1) else 0.
Proof.
  intros Hb. rewrite R2_process_no_burst by lia. rewrite event_happens_run. cbn zeta.
  pose proof (correlated_loss_frame ctx.(fd) ctx.(config) r w) as [E1 _].
  destruct (correlated_loss_ppm _ _ _) as [a [r1 w1]]. cbn [fst snd] in *.
  destruct (toss _ _ _ _) as [[] [d w2]]; cbn [fst snd].
  - rewrite bool_decide_eq_true_2 by done. unfold burst_left in *.
    destruct (Z.ltb_spec 0 (burst_loss_len (config ctx))); cbn.
    + rewrite lookup_insert_eq. cbn. unfold saturating_sub. lia.
    + rewrite E1, Hb. lia.
  - rewrite bool_decide_eq_false_2 by by destruct (0 <? _). unfold burst_left in *. cbn.
    by rewrite E1.
Qed.
End facts.

#[export] Instance R2_fd_local `{Host} : FdLocal R2ChaosBase := {
  View := option Z * option Z;
  view r i := (r.(burst_remaining_by_fd) !! i, r.(ge_state_by_fd) !! i);
  process_view := R2_process_view;
}.

(** ** Promises to the engine *)

Section promises.
Context `{HostLaws}.

Lemma R2_process_main ctx (r : R2ChaosBase) w :
  True → ctx_ok ctx → main_decision (R2_process ctx (r, w)).1.
Proof.
  intros _ (Hc & _). destruct (burst_left_dec r ctx.(fd)) as [Hb|Hb].
  - by destruct (R2_process_in_burst ctx r w Hb) as (-> & _).
  - rewrite R2_process_no_burst by done. cbn zeta.
    destruct (event_happens _ _ _).1; [done|]. cbn [fst].
    destruct (0 <? _); [|done]. cbn. config_u64 Hc.
Qed.

(** Everything but the process-wide generator. *)
Definition R2_same (r r' : R2ChaosBase) : Prop :=
  r.(r2_dice).(policy_counter) = r'.(r2_dice).(policy_counter) ∧
  r.(burst_remaining_by_fd) = r'.(burst_remaining_by_fd) ∧
  r.(ge_state_by_fd) = r'.(ge_state_by_fd).

Lemma det_event p c : 0 < c.(policy_seed) → det R2_same (event_happens p c).
Proof.
  intros Hs. apply det_toss; [done|by intros ? ? (? & _)|].
  intros l l' d d' (_ & ? & ?) E. by split.
Qed.

Lemma det_correlated fd c : 0 < c.(policy_seed) → det R2_same (correlated_loss_ppm fd c).
Proof.
  intros Hs. pose proof (λ p, det_event p c Hs) as He. unfold correlated_loss_ppm.
  apply det_if; [apply det_ret|]. apply det_bind.
  { apply (det_gets R2_same (λ r, default 0 (ge_state_by_fd r !! fd))).
    by intros l l' (_ & _ & ->). }
  intros cur. apply det_bind; [apply det_if; eauto with det|]. intros next.
  assert (Hm : ∀ f, det R2_same (modify (λ s, (s.1 <| ge_state_by_fd ::= f |>, s.2)))).
  { intros f. apply (det_modify R2_same (λ r, r <| ge_state_by_fd ::= f |>)).
    intros l l' (? & ? & E). split_and!; [done|done|]. cbn. by rewrite E. }
  apply det_if; eauto with det.
Qed.

Lemma det_take_burst fd :
  det R2_same (zoom fst (λ r s, (r, s.2)) (take_burst fd)).
Proof.
  apply det_zoom. intros l l' (E1 & E2 & E3). unfold take_burst. rewrite E2.
  destruct (burst_remaining_by_fd l' !! fd) as [k|]; [|done].
  destruct (0 <? k); [|done]. split; [done|]. split_and!; [done| |done]. cbn. by rewrite E2.
Qed.

Lemma R2_process_seeded ctx (l l' : R2ChaosBase) w w' :
  0 < ctx.(config).(policy_seed) → ctx.(config).(bandwidth_bps) = 0 → R2_same l l' →
  (R2_process ctx (l, w)).1 = (R2_process ctx (l', w')).1 ∧
  R2_same (R2_process ctx (l, w)).2.1 (R2_process ctx (l', w')).2.1.
Proof.
  intros Hs _ Hl. revert Hl. revert l l' w w'. change (det R2_same (R2_process ctx)).
  pose proof (λ p, det_event p ctx.(config) Hs) as He.
  pose proof (det_correlated ctx.(fd) ctx.(config) Hs) as Hcor.
  unfold R2_process. apply det_bind; [apply det_take_burst|]. intros b.
  apply det_if; [apply det_ret|]. apply det_bind; [done|]. intros p.
  apply det_bind; [done|]. intros lost. apply det_if.
  - apply det_bind; [|intros; apply det_ret]. apply det_if; [|apply det_ret].
    apply (det_modify R2_same (λ r, r <| burst_remaining_by_fd ::= _ |>)).
    intros l l' (? & E & ?). split_and!; [done| |done]. cbn. by rewrite E.
  - apply det_if; apply det_ret.
Qed.

Lemma det_count n p c k : 0 < c.(policy_seed) → det R2_same (count_events n p c k).
Proof.
  intros Hs. revert k; induction n as [|n IH]; intros k; cbn [count_events];
    [apply det_ret|apply det_bind; [by apply det_event|intros; apply IH]].
Qed.

Lemma det_duplicate c : 0 < c.(policy_seed) → det R2_same (duplicate_decision c).
Proof.
  intros Hs. unfold duplicate_decision, duplicate_extra.
  apply det_bind; [|intros; apply det_ret]. apply det_if; [apply det_ret|by apply det_count].
Qed.

Lemma det_reorder c : 0 < c.(policy_seed) → det R2_same (reorder_decision c).
Proof.
  intros Hs. apply det_bind; [by apply det_event|intros; apply det_ret].
Qed.
End promises.

#[export] Instance R2_stage `{HostLaws} : StageLayer R2ChaosBase := {
  layer_ok _ := True;
  process_ok _ _ _ _ _ := I;
  process_main := R2_process_main;
}.

#[export] Instance R2_seeded `{HostLaws} : SeedDetermined R2ChaosBase := {
  same := R2_same;
  process_seeded := R2_process_seeded;
  process_clockless _ _ := eq_refl;
}.

(** ** Duplicates *)

Section duplicates.
Context `{HostLaws}.

Lemma count_events_bounds n p c k s :
  k ≤ (count_events n p c k s).1 ≤ k + Z.of_nat n.
Proof.
  revert k s; induction n as [|n IH]; intros k s; cbn [count_events]; run_simpl; [lia|].
  pose proof (IH (k + 1) (event_happens p c s).2). pose proof (IH k (event_happens p c s).2).
  destruct (event_happens p c s).1; lia.
Qed.

Lemma count_events_all n p c k s :
  1000000 ≤ p → (count_events n p c k s).1 = k + Z.of_nat n.
Proof.
  intros Hp. revert k s; induction n as [|n IH]; intros k s; cbn [count_events]; run_simpl; [lia|].
  rewrite event_happens_run, toss_always by done. cbn [fst snd]. rewrite IH. lia.
Qed.
End duplicates.

(** ** Sequences of packets *)

Section packets.
Context `{Host}.

(** The layer over a sequence of packets. *)
Fixpoint run_packets (ctxs : list PacketContext) :
    M (R2ChaosBase * World) (list (PacketContext * LayerDecision)) :=
  match ctxs with
  | [] => mret []
  | ctx :: ctxs => d ← R2_process ctx; ds ← run_packets ctxs; mret ((ctx, d) :: ds)
  end.

Definition on_fd (i : Z) (ctxs : list PacketContext) : list PacketContext :=
  filter (λ ctx, ctx.(fd) = i) ctxs.

Lemma run_packets_cons ctx ctxs s :
  (run_packets (ctx :: ctxs) s).1 =
    (ctx, (R2_process ctx s).1) :: (run_packets ctxs (R2_process ctx s).2).1 ∧
  (run_packets (ctx :: ctxs) s).2 = (run_packets ctxs (R2_process ctx s).2).2.
Proof. done. Qed.

Lemma burst_run i ctxs r w :
  Z.of_nat (length (on_fd i ctxs)) ≤ burst_left r i →
  Forall (λ p, p.1.(fd) = i → p.2 = Drop) (run_packets ctxs (r, w)).1 ∧
  burst_left (run_packets ctxs (r, w)).2.1 i = burst_left r i - Z.of_nat (length (on_fd i ctxs)).
Proof.
  revert r w; induction ctxs as [|ctx ctxs IH]; intros r w Hn.
  { split; [constructor|]. cbn. lia. }
  destruct (run_packets_cons ctx ctxs (r, w)) as [-> ->].
  unfold on_fd in *. rewrite filter_cons in *.
  destruct (R2_process ctx (r, w)) as [d [r' w']] eqn:E. cbn [fst snd].
  destruct (decide (fd ctx = i)) as [Ei|Hne].
  - cbn [length] in Hn. destruct (R2_process_in_burst ctx r w) as (Ed & Hb & _); [rewrite Ei; lia|].
    rewrite E, Ei in *. cbn in Ed, Hb. destruct (IH r' w') as [IH1 IH2]; [lia|].
    split; [by constructor|]. cbn [length]. lia.
  - pose proof (burst_left_other ctx r w i (not_eq_sym Hne)) as Hb. rewrite E in Hb. cbn in Hb.
    destruct (IH r' w') as [IH1 IH2]; [lia|]. split; [by constructor|]. lia.
Qed.
End packets.

(** ** Properties *)

(** C22. A loss burst drops exactly the configured number of packets.  When a
    packet outside a burst is lost under a burst length [n], the next [n - 1]
    packets of that descriptor are dropped, whatever their configuration, chance
    or the traffic of other descriptors, and the count of packets still to drop
    decreases by one with each of them, reaching zero with the last. *)
Theorem burst_loss_exact `{Host} ctx r w ctxs :
  burst_left r ctx.(fd) = 0 → 0 < ctx.(config).(burst_loss_len) →
  (R2_process ctx (r, w)).1 = Drop →
  Z.of_nat (length (on_fd ctx.(fd) ctxs)) ≤ ctx.(config).(burst_loss_len) - 1 →
  let out := run_packets ctxs (R2_process ctx (r, w)).2 in
  Forall (λ p, p.1.(fd) = ctx.(fd) → p.2 = Drop) out.1 ∧
  burst_left out.2.1 ctx.(fd) =
    ctx.(config).(burst_loss_len) - 1 - Z.of_nat (length (on_fd ctx.(fd) ctxs)).
Proof.
  intros Hb Hn Hd Hlen. pose proof (burst_left_new ctx r w Hb) as Hnew.
  rewrite bool_decide_eq_true_2 in Hnew by done.
  destruct (R2_process ctx (r, w)) as [d [r' w']]. cbn [fst snd] in *.
  rewrite Z.max_r in Hnew by lia. rewrite <- Hnew in *. by apply burst_run.
Qed.

(** Correlated loss is the two-state Gilbert-Elliott chain.  With the model
    enabled, one toss, with the probability of leaving the descriptor's current
    state, decides whether the state flips; the loss probability returned is the
    one of the state after the toss, and the stored state of the descriptor is
    that state. *)
Theorem gilbert_elliott_step `{Host} fd c r w :
  c.(ge_enabled) ≠ 0 →
  let bad (r : R2ChaosBase) := negb (default 0 (r.(ge_state_by_fd) !! fd) =? 0) in
  let leave := if bad r then c.(ge_p_bad_to_good_ppm) else c.(ge_p_good_to_bad_ppm) in
  let t := event_happens leave c (r, w) in
  let after := xorb (bad r) t.1 in
  let out := correlated_loss_ppm fd c (r, w) in
  out.1 = Some (if after then c.(ge_loss_bad_ppm) else c.(ge_loss_good_ppm)) ∧
  bad out.2.1 = after ∧ out.2.1.(r2_dice) = t.2.1.(r2_dice) ∧ out.2.2 = t.2.2.
Proof.
  intros Hen bad leave t after out. unfold out, correlated_loss_ppm.
  rewrite (proj2 (Z.eqb_neq _ _) Hen). run_simpl.
  destruct (Z.eqb_spec (default 0 (ge_state_by_fd r !! fd)) 0) as [E|E].
  - assert (Hbad : bad r = false) by (unfold bad; by rewrite E).
    unfold after, t, leave. rewrite Hbad. cbn [xorb]. run_simpl. rewrite event_happens_run.
    cbn zeta. rewrite E. destruct (toss _ _ _ _) as [[] [d w']]; cbn [fst snd Z.eqb]; run_simpl;
      unfold bad; cbn; rewrite ?lookup_delete_eq, ?lookup_insert_eq; done.
  - assert (Hbad : bad r = true) by (unfold bad; by rewrite (proj2 (Z.eqb_neq _ _))).
    unfold after, t, leave. rewrite Hbad. run_simpl. rewrite event_happens_run.
    cbn zeta. destruct (toss _ _ _ _) as [[] [d w']]; cbn [fst snd Z.eqb xorb]; run_simpl;
      [|rewrite (proj2 (Z.eqb_neq _ _)) by done; run_simpl];
      unfold bad; cbn; rewrite ?lookup_delete_eq, ?lookup_insert_eq; done.
Qed.

(** Duplication is bounded and, at certainty, exact.  The decision is either
    to continue or to send at least one and at most [max 1 dup_max_extra] extra
    copies; at probability zero it is to continue, and at one (a million parts)
    it is to send exactly [max 1 dup_max_extra]. *)
Theorem duplicate_decision_bounds `{HostLaws} c s :
  Config_wf c →
  let most := Z.max 1 c.(dup_max_extra) in
  let d := (duplicate_decision c s).1 in
  (d = Continue ∨ ∃ k, d = Duplicate k ∧ 1 ≤ k ≤ most) ∧
  (c.(dup_prob_ppm) = 0 → d = Continue) ∧
  (1000000 ≤ c.(dup_prob_ppm) → d = Duplicate most).
Proof.
  intros Hwf most d. assert (Hm : is_u64 c.(dup_max_extra)) by config_u64 Hwf.
  unfold d, duplicate_decision, duplicate_extra. run_simpl.
  destruct (Z.eqb_spec c.(dup_prob_ppm) 0) as [E|E]; run_simpl.
  { split; [by left|]. split; [done|lia]. }
  assert (Hmost : Z.of_nat (Z.to_nat (if dup_max_extra c =? 0 then 1 else dup_max_extra c)) = most).
  { unfold most. destruct (Z.eqb_spec (dup_max_extra c) 0); mach. }
  pose proof (count_events_bounds (Z.to_nat (if dup_max_extra c =? 0 then 1 else dup_max_extra c))
    (dup_prob_ppm c) c 0 s) as Hb.
  split_and!; [|done|].
  - destruct (Z.ltb_spec 0 (count_events (Z.to_nat (if dup_max_extra c =? 0 then 1
      else dup_max_extra c)) (dup_prob_ppm c) c 0 s).1); [|by left]. right. eexists. split; [done|lia].
  - intros Hp. rewrite count_events_all, Hmost, Z.add_0_l by done.
    rewrite (proj2 (Z.ltb_lt 0 most)) by lia. done.
Qed.

(** ** Witnesses *)

Definition example_lossy : Config :=
  Config_default <| packet_loss_ppm := 1000000 |> <| burst_loss_len := 3 |>.

Lemma burst_loss_exact_witness :
  map snd (run_packets (H:=example_host) (map (example_packet Config_default) [5; 6; 5; 5])
    (R2_process (example_packet example_lossy 5) (R2_with_seed 1, example_world)).2).1 =
    [Drop; Continue; Drop; Continue] ∧
  burst_left (run_packets (H:=example_host) (map (example_packet Config_default) [5; 6; 5])
    (R2_process (example_packet example_lossy 5) (R2_with_seed 1, example_world)).2).2.1 5 = 0.
Proof.
  split; [by vm_compute|].
  refine (proj2 (@burst_loss_exact example_host (example_packet example_lossy 5) (R2_with_seed 1)
    example_world (map (example_packet Config_default) [5; 6; 5]) _ _ _ _)); by vm_compute.
Defined.

Definition example_ge : Config :=
  Config_default <| ge_enabled := 1 |> <| ge_p_good_to_bad_ppm := 1000000 |>
                 <| ge_loss_bad_ppm := 900000 |>.

Lemma gilbert_elliott_step_witness :
  (correlated_loss_ppm (H:=example_host) 5 example_ge (R2_new None, example_world)).1 = Some 900000.
Proof.
  refine (proj1 (@gilbert_elliott_step example_host 5 example_ge (R2_new None) example_world _)).
  by vm_compute.
Defined.

Definition example_dup : Config :=
  Config_default <| dup_prob_ppm := 1000000 |> <| dup_max_extra := 2 |>.

Lemma duplicate_decision_bounds_witness :
  (duplicate_decision (H:=example_host) example_dup (R2_new None, example_world)).1 = Duplicate 2.
Proof.
  refine (proj2 (proj2 (@duplicate_decision_bounds example_host example_host_laws example_dup
    (R2_new None, example_world) _)) _); [|by vm_compute].
  split_and!; try reflexivity; apply (bool_decide_unpack _); by vm_compute.
Defined.
