(* ===== verification/LossRace.v ===== *)
(** * Threads that lose packets

    [faultcore_network/src/layers/r2_chaos_base.rs], [process], as a step relation:
    the bursts and the states of the correlated loss are behind two mutexes, the
    first of which is taken twice, and a draw is one access of the generator; packets
    of several threads interleave between any two of them.  A block that takes and
    gives back the mutex of the bursts is one step; that of the states is held over
    a draw.  [R2ChaosBase] has what a packet does when no other overlaps it. *)

From S2P Require Import Prelude.
From S2P Require Import Threads.
From S2P Require Import Config.
From S2P Require Import Layers.
From S2P Require Import R2ChaosBase.

Open Scope Z_scope.

(** Where a packet is: before the head of [process], before taking the mutex of the
    states, before the draw under it, before storing the next state, before the draw
    of the loss, and before starting a burst. *)
Inductive Pc : Type :=
  | Bursting
  | Correlating
  | Flipping (current_state : Z)
  | Settling (next_state : Z)
  | Losing (effective_loss : Z)
  | Starting.

Inductive Outcome : Type :=
  | More (pc : Pc)
  | Answered (decision : LayerDecision).

Section machine.
Context `{Host}.

(** [promised] sums by descriptor the packets that the bursts started so far were to
    drop, [taken] counts those that were dropped in a burst, and [replaced] sums what
    was left of a burst when another took its place.  [log] has the packets in the
    order in which they were decided: by finding a burst, or by the draw of the loss. *)
Record State : Type := mkState {
  layer : R2ChaosBase;
  clock : World;
  ge_lock : option nat;
  calls : gmap nat (PacketContext * Pc);
  answers : list (nat * (PacketContext * LayerDecision));
  log : list (nat * (PacketContext * LayerDecision));
  promised : gmap Z Z;
  taken : gmap Z Z;
  replaced : gmap Z Z
}.

#[export] Instance eta_State : Eta State := λ s, mkState (s.(layer)) (s.(clock)) (s.(ge_lock))
  (s.(calls)) (s.(answers)) (s.(log)) (s.(promised)) (s.(taken)) (s.(replaced)).

Definition State_init (r : R2ChaosBase) (w : World) : State := mkState r w None ∅ [] [] ∅ ∅ ∅.

(** A thread has a packet that the layer applies to, or makes its next access. *)
Inductive Action : Type :=
  | Packet (thread : nat) (ctx : PacketContext)
  | Advance (thread : nat).

Definition total (m : gmap Z Z) (fd : Z) : Z := default 0 (m !! fd).

Definition count (fd n : Z) (m : gmap Z Z) : gmap Z Z := <[fd := total m fd + n]> m.

(** A draw of the layer's generator. *)
Definition draw (probability_ppm : Z) (c : Config) (s : State) : bool * State :=
  let r := event_happens probability_ppm c (s.(layer), s.(clock)) in
  (r.1, s <| layer := r.2.1 |> <| clock := r.2.2 |>).

(* faultcore_network/src/layers/r2_chaos_base.rs:76-99 R2ChaosBase::correlated_loss_ppm *)
Definition correlate_step (t : nat) (ctx : PacketContext) (pc : Pc) (s : State) :
    option (Outcome * State) :=
  let c := ctx.(config) in
  match pc with
  | Correlating =>
      if c.(ge_enabled) =? 0 then Some (More (Losing c.(packet_loss_ppm)), s) else
      match s.(ge_lock) with
      | Some _ => None
      | None =>
          Some (More (Flipping (default 0 (s.(layer).(ge_state_by_fd) !! ctx.(fd)))),
                s <| ge_lock := Some t |>)
      end
  | Flipping current_state =>
      Some (if current_state =? 0 then
              let (e, s) := draw c.(ge_p_good_to_bad_ppm) c s in
              (More (Settling (if e then 1 else current_state)), s)
            else
              let (e, s) := draw c.(ge_p_bad_to_good_ppm) c s in
              (More (Settling (if e then 0 else current_state)), s))
  | Settling next_state =>
      let unlocked := s <| ge_lock := None |> in
      Some (if next_state =? 0 then
              (More (Losing c.(ge_loss_good_ppm)),
               unlocked <| layer ::= λ r, r <| ge_state_by_fd ::= delete ctx.(fd) |> |>)
            else
              (More (Losing c.(ge_loss_bad_ppm)),
               unlocked <| layer ::= λ r, r <| ge_state_by_fd ::= <[ctx.(fd) := 1]> |> |>))
  | _ => None
  end.

Definition decided (t : nat) (ctx : PacketContext) (d : LayerDecision) (s : State) : State :=
  s <| log ::= λ l, l ++ [(t, (ctx, d))] |>.

(* faultcore_network/src/layers/r2_chaos_base.rs:156-189 R2ChaosBase::process *)
Definition process_step (t : nat) (ctx : PacketContext) (pc : Pc) (s : State) :
    option (Outcome * State) :=
  let c := ctx.(config) in
  match pc with
  | Bursting =>
      let (in_burst, r) := take_burst ctx.(fd) s.(layer) in
      let s := s <| layer := r |> in
      Some (if in_burst then
              (Answered Drop, (decided t ctx Drop s) <| taken ::= count ctx.(fd) 1 |>)
            else (More Correlating, s))
  | Losing effective_loss =>
      let (lost, s) := draw effective_loss c s in
      Some (if lost then
              (if 0 <? c.(burst_loss_len) then More Starting else Answered Drop,
               decided t ctx Drop s)
            else
              let d := if 0 <? c.(latency_ns) then DelayNs c.(latency_ns) else Continue in
              (Answered d, decided t ctx d s))
  | Starting =>
      let n := saturating_sub c.(burst_loss_len) 1 in
      Some (Answered Drop,
            s <| layer ::= λ r, r <| burst_remaining_by_fd ::= <[ctx.(fd) := n]> |> |>
              <| promised ::= count ctx.(fd) n |>
              <| replaced ::= count ctx.(fd) (burst_left s.(layer) ctx.(fd)) |>)
  | _ => correlate_step t ctx pc s
  end.

Definition proceed (t : nat) (ctx : PacketContext) (r : Outcome * State) : State :=
  match r.1 with
  | More pc => r.2 <| calls ::= <[t := (ctx, pc)]> |>
  | Answered d => r.2 <| calls ::= delete t |> <| answers ::= λ l, l ++ [(t, (ctx, d))] |>
  end.

Definition act (a : Action) (s : State) : option State :=
  match a with
  | Packet t ctx =>
      match s.(calls) !! t with
      | None => Some (s <| calls ::= <[t := (ctx, Bursting)]> |>)
      | Some _ => None
      end
  | Advance t =>
      match s.(calls) !! t with
      | None => None
      | Some (ctx, pc) => proceed t ctx <$> process_step t ctx pc s
      end
  end.

Definition step (s s' : State) : Prop := ∃ a, act a s = Some s'.

(** A packet that can start a burst is the only one on its descriptor. *)
Definition exclusive (ctx : PacketContext) (s : State) : Prop :=
  ∀ t ctx' pc, s.(calls) !! t = Some (ctx', pc) → ctx'.(fd) = ctx.(fd) →
    ctx'.(config).(burst_loss_len) ≤ 0 ∧ ctx.(config).(burst_loss_len) ≤ 0.

(** And no loss is correlated. *)
Definition independent (ctx : PacketContext) (s : State) : Prop :=
  exclusive ctx s ∧ ctx.(config).(ge_enabled) = 0.

(** A step that starts only packets that are [ok]. *)
Definition step_where (ok : PacketContext → State → Prop) (s s' : State) : Prop :=
  ∃ a, act a s = Some s' ∧ match a with Packet _ ctx => ok ctx s | Advance _ => True end.
End machine.

(** ** The bursts *)

Section bursts.
Context `{Host}.

Lemma total_count i j n m : total (count i n m) j = total m j + if decide (i = j) then n else 0.
Proof.
  unfold total, count. case_decide as E.
  - subst j. by rewrite lookup_insert_eq.
  - rewrite lookup_insert_ne by done. lia.
Qed.

Lemma draw_run p c s :
  draw p c s =
    let t := toss 0x4C31DA05 p c.(policy_seed) (s.(layer).(r2_dice), s.(clock)) in
    (t.1, s <| layer ::= λ r, r <| r2_dice := t.2.1 |> |> <| clock := t.2.2 |>).
Proof. done. Qed.

(** What a step changes but the generator, the states and the points. *)
Definition bursts_of (s : State) : gmap Z Z * gmap Z Z * gmap Z Z * gmap Z Z :=
  (s.(layer).(burst_remaining_by_fd), s.(promised), s.(taken), s.(replaced)).

Lemma correlate_bursts t ctx pc s r :
  correlate_step t ctx pc s = Some r →
  bursts_of r.2 = bursts_of s ∧ r.2.(calls) = s.(calls) ∧ r.2.(answers) = s.(answers) ∧ r.2.(log) = s.(log).
Proof.
  intros Hr. destruct pc; cbn [correlate_step] in Hr; try done; rewrite ?draw_run in Hr; cbn zeta in Hr.
  - destruct (_ =? 0); [by injection Hr as <-|]. destruct (ge_lock s); [done|]. by injection Hr as <-.
  - apply (inj Some) in Hr as <-. by destruct (_ =? 0).
  - apply (inj Some) in Hr as <-. by destruct (_ =? 0).
Qed.

Lemma process_calls t ctx pc s r : process_step t ctx pc s = Some r → r.2.(calls) = s.(calls).
Proof.
  intros Hr. destruct pc; cbn [process_step] in Hr; try (by apply correlate_bursts in Hr as (_ & ? & _)).
  - destruct (take_burst _ _) as [[] r']; by injection Hr as <-.
  - rewrite draw_run in Hr. cbn zeta in Hr. destruct (toss _ _ _ _) as [[] dw]; by injection Hr as <-.
  - by injection Hr as <-.
Qed.

Lemma loss_inv a s s' :
  act a s = Some s' →
  (∃ t ctx, a = Packet t ctx ∧ s.(calls) !! t = None ∧ s' = s <| calls ::= <[t := (ctx, Bursting)]> |>) ∨
  ∃ t ctx pc r, a = Advance t ∧ s.(calls) !! t = Some (ctx, pc) ∧ process_step t ctx pc s = Some r ∧
    s' = proceed t ctx r.
Proof.
  destruct a as [t ctx|t]; cbn [act]; destruct (calls s !! t) as [[ctx' pc]|] eqn:Ht; try done.
  - intros [= <-]. left. by exists t, ctx.
  - destruct (process_step t ctx' pc s) as [r|] eqn:Hr; [|done]. intros [= <-]. right. by exists t, ctx', pc, r.
Qed.

(** The calls after a step of one of them. *)
Lemma proceed_calls t ctx pc s r :
  process_step t ctx pc s = Some r →
  (proceed t ctx r).(calls) =
    match r.1 with More pc' => <[t := (ctx, pc')]> s.(calls) | Answered _ => delete t s.(calls) end.
Proof. intros Ec%process_calls. destruct r as [o s1]. cbn [snd] in Ec. rewrite <- Ec. by destruct o. Qed.

Lemma take_burst_left i (r : R2ChaosBase) :
  let b := take_burst i r in
  (b.1 = true → 0 < burst_left r i ∧ burst_left b.2 i = burst_left r i - 1 ∧
     ∀ j, j ≠ i → burst_left b.2 j = burst_left r j) ∧
  (b.1 = false → burst_left r i ≤ 0 ∧ b.2 = r).
Proof.
  unfold take_burst, burst_left. destruct (burst_remaining_by_fd r !! i) as [k|] eqn:E; [|done].
  destruct (Z.ltb_spec 0 k); cbn [fst snd default]; [|done]. split; [|done]. intros _.
  split_and!; [done| |].
  - cbn. destruct (Z.eqb_spec (k - 1) 0) as [Ek|].
    + rewrite lookup_delete_eq. cbn. lia.
    + by rewrite lookup_insert_eq.
  - intros j Hj. cbn. destruct (k - 1 =? 0); by rewrite ?lookup_delete_ne, ?lookup_insert_ne by done.
Qed.

(** What the bursts promised, by descriptor, was taken, is left, or was replaced. *)
Definition balanced (r : R2ChaosBase) (s : State) : Prop :=
  ∀ i, total s.(promised) i + burst_left r i =
         total s.(taken) i + burst_left s.(layer) i + total s.(replaced) i ∧
       0 ≤ burst_left s.(layer) i ∧ 0 ≤ total s.(replaced) i.

Lemma balanced_same r s s' : bursts_of s' = bursts_of s → balanced r s → balanced r s'.
Proof.
  unfold bursts_of. intros [= E1 E2 E3 E4] Hs i. specialize (Hs i). unfold burst_left in *.
  by rewrite E1, E2, E3, E4.
Qed.

Lemma proceed_bursts t ctx r : bursts_of (proceed t ctx r) = bursts_of r.2.
Proof. destruct r as [[] s]; done. Qed.

Lemma balanced_step r t ctx pc s x :
  balanced r s → process_step t ctx pc s = Some x → balanced r x.2.
Proof.
  intros Hs Hx. destruct pc; cbn [process_step] in Hx;
    try (eapply balanced_same; [|exact Hs]; by apply correlate_bursts in Hx as (? & _)).
  - destruct (take_burst_left ctx.(fd) s.(layer)) as [H1 H2].
    destruct (take_burst (fd ctx) (layer s)) as [[] r'] eqn:E; cbn [fst snd] in *; injection Hx as <-.
    + destruct (H1 eq_refl) as (Hpos & Hfd & Hother). intros i. specialize (Hs i). cbn.
      rewrite total_count. case_decide as Ei; [subst i; lia|rewrite Hother by done; lia].
    + destruct (H2 eq_refl) as [_ ->]. by eapply balanced_same; [|exact Hs].
  - rewrite draw_run in Hx. cbn zeta in Hx. destruct (toss _ _ _ _) as [[] dw]; injection Hx as <-;
      by eapply balanced_same; [|exact Hs].
  - injection Hx as <-. intros i. specialize (Hs i). cbn. rewrite !total_count.
    unfold burst_left in *. cbn. unfold saturating_sub. case_decide as Ei.
    + subst i. rewrite lookup_insert_eq. cbn. lia.
    + rewrite lookup_insert_ne by done. lia.
Qed.

Lemma balanced_act r a s s' : balanced r s → act a s = Some s' → balanced r s'.
Proof.
  intros Hs [(t & ctx & -> & _ & ->)|(t & ctx & pc & x & -> & _ & Hx & ->)]%loss_inv.
  - by eapply balanced_same; [|exact Hs].
  - eapply balanced_same; [apply proceed_bursts|]. by eapply balanced_step.
Qed.
End bursts.

(** ** Packets that overlap no burst *)

Section sole.
Context `{Host}.

Record sole (r : R2ChaosBase) (s : State) : Prop := {
  sole_balanced : balanced r s;
  sole_outside t ctx pc :
    s.(calls) !! t = Some (ctx, pc) → pc ≠ Bursting → burst_left s.(layer) ctx.(fd) ≤ 0;
  sole_starting t ctx : s.(calls) !! t = Some (ctx, Starting) → 0 < ctx.(config).(burst_loss_len);
  sole_fd t t' ctx ctx' pc pc' :
    t ≠ t' → s.(calls) !! t = Some (ctx, pc) → s.(calls) !! t' = Some (ctx', pc') →
    ctx.(fd) = ctx'.(fd) → ctx.(config).(burst_loss_len) ≤ 0;
  sole_replaced i : total s.(replaced) i = 0;
}.

Lemma sole_init r w : (∀ i, 0 ≤ burst_left r i) → sole r (State_init r w).
Proof.
  intros Hr. split; [|intros *; cbn; by rewrite lookup_empty..|done].
  intros i. specialize (Hr i). change (total _ i) with 0. cbn [layer State_init]. lia.
Qed.

Lemma sole_packet r t ctx s :
  sole r s → s.(calls) !! t = None → exclusive ctx s → sole r (s <| calls ::= <[t := (ctx, Bursting)]> |>).
Proof.
  intros Hs Ht Hex. split; [apply Hs| | | |apply Hs]; cbn.
  - intros t' ctx' pc. rewrite lookup_insert_Some. intros [[_ [= _ <-]]|[_ Ht']] Hpc; [done|].
    by apply (sole_outside r s Hs t' ctx' pc).
  - intros t' ctx'. rewrite lookup_insert_Some. intros [[_ [=]]|[_ Ht']]. by eapply sole_starting.
  - intros t1 t2 ctx1 ctx2 pc1 pc2 Hne. rewrite !lookup_insert_Some.
    intros [[<- [= <- <-]]|[_ H1]] [[<- [= <- <-]]|[_ H2]] E; [done| | |by eapply (sole_fd r s Hs t1 t2)].
    + exact (proj2 (Hex _ _ _ H2 ltac:(done))).
    + exact (proj1 (Hex _ _ _ H1 ltac:(done))).
Qed.

(** A step leaves of the bursts at most what there was, but for one that starts a
    burst; and only a packet outside a burst goes on. *)
Lemma step_left t ctx pc s x :
  process_step t ctx pc s = Some x →
  (∀ i, pc ≠ Starting ∨ i ≠ ctx.(fd) → burst_left x.2.(layer) i ≤ burst_left s.(layer) i) ∧
  match x.1 with
  | More pc' =>
      (pc = Bursting → burst_left s.(layer) ctx.(fd) ≤ 0) ∧ pc ≠ Starting ∧
      (pc' = Starting → 0 < ctx.(config).(burst_loss_len)) ∧ pc' ≠ Bursting
  | Answered _ => True
  end ∧
  (pc ≠ Starting → x.2.(replaced) = s.(replaced)).
Proof.
  intros Hx.
  assert (Hsame : bursts_of x.2 = bursts_of s →
    (∀ i, pc ≠ Starting ∨ i ≠ ctx.(fd) → burst_left x.2.(layer) i ≤ burst_left s.(layer) i) ∧
    x.2.(replaced) = s.(replaced)).
  { unfold bursts_of, burst_left. intros [= E _ _ ->]. split; [|done]. intros i _. by rewrite E. }
  destruct pc; cbn [process_step] in Hx.
  - destruct (take_burst_left ctx.(fd) s.(layer)) as [H1 H2].
    destruct (take_burst (fd ctx) (layer s)) as [[] r'] eqn:E; cbn [fst snd] in *; injection Hx as <-.
    + destruct (H1 eq_refl) as (Hpos & Hfd & Hother). split; [|done]. intros i _. cbn.
      destruct (decide (i = ctx.(fd))) as [->|Hi]; [lia|by rewrite Hother].
    + destruct (H2 eq_refl) as [Hle ->]. by split.
  - pose proof (correlate_bursts _ _ _ _ _ Hx) as (E & _). destruct (Hsame E) as [? ?]. split; [done|]. split; [|done].
    cbn [correlate_step] in Hx. destruct (_ =? 0); [by injection Hx as <-|]. destruct (ge_lock s); [done|].
    by injection Hx as <-.
  - pose proof (correlate_bursts _ _ _ _ _ Hx) as (E & _). destruct (Hsame E) as [? ?]. split; [done|]. split; [|done].
    cbn [correlate_step] in Hx. rewrite !draw_run in Hx. by destruct (_ =? 0); injection Hx as <-.
  - pose proof (correlate_bursts _ _ _ _ _ Hx) as (E & _). destruct (Hsame E) as [? ?]. split; [done|]. split; [|done].
    cbn [correlate_step] in Hx. by destruct (_ =? 0); injection Hx as <-.
  - rewrite draw_run in Hx. cbn zeta in Hx. destruct (toss _ _ _ _) as [[] dw]; injection Hx as <-; [|by split].
    split; [done|]. split; [|done]. cbn [fst]. destruct (Z.ltb_spec 0 ctx.(config).(burst_loss_len)); [done|done].
  - injection Hx as <-. cbn [fst snd]. split; [|done]. intros i [|Hi]; [done|]. unfold burst_left. cbn.
    by rewrite lookup_insert_ne.
Qed.

Lemma sole_step r t ctx pc s x :
  sole r s → s.(calls) !! t = Some (ctx, pc) → process_step t ctx pc s = Some x → sole r (proceed t ctx x).
Proof.
  intros Hs Ht Hx. destruct (step_left t ctx pc s x Hx) as (Hle & Hpc & Hrep).
  pose proof (proceed_bursts t ctx x) as Eb. injection Eb as El _ _ Er.
  assert (Hleft : ∀ i, burst_left (proceed t ctx x).(layer) i = burst_left x.2.(layer) i)
    by (intros i; unfold burst_left; by rewrite El).
  assert (Hcalls : ∀ t' ctx' pc', (proceed t ctx x).(calls) !! t' = Some (ctx', pc') →
    (t' = t ∧ ctx' = ctx ∧ x.1 = More pc') ∨ (t' ≠ t ∧ s.(calls) !! t' = Some (ctx', pc'))).
  { intros t' ctx' pc'. rewrite (proceed_calls t ctx pc s x Hx). destruct x.1 as [pc1|d].
    - rewrite lookup_insert_Some. intros [[<- [= <- <-]]|[? ?]]; [by left|by right].
    - rewrite lookup_delete_Some. intros [? ?]. by right. }
  split.
  - by eapply balanced_same; [apply proceed_bursts|]; eapply balanced_step; [apply Hs|].
  - intros t' ctx' pc' [(-> & -> & E)|[Hne Ht']]%Hcalls Hn; rewrite Hleft.
    + rewrite E in Hpc. destruct Hpc as (Hb & Hst & _). specialize (Hle ctx.(fd) (or_introl Hst)).
      assert (burst_left s.(layer) ctx.(fd) ≤ 0); [|lia].
      destruct pc; try (by apply Hb); by apply (sole_outside r s Hs t _ _ Ht).
    + pose proof (sole_outside r s Hs t' _ _ Ht' Hn) as H0. etrans; [apply Hle|done].
      assert (pc = Starting ∨ pc ≠ Starting) as [->|?] by (destruct pc; auto); [|by left].
      right. intros E. pose proof (sole_fd r s Hs t t' _ _ _ _ ltac:(done) Ht Ht' ltac:(done)).
      pose proof (sole_starting r s Hs _ _ Ht). lia.
  - intros t' ctx' [(-> & -> & E)|[Hne Ht']]%Hcalls; [|by eapply sole_starting].
    rewrite E in Hpc. by apply Hpc.
  - intros t1 t2 ctx1 ctx2 pc1 pc2 Hne H1%Hcalls H2%Hcalls E.
    destruct H1 as [(-> & -> & _)|[? H1]], H2 as [(-> & -> & _)|[? H2]]; [done|..];
      eapply (sole_fd r s Hs _ _ _ _ _ _ Hne); done.
  - intros i. rewrite Er. assert (pc = Starting ∨ pc ≠ Starting) as [->|?] by (destruct pc; auto).
    + cbn [process_step] in Hx. injection Hx as <-. cbn. rewrite total_count.
      rewrite (sole_replaced r s Hs). case_decide; [|lia].
      pose proof (sole_outside r s Hs t _ _ Ht ltac:(done)). destruct (sole_balanced r s Hs ctx.(fd)). lia.
    + rewrite Hrep by done. apply (sole_replaced r s Hs).
Qed.

Lemma sole_act r s s' : sole r s → step_where exclusive s s' → sole r s'.
Proof.
  intros Hs (a & [(t & ctx & -> & Ht & ->)|(t & ctx & pc & x & -> & Ht & Hx & ->)]%loss_inv & Hok).
  - by apply sole_packet.
  - by eapply sole_step.
Qed.
End sole.

(** ** Packets one after the other *)

Section linear.
Context `{Host}.

Fixpoint one_by_one (l : list PacketContext) : M (R2ChaosBase * World) (list LayerDecision) :=
  match l with
  | [] => mret []
  | ctx :: l => d ← R2_process ctx; ds ← one_by_one l; mret (d :: ds)
  end.

Lemma one_by_one_snoc l ctx x :
  one_by_one (l ++ [ctx]) x =
    let r := R2_process ctx (one_by_one l x).2 in ((one_by_one l x).1 ++ [r.1], r.2).
Proof.
  revert x; induction l as [|ctx' l IH]; intros x; cbn [one_by_one app].
  - by run_simpl.
  - run_simpl. rewrite IH. cbn zeta. by run_simpl.
Qed.

(** The layer with other bursts. *)
Definition with_bursts (m : gmap Z Z) (r : R2ChaosBase) : R2ChaosBase :=
  r <| burst_remaining_by_fd := m |>.

Lemma burst_left_with m r i : m !! i = r.(burst_remaining_by_fd) !! i → burst_left (with_bursts m r) i = burst_left r i.
Proof. unfold burst_left, with_bursts. cbn. by intros ->. Qed.

(** A packet that is in a burst. *)
Lemma process_in_burst m ctx (r : R2ChaosBase) w :
  m !! ctx.(fd) = r.(burst_remaining_by_fd) !! ctx.(fd) → (take_burst ctx.(fd) r).1 = true →
  ∃ m', R2_process ctx (with_bursts m r, w) = (Drop, (with_bursts m' (take_burst ctx.(fd) r).2, w)) ∧
    m' !! ctx.(fd) = (take_burst ctx.(fd) r).2.(burst_remaining_by_fd) !! ctx.(fd) ∧
    ∀ i, i ≠ ctx.(fd) → m' !! i = m !! i ∧
      (take_burst ctx.(fd) r).2.(burst_remaining_by_fd) !! i = r.(burst_remaining_by_fd) !! i.
Proof.
  intros Hm Htake. unfold R2_process. rewrite bind_run, zoom_run. cbn [fst snd].
  unfold take_burst in *. cbn [with_bursts burst_remaining_by_fd update]. rewrite Hm.
  destruct (burst_remaining_by_fd r !! fd ctx) as [k|]; [|done]. destruct (0 <? k); [|done].
  cbn [fst snd]. eexists. split; [reflexivity|]. cbn. destruct (k - 1 =? 0); split.
  - by rewrite !lookup_delete_eq.
  - intros i Hi. by rewrite !lookup_delete_ne.
  - by rewrite !lookup_insert_eq.
  - intros i Hi. by rewrite !lookup_insert_ne.
Qed.

(** A packet outside a burst, without correlated loss. *)
Lemma process_outside m ctx s :
  ctx.(config).(ge_enabled) = 0 → m !! ctx.(fd) = s.(layer).(burst_remaining_by_fd) !! ctx.(fd) →
  burst_left s.(layer) ctx.(fd) ≤ 0 →
  let c := ctx.(config) in
  let e := draw c.(packet_loss_ppm) c s in
  R2_process ctx (with_bursts m s.(layer), s.(clock)) =
    if e.1 then
      (Drop, (with_bursts (if 0 <? c.(burst_loss_len) then <[ctx.(fd) := saturating_sub c.(burst_loss_len) 1]> m
                           else m) e.2.(layer), e.2.(clock)))
    else (if 0 <? c.(latency_ns) then DelayNs c.(latency_ns) else Continue,
          (with_bursts m e.2.(layer), e.2.(clock))).
Proof.
  intros Hge Hm Hleft. rewrite R2_process_no_burst by by rewrite burst_left_with.
  unfold correlated_loss_ppm. rewrite Hge. cbn [Z.eqb]. rewrite ret_run. cbn [fst snd default].
  rewrite event_happens_run, draw_run. cbn zeta. change (r2_dice (with_bursts m (layer s))) with (r2_dice (layer s)).
  destruct (toss _ _ _ _) as [[] [d w]]; cbn [fst snd]; [|done]. by destruct (0 <? _).
Qed.

(** The calls that are about to start a burst: decided, and not answered. *)
Definition pending_call (x : nat * (PacketContext * Pc)) : option (nat * (PacketContext * LayerDecision)) :=
  match x.2.2 with Starting => Some (x.1, (x.2.1, Drop)) | _ => None end.

Definition pending (calls : gmap nat (PacketContext * Pc)) : list (nat * (PacketContext * LayerDecision)) :=
  omap pending_call (map_to_list calls).

Lemma pending_insert t c calls :
  calls !! t = None → pending (<[t := c]> calls) ≡ₚ option_list (pending_call (t, c)) ++ pending calls.
Proof.
  intros Ht. unfold pending. rewrite map_to_list_insert by done. cbn [omap list_omap].
  by destruct (pending_call (t, c)).
Qed.

Lemma pending_split t c calls :
  calls !! t = Some c → pending calls ≡ₚ option_list (pending_call (t, c)) ++ pending (delete t calls).
Proof.
  intros Ht. rewrite <- (insert_delete_id calls t c) at 1 by done. apply pending_insert, lookup_delete_eq.
Qed.

Lemma pending_next t c calls :
  pending (<[t := c]> calls) ≡ₚ option_list (pending_call (t, c)) ++ pending (delete t calls).
Proof. rewrite <- insert_delete_eq. apply pending_insert, lookup_delete_eq. Qed.

(** Bursts as they will be when the calls in progress have started theirs. *)
Definition agrees (m : gmap Z Z) (s : State) : Prop :=
  (∀ t ctx, s.(calls) !! t = Some (ctx, Starting) →
     m !! ctx.(fd) = Some (saturating_sub ctx.(config).(burst_loss_len) 1)) ∧
  ∀ i, (∀ t ctx, s.(calls) !! t = Some (ctx, Starting) → ctx.(fd) ≠ i) →
     m !! i = s.(layer).(burst_remaining_by_fd) !! i.

Definition contexts (l : list (nat * (PacketContext * LayerDecision))) : list PacketContext :=
  (λ x, x.2.1) <$> l.
Definition decisions (l : list (nat * (PacketContext * LayerDecision))) : list LayerDecision :=
  (λ x, x.2.2) <$> l.

(** The packets decided so far are as if they had come one by one. *)
Definition explained (r : R2ChaosBase) (w : World) (m : gmap Z Z) (s : State) : Prop :=
  one_by_one (contexts s.(log)) (r, w) = (decisions s.(log), (with_bursts m s.(layer), s.(clock))).

Record linear (r : R2ChaosBase) (w : World) (s : State) : Prop := {
  linear_sole : sole r s;
  linear_calls t ctx pc :
    s.(calls) !! t = Some (ctx, pc) →
    ctx.(config).(ge_enabled) = 0 ∧
    match pc with
    | Losing effective_loss => effective_loss = ctx.(config).(packet_loss_ppm)
    | Flipping _ | Settling _ => False
    | _ => True
    end;
  linear_explained : ∃ m, explained r w m s ∧ agrees m s;
  linear_answers : s.(log) ≡ₚ s.(answers) ++ pending s.(calls);
}.

Lemma linear_init r w : (∀ i, 0 ≤ burst_left r i) → linear r w (State_init r w).
Proof.
  intros Hr. split; [by apply sole_init|intros *; cbn; by rewrite lookup_empty| |done].
  exists r.(burst_remaining_by_fd). split; [by destruct r|]. split; [|done].
  intros t ctx. cbn. by rewrite lookup_empty.
Qed.

(** A descriptor with no call about to start a burst. *)
Lemma agrees_at m s t ctx pc r :
  sole r s → agrees m s → s.(calls) !! t = Some (ctx, pc) → pc ≠ Starting →
  m !! ctx.(fd) = s.(layer).(burst_remaining_by_fd) !! ctx.(fd) ∧
  ∀ t' ctx', s.(calls) !! t' = Some (ctx', Starting) → ctx'.(fd) ≠ ctx.(fd).
Proof.
  intros Hs [_ Hm] Ht Hpc.
  assert (Hno : ∀ t' ctx', s.(calls) !! t' = Some (ctx', Starting) → ctx'.(fd) ≠ ctx.(fd)).
  { intros t' ctx' Ht' E. assert (t' ≠ t) by congruence.
    pose proof (sole_starting r s Hs t' ctx' Ht').
    pose proof (sole_fd r s Hs t' t _ _ _ _ ltac:(done) Ht' Ht E). lia. }
  split; [by apply Hm|done].
Qed.

(** A call that goes from a point to another, neither of them before a burst. *)
Lemma agrees_moves m s s' t c' :
  agrees m s → s'.(layer) = s.(layer) → c'.2 ≠ Starting →
  (∀ ctx pc, s.(calls) !! t = Some (ctx, pc) → pc ≠ Starting) →
  s'.(calls) = <[t := c']> s.(calls) → agrees m s'.
Proof.
  intros [H1 H2] El Hc' Hc Ec. split; rewrite Ec.
  - intros t' ctx. rewrite lookup_insert_Some. intros [[_ E]|[_ Ht']]; [by subst c'|by eapply H1].
  - intros i Hi. rewrite El. apply H2. intros t' ctx Ht'. apply (Hi t').
    rewrite lookup_insert_ne; [done|]. intros ->. by apply Hc in Ht'.
Qed.

(** A call that ends, and may have changed the bursts of its descriptor. *)
Lemma agrees_ends m m' s s' t ctx pc :
  agrees m s → s.(calls) !! t = Some (ctx, pc) → pc ≠ Starting →
  (∀ t' ctx', s.(calls) !! t' = Some (ctx', Starting) → ctx'.(fd) ≠ ctx.(fd)) →
  s'.(calls) = delete t s.(calls) →
  m' !! ctx.(fd) = s'.(layer).(burst_remaining_by_fd) !! ctx.(fd) →
  (∀ i, i ≠ ctx.(fd) → m' !! i = m !! i ∧
     s'.(layer).(burst_remaining_by_fd) !! i = s.(layer).(burst_remaining_by_fd) !! i) →
  agrees m' s'.
Proof.
  intros [H1 H2] Ht Hpc Hno Ec Hfd Hother. split; rewrite Ec.
  - intros t' ctx'. rewrite lookup_delete_Some. intros [_ Ht']. rewrite (proj1 (Hother _ (Hno _ _ Ht'))).
    by eapply H1.
  - intros i Hi. destruct (decide (i = ctx.(fd))) as [->|Hne]; [done|].
    destruct (Hother i Hne) as [-> ->]. apply H2. intros t' ctx' Ht'. apply (Hi t').
    rewrite lookup_delete_ne; [done|]. intros ->. congruence.
Qed.

Lemma explained_snoc r w m m' s s' t ctx d :
  explained r w m s →
  R2_process ctx (with_bursts m s.(layer), s.(clock)) = (d, (with_bursts m' s'.(layer), s'.(clock))) →
  s'.(log) = s.(log) ++ [(t, (ctx, d))] → explained r w m' s'.
Proof.
  intros He Hp El. unfold explained, contexts, decisions in *. rewrite El, !fmap_app. cbn [fmap list_fmap fst snd].
  rewrite one_by_one_snoc, He. cbn [fst snd]. by rewrite Hp.
Qed.

Lemma answered_perm t ctx pc d s :
  s.(calls) !! t = Some (ctx, pc) → s.(log) ≡ₚ s.(answers) ++ pending s.(calls) → pc ≠ Starting →
  s.(log) ++ [(t, (ctx, d))] ≡ₚ (s.(answers) ++ [(t, (ctx, d))]) ++ pending (delete t s.(calls)).
Proof.
  intros Ht Hperm Hpc. rewrite Hperm, (pending_split t _ _ Ht).
  assert (pending_call (t, (ctx, pc)) = None) as -> by by destruct pc.
  rewrite <- !app_assoc. apply Permutation_app_head. simpl. apply (Permutation_app_comm _ [_]).
Qed.

Lemma linear_burst r w t ctx s x :
  linear r w s → s.(calls) !! t = Some (ctx, Bursting) → process_step t ctx Bursting s = Some x →
  (∃ m, explained r w m (proceed t ctx x) ∧ agrees m (proceed t ctx x)) ∧
  (proceed t ctx x).(log) ≡ₚ (proceed t ctx x).(answers) ++ pending (proceed t ctx x).(calls).
Proof.
  intros Hs Ht Hx. destruct (linear_explained r w s Hs) as (m & He & Hm).
  pose proof (linear_answers r w s Hs) as Hperm. pose proof (linear_sole r w s Hs) as Hsole.
  destruct (agrees_at m s t ctx Bursting r Hsole Hm Ht ltac:(done)) as [Hfd Hno].
  destruct (take_burst_left ctx.(fd) s.(layer)) as [_ H2].
  pose proof (process_in_burst m ctx s.(layer) s.(clock) Hfd) as Hburst.
  cbn [process_step] in Hx. destruct (take_burst (fd ctx) (layer s)) as [[] r'] eqn:E; cbn [fst snd] in *.
  - injection Hx as <-. destruct (Hburst eq_refl) as (m' & Hp & Hfd' & Hother). split.
    + exists m'. split; [by apply (explained_snoc r w m m' s _ t ctx Drop)|].
      by apply (agrees_ends m m' s _ t ctx Bursting).
    + by apply (answered_perm t ctx Bursting).
  - destruct (H2 eq_refl) as [_ ->]. injection Hx as <-. split.
    + exists m. split; [exact He|]. apply (agrees_moves m s _ t (ctx, Correlating)); try done.
      intros ? ? Ht'. rewrite Ht in Ht'. by injection Ht' as <- <-.
    + unfold proceed. cbn. rewrite pending_next, Hperm, (pending_split t _ _ Ht). done.
Qed.

Lemma linear_loss r w t ctx p s x :
  linear r w s → s.(calls) !! t = Some (ctx, Losing p) → process_step t ctx (Losing p) s = Some x →
  (∃ m, explained r w m (proceed t ctx x) ∧ agrees m (proceed t ctx x)) ∧
  (proceed t ctx x).(log) ≡ₚ (proceed t ctx x).(answers) ++ pending (proceed t ctx x).(calls).
Proof.
  intros Hs Ht Hx. destruct (linear_explained r w s Hs) as (m & He & Hm).
  pose proof (linear_answers r w s Hs) as Hperm. pose proof (linear_sole r w s Hs) as Hsole.
  destruct (linear_calls r w s Hs t ctx _ Ht) as [Hge ->].
  destruct (agrees_at m s t ctx _ r Hsole Hm Ht ltac:(done)) as [Hfd Hno].
  pose proof (process_outside m ctx s Hge Hfd (sole_outside r s Hsole t _ _ Ht ltac:(done))) as Hp.
  cbn [process_step] in Hx. cbn zeta in Hp.
  assert (Hd : ∀ e s1, draw ctx.(config).(packet_loss_ppm) ctx.(config) s = (e, s1) →
    s1.(calls) = s.(calls) ∧ s1.(answers) = s.(answers) ∧ s1.(log) = s.(log) ∧
    s1.(layer).(burst_remaining_by_fd) = s.(layer).(burst_remaining_by_fd)).
  { intros e s1. rewrite draw_run. cbn zeta. by intros [= <- <-]. }
  destruct (draw _ _ s) as [e s1]. destruct (Hd e s1 eq_refl) as (Ec & Ea & El & Eb). clear Hd.
  cbn [fst snd] in Hp. apply (inj Some) in Hx as <-. destruct e.
  - destruct (0 <? burst_loss_len (config ctx)).
    + set (n := saturating_sub ctx.(config).(burst_loss_len) 1) in *. split.
      * exists (<[ctx.(fd) := n]> m). split; [apply (explained_snoc r w m _ s _ t ctx Drop He); [exact Hp|cbn; by rewrite El]|].
        split; unfold proceed; cbn; rewrite Ec, ?Eb.
        -- intros t' ctx'. rewrite lookup_insert_Some. intros [[<- [= <-]]|[Hne Ht']]; [apply lookup_insert_eq|].
           rewrite lookup_insert_ne; [by apply (proj1 Hm t')|]. intros E. by apply (Hno t' ctx').
        -- intros i Hi. rewrite lookup_insert_ne by exact (Hi t ctx (lookup_insert_eq _ _ _)).
           apply (proj2 Hm). intros t' ctx' Ht'. apply (Hi t'). rewrite lookup_insert_ne; [done|congruence].
      * unfold proceed. cbn. rewrite El, Ea, Ec, pending_next, Hperm, (pending_split t _ _ Ht). cbn.
        rewrite <- app_assoc. apply Permutation_app_head, (Permutation_app_comm _ [_]).
    + split.
      * exists m. split; [apply (explained_snoc r w m _ s _ t ctx Drop He); [exact Hp|cbn; by rewrite El]|].
        apply (agrees_ends m m s _ t ctx (Losing ctx.(config).(packet_loss_ppm))); cbn; rewrite ?Ec, ?Eb; done.
      * unfold proceed. cbn. rewrite El, Ea, Ec. by apply (answered_perm t ctx (Losing ctx.(config).(packet_loss_ppm))).
  - cbn zeta. split.
    + exists m. split; [eapply (explained_snoc r w m _ s _ t ctx _ He); [exact Hp|cbn; by rewrite El]|].
      apply (agrees_ends m m s _ t ctx (Losing ctx.(config).(packet_loss_ppm))); cbn; rewrite ?Ec, ?Eb; done.
    + unfold proceed. cbn. rewrite El, Ea, Ec. by apply (answered_perm t ctx (Losing ctx.(config).(packet_loss_ppm))).
Qed.

Lemma linear_start r w t ctx s x :
  linear r w s → s.(calls) !! t = Some (ctx, Starting) → process_step t ctx Starting s = Some x →
  (∃ m, explained r w m (proceed t ctx x) ∧ agrees m (proceed t ctx x)) ∧
  (proceed t ctx x).(log) ≡ₚ (proceed t ctx x).(answers) ++ pending (proceed t ctx x).(calls).
Proof.
  intros Hs Ht Hx. destruct (linear_explained r w s Hs) as (m & He & H1 & H2).
  cbn [process_step] in Hx. injection Hx as <-. unfold proceed. cbn. split.
  - exists m. split; [exact He|]. split; cbn.
    + intros t' ctx'. rewrite lookup_delete_Some. intros [_ Ht']. by eapply H1.
    + intros i Hi. destruct (decide (i = ctx.(fd))) as [->|Hne].
      * rewrite lookup_insert_eq. by apply (H1 t).
      * rewrite lookup_insert_ne by done. apply H2. intros t' ctx' Ht'.
        destruct (decide (t' = t)) as [->|Htt]; [by simplify_eq|]. apply (Hi t'). by rewrite lookup_delete_ne.
  - rewrite (linear_answers r w s Hs), (pending_split t _ _ Ht), <- app_assoc. done.
Qed.

Lemma linear_step r w t ctx pc s x :
  linear r w s → s.(calls) !! t = Some (ctx, pc) → process_step t ctx pc s = Some x →
  linear r w (proceed t ctx x).
Proof.
  intros Hs Ht Hx. destruct (linear_calls r w s Hs t ctx pc Ht) as [Hge Hpc].
  enough (H1 : (∃ m, explained r w m (proceed t ctx x) ∧ agrees m (proceed t ctx x)) ∧
    (proceed t ctx x).(log) ≡ₚ (proceed t ctx x).(answers) ++ pending (proceed t ctx x).(calls)).
  { split; [by eapply sole_step; [apply Hs|..]| |apply H1..].
    intros t' ctx' pc'. rewrite (proceed_calls t ctx pc s x Hx). destruct x as [[pc1|d] s1]; cbn [fst].
    - rewrite lookup_insert_Some. intros [[_ [= <- <-]]|[_ Ht']]; [|by apply (linear_calls r w s Hs t')].
      split; [done|]. destruct pc; cbn [process_step correlate_step] in Hx; try done.
      + by destruct (take_burst _ _) as [[] ?]; simplify_eq.
      + rewrite Hge in Hx. by simplify_eq/=.
      + rewrite draw_run in Hx. cbn zeta in Hx. destruct (toss _ _ _ _) as [[] ?]; [|done].
        cbn [fst snd] in Hx. by destruct (0 <? burst_loss_len _); simplify_eq.
    - rewrite lookup_delete_Some. intros [_ Ht']. by apply (linear_calls r w s Hs t'). }
  destruct pc as [| |cur|nxt|p|]; [by apply (linear_burst r w t ctx s)| |done|done|by apply (linear_loss r w t ctx p s)|
    by apply (linear_start r w t ctx s)].
  cbn [process_step correlate_step] in Hx. rewrite Hge in Hx. injection Hx as <-.
  destruct (linear_explained r w s Hs) as (m & He & Hm). split.
  - exists m. split; [exact He|]. apply (agrees_moves m s _ t (ctx, Losing ctx.(config).(packet_loss_ppm))); try done.
    intros ? ? Ht'. rewrite Ht in Ht'. by injection Ht' as <- <-.
  - unfold proceed. cbn. by rewrite pending_next, (linear_answers r w s Hs), (pending_split t _ _ Ht).
Qed.

Lemma linear_act r w s s' : linear r w s → step_where independent s s' → linear r w s'.
Proof.
  intros Hs (a & Ha & Hok). apply loss_inv in Ha as [(t & ctx & -> & Ht & ->)|(t & ctx & pc & x & -> & Ht & Hx & ->)];
    [|by eapply linear_step].
  destruct Hok as [Hex Hge]. destruct (linear_explained r w s Hs) as (m & He & Hm). split.
  - by apply sole_packet; [apply Hs|..].
  - intros t' ctx' pc. cbn. rewrite lookup_insert_Some. intros [[_ [= <- <-]]|[_ Ht']]; [done|].
    by apply (linear_calls r w s Hs t').
  - exists m. split; [exact He|]. apply (agrees_moves m s _ t (ctx, Bursting)); try done. by rewrite Ht.
  - cbn. by rewrite pending_insert, (linear_answers r w s Hs).
Qed.
End linear.

(** ** A packet on its own *)

Section alone.
Context `{Host} (t : nat) (ctx : PacketContext).

Definition at_point (pc : Pc) (s : State) : State := s <| calls ::= <[t := (ctx, pc)]> |>.

Lemma at_point_calls pc s : calls (at_point pc s) !! t = Some (ctx, pc).
Proof. apply lookup_insert_eq. Qed.

Lemma loss_more pc pc' s s1 :
  process_step t ctx pc (at_point pc s) = Some (More pc', at_point pc s1) →
  act (Advance t) (at_point pc s) = Some (at_point pc' s1).
Proof.
  intros Hx. cbn [act]. rewrite at_point_calls, Hx. unfold proceed, at_point, update. cbn.
  by rewrite insert_insert_eq.
Qed.

Lemma loss_ends pc d s s1 :
  s1.(calls) !! t = None → process_step t ctx pc (at_point pc s) = Some (Answered d, at_point pc s1) →
  act (Advance t) (at_point pc s) = Some (s1 <| answers ::= λ l, l ++ [(t, (ctx, d))] |>).
Proof.
  intros Ht Hx. cbn [act]. rewrite at_point_calls, Hx. unfold proceed, at_point, update. cbn.
  by rewrite delete_insert_id.
Qed.

(** [process] from the draw of the loss on. *)
Definition lose (effective_loss : Z) : M (R2ChaosBase * World) LayerDecision :=
  let c := ctx.(config) in
  lost ← event_happens effective_loss c;
  if lost : bool then
    (if 0 <? c.(burst_loss_len) then
       modify (λ s, (s.1 <| burst_remaining_by_fd ::=
                       <[ctx.(fd) := saturating_sub c.(burst_loss_len) 1]> |>, s.2))
     else mret tt);;
    mret Drop
  else if 0 <? c.(latency_ns) then mret (DelayNs c.(latency_ns))
  else mret Continue.

Lemma lose_alone p s :
  s.(calls) !! t = None →
  let r := lose p (s.(layer), s.(clock)) in
  ∃ n s', run_actions act (replicate n (Advance t)) (at_point (Losing p) s) = Some s' ∧ (n ≤ 2)%nat ∧
    s'.(calls) = s.(calls) ∧ s'.(ge_lock) = s.(ge_lock) ∧
    s'.(answers) = s.(answers) ++ [(t, (ctx, r.1))] ∧ (s'.(layer), s'.(clock)) = r.2.
Proof.
  intros Ht. unfold lose. run_simpl. rewrite event_happens_run. cbn zeta. cbn [fst snd].
  pose (s1 := (draw p ctx.(config) s).2).
  assert (Hstep : ∀ o, (draw p ctx.(config) s).1 = o →
    process_step t ctx (Losing p) (at_point (Losing p) s) =
      Some (if o then
              (if 0 <? ctx.(config).(burst_loss_len) then More Starting else Answered Drop,
               at_point (Losing p) (decided t ctx Drop s1))
            else
              let d := if 0 <? ctx.(config).(latency_ns) then DelayNs ctx.(config).(latency_ns) else Continue in
              (Answered d, at_point (Losing p) (decided t ctx d s1)))).
  { intros o <-. cbn [process_step]. unfold s1. rewrite !draw_run. cbn zeta. cbn [fst snd]. by destruct (toss _ _ _ _).1. }
  unfold s1 in Hstep. rewrite draw_run in Hstep. cbn zeta in Hstep. cbn [fst snd] in Hstep. clear s1.
  destruct (toss _ _ _ _) as [lost [dice w]]. cbn [fst snd] in *. specialize (Hstep _ eq_refl).
  destruct lost; [destruct (0 <? burst_loss_len _)|].
  - match type of Hstep with _ = Some (_, at_point _ ?sd) => set (s1 := sd) in Hstep end.
    pose (n := saturating_sub ctx.(config).(burst_loss_len) 1).
    pose (s2 := s1 <| layer ::= λ r, r <| burst_remaining_by_fd ::= <[ctx.(fd) := n]> |> |>
                   <| promised ::= count ctx.(fd) n |>
                   <| replaced ::= count ctx.(fd) (burst_left s1.(layer) ctx.(fd)) |>).
    exists 2%nat, (s2 <| answers ::= λ l, l ++ [(t, (ctx, Drop))] |>). split; [|split; [lia|by run_simpl]].
    eapply run_cons; [by apply loss_more|]. eapply run_cons; [|done].
    by apply (loss_ends Starting Drop s1 s2).
  - eexists 1%nat, _. split; [|split; [lia|]].
    { eapply run_cons; [|done]. eapply loss_ends; [|exact Hstep]. exact Ht. }
    run_simpl. done.
  - eexists 1%nat, _. split; [|split; [lia|]].
    { eapply run_cons; [|done]. eapply loss_ends; [|exact Hstep]. exact Ht. }
    cbn zeta. by destruct (0 <? latency_ns _); run_simpl.
Qed.

(** The draw under the mutex of the states. *)
Definition flip_ppm (cur : Z) : Z :=
  if cur =? 0 then ctx.(config).(ge_p_good_to_bad_ppm) else ctx.(config).(ge_p_bad_to_good_ppm).

Definition flipped (cur : Z) (e : bool) : Z :=
  if cur =? 0 then if e then 1 else cur else if e then 0 else cur.

Lemma flip_step cur s :
  let e := draw (flip_ppm cur) ctx.(config) s in
  process_step t ctx (Flipping cur) (at_point (Flipping cur) s) =
    Some (More (Settling (flipped cur e.1)), at_point (Flipping cur) e.2).
Proof.
  cbn [process_step correlate_step]. unfold flip_ppm, flipped. rewrite !draw_run. by destruct (cur =? 0).
Qed.

Lemma flip_run cur s :
  let c := ctx.(config) in
  let e := draw (flip_ppm cur) c s in
  (if cur =? 0
   then e ← event_happens (ge_p_good_to_bad_ppm c) c; mret (if e : bool then 1 else cur)
   else e ← event_happens (ge_p_bad_to_good_ppm c) c; mret (if e : bool then 0 else cur))
    (s.(layer), s.(clock)) = (flipped cur e.1, (e.2.(layer), e.2.(clock))).
Proof.
  unfold flip_ppm, flipped. rewrite draw_run. cbn zeta.
  destruct (cur =? 0); run_simpl; by rewrite event_happens_run.
Qed.

(** The state after the next one is stored, and the loss it goes with. *)
Definition settled (n : Z) (s : State) : State :=
  s <| ge_lock := None |>
    <| layer ::= λ r, r <| ge_state_by_fd ::= if n =? 0 then delete ctx.(fd) else <[ctx.(fd) := 1]> |> |>.

Definition settled_ppm (n : Z) : Z :=
  if n =? 0 then ctx.(config).(ge_loss_good_ppm) else ctx.(config).(ge_loss_bad_ppm).

Lemma settle_step n s :
  process_step t ctx (Settling n) (at_point (Settling n) s) =
    Some (More (Losing (settled_ppm n)), at_point (Settling n) (settled n s)).
Proof. cbn [process_step correlate_step]. unfold settled, settled_ppm. by destruct (n =? 0). Qed.

Lemma correlate_alone s :
  s.(calls) !! t = None → s.(ge_lock) = None →
  let c := ctx.(config) in
  let r := correlated_loss_ppm ctx.(fd) c (s.(layer), s.(clock)) in
  ∃ n s', run_actions act (replicate n (Advance t)) (at_point Correlating s) =
      Some (at_point (Losing (default c.(packet_loss_ppm) r.1)) s') ∧ (n ≤ 3)%nat ∧
    s'.(calls) = s.(calls) ∧ s'.(ge_lock) = None ∧ s'.(answers) = s.(answers) ∧
    (s'.(layer), s'.(clock)) = r.2.
Proof.
  intros Ht Hl c r. unfold r, correlated_loss_ppm. destruct (ge_enabled c =? 0) eqn:Hge.
  { exists 1%nat, s. split; [|split; [lia|by run_simpl]]. eapply run_cons; [|done].
    apply loss_more. cbn [process_step correlate_step]. fold c. by rewrite Hge. }
  run_simpl. set (cur := default 0 (ge_state_by_fd s.(layer) !! ctx.(fd))).
  set (s1 := s <| ge_lock := Some t |>). set (e := draw (flip_ppm cur) c s1).
  pose proof (flip_run cur s1) as Hr. cbn zeta in Hr. fold c e in Hr.
  change (s1.(layer)) with s.(layer) in Hr. change (s1.(clock)) with s.(clock) in Hr. rewrite Hr. cbn [fst snd].
  set (n := flipped cur e.1). exists 3%nat, (settled n e.2). split; [|split; [lia|]].
  - eapply run_cons; [apply (loss_more Correlating (Flipping cur) s s1)|].
    { cbn [process_step correlate_step]. fold c. rewrite Hge. cbn [at_point ge_lock update]. by rewrite Hl. }
    eapply run_cons; [apply (loss_more (Flipping cur) (Settling n) s1 e.2), flip_step|].
    eapply run_cons; [apply loss_more, settle_step|].
    unfold settled_ppm. fold c. by destruct (n =? 0); run_simpl.
  - unfold settled. by destruct (n =? 0); run_simpl.
Qed.

(** [process]: the head, then the loss, correlated or not. *)
Lemma loss_alone s :
  s.(ge_lock) = None → s.(calls) !! t = None →
  let r := R2_process ctx (s.(layer), s.(clock)) in
  ∃ n s', run_actions act (Packet t ctx :: replicate n (Advance t)) s = Some s' ∧ (n ≤ 6)%nat ∧
    s'.(calls) = s.(calls) ∧ s'.(ge_lock) = None ∧
    s'.(answers) = s.(answers) ++ [(t, (ctx, r.1))] ∧ (s'.(layer), s'.(clock)) = r.2.
Proof.
  intros Hl Ht r. unfold r, R2_process. rewrite bind_run, zoom_run. cbn [fst snd].
  assert (H0 : act (Packet t ctx) s = Some (at_point Bursting s)) by (cbn [act]; by rewrite Ht).
  destruct (take_burst (fd ctx) (layer s)) as [[] l'] eqn:E; cbn [fst snd].
  - set (s1 := (decided t ctx Drop (s <| layer := l' |>)) <| taken ::= count ctx.(fd) 1 |>).
    exists 1%nat, (s1 <| answers ::= λ l, l ++ [(t, (ctx, Drop))] |>). split; [|split; [lia|by run_simpl]].
    eapply run_cons; [exact H0|]. eapply run_cons; [|done]. apply (loss_ends Bursting Drop s s1); [exact Ht|].
    cbn [process_step at_point layer update]. by rewrite E.
  - set (s1 := s <| layer := l' |>).
    destruct (correlate_alone s1 Ht Hl) as (n1 & s2 & Hrun & Hn1 & Hc2 & Hl2 & Ha2 & Hr).
    cbn zeta in Hr. set (q := correlated_loss_ppm ctx.(fd) ctx.(config) (l', s.(clock))) in *.
    change (correlated_loss_ppm ctx.(fd) ctx.(config) (s1.(layer), s1.(clock))) with q in Hrun, Hr.
    assert (Ht2 : s2.(calls) !! t = None) by by rewrite Hc2.
    destruct (lose_alone (default ctx.(config).(packet_loss_ppm) q.1) s2 Ht2)
      as (n2 & s3 & Hrun2 & Hn2 & Hc3 & Hl3 & Ha3 & Hr3).
    rewrite Hr in Ha3, Hr3. rewrite bind_run. fold q. fold (lose (default ctx.(config).(packet_loss_ppm) q.1)).
    exists (1 + n1 + n2)%nat, s3. split; [|split; [lia|]].
    + eapply run_cons; [exact H0|]. rewrite !replicate_add, <- app_assoc. cbn [replicate app].
      eapply run_cons; [|eapply run_trans; [exact Hrun|exact Hrun2]].
      apply (loss_more Bursting Correlating s s1). cbn [process_step at_point layer update]. by rewrite E.
    + split_and!; [by rewrite Hc3|by rewrite Hl3|by rewrite Ha3, Ha2|exact Hr3].
Qed.
End alone.

(** ** The mutex of the states *)

Definition holds (pc : Pc) : bool := match pc with Flipping _ | Settling _ => true | _ => false end.

Section lock.
Context `{Host}.

Definition locked (s : State) : Prop := mutex_ok (λ c, holds c.2) s.(calls) s.(ge_lock).

Lemma process_lock t ctx pc s r :
  process_step t ctx pc s = Some r → (holds pc = true → s.(ge_lock) = Some t) →
  passes (holds pc) (match r.1 with More pc' => holds pc' | Answered _ => false end) t
    s.(ge_lock) r.2.(ge_lock).
Proof.
  intros Hr Hl. unfold passes. destruct pc; cbn [process_step correlate_step] in Hr;
    rewrite ?draw_run in Hr; cbn zeta in Hr.
  - destruct (take_burst _ _) as [[] r']; by injection Hr as <-.
  - destruct (_ =? 0); [by injection Hr as <-|]. destruct (ge_lock s); [done|]. injection Hr as <-. cbn. auto.
  - apply (inj Some) in Hr as <-. destruct (_ =? 0); cbn; auto.
  - apply (inj Some) in Hr as <-. by destruct (_ =? 0).
  - apply (inj Some) in Hr as <-. destruct (toss _ _ _ _).1; [|done]. by destruct (0 <? burst_loss_len _).
  - by injection Hr as <-.
Qed.

Lemma loss_locked a s s' : locked s → act a s = Some s' → locked s'.
Proof.
  intros Hs [(t & ctx & -> & Ht & ->)|(t & ctx & pc & x & -> & Ht & Hx & ->)]%loss_inv.
  { by apply mutex_ok_start. }
  pose proof (process_lock t ctx pc s x Hx (proj1 Hs _ _ Ht)) as Hl.
  unfold locked. rewrite (proceed_calls t ctx pc s x Hx).
  assert ((proceed t ctx x).(ge_lock) = x.2.(ge_lock)) as -> by by destruct x as [[] ?].
  destruct x.1; [by apply (mutex_ok_next _ _ s.(ge_lock) _ _ (ctx, pc))|by apply (mutex_ok_end _ _ s.(ge_lock) _ _ (ctx, pc))].
Qed.

(** What a packet under the mutex has read is what is stored, and what it will store
    is made of that by one draw. *)
Definition chained (s : State) : Prop :=
  ∀ t ctx pc, s.(calls) !! t = Some (ctx, pc) →
    let cur := default 0 (s.(layer).(ge_state_by_fd) !! ctx.(fd)) in
    match pc with
    | Flipping c => c = cur
    | Settling n => ∃ lost : bool, n = flipped cur lost
    | _ => True
    end.

(** Only a packet that stores its next state changes the states. *)
Lemma process_states t ctx pc s r :
  process_step t ctx pc s = Some r → (∀ n, pc ≠ Settling n) →
  r.2.(layer).(ge_state_by_fd) = s.(layer).(ge_state_by_fd).
Proof.
  intros Hr Hn. destruct pc; cbn [process_step correlate_step] in Hr; rewrite ?draw_run in Hr; cbn zeta in Hr.
  - unfold take_burst in Hr. destruct (_ !! _) as [k|]; [destruct (0 <? k)|]; by injection Hr as <-.
  - destruct (_ =? 0); [by injection Hr as <-|]. destruct (ge_lock s); [done|]. by injection Hr as <-.
  - apply (inj Some) in Hr as <-. by destruct (_ =? 0).
  - by destruct (Hn next_state).
  - apply (inj Some) in Hr as <-. by destruct (toss _ _ _ _).1.
  - by injection Hr as <-.
Qed.

Lemma chained_step t ctx pc s r :
  locked s → chained s → s.(calls) !! t = Some (ctx, pc) → process_step t ctx pc s = Some r →
  chained (proceed t ctx r).
Proof.
  intros Hl Hs Ht Hr t' ctx' pc' Ht'. rewrite (proceed_calls t ctx pc s r Hr) in Ht'.
  assert ((proceed t ctx r).(layer) = r.2.(layer)) as -> by by destruct r as [[] ?].
  assert (Hother : t' ≠ t → s.(calls) !! t' = Some (ctx', pc')) by
    (intros Hne; destruct r.1; by rewrite ?lookup_insert_ne, ?lookup_delete_ne in Ht').
  assert (Hfree : (∃ n, pc = Settling n) ∨ ∀ n, pc ≠ Settling n) by (destruct pc; eauto).
  destruct Hfree as [[n ->]|Hfree].
  - (* the others are outside the mutex, and the packet leaves it *)
    cbn [process_step correlate_step] in Hr.
    destruct (decide (t' = t)) as [->|Hne].
    + destruct (n =? 0); injection Hr as <-; cbn [fst] in Ht'; rewrite lookup_insert_eq in Ht'; by simplify_eq.
    + specialize (Hother Hne). pose proof (proj1 Hl t _ Ht eq_refl) as E.
      assert (Hno : holds pc' = false).
      { destruct (holds pc') eqn:Eh; [|done]. pose proof (proj1 Hl t' _ Hother Eh) as E'. congruence. }
      by destruct pc'.
  - rewrite (process_states t ctx pc s r Hr Hfree). destruct (decide (t' = t)) as [->|Hne]; [|by apply (Hs t'), Hother].
    pose proof (Hs t ctx pc Ht) as Hc. destruct pc; cbn [process_step correlate_step] in Hr;
      rewrite ?draw_run in Hr; cbn zeta in Hr.
    + destruct (take_burst _ _) as [[] ?]; injection Hr as <-; cbn [fst] in Ht';
        rewrite ?lookup_insert_eq, ?lookup_delete_eq in Ht'; by simplify_eq.
    + destruct (_ =? 0); [|destruct (ge_lock s); [done|]]; injection Hr as <-; cbn [fst] in Ht';
        rewrite lookup_insert_eq in Ht'; by simplify_eq.
    + apply (inj Some) in Hr as <-. cbn zeta in Hc. subst current_state. unfold flipped.
      destruct (_ =? 0) eqn:Ecur; cbn [fst] in Ht'; rewrite lookup_insert_eq in Ht'; simplify_eq;
        eexists; by rewrite Ecur.
    + by destruct (Hfree next_state).
    + apply (inj Some) in Hr as <-. destruct (toss _ _ _ _).1; [destruct (0 <? burst_loss_len _)|]; cbn [fst] in Ht';
        rewrite ?lookup_insert_eq, ?lookup_delete_eq in Ht'; by simplify_eq.
    + injection Hr as <-. cbn [fst] in Ht'. by rewrite lookup_delete_eq in Ht'.
Qed.

Lemma chained_act a s s' : locked s → chained s → act a s = Some s' → chained s'.
Proof.
  intros Hl Hs [(t & ctx & -> & Ht & ->)|(t & ctx & pc & x & -> & Ht & Hx & ->)]%loss_inv; [|by eapply chained_step].
  intros t' ctx' pc'. cbn. rewrite lookup_insert_Some. intros [[_ [= _ <-]]|[_ Ht']]; [done|by apply (Hs t')].
Qed.

Lemma loss_advances t ctx pc s :
  s.(calls) !! t = Some (ctx, pc) → (pc = Correlating → s.(ge_lock) = None) → is_Some (act (Advance t) s).
Proof.
  intros Ht Hl. cbn [act]. rewrite Ht, fmap_is_Some. destruct pc; cbn [process_step correlate_step]; try done.
  - by destruct (take_burst _ _) as [[] ?].
  - rewrite Hl by done. by destruct (_ =? 0).
Qed.
End lock.

(** ** Properties *)

(** Two packets of one descriptor that find no burst, and both start one. *)
Definition overlapping (ctx : PacketContext) : list Action :=
  [Packet 1 ctx; Packet 2 ctx] ++ concat (replicate 4 [Advance 1; Advance 2]).

(** Everything is lost, in bursts of [k]. *)
Definition all_lost (k : Z) : PacketContext :=
  mkPacketContext 9 1 Layers.Send (Some Uplink)
    (Config_default <| packet_loss_ppm := 1000000 |> <| burst_loss_len := k |>) 0.

(** C33. Bursts are accounted for, and overlap.  However packets of any threads
    interleave access by access: what the bursts started on a descriptor were to
    drop, with what was left of one at the beginning, is what has been dropped in
    them, what is left, and what was left of a burst when another took its place.
    Nothing is ever replaced, so that every burst drops exactly its length, as long
    as a packet that can start a burst is the only one on its descriptor; but two
    packets that overlap there can start two bursts of three of which one is never
    taken. *)
Theorem bursts_accounted `{Host} (r : R2ChaosBase) w s :
  (∀ i, 0 ≤ burst_left r i) →
  (star step (State_init r w) s →
   ∀ i, total s.(promised) i + burst_left r i =
     total s.(taken) i + burst_left s.(layer) i + total s.(replaced) i) ∧
  (star (step_where exclusive) (State_init r w) s →
   ∀ i, total s.(promised) i + burst_left r i = total s.(taken) i + burst_left s.(layer) i) ∧
  ∃ s', run_actions act (overlapping (all_lost 3)) (State_init (R2_new None) (mkWorld 0 0)) = Some s' ∧
    s'.(calls) = ∅ ∧ total s'.(promised) 9 = 4 ∧ total s'.(replaced) 9 = 2 ∧ burst_left s'.(layer) 9 = 2.
Proof.
  intros Hr. split_and!.
  - intros Hrun i. assert (Hs : balanced r s); [|by apply Hs].
    apply (star_invariant step (balanced r) ltac:(intros s1 s2 H1 [a Ha]; by eapply balanced_act) _ _ Hrun).
    apply (sole_init r w Hr).
  - intros Hrun i. assert (Hs : sole r s).
    { apply (star_invariant _ (sole r) (sole_act r) _ _ Hrun). by apply sole_init. }
    destruct (sole_balanced r s Hs i) as [E _]. rewrite (sole_replaced r s Hs i) in E. lia.
  - eexists. split; [vm_compute; reflexivity|]. split_and!; by vm_compute.
Qed.

(** C32. Independent losses are decided one by one.  However packets of any threads
    interleave access by access, as long as none has correlated loss and one that can
    start a burst is the only one on its descriptor: the decisions, in the order in
    which the packets found a burst or drew their loss, are those of the sequential
    [process] of one packet after the other, from the same generator.  The generator
    is where that leaves it; and once no packet is in progress so is the whole layer,
    and every packet has been answered as decided. *)
Theorem packets_linearize `{Host} (r : R2ChaosBase) w s :
  (∀ i, 0 ≤ burst_left r i) → star (step_where independent) (State_init r w) s →
  let x := one_by_one (contexts s.(log)) (r, w) in
  x.1 = decisions s.(log) ∧
  (x.2.1.(r2_dice), x.2.2) = (s.(layer).(r2_dice), s.(clock)) ∧
  (s.(calls) = ∅ → x.2 = (s.(layer), s.(clock)) ∧ s.(answers) ≡ₚ s.(log)).
Proof.
  intros Hr Hrun. assert (Hs : linear r w s).
  { apply (star_invariant _ (linear r w) (linear_act r w) _ _ Hrun). by apply linear_init. }
  destruct (linear_explained r w s Hs) as (m & He & _ & Hm). cbv zeta. rewrite He. cbn [fst snd].
  split_and!; [done|done|]. intros Hc. split.
  - f_equal. assert (m = s.(layer).(burst_remaining_by_fd)) as ->; [|by destruct (layer s)].
    apply map_eq. intros i. apply Hm. intros t ctx. by rewrite Hc, lookup_empty.
  - rewrite (linear_answers r w s Hs), Hc. by rewrite app_nil_r.
Qed.

(** Correlated losses lose no step of their chain.  However packets of any threads
    interleave access by access: a packet that is about to store the next state of its
    descriptor's chain holds the mutex, what it stores is what one draw makes of the
    state that is stored, and the step changes no other descriptor's. *)
Theorem chain_steps_atomic `{Host} r w s t ctx n :
  star step (State_init r w) s → s.(calls) !! t = Some (ctx, Settling n) →
  s.(ge_lock) = Some t ∧
  (∃ lost : bool, n = flipped (default 0 (s.(layer).(ge_state_by_fd) !! ctx.(fd))) lost) ∧
  ∃ s', act (Advance t) s = Some s' ∧
    default 0 (s'.(layer).(ge_state_by_fd) !! ctx.(fd)) = (if n =? 0 then 0 else 1) ∧
    ∀ i, i ≠ ctx.(fd) → s'.(layer).(ge_state_by_fd) !! i = s.(layer).(ge_state_by_fd) !! i.
Proof.
  intros Hrun Ht. assert (Hs : locked s ∧ chained s).
  { apply (star_invariant step (λ s, locked s ∧ chained s)
      ltac:(intros s1 s2 [Hl Hc] [a Ha]; split; [by eapply loss_locked|by eapply chained_act]) _ _ Hrun).
    split; [apply mutex_ok_empty|]. intros t' ctx' pc'. cbn. by rewrite lookup_empty. }
  destruct Hs as [Hl Hc]. split; [exact (proj1 Hl t _ Ht eq_refl)|]. split; [exact (Hc t ctx _ Ht)|].
  cbn [act]. rewrite Ht. cbn [process_step correlate_step]. eexists. split; [reflexivity|].
  destruct (n =? 0); cbn.
  - rewrite lookup_delete_eq. split; [done|]. intros i Hi. by rewrite lookup_delete_ne.
  - rewrite lookup_insert_eq. split; [done|]. intros i Hi. by rewrite lookup_insert_ne.
Qed.

(** Packets go on.  When the mutex of the states is free, a packet whose accesses
    nobody interrupts makes at most six, whatever points the others are at, and does
    what [process] says.  In every reachable state a packet in progress can make its
    next access, or waits for the mutex and its owner can make one. *)
Theorem packets_go_on `{Host} :
  (∀ t ctx s, s.(ge_lock) = None → s.(calls) !! t = None →
     let r := R2_process ctx (s.(layer), s.(clock)) in
     ∃ n s', run_actions act (Packet t ctx :: replicate n (Advance t)) s = Some s' ∧ (n ≤ 6)%nat ∧
       s'.(calls) = s.(calls) ∧ s'.(answers) = s.(answers) ++ [(t, (ctx, r.1))] ∧
       (s'.(layer), s'.(clock)) = r.2) ∧
  (∀ r w s t ctx pc, star step (State_init r w) s → s.(calls) !! t = Some (ctx, pc) →
     is_Some (act (Advance t) s) ∨
     ∃ t', t' ≠ t ∧ s.(ge_lock) = Some t' ∧ is_Some (act (Advance t') s)).
Proof.
  split.
  - intros t ctx s Hl Ht r. destruct (loss_alone t ctx s Hl Ht) as (n & s' & Hrun & Hn & Hc & _ & Ha & E).
    by exists n, s'.
  - intros r w s t ctx pc Hrun Ht. assert (Hs : locked s) by (apply (star_invariant step locked
      ltac:(intros s1 s2 H1 [a Ha]; by eapply loss_locked) _ _ Hrun), mutex_ok_empty).
    refine (mutex_ok_waits _ (λ c, match c.2 with Correlating => true | _ => false end)
      (λ t, is_Some (act (Advance t) s)) _ _ t (ctx, pc) Hs _ _ Ht).
    + by intros [ctx' []].
    + intros t' [ctx' pc'] Ht' Hl. apply (loss_advances t' ctx' pc' s Ht'). intros ->. by apply Hl.
Qed.

(** ** Witnesses *)

(** Packets on descriptors 9 and 10, in lockstep: both are lost and start a burst,
    and the next one on 9 is dropped in it. *)
Definition crossing : list Action :=
  [Packet 1 (all_lost 3); Packet 2 ((all_lost 3) <| fd := 10 |>)] ++
  concat (replicate 4 [Advance 1; Advance 2]) ++ [Packet 1 (all_lost 3); Advance 1].

(** No other packet is on the descriptor. *)
Definition alone_on `{Host} (a : Action) (s : State) : bool :=
  match a with
  | Packet _ ctx =>
      forallb (λ x, negb (x.2.1.(fd) =? ctx.(fd))) (map_to_list s.(calls)) &&
      (ctx.(config).(ge_enabled) =? 0)
  | Advance _ => true
  end.

Lemma alone_on_independent `{Host} a s :
  alone_on a s = true → match a with Packet _ ctx => independent ctx s | Advance _ => True end.
Proof.
  destruct a as [t ctx|]; [|done]. cbn. intros [Hall Hge%Z.eqb_eq]%andb_true_iff. split; [|done].
  intros t' ctx' pc Ht' E. rewrite forallb_forall in Hall.
  specialize (Hall (t', (ctx', pc))). cbn in Hall. rewrite E, Z.eqb_refl in Hall.
  discriminate Hall. by apply list_elem_of_In, elem_of_map_to_list.
Qed.

Lemma crossing_run `{Host} :
  ∃ s, run_actions act crossing (State_init (R2_new None) example_world) = Some s ∧
    star (step_where independent) (State_init (R2_new None) example_world) s ∧
    decisions s.(log) = [Drop; Drop; Drop] ∧ decisions s.(answers) = [Drop; Drop; Drop] ∧
    total s.(promised) 9 = 2 ∧ total s.(taken) 9 = 1 ∧ burst_left s.(layer) 9 = 1.
Proof.
  eexists. split; [vm_compute; reflexivity|]. split; [|split_and!; by vm_compute].
  eapply (run_checked_star act _ alone_on crossing); [exact alone_on_independent|by vm_compute|].
  vm_compute. reflexivity.
Qed.

Lemma nothing_left `{Host} i : 0 ≤ burst_left (R2_new None) i.
Proof. unfold burst_left. cbn. by rewrite lookup_empty. Qed.

#[local] Existing Instance example_host.

Lemma packets_linearize_witness :
  ∃ s, run_actions act crossing (State_init (R2_new None) example_world) = Some s ∧
    decisions s.(log) = [Drop; Drop; Drop] ∧ decisions s.(answers) = [Drop; Drop; Drop] ∧
    (one_by_one (contexts s.(log)) (R2_new None, example_world)).1 = decisions s.(log).
Proof.
  destruct crossing_run as (s & Hrun & Hstar & Hlog & Hans & _). exists s. split_and!; [done..|].
  by destruct (packets_linearize (R2_new None) example_world s nothing_left Hstar) as (E & _).
Defined.

Lemma bursts_accounted_witness :
  ∃ s, run_actions act crossing (State_init (R2_new None) example_world) = Some s ∧
    total s.(promised) 9 = 2 ∧ total s.(taken) 9 = 1 ∧ burst_left s.(layer) 9 = 1 ∧
    ∀ i, total s.(promised) i + burst_left (R2_new None) i = total s.(taken) i + burst_left s.(layer) i.
Proof.
  destruct crossing_run as (s & Hrun & Hstar & _ & _ & Hp & Ht & Hb). exists s. split_and!; [done..|].
  assert (Hex : star (step_where exclusive) (State_init (R2_new None) example_world) s).
  { clear -Hstar. induction Hstar as [|s1 s2 s3 (a & Ha & Hok) _ IH]; [constructor|].
    econstructor; [|exact IH]. exists a. split; [done|]. destruct a; [apply Hok|done]. }
  destruct (bursts_accounted (R2_new None) example_world s nothing_left) as (_ & Hacc & _). by apply Hacc.
Defined.
