(* ===== verification/R3FlowControl.v ===== *)
(** * R3: rate limiting

    [faultcore_network/src/layers/r3_flow_control.rs]: a token bucket, one per
    process, refilled by the elapsed time, for calls that do not overlap
    ([FlowRace] has those that do); times are nanoseconds, rates and capacities the
    doubles of [F64]. *)

From Stdlib Require Import QArith Lqa.
From S2P Require Import Prelude.
From S2P Require Import F64.
From S2P Require Import Config.
From S2P Require Import Layers.

Open Scope Z_scope.

(* faultcore_network/src/layers/r3_flow_control.rs:10-15 R3FlowControl *)
Record R3FlowControl : Type := mkR3 {
  rate_bps : Z;
  capacity_tokens : f64;
  tokens : Z;
  last_refill : Z
}.

#[export] Instance eta_R3 : Eta R3FlowControl := λ r, mkR3
  (r.(rate_bps)) (r.(capacity_tokens)) (r.(tokens)) (r.(last_refill)).

Section r3.
  Context `{Host}.

(* faultcore_network/src/layers/r3_flow_control.rs:18-25 R3FlowControl::new *)
Definition R3_new (rate_bps : Z) (capacity_tokens : f64) : M World R3FlowControl :=
  now ← instant_now;
  mret (mkR3 rate_bps capacity_tokens (f64_trunc_u64 capacity_tokens) now).

(* faultcore_network/src/layers/r3_flow_control.rs:27-29 R3FlowControl::with_rate *)
Definition R3_with_rate (rate_bps : Z) : M World R3FlowControl :=
  R3_new rate_bps (f64_mul (f64_of_u64 rate_bps) (inject_Z 2)).

(* faultcore_network/src/layers/r3_flow_control.rs:31-48 R3FlowControl::refill *)
Definition refill (rate_bps : Z) (capacity_tokens : f64) : M (R3FlowControl * World) unit := λ s,
  if rate_bps =? 0 then (tt, s) else
  let (r, w) := s in
  let (now, w) := instant_now w in
  let elapsed := as_secs_f64 (saturating_sub now r.(last_refill)) in
  if Qle_bool elapsed 0 then (tt, (r, w)) else
  let new_tokens := f64_mul elapsed (f64_of_u64 rate_bps) in
  let (now, w) := instant_now w in
  let new_value :=
    f64_trunc_u64 (f64_min (f64_add (f64_of_u64 r.(tokens)) new_tokens) capacity_tokens) in
  (tt, (r <| last_refill := now |> <| tokens := new_value |>, w)).

(* faultcore_network/src/layers/r3_flow_control.rs:50-68 R3FlowControl::try_acquire *)
Definition try_acquire (tokens_needed rate_bps : Z) (capacity_tokens : f64) :
    M (R3FlowControl * World) bool :=
  refill rate_bps capacity_tokens;;
  current ← gets (λ s, s.1.(tokens));
  if tokens_needed <=? current then
    modify (λ s, (s.1 <| tokens := current - tokens_needed |>, s.2));; mret true
  else mret false.

(* faultcore_network/src/layers/r3_flow_control.rs:69-102 R3FlowControl::process_with_bytes *)
Definition process_with_bytes (bytes : Z) (c : Config) : M (R3FlowControl * World) LayerDecision :=
  self ← gets fst;
  let has_override_rate := 0 <? c.(bandwidth_bps) in
  let rate := if has_override_rate then c.(bandwidth_bps) else self.(rate_bps) in
  if rate =? 0 then mret Continue else
  let bits_needed := saturating_mul bytes 8 in
  let capacity_tokens :=
    if has_override_rate then f64_mul (f64_of_u64 rate) (inject_Z 2) else self.(capacity_tokens) in
  acquired ← try_acquire bits_needed rate capacity_tokens;
  if acquired : bool then mret Continue else
  current ← gets (λ s, s.1.(tokens));
  let deficit := saturating_sub bits_needed current in
  let delay_secs := f64_div (f64_of_u64 deficit) (f64_of_u64 rate) in
  let delay_ns := f64_trunc_u64 (f64_mul delay_secs (inject_Z 1000000000)) in
  mret (if 0 <? delay_ns then DelayNs delay_ns else Continue).

Definition R3_process (ctx : PacketContext) : M (R3FlowControl * World) LayerDecision :=
  process_with_bytes ctx.(bytes) ctx.(config).
End r3.

(* faultcore_network/src/layers/r3_flow_control.rs:105-121 Layer for R3FlowControl *)
#[export] Instance R3_layer `{Host} : Layer R3FlowControl := {
  stage := R3;
  applies_to := is_stream;
  process := R3_process;
  name := "R3_FlowControl";
  process_with_buffer := default_process_with_buffer R3_process;
}.

(** ** One packet *)

(** The rate and capacity in force. *)
Definition rate_of (r : R3FlowControl) (c : Config) : Z :=
  if 0 <? c.(bandwidth_bps) then c.(bandwidth_bps) else r.(rate_bps).
Definition capacity_of (r : R3FlowControl) (c : Config) : f64 :=
  if 0 <? c.(bandwidth_bps) then f64_mul (f64_of_u64 c.(bandwidth_bps)) (inject_Z 2)
  else r.(capacity_tokens).

(** The wait for a number of missing tokens. *)
Definition wait_ns (deficit rate : Z) : Z :=
  f64_trunc_u64 (f64_mul (f64_div (f64_of_u64 deficit) (f64_of_u64 rate)) (inject_Z 1000000000)).

Section facts.
Context `{Host}.

Lemma process_with_bytes_run b c s :
  rate_of s.1 c ≠ 0 →
  let bits := saturating_mul b 8 in
  let s' := (refill (rate_of s.1 c) (capacity_of s.1 c) s).2 in
  process_with_bytes b c s =
    if bits <=? s'.1.(tokens) then
      (Continue, (s'.1 <| tokens := s'.1.(tokens) - bits |>, s'.2))
    else
      let d := wait_ns (saturating_sub bits s'.1.(tokens)) (rate_of s.1 c) in
      (if 0 <? d then DelayNs d else Continue, s').
Proof.
  intros Hr bits s'. unfold process_with_bytes, try_acquire. run_simpl.
  fold (rate_of s.1 c) (capacity_of s.1 c).
  assert (Hcap : (if 0 <? bandwidth_bps c then f64_mul (f64_of_u64 (rate_of s.1 c)) (inject_Z 2)
                  else capacity_tokens s.1) = capacity_of s.1 c).
  { unfold capacity_of, rate_of. by destruct (0 <? bandwidth_bps c). }
  rewrite Hcap, (proj2 (Z.eqb_neq _ _) Hr). run_simpl. fold bits s'.
  by destruct (bits <=? tokens s'.1).
Qed.

Lemma process_unlimited b c s :
  rate_of s.1 c = 0 → process_with_bytes b c s = (Continue, s).
Proof.
  intros Hr. unfold process_with_bytes. run_simpl. fold (rate_of s.1 c).
  by rewrite Hr.
Qed.
End facts.

(** ** Facts about the refill *)

Lemma f64_add_nonneg a b : (0 <= f64_add a b)%Q.
Proof. apply round53_nonneg. Qed.

Lemma wait_ns_u64 d rate : is_u64 (wait_ns d rate).
Proof. apply f64_trunc_u64_bound, round53_nonneg. Qed.

Lemma f64_trunc_mono a b : (a <= b)%Q → f64_trunc_u64 a ≤ f64_trunc_u64 b.
Proof. intros H. unfold f64_trunc_u64. pose proof (Qround.Qfloor_resp_le a b H). lia. Qed.

Section refill.
Context `{HostLaws}.

(** The time since the last refill, as the call sees it. *)
Definition elapsed_ns (s : R3FlowControl * World) : Z :=
  saturating_sub (instant s.2.(ticks)) s.1.(last_refill).

Lemma refill_run rate cap s :
  rate ≠ 0 →
  (refill rate cap s).2 =
    if Qle_bool (as_secs_f64 (elapsed_ns s)) 0 then (s.1, s.2 <| ticks ::= S |>)
    else (s.1 <| last_refill := instant (S s.2.(ticks)) |>
              <| tokens := f64_trunc_u64 (f64_min
                   (f64_add (f64_of_u64 s.1.(tokens))
                            (f64_mul (as_secs_f64 (elapsed_ns s)) (f64_of_u64 rate))) cap) |>,
          s.2 <| ticks ::= S |> <| ticks ::= S |>).
Proof.
  intros Hr. destruct s as [r w]. unfold refill. rewrite (proj2 (Z.eqb_neq _ _) Hr).
  unfold instant_now at 1. cbn [fst snd]. fold (elapsed_ns (r, w)).
  change (saturating_sub (instant (ticks w)) (last_refill r)) with (elapsed_ns (r, w)).
  by destruct (Qle_bool _ 0).
Qed.

(** A refill never lifts the bucket above the capacity. *)
Lemma refill_tokens rate cap s :
  rate ≠ 0 → (0 <= cap)%Q → is_u64 s.1.(tokens) →
  is_u64 (refill rate cap s).2.1.(tokens) ∧
  (refill rate cap s).2.1.(tokens) ≤ Z.max s.1.(tokens) (f64_trunc_u64 cap).
Proof.
  intros Hr Hc Ht. rewrite refill_run by done.
  destruct (Qle_bool (as_secs_f64 (elapsed_ns s)) 0); cbn; [split; [done|lia]|].
  unfold f64_min. destruct (Qle_bool _ cap) eqn:E.
  - apply Qle_bool_iff in E. split; [apply f64_trunc_u64_bound, f64_add_nonneg|].
    pose proof (f64_trunc_mono _ _ E). lia.
  - split; [by apply f64_trunc_u64_bound|lia].
Qed.
End refill.

(** ** Promises to the engine *)

Section promises.
Context `{HostLaws}.

Lemma R3_process_main ctx (r : R3FlowControl) w :
  True → ctx_ok ctx → main_decision (R3_process ctx (r, w)).1.
Proof.
  intros _ _. unfold R3_process. destruct (Z.eq_dec (rate_of r (config ctx)) 0).
  - by rewrite process_unlimited.
  - rewrite process_with_bytes_run by done. cbn zeta. cbn [fst].
    destruct (_ <=? _); [done|]. cbn [fst]. destruct (0 <? _); [|done]. apply wait_ns_u64.
Qed.

(** Without a rate of its own, as in the engine. *)
Definition R3_same (r r' : R3FlowControl) : Prop := r.(rate_bps) = 0 ∧ r'.(rate_bps) = 0.

Lemma R3_process_seeded ctx (l l' : R3FlowControl) w w' :
  0 < ctx.(config).(policy_seed) → ctx.(config).(bandwidth_bps) = 0 → R3_same l l' →
  (R3_process ctx (l, w)).1 = (R3_process ctx (l', w')).1 ∧
  R3_same (R3_process ctx (l, w)).2.1 (R3_process ctx (l', w')).2.1.
Proof.
  intros _ Hb [E E']. unfold R3_process.
  rewrite !process_unlimited by (unfold rate_of; by rewrite Hb). done.
Qed.
End promises.

#[export] Instance R3_stage `{HostLaws} : StageLayer R3FlowControl := {
  layer_ok _ := True;
  process_ok _ _ _ _ _ := I;
  process_main := R3_process_main;
}.

(** The bucket is shared by every descriptor. *)
#[export] Instance R3_fd_local `{Host} : FdLocal R3FlowControl := {
  View := unit;
  view _ _ := tt;
  process_view _ _ _ _ _ := eq_refl;
}.

#[export] Instance R3_seeded `{HostLaws} : SeedDetermined R3FlowControl := {
  same := R3_same;
  process_seeded := R3_process_seeded;
  process_clockless _ _ := eq_refl;
}.

(** ** Properties *)

(** Admission by the token bucket.  With a rate in force, a packet is let
    through at once exactly when the refilled bucket holds its bits, and then
    pays for them; otherwise the bucket is left as the refill made it (no debt
    is recorded) and the decision is to wait for the missing bits at that rate.
    The bucket never holds more than the capacity in force or what it held. *)
Theorem rate_limit_step `{HostLaws} b c r w :
  rate_of r c ≠ 0 → is_u64 r.(tokens) → is_u64 b → (0 <= r.(capacity_tokens))%Q →
  let bits := saturating_mul b 8 in
  let full := (refill (rate_of r c) (capacity_of r c) (r, w)).2.1.(tokens) in
  let out := process_with_bytes b c (r, w) in
  0 ≤ full ≤ Z.max r.(tokens) (f64_trunc_u64 (capacity_of r c)) ∧
  (bits ≤ full → out.1 = Continue ∧ out.2.1.(tokens) = full - bits) ∧
  (full < bits →
     let d := wait_ns (bits - full) (rate_of r c) in
     out.1 = (if 0 <? d then DelayNs d else Continue) ∧ out.2.1.(tokens) = full) ∧
  is_u64 out.2.1.(tokens).
Proof.
  intros Hr Ht Hb Hcap bits full out.
  assert (Hc : (0 <= capacity_of r c)%Q)
    by (unfold capacity_of; destruct (0 <? _); [apply round53_nonneg|done]).
  destruct (refill_tokens (rate_of r c) (capacity_of r c) (r, w) Hr Hc Ht) as [H1 H2].
  fold full in H1, H2. cbn [fst] in H2.
  assert (Hbits : is_u64 bits) by (unfold bits; apply saturating_mul_u64; [done|mach]).
  unfold out. rewrite process_with_bytes_run by done. cbn [fst]. fold bits full.
  split; [mach|]. destruct (Z.leb_spec bits full); cbn [fst snd]; (split; [|split]).
  - done.
  - lia.
  - cbn. mach.
  - lia.
  - intros _. unfold saturating_sub. by rewrite Z.max_l by lia.
  - done.
Qed.

(** The bucket over a sequence of packets of the same size. *)
Fixpoint run_packets `{Host} (n : nat) (b : Z) (c : Config) :
    M (R3FlowControl * World) (list LayerDecision) :=
  match n with
  | O => mret []
  | S n => d ← process_with_bytes b c; ds ← run_packets n b c; mret (d :: ds)
  end.

Lemma round53_small q : (q <= 1 # 2)%Q → f64_trunc_u64 (round53 q) = 0.
Proof.
  intros Hq. pose proof (f64_trunc_mono _ _ (round53_mono _ _ Hq)) as Hle.
  change (f64_trunc_u64 (round53 (1 # 2))) with 0 in Hle.
  destruct (f64_trunc_u64_bound (round53 q) (round53_nonneg q)). lia.
Qed.

Lemma starved_refill rate gain :
  0 < rate → (gain <= 1 # 2)%Q →
  f64_trunc_u64 (f64_min (f64_add (f64_of_u64 0) gain) (f64_mul (f64_of_u64 rate) (inject_Z 2))) = 0.
Proof.
  intros Hr Hgain. change (f64_of_u64 0) with 0%Q.
  assert (Hsum : (0 + gain <= 1 # 2)%Q) by (by rewrite QArith_base.Qplus_0_l).
  unfold f64_min. destruct (Qle_bool _ _) eqn:E; [by apply round53_small|].
  apply not_true_iff_false in E. exfalso. apply E, Qle_bool_iff. clear E.
  apply (QArith_base.Qle_trans _ (round53 (1 # 2))); [by apply round53_mono|].
  apply (QArith_base.Qle_trans _ (round53 (inject_Z 1))); [by apply round53_mono|].
  apply round53_mono. pose proof (f64_of_u64_pos _ Hr) as H1. unfold inject_Z in *. lra.
Qed.

(** A slow limit polled fast starves.  When the clock advances by a fixed
    step between its readings and the limit earns at most half a bit per step,
    an empty bucket stays empty for ever: each call discards the fraction it
    earned and restarts the clock, so every packet, however late, is told to
    wait for all of its bits. *)
Theorem refill_starvation `{HostLaws} step n b c r w :
  0 < c.(bandwidth_bps) → 0 < saturating_mul b 8 →
  (0 < as_secs_f64 step)%Q →
  (f64_mul (as_secs_f64 step) (f64_of_u64 c.(bandwidth_bps)) <= 1 # 2)%Q →
  0 < step → (∀ i, instant (S i) = instant i + step) →
  r.(tokens) = 0 → r.(last_refill) = instant w.(ticks) - step →
  let wait := wait_ns (saturating_mul b 8) c.(bandwidth_bps) in
  let out := run_packets n b c (r, w) in
  out.1 = replicate n (if 0 <? wait then DelayNs wait else Continue) ∧
  out.2.1.(tokens) = 0 ∧
  instant out.2.2.(ticks) = instant w.(ticks) + 2 * Z.of_nat n * step.
Proof.
  intros Hbw Hbits Hpos Hgain Hstep Hclock. revert r w.
  induction n as [|n IH]; intros r w Ht Hl wait; [by split_and!; [..|cbn; lia]|].
  cbn [run_packets replicate]. run_simpl.
  assert (Hrate : rate_of r c = c.(bandwidth_bps))
    by (unfold rate_of; by rewrite (proj2 (Z.ltb_lt _ _) Hbw)).
  assert (He : elapsed_ns (r, w) = step) by (unfold elapsed_ns; cbn; rewrite Hl; mach).
  set (s1 := (r <| last_refill := instant (S w.(ticks)) |> <| tokens := 0 |>,
              w <| ticks ::= S |> <| ticks ::= S |>)).
  assert (Hrefill : (refill (rate_of r c) (capacity_of r c) (r, w)).2 = s1).
  { rewrite refill_run, He by lia. cbn [fst snd].
    destruct (Qle_bool (as_secs_f64 step) 0) eqn:E.
    { apply Qle_bool_iff in E. exfalso. by apply (QArith_base.Qlt_not_le _ _ Hpos). }
    assert (Hcap : capacity_of r c = f64_mul (f64_of_u64 c.(bandwidth_bps)) (inject_Z 2))
      by (unfold capacity_of; by rewrite (proj2 (Z.ltb_lt _ _) Hbw)).
    by rewrite Ht, Hrate, Hcap, starved_refill. }
  rewrite process_with_bytes_run by (cbn [fst]; lia). cbn zeta. cbn [fst].
  rewrite Hrefill. cbn [s1 fst snd tokens update].
  rewrite (proj2 (Z.leb_gt _ _) Hbits), Hrate. cbn [fst snd].
  destruct (IH s1.1 s1.2) as (IH1 & IH2 & IH3); [done| |].
  { cbn. rewrite !Hclock. lia. }
  replace (saturating_sub (saturating_mul b 8) 0) with (saturating_mul b 8) by mach.
  split_and!; [by f_equal|done|]. unfold s1 in IH3; cbn [fst snd] in IH3.
  refine (eq_trans IH3 _). cbn [ticks update]. rewrite !Hclock. lia.
Qed.

(** ** Witnesses *)

Definition example_rate : Config := Config_default <| bandwidth_bps := 1000 |>.
Definition example_bucket : R3FlowControl := mkR3 0 0%Q 0 0.

Lemma rate_limit_step_witness :
  (process_with_bytes (H:=example_host) 100 example_rate
     (mkR3 0 0%Q 800 0, mkWorld 0 4000)).1 = Continue.
Proof.
  refine (proj1 (proj1 (proj2 (@rate_limit_step example_host example_host_laws 100 example_rate
    (mkR3 0 0%Q 800 0) (mkWorld 0 4000) _ _ _ _)) _)); by vm_compute.
Defined.

Lemma refill_starvation_witness :
  (run_packets (H:=example_host) 50 100 example_rate (example_bucket, mkWorld 0 1)).1 =
    replicate 50 (DelayNs 800000000).
Proof.
  refine (proj1 (@refill_starvation example_host example_host_laws 1000 50 100 example_rate
    example_bucket (mkWorld 0 1) _ _ _ _ _ _ _ _)); try by vm_compute.
  intros i. cbn [instant example_host]. lia.
Defined.
