(* ===== verification/FlowRace.v ===== *)
(** * Threads on one token bucket

    [faultcore_network/src/layers/r3_flow_control.rs], [refill], [try_acquire] and
    [process_with_bytes], as a step relation.  The bucket is one atomic word; a
    refill holds the mutex of [last_refill] from its first reading of the clock to
    its return, an acquisition is a loop of loads and exchanges without it, and
    calls of several threads interleave between any two accesses.  The release of
    the mutex is one step with the access before it, which only makes others wait.
    [R3FlowControl] has what a call does when no other overlaps it. *)

From Stdlib Require Import QArith Qround Qpower Lqa.
From S2P Require Import Prelude.
From S2P Require Import Threads.
From S2P Require Import F64.
From S2P Require Import Config.
From S2P Require Import Layers.
From S2P Require Import R3FlowControl.

Open Scope Z_scope.

(** What a call asks of the bucket. *)
Record Request : Type := mkRequest {
  tokens_needed : Z;
  rate : Z;
  capacity : f64
}.

(** Where a call is.  In a refill: before taking the mutex, before the first
    reading of the clock, before restarting it, before loading the tokens and
    before storing them.  Then: before a load of the loop, before its exchange, and
    before the load that measures the deficit. *)
Inductive Pc : Type :=
  | Locking
  | Elapsing
  | Restarting (new_tokens : f64)
  | Reading (new_tokens : f64)
  | Storing (new_tokens : f64) (current : Z)
  | Loading
  | Exchanging (current : Z)
  | Measuring.

(** What an access leads to: the call goes on, or it ends. *)
Inductive Outcome : Type :=
  | More (pc : Pc)
  | Answered (decision : LayerDecision).

(** [granted] counts the tokens paid by exchanges; [refills], [exchanges] and
    [answers] what has been done. *)
Record State : Type := mkState {
  bucket : R3FlowControl;
  clock : World;
  lock : option nat;
  calls : gmap nat (Request * Pc);
  granted : Z;
  refills : nat;
  exchanges : nat;
  answers : list (nat * LayerDecision)
}.

#[export] Instance eta_State : Eta State := λ s,
  mkState (s.(bucket)) (s.(clock)) (s.(lock)) (s.(calls)) (s.(granted)) (s.(refills))
    (s.(exchanges)) (s.(answers)).

Definition State_init (r : R3FlowControl) (w : World) : State := mkState r w None ∅ 0 0 0 [].

(** A thread has a packet, or makes its next access; a weak exchange may fail
    although the bucket is what was loaded. *)
Inductive Action : Type :=
  | Packet (thread : nat) (bytes : Z) (c : Config)
  | Advance (thread : nat) (spurious : bool).

Section steps.
Context `{Host}.

Definition store (tokens' : Z) (s : State) : State :=
  s <| bucket ::= λ r, r <| tokens := tokens' |> |>.

(* faultcore_network/src/layers/r3_flow_control.rs:31-48 R3FlowControl::refill *)
Definition refill_step (t : nat) (q : Request) (pc : Pc) (s : State) : option (Outcome * State) :=
  match pc with
  | Locking =>
      match s.(lock) with
      | None => Some (More Elapsing, s <| lock := Some t |>)
      | Some _ => None
      end
  | Elapsing =>
      let (now, w) := instant_now s.(clock) in
      let elapsed := as_secs_f64 (saturating_sub now s.(bucket).(last_refill)) in
      Some (if Qle_bool elapsed 0 then (More Loading, s <| clock := w |> <| lock := None |>)
            else (More (Restarting (f64_mul elapsed (f64_of_u64 q.(rate)))), s <| clock := w |>))
  | Restarting new_tokens =>
      let (now, w) := instant_now s.(clock) in
      Some (More (Reading new_tokens),
            s <| clock := w |> <| bucket ::= λ r, r <| last_refill := now |> |>)
  | Reading new_tokens => Some (More (Storing new_tokens s.(bucket).(tokens)), s)
  | Storing new_tokens current =>
      let new_value :=
        f64_trunc_u64 (f64_min (f64_add (f64_of_u64 current) new_tokens) q.(capacity)) in
      Some (More Loading, (store new_value s) <| lock := None |> <| refills ::= S |>)
  | _ => None
  end.

(* faultcore_network/src/layers/r3_flow_control.rs:50-68 R3FlowControl::try_acquire *)
Definition acquire_step (q : Request) (spurious : bool) (pc : Pc) (s : State) :
    option (Outcome * State) :=
  match pc with
  | Loading =>
      let current := s.(bucket).(tokens) in
      Some (More (if q.(tokens_needed) <=? current then Exchanging current else Measuring), s)
  | Exchanging current =>
      let new_value := current - q.(tokens_needed) in
      Some (if negb spurious && (s.(bucket).(tokens) =? current) then
              (Answered Continue, (store new_value s) <| exchanges ::= S |>
                 <| granted ::= λ g, g + q.(tokens_needed) |>)
            else (More Loading, s))
  | _ => None
  end.

(* faultcore_network/src/layers/r3_flow_control.rs:89-101 R3FlowControl::process_with_bytes *)
Definition measure_step (q : Request) (pc : Pc) (s : State) : option (Outcome * State) :=
  match pc with
  | Measuring =>
      let deficit := saturating_sub q.(tokens_needed) s.(bucket).(tokens) in
      let delay_secs := f64_div (f64_of_u64 deficit) (f64_of_u64 q.(rate)) in
      let delay_ns := f64_trunc_u64 (f64_mul delay_secs (inject_Z 1000000000)) in
      Some (Answered (if 0 <? delay_ns then DelayNs delay_ns else Continue), s)
  | _ => None
  end.

Definition proceed (t : nat) (q : Request) (r : Outcome * State) : State :=
  match r.1 with
  | More pc => r.2 <| calls ::= <[t := (q, pc)]> |>
  | Answered d => r.2 <| calls ::= delete t |> <| answers ::= λ l, l ++ [(t, d)] |>
  end.

(** The request of a packet; none when no rate is in force. *)
(* faultcore_network/src/layers/r3_flow_control.rs:69-88 R3FlowControl::process_with_bytes *)
Definition request (r : R3FlowControl) (bytes : Z) (c : Config) : option Request :=
  let has_override_rate := 0 <? c.(bandwidth_bps) in
  let rate := if has_override_rate then c.(bandwidth_bps) else r.(rate_bps) in
  if rate =? 0 then None else
  Some (mkRequest (saturating_mul bytes 8) rate
    (if has_override_rate then f64_mul (f64_of_u64 rate) (inject_Z 2) else r.(capacity_tokens))).

Definition advance (t : nat) (q : Request) (spurious : bool) (pc : Pc) (s : State) :
    option (Outcome * State) :=
  match pc with
  | Loading | Exchanging _ => acquire_step q spurious pc s
  | Measuring => measure_step q pc s
  | _ => refill_step t q pc s
  end.

Definition act (a : Action) (s : State) : option State :=
  match a with
  | Packet t bytes c =>
      match s.(calls) !! t with
      | Some _ => None
      | None =>
          Some match request s.(bucket) bytes c with
               | None => s <| answers ::= λ l, l ++ [(t, Continue)] |>
               | Some q => s <| calls ::= <[t := (q, Locking)]> |>
               end
      end
  | Advance t spurious =>
      match s.(calls) !! t with
      | None => None
      | Some (q, pc) => proceed t q <$> advance t q spurious pc s
      end
  end.

Definition step (s s' : State) : Prop := ∃ a, act a s = Some s'.

(** A step that starts only packets within a rate and a capacity, and pays for
    none while a refill is between its load and its store. *)
Definition limited_step (R : Z) (C : f64) (s s' : State) : Prop :=
  ∃ a, act a s = Some s' ∧
    match a with
    | Packet _ bytes c =>
        0 ≤ bytes ∧ 0 ≤ rate_of s.(bucket) c ≤ R ∧
        (0 <= capacity_of s.(bucket) c <= C)%Q
    | Advance t _ =>
        ∀ q current, s.(calls) !! t = Some (q, Exchanging current) →
          ∀ t' q' new_tokens current', s.(calls) !! t' ≠ Some (q', Storing new_tokens current')
    end.
End steps.

(** ** What a rate allows *)

(** What a rate earns in some nanoseconds, up to the roundings of a refill. *)
Definition earns (rate ns : Z) : Q :=
  (inject_Z rate * (inject_Z ns / inject_Z 1000000000) * errors 5)%Q.

Lemma earns_plus rate a b : (earns rate (a + b) == earns rate a + earns rate b)%Q.
Proof. unfold earns. rewrite inject_Z_plus. field; done. Qed.

Lemma earns_mono rate rate' ns ns' :
  0 ≤ rate ≤ rate' → 0 ≤ ns ≤ ns' → (earns rate ns <= earns rate' ns')%Q.
Proof.
  intros [Hr Hr'] [Hn Hn']. unfold earns. rewrite Zle_Qle in Hr, Hr', Hn, Hn'.
  change (inject_Z 0) with 0%Q in *. pose proof (errors_pos 5). apply Qmult_le_compat_r; [|lra].
  assert (inject_Z ns / inject_Z 1000000000 <= inject_Z ns' / inject_Z 1000000000)%Q
    by (apply Qmult_le_compat_r; [done|discriminate]).
  assert (0 <= inject_Z ns / inject_Z 1000000000)%Q by (apply Qle_shift_div_l; [done|lra]).
  nra.
Qed.

Lemma earns_nonneg rate ns : 0 ≤ rate → 0 ≤ ns → (0 <= earns rate ns)%Q.
Proof.
  intros Hr Hn. eapply Qle_trans; [|apply (earns_mono 0 rate 0 ns); lia].
  unfold earns. change (inject_Z 0) with 0%Q. lra.
Qed.

Lemma errors_plus m n : (errors (m + n) == errors m * errors n)%Q.
Proof.
  unfold errors. rewrite Nat2Z.inj_add. apply Qpower_plus. pose proof half_ulp_pos. lra.
Qed.

(** The tokens of a refill, with the rounding of the sum they enter. *)
Lemma new_tokens_earned rate ns :
  0 ≤ rate → 0 ≤ ns →
  (f64_mul (as_secs_f64 ns) (f64_of_u64 rate) * errors 1 <= earns rate ns)%Q.
Proof.
  intros Hr Hn. unfold earns, f64_mul.
  assert (E : (errors 5 == errors 4 * errors 1)%Q) by apply (errors_plus 4 1).
  rewrite E, Qmult_assoc. pose proof (errors_pos 1).
  apply Qmult_le_compat_r; [|lra].
  pose proof (as_secs_errors ns Hn) as Hs. pose proof (f64_of_u64_errors rate Hr) as Hf.
  assert (H0 : (0 <= as_secs_f64 ns)%Q) by apply round53_nonneg.
  pose proof (f64_of_u64_nonneg rate) as H1.
  apply round53_errors; [by apply Qmult_le_0_compat|].
  eapply Qle_trans; [apply Qmult_le_compat_nonneg; split; [exact H0|exact Hs|exact H1|exact Hf]|].
  assert (E' : (errors 3 == errors 2 * errors 1)%Q) by apply (errors_plus 2 1).
  rewrite E'. apply Qle_lteq. right. field; done.
Qed.

(** What a refill stores, against what it loaded. *)
Lemma stored_upper current new_tokens cap ceiling :
  0 ≤ current ≤ ceiling → (0 <= new_tokens)%Q →
  (inject_Z (f64_trunc_u64 (f64_min (f64_add (f64_of_u64 current) new_tokens) cap)) <=
   inject_Z current + new_tokens * errors 1 + inject_Z ceiling * (errors 2 - 1))%Q.
Proof.
  intros [Hc Hc'] Hn. pose proof (f64_of_u64_errors current Hc) as Hf.
  rewrite Zle_Qle in Hc, Hc'. change (inject_Z 0) with 0%Q in Hc.
  set (x := f64_add (f64_of_u64 current) new_tokens).
  assert (Hx : (x <= (inject_Z current * errors 1 + new_tokens) * errors 1)%Q).
  { apply round53_errors.
    - apply (Qplus_le_compat 0 _ 0); [apply f64_of_u64_nonneg|done].
    - change (errors 0) with 1%Q. lra. }
  assert (Hm : (f64_min x cap <= x)%Q).
  { unfold f64_min. destruct (Qle_bool x cap) eqn:E; [lra|].
    destruct (Qlt_le_dec cap x) as [|Hle]; [lra|]. apply Qle_bool_iff in Hle. congruence. }
  assert (Ht : (inject_Z (f64_trunc_u64 (f64_min x cap)) <= f64_min x cap)%Q).
  { eapply Qle_trans; [|apply Qfloor_le]. rewrite <- Zle_Qle. unfold f64_trunc_u64. lia. }
  assert (E : (errors 2 == errors 1 * errors 1)%Q) by apply (errors_plus 1 1).
  rewrite E. pose proof (errors_pos 1).
  assert (0 <= (inject_Z ceiling - inject_Z current) * (errors 1 * errors 1 - 1))%Q
    by (apply Qmult_le_0_compat; nra).
  lra.
Qed.

Lemma stored_bounds current new_tokens cap C ceiling :
  (0 <= cap <= C)%Q → f64_trunc_u64 C ≤ ceiling →
  0 ≤ f64_trunc_u64 (f64_min (f64_add (f64_of_u64 current) new_tokens) cap) ≤ ceiling.
Proof.
  intros [H0 HC] Hceil. set (x := f64_add _ _). assert (Hx : (0 <= x)%Q) by apply round53_nonneg.
  assert (Hm : (0 <= f64_min x cap <= C)%Q).
  { unfold f64_min. destruct (Qle_bool x cap) eqn:E; [apply Qle_bool_iff in E|]; lra. }
  destruct (f64_trunc_u64_bound _ (proj1 Hm)). pose proof (f64_trunc_mono _ _ (proj2 Hm)). lia.
Qed.

(** ** Invariants *)

(** The calls that have the mutex. *)
Definition holds (pc : Pc) : bool :=
  match pc with Elapsing | Restarting _ | Reading _ | Storing _ _ => true | _ => false end.

(** The mutex and the calls agree, in every run. *)
Definition locked (s : State) : Prop := mutex_ok (λ c, holds c.2) s.(calls) s.(lock).

Section lock.
Context `{Host}.

(** What an advance does to the mutex. *)
Lemma advance_lock t q spurious pc s r :
  advance t q spurious pc s = Some r → (holds pc = true → s.(lock) = Some t) →
  r.2.(calls) = s.(calls) ∧
  passes (holds pc) (match r.1 with More pc' => holds pc' | Answered _ => false end) t
    s.(lock) r.2.(lock).
Proof.
  intros Ha Hl. destruct pc; cbn [advance refill_step acquire_step measure_step] in Ha;
    unfold instant_now in Ha; cbn zeta in Ha; repeat case_match; simplify_eq/=;
    (split; [done|]); unfold passes; cbn; auto.
Qed.

Lemma locked_advance t q spurious pc s r :
  locked s → s.(calls) !! t = Some (q, pc) → advance t q spurious pc s = Some r →
  locked (proceed t q r).
Proof.
  intros Hs Ht Ha. destruct (advance_lock _ _ _ _ _ _ Ha (proj1 Hs _ _ Ht)) as [Ec Hl].
  destruct r as [o s']. unfold proceed, locked. cbn [fst snd] in *. destruct o as [pc'|d]; cbn; rewrite Ec.
  - by apply (mutex_ok_next _ _ s.(lock) _ _ (q, pc)).
  - by apply (mutex_ok_end _ _ s.(lock) _ _ (q, pc)).
Qed.

Lemma act_advance_inv t spurious s s' :
  act (Advance t spurious) s = Some s' →
  ∃ q pc r, s.(calls) !! t = Some (q, pc) ∧ advance t q spurious pc s = Some r ∧
    s' = proceed t q r.
Proof.
  cbn [act]. destruct (calls s !! t) as [[q pc]|] eqn:Ht; [|done].
  destruct (advance t q spurious pc s) as [r|] eqn:Ha; [|done]. intros [= <-]. by exists q, pc, r.
Qed.

Lemma act_packet_inv t b c s s' :
  act (Packet t b c) s = Some s' →
  s.(calls) !! t = None ∧
  ((request s.(bucket) b c = None ∧ s' = s <| answers ::= λ l, l ++ [(t, Continue)] |>) ∨
   ∃ q, request s.(bucket) b c = Some q ∧ s' = s <| calls ::= <[t := (q, Locking)]> |>).
Proof.
  cbn [act]. destruct (calls s !! t); [done|]. intros [= <-].
  destruct (request (bucket s) b c) as [q|]; split; try done; [right; by exists q|by left].
Qed.

Lemma locked_act a s s' : locked s → act a s = Some s' → locked s'.
Proof.
  intros Hs. destruct a as [t b c|t spurious].
  - intros [Ht [[_ ->]|(q & _ & ->)]]%act_packet_inv; [exact Hs|by apply mutex_ok_start].
  - intros (q & pc & r & Ht & Ha & ->)%act_advance_inv. by eapply locked_advance.
Qed.
End lock.

Section limit.
Context `{HostLaws} (R : Z) (C : f64) (r0 : R3FlowControl).

Definition ceiling : Z := Z.max r0.(tokens) (f64_trunc_u64 C).

(** What the roundings of one refill can add. *)
Definition slack : Q := (inject_Z ceiling * (errors 2 - 1))%Q.

(** What may have been granted, with what is left in the bucket. *)
Definition budget (s : State) : Q :=
  (inject_Z r0.(tokens) + earns R (s.(bucket).(last_refill) - r0.(last_refill)) +
   inject_Z (Z.of_nat s.(refills)) * slack)%Q.

Definition accounted (s : State) : Q :=
  (inject_Z s.(bucket).(tokens) + inject_Z s.(granted))%Q.

Definition request_ok (q : Request) : Prop :=
  0 ≤ q.(tokens_needed) ∧ 0 ≤ q.(rate) ≤ R ∧ (0 <= q.(capacity) <= C)%Q.

(** What a call in a refill has earned and not stored yet fits in the budget. *)
Definition call_ok (s : State) (q : Request) (pc : Pc) : Prop :=
  request_ok q ∧
  match pc with
  | Restarting new_tokens =>
      (0 <= new_tokens)%Q ∧ ∃ k, (k ≤ s.(clock).(ticks))%nat ∧
        s.(bucket).(last_refill) ≤ instant k ∧
        (new_tokens * errors 1 <= earns R (instant k - s.(bucket).(last_refill)))%Q
  | Reading new_tokens =>
      (0 <= new_tokens)%Q ∧ (accounted s + new_tokens * errors 1 <= budget s)%Q
  | Storing new_tokens current =>
      (0 <= new_tokens)%Q ∧ (accounted s + new_tokens * errors 1 <= budget s)%Q ∧
      s.(bucket).(tokens) = current
  | Exchanging current => q.(tokens_needed) ≤ current
  | _ => True
  end.

Record limited (s : State) : Prop := {
  limited_locked : locked s;
  limited_tokens : 0 ≤ s.(bucket).(tokens) ≤ ceiling;
  limited_budget : (accounted s <= budget s)%Q;
  limited_calls t q pc : s.(calls) !! t = Some (q, pc) → call_ok s q pc;
}.

(** A call outside the mutex does not depend on the bucket. *)
Lemma call_ok_outside s s' q pc : holds pc = false → call_ok s q pc → call_ok s' q pc.
Proof. by destruct pc. Qed.

Lemma others_outside s t t' q pc :
  locked s → s.(lock) = None ∨ s.(lock) = Some t → t' ≠ t →
  s.(calls) !! t' = Some (q, pc) → holds pc = false.
Proof. intros Hs Hl Hne Ht'. exact (mutex_ok_others _ _ _ _ _ _ Hs Hl Hne Ht'). Qed.

(** One call advances and the others are as they were. *)
Lemma limited_proceed t q r s :
  r.2.(calls) = s.(calls) →
  locked (proceed t q r) → 0 ≤ r.2.(bucket).(tokens) ≤ ceiling → (accounted r.2 <= budget r.2)%Q →
  match r.1 with More pc' => call_ok r.2 q pc' | Answered _ => True end →
  (∀ t' q' pc', t' ≠ t → s.(calls) !! t' = Some (q', pc') → call_ok r.2 q' pc') →
  limited (proceed t q r).
Proof.
  destruct r as [o s']. cbn [fst snd]. intros Ec Hlock Htok Hacc Hpc Hothers.
  split; [done|by destruct o|by destruct o|].
  unfold proceed. cbn [fst snd]. intros t' q' pc'. destruct o as [pc1|d]; cbn; rewrite Ec.
  - rewrite lookup_insert_Some. intros [[_ [= <- <-]]|[Hne Ht']]; [exact Hpc|].
    exact (Hothers t' q' pc' ltac:(done) Ht').
  - rewrite lookup_delete_Some. intros [Hne Ht']. exact (Hothers t' q' pc' ltac:(done) Ht').
Qed.

Lemma elapsed_positive now last :
  Qle_bool (as_secs_f64 (saturating_sub now last)) 0 = false →
  last < now ∧ saturating_sub now last = now - last.
Proof.
  intros E. destruct (Z.lt_ge_cases last now); [split; [done|mach]|].
  replace (saturating_sub now last) with 0 in E by mach. discriminate E.
Qed.

(** Restarting the clock moves what the elapsed time earns into the budget. *)
Lemma restarted s k new_tokens :
  0 ≤ R → (accounted s <= budget s)%Q → (k ≤ s.(clock).(ticks))%nat →
  s.(bucket).(last_refill) ≤ instant k →
  (new_tokens * errors 1 <= earns R (instant k - s.(bucket).(last_refill)))%Q →
  (accounted s + new_tokens * errors 1 <=
   budget (s <| bucket ::= λ r, r <| last_refill := instant s.(clock).(ticks) |> |>))%Q.
Proof.
  intros HR Hacc Hk Hlast Hn. pose proof (instant_mono _ _ Hk) as Hmono.
  set (last := s.(bucket).(last_refill)) in *. set (now := instant s.(clock).(ticks)) in *.
  assert (Hearn : (earns R (instant k - last) <= earns R (now - last))%Q) by (apply earns_mono; lia).
  assert (E : (budget (s <| bucket ::= λ r, r <| last_refill := now |> |>) ==
    budget s + earns R (now - last))%Q).
  { unfold budget. cbn. fold last. replace (now - last_refill r0)
      with ((last - last_refill r0) + (now - last)) by lia. rewrite earns_plus. lra. }
  rewrite E. lra.
Qed.

Lemma stored s q new_tokens current :
  request_ok q → (0 <= new_tokens)%Q → 0 ≤ s.(bucket).(tokens) ≤ ceiling →
  (accounted s + new_tokens * errors 1 <= budget s)%Q → s.(bucket).(tokens) = current →
  let new_value :=
    f64_trunc_u64 (f64_min (f64_add (f64_of_u64 current) new_tokens) q.(capacity)) in
  let s' := (store new_value s) <| refills ::= S |> in
  0 ≤ new_value ≤ ceiling ∧ (accounted s' <= budget s')%Q.
Proof.
  intros (_ & _ & Hcap) Hn Htok Hb <- new_value s'.
  split; [apply (stored_bounds _ _ _ C); [done|unfold ceiling; lia]|].
  pose proof (stored_upper _ new_tokens q.(capacity) ceiling Htok Hn) as Hu. fold new_value in Hu.
  assert (E : (budget s' == budget s + slack)%Q).
  { unfold budget, s', store. cbn [bucket refills last_refill update].
    rewrite Nat2Z.inj_succ, <- Z.add_1_l, inject_Z_plus. change (inject_Z 1) with 1%Q. lra. }
  rewrite E. unfold accounted, slack in *. cbn. lra.
Qed.

(** The steps of a refill. *)
Lemma refill_step_limited t q pc r s :
  limited s → s.(calls) !! t = Some (q, pc) → refill_step t q pc s = Some r →
  limited (proceed t q r).
Proof.
  intros Hs Ht Hr. pose proof (limited_locked s Hs) as Hlock. pose proof (limited_calls s Hs _ _ _ Ht) as [Hq Hpc].
  pose proof Hq as (_ & Hrate & Hcap).
  assert (Ha : advance t q false pc s = Some r) by (by destruct pc).
  pose proof (locked_advance _ _ _ _ _ _ Hlock Ht Ha) as Hlock'.
  assert (Hl : s.(lock) = None ∨ s.(lock) = Some t).
  { destruct pc; try done; try (right; exact (proj1 Hlock _ _ Ht eq_refl)).
    cbn in Hr. destruct (lock s); [done|by left]. }
  assert (Hothers : ∀ t' q' pc', t' ≠ t → s.(calls) !! t' = Some (q', pc') → call_ok r.2 q' pc').
  { intros t' q' pc' Hne Ht'. apply (call_ok_outside s); [|by eapply limited_calls].
    exact (others_outside s t t' q' pc' Hlock Hl Hne Ht'). }
  destruct Hs as [_ Htok Hacc _].
  destruct (advance_lock _ _ _ _ _ _ Ha (proj1 Hlock _ _ Ht)) as [Ec _].
  destruct pc; cbn [refill_step] in Hr; try done; unfold instant_now in Hr; cbn zeta in Hr.
  - destruct (lock s); [done|]. injection Hr as <-. by apply (limited_proceed t q _ s).
  - injection Hr as <-. apply (limited_proceed t q _ s); destruct (Qle_bool _ 0) eqn:E; try done.
    apply elapsed_positive in E as [Elt Esub]. rewrite Esub. split; [done|]. cbn [snd fst].
    split; [apply round53_nonneg|]. exists s.(clock).(ticks). split; [cbn; lia|]. split; [cbn; lia|].
    eapply Qle_trans; [apply new_tokens_earned; lia|]. apply earns_mono; [done|cbn; lia].
  - injection Hr as <-. destruct Hpc as (Hn & k & Hk & Hlast & Hearned).
    pose proof (restarted s k new_tokens ltac:(lia) Hacc Hk Hlast Hearned) as Hb.
    assert (0 <= new_tokens * errors 1)%Q
      by (apply Qmult_le_0_compat; [done|]; pose proof (errors_pos 1); lra).
    apply (limited_proceed t q _ s); try done.
    cbn [snd]. eapply Qle_trans; [|exact Hb]. unfold accounted. cbn. lra.
  - injection Hr as <-. apply (limited_proceed t q _ s); try done. split; [done|]. by destruct Hpc.
  - injection Hr as <-. destruct Hpc as (Hn & Hb & Hcur).
    destruct (stored s q new_tokens current Hq Hn Htok Hb Hcur) as [Hv Hb'].
    by apply (limited_proceed t q _ s).
Qed.

(** An exchange moves tokens from the bucket to what has been granted. *)
Lemma exchanged s q :
  let s' := (store (s.(bucket).(tokens) - q.(tokens_needed)) s) <| exchanges ::= S |>
              <| granted ::= λ g, g + q.(tokens_needed) |> in
  (accounted s' == accounted s)%Q.
Proof.
  unfold accounted. cbn. unfold Z.sub. rewrite !inject_Z_plus, inject_Z_opp. lra.
Qed.

Lemma acquire_step_limited t q spurious pc r s :
  limited s → s.(calls) !! t = Some (q, pc) → acquire_step q spurious pc s = Some r →
  (∀ current, pc = Exchanging current →
     ∀ t' q' new_tokens current', s.(calls) !! t' ≠ Some (q', Storing new_tokens current')) →
  limited (proceed t q r).
Proof.
  intros Hs Ht Hr Hno. pose proof (limited_calls s Hs _ _ _ Ht) as [Hq Hpc].
  assert (Ha : advance t q spurious pc s = Some r) by (by destruct pc).
  pose proof (locked_advance _ _ _ _ _ _ (limited_locked s Hs) Ht Ha) as Hlock'. clear Ha.
  assert (Hsame : ∀ t' q' pc', t' ≠ t → s.(calls) !! t' = Some (q', pc') → call_ok s q' pc')
    by (intros t' q' pc' _ Ht'; by eapply limited_calls).
  pose proof (limited_tokens s Hs) as Htok. pose proof (limited_budget s Hs) as Hacc.
  destruct pc; cbn [acquire_step] in Hr; try done.
  - injection Hr as <-. apply (limited_proceed t q _ s); try done. cbn [fst snd].
    destruct (Z.leb_spec (tokens_needed q) (tokens (bucket s))); by split.
  - injection Hr as <-. destruct (negb spurious && (_ =? current)) eqn:E.
    2:{ by apply (limited_proceed t q _ s). }
    apply andb_true_iff in E as [_ <-%Z.eqb_eq]. pose proof (exchanged s q) as Ex. cbn zeta in Ex.
    apply (limited_proceed t q _ s); try done; cbn [fst snd].
    + cbn. destruct Hq as (? & _ & _). lia.
    + rewrite Ex. exact Hacc.
    + intros t' q' pc' Hne Ht'. pose proof (Hsame _ _ _ Hne Ht') as [Hq' Hpc'].
      split; [done|]. destruct pc' as [| | |nt|nt cur| | |]; try done.
      * destruct Hpc' as [Hn Hb]. split; [done|]. rewrite Ex. exact Hb.
      * by destruct (Hno _ eq_refl t' q' nt cur).
Qed.

Lemma request_limited r b c q :
  request r b c = Some q → 0 ≤ b → 0 ≤ rate_of r c ≤ R → (0 <= capacity_of r c <= C)%Q →
  request_ok q.
Proof.
  unfold request. fold (rate_of r c). destruct (rate_of r c =? 0); [done|]. intros [= <-] Hb HR HC.
  split_and!; cbn; [mach|lia|lia| |]; revert HC; unfold capacity_of, rate_of;
    destruct (0 <? bandwidth_bps c); lra.
Qed.

Lemma limited_act s s' : limited s → limited_step R C s s' → limited s'.
Proof.
  intros Hs ([t b c|t spurious] & Ha & Hlim).
  - pose proof (locked_act _ _ _ (limited_locked s Hs) Ha) as Hlock'.
    apply act_packet_inv in Ha as [Ht [[_ ->]|(q & Hq & ->)]].
    + destruct Hs as [? ? ? Hcalls]. by split.
    + destruct Hlim as (Hb & HR & HC). pose proof (request_limited _ _ _ _ Hq Hb HR HC) as Hok.
      split; [done|apply Hs|apply Hs|]. intros t' q' pc. cbn. rewrite lookup_insert_Some.
      intros [[_ [= <- <-]]|[_ Ht']]; [by split|]. exact (limited_calls s Hs _ _ _ Ht').
  - apply act_advance_inv in Ha as (q & pc & r & Ht & Hr & ->).
    assert (Hno : ∀ current, pc = Exchanging current →
      ∀ t' q' nt current', s.(calls) !! t' ≠ Some (q', Storing nt current'))
      by (intros current ->; by eapply Hlim).
    destruct pc; cbn [advance] in Hr; try by eapply refill_step_limited.
    1, 2: by eapply acquire_step_limited.
    pose proof (locked_advance t q spurious Measuring s r (limited_locked s Hs) Ht Hr) as Hlock'.
    cbn [measure_step] in Hr. injection Hr as <-.
    apply (limited_proceed t q _ s); try done; [apply Hs|apply Hs|].
    intros t' q' pc' _ Ht'. exact (limited_calls s Hs _ _ _ Ht').
Qed.

Lemma limited_init w : 0 ≤ r0.(tokens) → limited (State_init r0 w).
Proof.
  intros Ht. split; [apply mutex_ok_empty|unfold ceiling; cbn; lia| |].
  - unfold accounted, budget, State_init. cbn [bucket refills granted].
    rewrite Z.sub_diag. unfold earns. change (inject_Z (Z.of_nat 0)) with 0%Q.
    change (inject_Z 0) with 0%Q. assert (E : (0 / inject_Z 1000000000 == 0)%Q) by reflexivity. rewrite E. lra.
  - intros t q pc. cbn. by rewrite lookup_empty.
Qed.
End limit.

(** ** A packet on its own *)

Section alone.
Context `{Host}.

Definition in_call (t : nat) (q : Request) (pc : Pc) (s : State) : State :=
  s <| calls ::= <[t := (q, pc)]> |>.

(** An advance that goes on, or ends, whatever the other calls are in. *)
Lemma act_more t q pc pc' s s' :
  advance t q false pc s = Some (More pc', s') →
  act (Advance t false) (in_call t q pc s) = Some (in_call t q pc' s').
Proof.
  intros Ha. unfold act, in_call. cbn [calls update]. rewrite lookup_insert_eq.
  destruct pc; cbn [advance refill_step acquire_step measure_step] in *; cbn in Ha |- *;
    repeat case_match; simplify_eq/=; unfold proceed; cbn; f_equal;
    unfold update; cbn; by rewrite insert_insert_eq.
Qed.

Lemma act_ends t q pc d s s' :
  advance t q false pc s = Some (Answered d, s') → s.(calls) !! t = None →
  act (Advance t false) (in_call t q pc s) = Some (s' <| answers ::= λ l, l ++ [(t, d)] |>).
Proof.
  intros Ha Ht. unfold act, in_call. cbn [calls update]. rewrite lookup_insert_eq.
  destruct pc; cbn [advance refill_step acquire_step measure_step] in *; cbn in Ha |- *;
    repeat case_match; simplify_eq/=; unfold proceed; cbn; f_equal;
    unfold update; cbn; by rewrite delete_insert_id.
Qed.

(** The mutex is free: a refill on its own. *)
Lemma refill_alone t q s :
  s.(lock) = None → q.(rate) ≠ 0 →
  ∃ n s', run_actions act (replicate n (Advance t false)) (in_call t q Locking s) =
      Some (in_call t q Loading s') ∧ (n ≤ 5)%nat ∧
    s'.(calls) = s.(calls) ∧ s'.(lock) = None ∧ s'.(answers) = s.(answers) ∧
    (s'.(bucket), s'.(clock)) = (refill q.(rate) q.(capacity) (s.(bucket), s.(clock))).2.
Proof.
  intros Hl Hr. rewrite refill_run by done. cbn [fst snd].
  set (s1 := s <| lock := Some t |>). set (s2 := s1 <| clock ::= λ w, w <| ticks ::= S |> |>).
  assert (H1 : act (Advance t false) (in_call t q Locking s) = Some (in_call t q Elapsing s1))
    by (apply act_more; cbn; by rewrite Hl).
  unfold elapsed_ns. cbn [fst snd].
  set (elapsed := as_secs_f64 (saturating_sub (instant s.(clock).(ticks)) s.(bucket).(last_refill))).
  destruct (Qle_bool elapsed 0) eqn:E.
  - exists 2%nat, (s2 <| lock := None |>). split_and!; try done; [|lia].
    eapply run_cons; [exact H1|]. eapply run_cons; [|done].
    apply act_more. cbn. fold elapsed. by rewrite E.
  - set (nt := f64_mul elapsed (f64_of_u64 q.(rate))).
    set (s3 := s2 <| clock ::= λ w, w <| ticks ::= S |> |>
                  <| bucket ::= λ r, r <| last_refill := instant s2.(clock).(ticks) |> |>).
    eexists 5%nat, _. split; [|split; [lia|]].
    { eapply run_cons; [exact H1|].
      eapply run_cons; [apply (act_more t q Elapsing (Restarting nt) s1 s2); cbn; fold elapsed; by rewrite E|].
      eapply run_cons; [by apply (act_more t q _ (Reading nt) s2 s3)|].
      eapply run_cons; [by apply (act_more t q _ (Storing nt s3.(bucket).(tokens)) s3 s3)|].
      eapply run_cons; [by apply act_more|]. done. }
    done.
Qed.

(** The loop and the measure, from a bucket nobody else touches. *)
Lemma acquire_alone t q s :
  s.(calls) !! t = None →
  ∃ s', run_actions act (replicate 2 (Advance t false)) (in_call t q Loading s) = Some s' ∧
    s'.(calls) = s.(calls) ∧ s'.(lock) = s.(lock) ∧
    let d := wait_ns (saturating_sub q.(tokens_needed) s.(bucket).(tokens)) q.(rate) in
    s'.(answers) = s.(answers) ++
      [(t, if q.(tokens_needed) <=? s.(bucket).(tokens) then Continue
           else if 0 <? d then DelayNs d else Continue)] ∧
    (s'.(bucket), s'.(clock)) =
      (if q.(tokens_needed) <=? s.(bucket).(tokens)
       then s.(bucket) <| tokens := s.(bucket).(tokens) - q.(tokens_needed) |> else s.(bucket), s.(clock)).
Proof.
  intros Ht.
  assert (H1 : act (Advance t false) (in_call t q Loading s) = Some (in_call t q
    (if q.(tokens_needed) <=? s.(bucket).(tokens) then Exchanging s.(bucket).(tokens) else Measuring) s))
    by by apply act_more.
  destruct (_ <=? _); eexists; (split; [eapply run_cons; [exact H1|]; eapply run_cons; [|done]|]).
  - apply act_ends; [cbn; by rewrite Z.eqb_refl|done].
  - done.
  - by apply act_ends.
  - done.
Qed.

Lemma request_some r b c :
  rate_of r c ≠ 0 →
  request r b c = Some (mkRequest (saturating_mul b 8) (rate_of r c) (capacity_of r c)).
Proof.
  intros Hr. unfold request. fold (rate_of r c). rewrite (proj2 (Z.eqb_neq _ _) Hr).
  unfold capacity_of, rate_of. by destruct (0 <? bandwidth_bps c).
Qed.

Lemma packet_alone t b c s :
  s.(lock) = None → s.(calls) !! t = None →
  let r := process_with_bytes b c (s.(bucket), s.(clock)) in
  ∃ n s', run_actions act (Packet t b c :: replicate n (Advance t false)) s = Some s' ∧
    (n ≤ 7)%nat ∧ s'.(calls) = s.(calls) ∧ s'.(lock) = None ∧
    s'.(answers) = s.(answers) ++ [(t, r.1)] ∧ (s'.(bucket), s'.(clock)) = r.2.
Proof.
  intros Hl Ht r. unfold r. destruct (Z.eq_dec (rate_of s.(bucket) c) 0) as [Hr|Hr].
  { rewrite process_unlimited by done. exists 0%nat, (s <| answers ::= λ l, l ++ [(t, Continue)] |>).
    split_and!; [|lia|done..]. cbn [replicate run_actions act]. rewrite Ht. unfold request. fold (rate_of s.(bucket) c).
    by rewrite Hr. }
  rewrite process_with_bytes_run by done. cbn zeta. cbn [fst snd].
  set (q := mkRequest (saturating_mul b 8) (rate_of s.(bucket) c) (capacity_of s.(bucket) c)).
  destruct (refill_alone t q s Hl Hr) as (n & s1 & Hrun & Hn & Ec & El & Ea & Eb).
  unfold q in Eb at 1 2. cbn [rate capacity] in Eb. rewrite <- Eb. clear Eb.
  destruct (acquire_alone t q s1) as (s2 & Hrun2 & Ec2 & El2 & Ea2 & Eb2); [by rewrite Ec|].
  exists (n + 2)%nat, s2. split_and!; [|lia|congruence|congruence| |].
  - eapply run_cons; [cbn [act]; by rewrite Ht, request_some|].
    rewrite replicate_add. eapply run_trans; [exact Hrun|exact Hrun2].
  - rewrite Ea2, Ea. cbn [fst snd]. cbn [q tokens_needed rate]. by destruct (_ <=? _).
  - rewrite Eb2. cbn [fst snd q tokens_needed]. by destruct (_ <=? _).
Qed.
End alone.

(** ** Progress *)

(** The advances a call has before it if nobody else writes the bucket. *)
Definition remaining (pc : Pc) : nat :=
  match pc with
  | Locking => 7 | Elapsing => 6 | Restarting _ => 5 | Reading _ => 4 | Storing _ _ => 3
  | Loading => 2 | Exchanging _ => 1 | Measuring => 1
  end.

(** An exchange against a bucket that has changed is made again. *)
Definition potential (s : State) (pc : Pc) : nat :=
  remaining pc + match pc with
                 | Exchanging current => if s.(bucket).(tokens) =? current then 0 else 2
                 | _ => 0
                 end.

(** The writes to the bucket so far. *)
Definition writes (s : State) : nat := s.(refills) + s.(exchanges).

Definition turn (t : nat) (a : Action) : bool :=
  match a with Advance t' _ => Nat.eqb t' t | Packet _ _ _ => false end.

Definition left_of (t : nat) (s : State) : option nat :=
  (λ c, potential s c.2) <$> s.(calls) !! t.

(** No weak exchange fails without a cause. *)
Definition never_spurious (l : list Action) : Prop :=
  Forall (λ a, match a with Advance _ spurious => spurious = false | _ => True end) l.

Section progress.
Context `{Host}.

Lemma own_advance t q pc s s' :
  s.(calls) !! t = Some (q, pc) → act (Advance t false) s = Some s' →
  (writes s ≤ writes s')%nat ∧
  (s'.(calls) !! t = None ∨
   ∃ pc', s'.(calls) !! t = Some (q, pc') ∧ (potential s' pc' < potential s pc)%nat).
Proof.
  intros Ht (q' & pc0 & r & Ht' & Ha & ->)%act_advance_inv. rewrite Ht in Ht'.
  injection Ht' as <- <-. unfold proceed, writes.
  destruct pc; cbn [advance refill_step acquire_step measure_step] in Ha; unfold instant_now in Ha;
    cbn zeta in Ha; repeat case_match; simplify_eq/=; (split; [lia|]);
    try (left; apply lookup_delete_eq); right; eexists; (split; [apply lookup_insert_eq|]);
    unfold potential; cbn; rewrite ?Z.eqb_refl; repeat case_match; lia || congruence.
Qed.

(** What another thread does, or another packet. *)
Lemma others_advance a t q pc s s' :
  s.(calls) !! t = Some (q, pc) → act a s = Some s' → (∀ spurious, a ≠ Advance t spurious) →
  (writes s ≤ writes s')%nat ∧ s'.(calls) !! t = Some (q, pc) ∧
  (potential s' pc ≤ potential s pc + 2 * (writes s' - writes s))%nat.
Proof.
  intros Ht Ha Hne. destruct a as [t' b c|t' spurious].
  - apply act_packet_inv in Ha as [Ht' [[_ ->]|(q' & _ & ->)]]; (split; [done|]).
    + split; [done|]. unfold potential. cbn. lia.
    + split; [cbn; rewrite lookup_insert_ne; [done|congruence]|]. unfold potential. cbn. lia.
  - assert (Hn : t' ≠ t) by (intros ->; by apply (Hne spurious)).
    apply act_advance_inv in Ha as (q' & pc' & r & Ht' & Ha & ->). unfold proceed, writes, potential.
    destruct pc'; cbn [advance refill_step acquire_step measure_step] in Ha; unfold instant_now in Ha;
      cbn zeta in Ha; repeat case_match; simplify_eq/=;
      (split; [lia|]; split; [by rewrite ?lookup_insert_ne, ?lookup_delete_ne|]; lia).
Qed.

Lemma writes_mono a s s' : act a s = Some s' → (writes s ≤ writes s')%nat.
Proof.
  destruct a as [t b c|t spurious]; intros Ha.
  - by apply act_packet_inv in Ha as [_ [[_ ->]|(q & _ & ->)]].
  - apply act_advance_inv in Ha as (q & pc & r & _ & Ha & ->). unfold proceed, writes.
    destruct pc; cbn [advance refill_step acquire_step measure_step] in Ha; unfold instant_now in Ha;
      cbn zeta in Ha; repeat case_match; simplify_eq/=; lia.
Qed.

Lemma turn_left t a s s' n :
  match a with Advance _ spurious => spurious = false | _ => True end →
  left_of t s = Some n → act a s = Some s' →
  match left_of t s' with
  | None => turn t a = true
  | Some n' => (if turn t a then 1 else 0) + n' + 2 * writes s ≤ n + 2 * writes s'
  end%nat.
Proof.
  unfold left_of. intros Hok Hn Ha. destruct (calls s !! t) as [[q pc]|] eqn:Ht; [|done].
  injection Hn as <-. cbn [snd]. destruct (turn t a) eqn:Hturn.
  - destruct a as [|t' spurious]; [done|]. apply Nat.eqb_eq in Hturn as ->. subst spurious.
    destruct (own_advance t q pc s s' Ht Ha) as [Hw [->|(pc' & -> & Hlt)]]; [done|cbn; lia].
  - destruct (others_advance a t q pc s s' Ht Ha) as (Hw & -> & Hle); [|cbn; lia].
    intros spurious ->. cbn in Hturn. by rewrite Nat.eqb_refl in Hturn.
Qed.

Lemma packet_finishes l s s' t q pc :
  s.(calls) !! t = Some (q, pc) → never_spurious l → run_actions act l s = Some s' →
  (potential s pc + 2 * (writes s' - writes s) ≤ turns (turn t) l)%nat →
  ∃ l1 l2 s1, l = l1 ++ l2 ∧ run_actions act l1 s = Some s1 ∧ s1.(calls) !! t = None.
Proof.
  intros Ht Hsp Hrun Hn.
  destruct (turns_end act (turn t) (left_of t) (λ s, 2 * writes s)%nat
    (λ a, match a with Advance _ spurious => spurious = false | _ => True end))
    with (l := l) (s := s) (s' := s') (n := potential s pc) as (l1 & l2 & s1 & -> & Hr & He & _); try done.
  - intros s1 n. unfold left_of. destruct (calls s1 !! t) as [[q1 pc1]|]; [|done]. intros [= <-].
    unfold potential. cbn. destruct pc1; cbn; lia.
  - intros a s1 s2 Ha%writes_mono. lia.
  - intros a s1 s2 n. apply turn_left.
  - unfold left_of. by rewrite Ht.
  - lia.
  - exists l1, l2, s1. split_and!; [done..|]. unfold left_of in He. by destruct (calls s1 !! t).
Qed.

(** A call that cannot take its next step waits for one that can. *)
Lemma can_advance t q pc s :
  s.(calls) !! t = Some (q, pc) → (pc = Locking → s.(lock) = None) →
  ∀ spurious, is_Some (act (Advance t spurious) s).
Proof.
  intros Ht Hl spurious. cbn [act]. rewrite Ht, fmap_is_Some.
  destruct pc; cbn [advance refill_step acquire_step measure_step]; try done.
  by rewrite Hl.
Qed.

Lemma waits_for t q pc s :
  locked s → s.(calls) !! t = Some (q, pc) →
  (∀ spurious, is_Some (act (Advance t spurious) s)) ∨
  ∃ t', t' ≠ t ∧ s.(lock) = Some t' ∧ ∀ spurious, is_Some (act (Advance t' spurious) s).
Proof.
  intros Hs Ht.
  refine (mutex_ok_waits _ (λ c, match c.2 with Locking => true | _ => false end)
    (λ t, ∀ spurious, is_Some (act (Advance t spurious) s)) _ _ t (q, pc) Hs _ _ Ht).
  - by intros [q' []].
  - intros t' [q' pc'] Ht' Hl. apply (can_advance t' q' pc' s Ht'). intros ->. by apply Hl.
Qed.
End progress.

(** ** Two packets for one bucket *)

(** Both refill; the second pays while the first is between its load and its store. *)
Definition overlapping (b : Z) (c : Config) : list Action :=
  [Packet 1 b c; Packet 2 b c] ++ replicate 5 (Advance 2 false) ++ replicate 4 (Advance 1 false) ++
  replicate 2 (Advance 2 false) ++ replicate 3 (Advance 1 false).

(** ** Properties *)


(** C38. Packets finish.  A packet that finds the mutex free, whatever the other calls
    are in, and whose steps nobody interrupts, takes at most seven and does to the
    bucket, and answers, exactly what [process_with_bytes] says.  In every
    reachable state a call in progress can take its next step, or waits for the
    mutex and its owner can.  And in every run in which no exchange of a call fails
    without a cause, it comes to its end within seven of its own steps and two more
    for every write to the bucket during the run: the loop is lock-free. *)
Theorem packets_finish `{Host} :
  (∀ t b c s, s.(lock) = None → s.(calls) !! t = None →
     let r := process_with_bytes b c (s.(bucket), s.(clock)) in
     ∃ n s', run_actions act (Packet t b c :: replicate n (Advance t false)) s = Some s' ∧
       (n ≤ 7)%nat ∧ s'.(calls) = s.(calls) ∧ s'.(lock) = None ∧
       s'.(answers) = s.(answers) ++ [(t, r.1)] ∧ (s'.(bucket), s'.(clock)) = r.2) ∧
  (∀ r w s t q pc, star step (State_init r w) s → s.(calls) !! t = Some (q, pc) →
     (∀ spurious, is_Some (act (Advance t spurious) s)) ∨
     ∃ t', t' ≠ t ∧ s.(lock) = Some t' ∧ ∀ spurious, is_Some (act (Advance t' spurious) s)) ∧
  (∀ s t q pc l s', s.(calls) !! t = Some (q, pc) → never_spurious l →
     run_actions act l s = Some s' →
     (7 + 2 * (writes s' - writes s) ≤ turns (turn t) l)%nat →
     ∃ l1 l2 s1, l = l1 ++ l2 ∧ run_actions act l1 s = Some s1 ∧ s1.(calls) !! t = None).
Proof.
  split_and!.
  - intros t b c s. apply packet_alone.
  - intros r w s t q pc Hs. apply waits_for. clear t q pc.
    refine (star_invariant step locked _ _ _ Hs (mutex_ok_empty _)). intros s1 s2 Hl [a Ha].
    by eapply locked_act.
  - intros s t q pc l s' Ht Hsp Hrun Hn. apply (packet_finishes l s s' t q pc Ht Hsp Hrun).
    enough (potential s pc ≤ 7)%nat by lia. unfold potential. destruct pc; cbn; try case_match; lia.
Qed.

(** ** Witnesses *)

(** A thread whose call is the only one pays for nothing during a refill. *)
Lemma sole_run `{Host} R C t l s s' :
  (∀ t', t' ≠ t → s.(calls) !! t' = None) → Forall (λ a, ∃ spurious, a = Advance t spurious) l →
  run_actions act l s = Some s' → star (limited_step R C) s s'.
Proof.
  revert s; induction l as [|a l IH]; intros s Hsole Hl; cbn [run_actions]; [intros [= <-]; constructor|].
  apply Forall_cons in Hl as [[spurious ->] Hl].
  destruct (act (Advance t spurious) s) as [s1|] eqn:Ha; [|done]. cbn [mbind option_bind]. intros Hrun.
  assert (Hsole1 : ∀ t', t' ≠ t → s1.(calls) !! t' = None).
  { intros t' Hne. apply act_advance_inv in Ha as (q & pc & r & Ht & Ha & ->). unfold proceed.
    destruct pc; cbn [advance refill_step acquire_step measure_step] in Ha; unfold instant_now in Ha;
      cbn zeta in Ha; repeat case_match; simplify_eq/=;
      rewrite ?lookup_insert_ne, ?lookup_delete_ne by done; by apply Hsole. }
  econstructor; [|by eapply IH]. exists (Advance t spurious). split; [done|].
  intros q current Ht t' q' nt current' Ht'. destruct (decide (t' = t)) as [->|Hne]; [congruence|].
  rewrite (Hsole t' Hne) in Ht'. done.
Qed.

(** One packet that refills, and pays after one spurious failure. *)
Definition one_packet : list Action :=
  replicate 6 (Advance 1 false) ++ [Advance 1 true; Advance 1 false; Advance 1 false].


Lemma packets_finish_witness :
  ∃ n s', run_actions (act (H:=example_host))
      (Packet 1 200 example_rate :: replicate n (Advance 1 false))
      (State_init (mkR3 0 0%Q 800 0) (mkWorld 0 1000)) = Some s' ∧
    (n ≤ 7)%nat ∧ s'.(calls) = ∅ ∧ s'.(answers) = [(1%nat, DelayNs 799000000)].
Proof.
  destruct (proj1 (packets_finish (H:=example_host)) 1%nat 200 example_rate
    (State_init (mkR3 0 0%Q 800 0) (mkWorld 0 1000)) eq_refl eq_refl) as (n & s' & Hr & Hn & Hc & _ & Ha & _).
  exists n, s'. split_and!; [exact Hr|done|exact Hc|]. rewrite Ha. by vm_compute.
Defined.
