(* ===== verification/R4TimingVariation.v ===== *)
(** * R4: jitter

    [faultcore_network/src/layers/r4_timing_variation.rs]. *)

From S2P Require Import Prelude.
From S2P Require Import Config.
From S2P Require Import Layers.

Open Scope Z_scope.

(* faultcore_network/src/layers/r4_timing_variation.rs:6-9 R4TimingVariation *)
Record R4TimingVariation `{Host} : Type := mkR4 { r4_dice : Dice }.

#[export] Instance eta_R4 `{Host} : Eta R4TimingVariation := λ r, mkR4 _ (r.(r4_dice)).

Section r4.
  Context `{Host}.

(* faultcore_network/src/layers/r4_timing_variation.rs:12-21 R4TimingVariation::new *)
Definition R4_new (faultcore_seed : option string) : R4TimingVariation :=
  mkR4 _ (dice_new faultcore_seed).

(* faultcore_network/src/layers/r4_timing_variation.rs:23-28 R4TimingVariation::with_seed *)
Definition R4_with_seed (seed : Z) : R4TimingVariation := mkR4 _ (dice_with_seed seed).

(* faultcore_network/src/layers/r4_timing_variation.rs:38-49 R4TimingVariation::random_u32 *)
Definition random_u32 (policy_seed : Z) : M (R4TimingVariation * World) Z :=
  on_dice r4_dice (λ d r, r <| r4_dice := d |>) (roll 0x4C330A05 policy_seed).

(** The bound plus one does not wrap for the bounds a valid row can hold. *)
(* faultcore_network/src/layers/r4_timing_variation.rs:51-57 R4TimingVariation::random_u64_bounded *)
Definition random_u64_bounded (upper_inclusive policy_seed : Z) : M (R4TimingVariation * World) Z :=
  if upper_inclusive =? 0 then mret 0 else
  v ← random_u32 policy_seed;
  mret (v mod (wrapping_add upper_inclusive 1)).

(* faultcore_network/src/layers/r4_timing_variation.rs:75-82 R4TimingVariation::process *)
Definition R4_process (ctx : PacketContext) : M (R4TimingVariation * World) LayerDecision :=
  if 0 <? ctx.(config).(jitter_ns) then
    ns ← random_u64_bounded ctx.(config).(jitter_ns) ctx.(config).(policy_seed);
    mret (DelayNs ns)
  else mret Continue.
End r4.

(* faultcore_network/src/layers/r4_timing_variation.rs:66-87 Layer for R4TimingVariation *)
#[export] Instance R4_layer `{Host} : Layer R4TimingVariation := {
  stage := R4;
  applies_to ctx := negb (is_dns ctx);
  process := R4_process;
  name := "R4_TimingVariation";
  process_with_buffer := default_process_with_buffer R4_process;
}.

Section facts.
Context `{HostLaws}.

Lemma R4_process_jitter ctx s :
  0 < ctx.(config).(jitter_ns) < u64_max →
  ∃ v, is_u32 v ∧
    (R4_process ctx s).1 = DelayNs (v mod (ctx.(config).(jitter_ns) + 1)).
Proof.
  intros Hj. unfold R4_process, random_u64_bounded.
  rewrite (proj2 (Z.ltb_lt _ _)) by lia. run_simpl.
  rewrite (proj2 (Z.eqb_neq _ _)) by lia. run_simpl.
  exists (random_u32 (policy_seed (config ctx)) s).1. split.
  - destruct s as [r w]. unfold random_u32, on_dice. rewrite zoom_run. apply roll_range.
  - rewrite wrapping_add_small by mach. done.
Qed.

Lemma R4_process_main ctx (r : R4TimingVariation) w :
  True → ctx_ok ctx → main_decision (R4_process ctx (r, w)).1.
Proof.
  intros _ (_ & _ & _ & Hj). destruct (Z_lt_le_dec 0 ctx.(config).(jitter_ns)) as [Hp|Hn].
  - destruct (R4_process_jitter ctx (r, w)) as (v & Hv & ->); [lia|]. cbn.
    pose proof (Z.mod_pos_bound v (jitter_ns (config ctx) + 1)). mach.
  - unfold R4_process. by rewrite (proj2 (Z.ltb_ge _ _)) by done.
Qed.

Definition R4_same (r r' : R4TimingVariation) : Prop :=
  r.(r4_dice).(policy_counter) = r'.(r4_dice).(policy_counter).

Lemma R4_process_seeded ctx (l l' : R4TimingVariation) w w' :
  0 < ctx.(config).(policy_seed) → ctx.(config).(bandwidth_bps) = 0 → R4_same l l' →
  (R4_process ctx (l, w)).1 = (R4_process ctx (l', w')).1 ∧
  R4_same (R4_process ctx (l, w)).2.1 (R4_process ctx (l', w')).2.1.
Proof.
  intros Hs _ Hl. revert Hl. revert l l' w w'. change (det R4_same (R4_process ctx)).
  unfold R4_process, random_u64_bounded. apply det_if; [|apply det_ret].
  apply det_bind; [|intros; apply det_ret]. apply det_if; [apply det_ret|].
  apply det_bind; [|intros; apply det_ret]. by apply det_roll.
Qed.
End facts.

#[export] Instance R4_stage `{HostLaws} : StageLayer R4TimingVariation := {
  layer_ok _ := True;
  process_ok _ _ _ _ _ := I;
  process_main := R4_process_main;
}.

#[export] Instance R4_fd_local `{Host} : FdLocal R4TimingVariation := {
  View := unit;
  view _ _ := tt;
  process_view _ _ _ _ _ := eq_refl;
}.

#[export] Instance R4_seeded `{HostLaws} : SeedDetermined R4TimingVariation := {
  same := R4_same;
  process_seeded := R4_process_seeded;
  process_clockless _ _ := eq_refl;
}.

(** ** Properties *)

(** Jitter stays within its bound, and within 32 bits.  With a jitter
    configured the decision is always a delay between zero and the jitter
    inclusive; since it comes from one 32-bit word, it is also below [2^32]
    nanoseconds (about 4.29 seconds), so that larger jitters, up to the minute
    the validity check allows, are never reached. *)
Theorem jitter_bounds `{HostLaws} ctx s :
  0 < ctx.(config).(jitter_ns) < u64_max →
  ∃ ns, (R4_process ctx s).1 = DelayNs ns ∧ 0 ≤ ns ≤ ctx.(config).(jitter_ns) ∧ ns < 2 ^ 32.
Proof.
  intros Hj. destruct (R4_process_jitter ctx s Hj) as (v & Hv & E).
  eexists. split; [exact E|]. unfold is_u32 in Hv.
  pose proof (Z.mod_pos_bound v (jitter_ns (config ctx) + 1)).
  pose proof (Z.mod_le v (jitter_ns (config ctx) + 1)). lia.
Qed.

Definition example_jitter : Config := Config_default <| jitter_ns := 60000000000 |>.

Lemma jitter_bounds_witness :
  ∃ ns, (R4_process (H:=example_host) (example_packet example_jitter 3)
           (R4_with_seed 7, example_world)).1 = DelayNs ns ∧ 0 ≤ ns ≤ 60000000000 ∧ ns < 2 ^ 32.
Proof.
  apply (@jitter_bounds example_host example_host_laws (example_packet example_jitter 3)
    (R4_with_seed 7, example_world)). by vm_compute.
Defined.
