(* ===== verification/R5TransportFaults.v ===== *)
(** * R5: transport faults

    [faultcore_network/src/layers/r5_transport_faults.rs]: half-open connections
    by byte count, random connection errors, and timeouts. *)

From S2P Require Import Prelude.
From S2P Require Import Config.
From S2P Require Import Layers.

Open Scope Z_scope.

(* faultcore_network/src/layers/r5_transport_faults.rs:10-14 R5TransportFaults *)
Record R5TransportFaults `{Host} : Type := mkR5 {
  r5_dice : Dice;
  stream_bytes : gmap Z Z
}.

#[export] Instance eta_R5 `{Host} : Eta R5TransportFaults := λ r, mkR5 _
  (r.(r5_dice)) (r.(stream_bytes)).

Section r5.
  Context `{Host}.

(* faultcore_network/src/layers/r5_transport_faults.rs:17-27 R5TransportFaults::new *)
Definition R5_new (faultcore_seed : option string) : R5TransportFaults :=
  mkR5 _ (dice_new faultcore_seed) ∅.

(* faultcore_network/src/layers/r5_transport_faults.rs:37-59 R5TransportFaults::event_happens *)
Definition event_happens (probability_ppm : Z) (c : Config) : M (R5TransportFaults * World) bool :=
  on_dice r5_dice (λ d r, r <| r5_dice := d |>)
    (toss 0x4C340A05 probability_ppm c.(policy_seed)).

(* faultcore_network/src/layers/r5_transport_faults.rs:61-75 R5TransportFaults::record_stream_bytes *)
Definition record_stream_bytes (fd bytes : Z) (r : R5TransportFaults) : R5TransportFaults :=
  if (bytes =? 0) || (fd <? 0) then r else
  match r.(stream_bytes) !! fd with
  | Some n => r <| stream_bytes ::= <[fd := saturating_add n bytes]> |>
  | None => r <| stream_bytes ::= <[fd := bytes]> |>
  end.

(* faultcore_network/src/layers/r5_transport_faults.rs:77-82 R5TransportFaults::clear_fd_state *)
Definition clear_fd_state (fd : Z) (r : R5TransportFaults) : R5TransportFaults :=
  if fd <? 0 then r else r <| stream_bytes ::= delete fd |>.

(* faultcore_network/src/layers/r5_transport_faults.rs:84-96 R5TransportFaults::connection_error_kind *)
Definition connection_error_kind (fd : Z) (c : Config) (is_connect : bool) :
    M (R5TransportFaults * World) (option Z) :=
  seen ← gets (λ s, default 0 (s.1.(stream_bytes) !! fd));
  if negb is_connect && (0 <? c.(half_open_after_bytes)) && (c.(half_open_after_bytes) <=? seen)
  then mret (Some (Z.max c.(half_open_err_kind) 1)) else
  e ← (if 0 <? c.(conn_err_kind) then event_happens c.(conn_err_prob_ppm) c else mret false);
  mret (if e : bool then Some c.(conn_err_kind) else None).

(* faultcore_network/src/layers/r5_transport_faults.rs:108-126 R5TransportFaults::process *)
Definition R5_process (ctx : PacketContext) : M (R5TransportFaults * World) LayerDecision :=
  k ← connection_error_kind ctx.(fd) ctx.(config) (is_connect ctx);
  mret match k with
       | Some kind => ConnectionErrorKind kind
       | None =>
           match ctx.(operation) with
           | Connect => if 0 <? ctx.(config).(connect_timeout_ms)
                        then TimeoutMs ctx.(config).(connect_timeout_ms) else Continue
           | Recv => if 0 <? ctx.(config).(recv_timeout_ms)
                     then TimeoutMs ctx.(config).(recv_timeout_ms) else Continue
           | _ => Continue
           end
       end.
End r5.

(* faultcore_network/src/layers/r5_transport_faults.rs:99-131 Layer for R5TransportFaults *)
#[export] Instance R5_layer `{Host} : Layer R5TransportFaults := {
  stage := R5;
  applies_to ctx := negb (is_dns ctx);
  process := R5_process;
  name := "R5_TransportFaults";
  process_with_buffer := default_process_with_buffer R5_process;
}.

(** ** Promises to the engine *)

Section facts.
Context `{HostLaws}.

Lemma R5_process_main ctx (r : R5TransportFaults) w :
  True → ctx_ok ctx → main_decision (R5_process ctx (r, w)).1.
Proof.
  intros _ _. unfold R5_process. run_simpl.
  destruct (connection_error_kind _ _ _ _).1; [done|].
  destruct (operation ctx); try done; by destruct (0 <? _).
Qed.

(** Deciding never touches the byte counts. *)
Lemma R5_process_bytes ctx s : (R5_process ctx s).2.1.(stream_bytes) = s.1.(stream_bytes).
Proof.
  unfold R5_process, connection_error_kind. run_simpl.
  destruct (_ && _); [done|]. run_simpl. by destruct (0 <? _).
Qed.

Lemma R5_process_view ctx (r : R5TransportFaults) w i :
  i ≠ ctx.(fd) → (R5_process ctx (r, w)).2.1.(stream_bytes) !! i = r.(stream_bytes) !! i.
Proof. intros _. by rewrite R5_process_bytes. Qed.

Definition R5_same (r r' : R5TransportFaults) : Prop :=
  r.(r5_dice).(policy_counter) = r'.(r5_dice).(policy_counter) ∧
  r.(stream_bytes) = r'.(stream_bytes).

Lemma R5_process_seeded ctx (l l' : R5TransportFaults) w w' :
  0 < ctx.(config).(policy_seed) → ctx.(config).(bandwidth_bps) = 0 → R5_same l l' →
  (R5_process ctx (l, w)).1 = (R5_process ctx (l', w')).1 ∧
  R5_same (R5_process ctx (l, w)).2.1 (R5_process ctx (l', w')).2.1.
Proof.
  intros Hs _ Hl. revert Hl. revert l l' w w'. change (det R5_same (R5_process ctx)).
  unfold R5_process, connection_error_kind.
  apply det_bind; [|intros; apply det_ret]. apply det_bind.
  { apply (det_gets R5_same (λ r, default 0 (stream_bytes r !! fd ctx))). by intros l l' [_ ->]. }
  intros seen. apply det_if; [apply det_ret|]. apply det_bind; [|intros; apply det_ret].
  apply det_if; [|apply det_ret]. apply det_toss; [done|by intros ? ? [? _]|].
  intros l l' d d' [_ ?] E. by split.
Qed.
End facts.

#[export] Instance R5_stage `{HostLaws} : StageLayer R5TransportFaults := {
  layer_ok _ := True;
  process_ok _ _ _ _ _ := I;
  process_main := R5_process_main;
}.

#[export] Instance R5_fd_local `{Host} : FdLocal R5TransportFaults := {
  View := option Z;
  view r i := r.(stream_bytes) !! i;
  process_view := R5_process_view;
}.

#[export] Instance R5_seeded `{HostLaws} : SeedDetermined R5TransportFaults := {
  same := R5_same;
  process_seeded := R5_process_seeded;
  process_clockless _ _ := eq_refl;
}.

(** ** Histories *)

(** What reaches the layer: bytes moved, packets to judge, descriptors closed. *)
Inductive Event : Type :=
  | Recorded (fd bytes : Z)
  | Judged (ctx : PacketContext)
  | Cleared (fd : Z).

Definition apply_event `{Host} (e : Event) (s : R5TransportFaults * World) : R5TransportFaults * World :=
  match e with
  | Recorded fd bytes => (record_stream_bytes fd bytes s.1, s.2)
  | Judged ctx => (R5_process ctx s).2
  | Cleared fd => (clear_fd_state fd s.1, s.2)
  end.

Definition run_events `{Host} (es : list Event) (s : R5TransportFaults * World) :
    R5TransportFaults * World := foldl (λ s e, apply_event e s) s es.

(** The bytes recorded on a descriptor since it was last cleared. *)
Fixpoint since_clear (i : Z) (es : list Event) (n : Z) : Z :=
  match es with
  | [] => n
  | Recorded fd bytes :: es => since_clear i es (if decide (fd = i) then n + bytes else n)
  | Judged _ :: es => since_clear i es n
  | Cleared fd :: es => since_clear i es (if decide (fd = i) then 0 else n)
  end.

Definition event_ok (e : Event) : Prop :=
  match e with Recorded _ bytes => is_u64 bytes | _ => True end.

Lemma record_seen `{Host} fd b (r : R5TransportFaults) i :
  is_u64 b → 0 ≤ i → is_u64 (default 0 (r.(stream_bytes) !! i)) →
  default 0 ((record_stream_bytes fd b r).(stream_bytes) !! i) =
    if decide (fd = i) then saturating_add (default 0 (r.(stream_bytes) !! i)) b
    else default 0 (r.(stream_bytes) !! i).
Proof.
  intros Hb Hi. unfold record_stream_bytes. destruct (decide (fd = i)) as [->|Hne].
  - destruct (Z.eqb_spec b 0) as [->|]; cbn [orb].
    { destruct (_ !! i); cbn; mach. }
    rewrite (proj2 (Z.ltb_ge i 0)) by done.
    destruct (stream_bytes r !! i) eqn:E; cbn; rewrite lookup_insert_eq; cbn; [done|mach].
  - intros _. destruct (_ || _); [done|].
    destruct (stream_bytes r !! fd); cbn; by rewrite lookup_insert_ne.
Qed.

Lemma run_events_seen `{Host} es i s n :
  0 ≤ i → Forall event_ok es → 0 ≤ n →
  default 0 (s.1.(stream_bytes) !! i) = Z.min n u64_max →
  default 0 ((run_events es s).1.(stream_bytes) !! i) = Z.min (since_clear i es n) u64_max ∧
  0 ≤ since_clear i es n.
Proof.
  intros Hi Hes. revert s n; induction Hes as [|e es He _ IH]; intros s n Hn E; [done|].
  cbn [run_events foldl since_clear]. destruct e as [fd b|ctx|fd]; cbn [apply_event].
  - apply IH; [case_decide; cbn in He; mach|]. cbn [fst].
    rewrite record_seen by (done || rewrite E; mach). rewrite E.
    case_decide; [|done]. cbn in He. mach.
  - apply IH; [done|]. by rewrite R5_process_bytes.
  - apply IH; [case_decide; lia|]. cbn [fst]. unfold clear_fd_state.
    destruct (Z.ltb_spec fd 0); [case_decide; [lia|done]|]. cbn.
    case_decide as Hf; [rewrite Hf, lookup_delete_eq; cbn; mach|].
    by rewrite lookup_delete_ne.
Qed.

(** ** Properties *)

(** C24. Half-open connections trip on the byte count.  Whatever traffic,
    packets and closings of other descriptors occurred, a send or receive on a
    descriptor with a half-open limit fails with the configured error kind (at
    least 1), without consuming randomness, exactly when the bytes recorded on
    that descriptor since it was last cleared reach the limit, provided no
    random connection error is configured; connecting is never refused by it. *)
Theorem half_open_by_bytes `{Host} es ctx w :
  let c := ctx.(config) in
  let s := run_events es (R5_new None, w) in
  let seen := since_clear ctx.(fd) es 0 in
  0 ≤ ctx.(fd) → Forall event_ok es → Config_wf c →
  0 < c.(half_open_after_bytes) → c.(conn_err_kind) = 0 → ctx.(operation) ≠ DnsLookup →
  (R5_process ctx s).2 = s ∧
  (R5_process ctx s).1 =
    if negb (is_connect ctx) && (c.(half_open_after_bytes) <=? seen)
    then ConnectionErrorKind (Z.max c.(half_open_err_kind) 1)
    else match ctx.(operation) with
         | Connect => if 0 <? c.(connect_timeout_ms) then TimeoutMs c.(connect_timeout_ms) else Continue
         | Recv => if 0 <? c.(recv_timeout_ms) then TimeoutMs c.(recv_timeout_ms) else Continue
         | _ => Continue
         end.
Proof.
  intros c s seen Hfd Hes Hwf Hlim Hkind Hop.
  assert (Hu : is_u64 c.(half_open_after_bytes)) by config_u64 Hwf.
  destruct (run_events_seen es ctx.(fd) (R5_new None, w) 0) as [E Hn]; [done..|].
  fold s in E. fold seen in E, Hn.
  unfold R5_process, connection_error_kind. run_simpl. rewrite E. fold c.
  rewrite (proj2 (Z.ltb_lt _ _) Hlim), andb_true_r, Hkind.
  assert (Hle : (half_open_after_bytes c <=? Z.min seen u64_max) = (half_open_after_bytes c <=? seen))
    by (apply eq_iff_eq_true; rewrite !Z.leb_le; mach).
  rewrite Hle. destruct (_ && _); run_simpl; [done|]. cbn [Z.ltb Z.compare]. run_simpl. by split.
Qed.

Definition example_half_open : Config :=
  Config_default <| half_open_after_bytes := 100 |> <| half_open_err_kind := 2 |>.

Lemma half_open_by_bytes_witness :
  (R5_process (H:=example_host) (example_packet example_half_open 3)
     (run_events [Recorded 3 60; Recorded 4 500; Recorded 3 40] (R5_new None, example_world))).1 =
    ConnectionErrorKind 2.
Proof.
  refine (eq_trans (proj2 (@half_open_by_bytes example_host
    [Recorded 3 60; Recorded 4 500; Recorded 3 40]
    (example_packet example_half_open 3) example_world _ _ _ _ _ _)) _).
  - by vm_compute.
  - repeat constructor; lia.
  - split_and!; try reflexivity; apply (bool_decide_unpack _); by vm_compute.
  - by vm_compute.
  - done.
  - done.
  - done.
Defined.
