(* ===== verification/R6ResolverFaults.v ===== *)
(** * R6: name resolution faults

    [faultcore_network/src/layers/r6_resolver_faults.rs]. *)

From S2P Require Import Prelude.
From S2P Require Import Config.
From S2P Require Import Layers.

Open Scope Z_scope.

(* faultcore_network/src/layers/r6_resolver_faults.rs:6-9 R6ResolverFaults *)
Record R6ResolverFaults `{Host} : Type := mkR6 { r6_dice : Dice }.

#[export] Instance eta_R6 `{Host} : Eta R6ResolverFaults := λ r, mkR6 _ (r.(r6_dice)).

Section r6.
  Context `{Host}.

(* faultcore_network/src/layers/r6_resolver_faults.rs:12-21 R6ResolverFaults::new *)
Definition R6_new (faultcore_seed : option string) : R6ResolverFaults :=
  mkR6 _ (dice_new faultcore_seed).

(* faultcore_network/src/layers/r6_resolver_faults.rs:31-53 R6ResolverFaults::event_happens *)
Definition event_happens (probability_ppm policy_seed : Z) : M (R6ResolverFaults * World) bool :=
  on_dice r6_dice (λ d r, r <| r6_dice := d |>) (toss 0x4C370A05 probability_ppm policy_seed).

(* faultcore_network/src/layers/r6_resolver_faults.rs:65-76 R6ResolverFaults::process *)
Definition R6_process (ctx : PacketContext) : M (R6ResolverFaults * World) LayerDecision :=
  let c := ctx.(config) in
  if 0 <? c.(dns_timeout_ms) then mret (TimeoutMs c.(dns_timeout_ms)) else
  nx ← event_happens c.(dns_nxdomain_ppm) c.(policy_seed);
  if nx : bool then mret NxDomain else
  if 0 <? c.(dns_delay_ns) then mret (DelayNs c.(dns_delay_ns)) else
  mret Continue.
End r6.

(* faultcore_network/src/layers/r6_resolver_faults.rs:56-81 Layer for R6ResolverFaults *)
#[export] Instance R6_layer `{Host} : Layer R6ResolverFaults := {
  stage := R6;
  applies_to := is_dns;
  process := R6_process;
  name := "R6_ResolverFaults";
  process_with_buffer := default_process_with_buffer R6_process;
}.

(** ** Promises to the engine *)

Section facts.
Context `{HostLaws}.

Lemma R6_process_main ctx (r : R6ResolverFaults) w :
  True → ctx_ok ctx → main_decision (R6_process ctx (r, w)).1.
Proof.
  intros _ (Hc & _). unfold R6_process. destruct (0 <? dns_timeout_ms _); [done|]. run_simpl.
  destruct (event_happens _ _ _).1; [done|]. destruct (0 <? _); [|done]. cbn. config_u64 Hc.
Qed.

Definition R6_same (r r' : R6ResolverFaults) : Prop :=
  r.(r6_dice).(policy_counter) = r'.(r6_dice).(policy_counter).

Lemma R6_process_seeded ctx (l l' : R6ResolverFaults) w w' :
  0 < ctx.(config).(policy_seed) → ctx.(config).(bandwidth_bps) = 0 → R6_same l l' →
  (R6_process ctx (l, w)).1 = (R6_process ctx (l', w')).1 ∧
  R6_same (R6_process ctx (l, w)).2.1 (R6_process ctx (l', w')).2.1.
Proof.
  intros Hs _ Hl. revert Hl. revert l l' w w'. change (det R6_same (R6_process ctx)).
  unfold R6_process. apply det_if; [apply det_ret|]. apply det_bind.
  - by apply det_toss.
  - intros nx. repeat (apply det_if; [apply det_ret|]). apply det_ret.
Qed.
End facts.

#[export] Instance R6_stage `{HostLaws} : StageLayer R6ResolverFaults := {
  layer_ok _ := True;
  process_ok _ _ _ _ _ := I;
  process_main := R6_process_main;
}.

#[export] Instance R6_fd_local `{Host} : FdLocal R6ResolverFaults := {
  View := unit;
  view _ _ := tt;
  process_view _ _ _ _ _ := eq_refl;
}.

#[export] Instance R6_seeded `{HostLaws} : SeedDetermined R6ResolverFaults := {
  same := R6_same;
  process_seeded := R6_process_seeded;
  process_clockless _ _ := eq_refl;
}.

(** ** Properties *)

(** Precedence of resolution faults.  A lookup first times out when a
    timeout is configured, then fails to resolve when its toss comes up (never
    at probability zero, always at one), then is delayed when a delay is
    configured, and otherwise continues; a configured timeout leaves the layer
    and the world untouched. *)
Theorem dns_precedence `{HostLaws} ctx s :
  let c := ctx.(config) in
  let nx := event_happens c.(dns_nxdomain_ppm) c.(policy_seed) s in
  R6_process ctx s =
    (if 0 <? c.(dns_timeout_ms) then (TimeoutMs c.(dns_timeout_ms), s) else
     (if nx.1 then NxDomain else
      if 0 <? c.(dns_delay_ns) then DelayNs c.(dns_delay_ns) else Continue, nx.2)) ∧
  (c.(dns_nxdomain_ppm) = 0 → nx = (false, s)) ∧
  (1000000 ≤ c.(dns_nxdomain_ppm) → nx = (true, s)).
Proof.
  intros c nx. split_and!.
  - unfold R6_process. fold c. destruct (0 <? dns_timeout_ms c); [done|]. run_simpl. fold nx.
    destruct nx as [[] s']; cbn [fst snd]; [done|]. by destruct (0 <? dns_delay_ns c).
  - intros E. unfold nx. rewrite E. by destruct s as [[] ?].
  - intros E. unfold nx, event_happens, on_dice. rewrite zoom_run, toss_always by done.
    by destruct s as [[] ?].
Qed.

Definition example_dns : Config :=
  Config_default <| dns_nxdomain_ppm := 1000000 |> <| dns_delay_ns := 5000 |>.

Definition example_lookup : PacketContext :=
  mkPacketContext (-1) 0 DnsLookup None example_dns 5000.

Lemma dns_precedence_witness :
  (R6_process (H:=example_host) example_lookup (R6_new None, example_world)).1 = NxDomain.
Proof.
  refine (eq_trans (f_equal fst (proj1 (@dns_precedence example_host example_host_laws
    example_lookup (R6_new None, example_world)))) _).
  by vm_compute.
Defined.
