(* ===== verification/R7PayloadTransform.v ===== *)
(** * R7: payload mutations

    [faultcore_network/src/layers/r7_payload_transform.rs]: when a payload is
    mutated and what each mutation does to it.  A payload is a list of bytes. *)

From S2P Require Import Prelude.
From S2P Require Import Config.
From S2P Require Import Layers.

Open Scope Z_scope.

(* faultcore_network/src/layers/r7_payload_transform.rs:6-18 R7PayloadTransform *)
Record R7PayloadTransform : Type := R7_new {}.

(* faultcore_network/src/layers/r7_payload_transform.rs:121-123 lcg64 *)
Definition lcg64 (seed : Z) : Z := wrapping_add (wrapping_mul seed 6364136223846793005) 1.

(** [out[idx] ^= mask]; the index is below the length. *)
Definition xor_at (idx : Z) (mask : Z) (out : list Z) : list Z :=
  alter (Z.lxor mask) (Z.to_nat idx) out.

(** The loop of [CorruptBytes]. *)
Fixpoint corrupt (n : nat) (state : Z) (out : list Z) : list Z :=
  match n with
  | O => out
  | S n =>
      let state := lcg64 state in
      let idx := state mod Z.of_nat (length out) in
      let state := lcg64 state in
      corrupt n state (xor_at idx (Z.land state 0xFF) out)
  end.

(** [out.windows(n).position(|w| w == needle)] for a non-empty needle. *)
Fixpoint position (needle out : list Z) : option nat :=
  match out with
  | [] => None
  | _ :: out' =>
      if decide (take (length needle) out = needle) then Some 0%nat else S <$> position needle out'
  end.

Definition nonempty_change (buffer out : list Z) (max_buffer : Z) : option (list Z) :=
  if max_buffer <? Z.of_nat (length out) then None else
  if decide (out = buffer) then None else Some out.

(* faultcore_network/src/layers/r7_payload_transform.rs:125-210 apply_mutation *)
Definition apply_mutation (buffer : list Z) (mutation : Mutation) (max_buffer : Z) :
    option (list Z) :=
  let len := Z.of_nat (length buffer) in
  out ←
    match mutation with
    | Truncate size => if len <=? size then None else Some (take (Z.to_nat size) buffer)
    | CorruptBytes count seed =>
        if (len =? 0) || (count =? 0) then None
        else Some (corrupt (Z.to_nat count) (lcg64 seed) buffer)
    | InjectBytes position data n =>
        let n := Z.min n (Z.of_nat (length data)) in
        if (len <? position) || (n =? 0) then None else
        if max_buffer <? saturating_add len n then None else
        Some (take (Z.to_nat position) buffer ++ take (Z.to_nat n) data ++
              drop (Z.to_nat position) buffer)
    | ReplacePattern find find_len replace replace_len =>
        let find_len := Z.min find_len (Z.of_nat (length find)) in
        let replace_len := Z.min replace_len (Z.of_nat (length replace)) in
        if find_len =? 0 then None else
        let needle := take (Z.to_nat find_len) find in
        match position needle buffer with
        | Some pos =>
            let next := take pos buffer ++ take (Z.to_nat replace_len) replace ++
                        drop (pos + Z.to_nat find_len) buffer in
            if max_buffer <? Z.of_nat (length next) then None else Some next
        | None => None
        end
    | CorruptEncoding => match buffer with [] => None | _ :: rest => Some (255 :: rest) end
    | SwapBytes pos1 pos2 =>
        if (len <=? pos1) || (len <=? pos2) || (pos1 =? pos2) then None else
        match buffer !! Z.to_nat pos1, buffer !! Z.to_nat pos2 with
        | Some a, Some b => Some (<[Z.to_nat pos2 := a]> (<[Z.to_nat pos1 := b]> buffer))
        | _, _ => None
        end
    end;
  nonempty_change buffer out max_buffer.

(** The mutation a configuration selects. *)
Definition configured_mutation (c : Config) : option Mutation :=
  let kind := c.(payload_mutation_type) in
  if kind =? kind_code KTruncate then Some (Truncate c.(payload_mutation_truncate_size)) else
  if kind =? kind_code KCorruptBytes then
    Some (CorruptBytes c.(payload_mutation_corrupt_count) c.(payload_mutation_corrupt_seed)) else
  if kind =? kind_code KInjectBytes then
    Some (InjectBytes c.(payload_mutation_inject_position) c.(payload_mutation_inject_data)
            c.(payload_mutation_inject_len)) else
  if kind =? kind_code KReplacePattern then
    Some (ReplacePattern c.(payload_mutation_replace_find) c.(payload_mutation_replace_find_len)
            c.(payload_mutation_replace_with) c.(payload_mutation_replace_with_len)) else
  if kind =? kind_code KCorruptEncoding then Some CorruptEncoding else
  if kind =? kind_code KSwapBytes then
    Some (SwapBytes c.(payload_mutation_swap_pos1) c.(payload_mutation_swap_pos2)) else
  None.

Definition applies_direction (target : Z) (direction : option Direction) : bool :=
  if target =? target_code Both then true else
  match direction with
  | Some Uplink => target =? target_code UplinkOnly
  | Some Downlink => target =? target_code DownlinkOnly
  | None => false
  end.

(** The gates a payload passes before a mutation is chosen, in order. *)
Definition gates (ctx : PacketContext) (buffer : list Z) : bool :=
  let c := ctx.(config) in
  let size := Z.of_nat (length buffer) in
  let n := c.(payload_mutation_every_n_packets) in
  let min_size := c.(payload_mutation_min_size) in
  let max_size := c.(payload_mutation_max_size) in
  negb ((size =? 0) || is_connect ctx || is_dns ctx) &&
  negb (c.(payload_mutation_enabled) =? 0) &&
  applies_direction c.(payload_mutation_target) ctx.(direction) &&
  negb ((1 <? n) && negb (ctx.(now_ns) mod n =? 0)) &&
  negb (((0 <? min_size) && (size <? min_size)) || ((0 <? max_size) && (max_size <? size))) &&
  negb ((c.(payload_mutation_prob_ppm) <? 1000000) &&
        (c.(payload_mutation_prob_ppm) <=?
           lcg64 (Z.lxor (Z.lxor (Z.lxor c.(policy_seed) c.(payload_mutation_corrupt_seed))
                            ctx.(now_ns)) ctx.(bytes)) mod 1000000)).

(* faultcore_network/src/layers/r7_payload_transform.rs:29-114 R7PayloadTransform::process_with_buffer *)
Definition R7_process_with_buffer (ctx : PacketContext) (buffer : list Z) :
    LayerDecision * option (list Z) :=
  let c := ctx.(config) in
  if negb (gates ctx buffer) then (Continue, None) else
  match configured_mutation c with
  | None => (Continue, None)
  | Some mutation =>
      if 0 <? c.(payload_mutation_dry_run) then (Mutate [mutation], None) else
      (Mutate [mutation], apply_mutation buffer mutation c.(payload_mutation_max_buffer_size))
  end.

(* faultcore_network/src/layers/r7_payload_transform.rs:20-119 Layer for R7PayloadTransform *)
#[export] Instance R7_layer `{Host} : Layer R7PayloadTransform := {
  stage := R7;
  applies_to _ := true;
  process _ := mret Continue;
  name := "R7_PayloadTransform";
  process_with_buffer ctx buffer := mret (R7_process_with_buffer ctx buffer);
}.

(** ** Searching *)

Lemma position_Some needle out p :
  position needle out = Some p →
  take (length needle) (drop p out) = needle ∧
  ∀ q, (q < p)%nat → take (length needle) (drop q out) ≠ needle.
Proof.
  revert p; induction out as [|x out IH]; intros p H; [done|]. cbn [position] in H.
  destruct (decide _) as [E|E]; [injection H as <-; split; [done|lia]|].
  destruct (position needle out) as [p'|]; [|done]. injection H as <-.
  destruct (IH p' eq_refl) as [H1 H2]. split; [done|].
  intros [|q] Hq; [done|]. apply H2. lia.
Qed.

Lemma position_None needle out :
  needle ≠ [] → position needle out = None → ∀ q, take (length needle) (drop q out) ≠ needle.
Proof.
  intros Hn. induction out as [|x out IH]; intros H q.
  - rewrite drop_nil, take_nil. congruence.
  - cbn [position] in H. destruct (decide _) as [|E]; [done|].
    destruct q as [|q]; [done|]. apply IH. by destruct (position needle out).
Qed.

(** ** Corruption by exclusive or *)

Lemma length_xor_at i m l : length (xor_at i m l) = length l.
Proof. apply length_alter. Qed.

Lemma length_corrupt n st l : length (corrupt n st l) = length l.
Proof.
  revert st l; induction n as [|n IH]; intros st l; [done|]. cbn [corrupt].
  by rewrite IH, length_xor_at.
Qed.

Lemma lookup_alter_dec {A} (f : A → A) (l : list A) i k :
  alter f i l !! k = if decide (i = k) then f <$> l !! k else l !! k.
Proof.
  case_decide as E; [subst; apply list_lookup_alter_eq|by apply list_lookup_alter_ne].
Qed.

Lemma alter_comm {A} (f g : A → A) (l : list A) i j :
  (∀ x, f (g x) = g (f x)) → alter f i (alter g j l) = alter g j (alter f i l).
Proof.
  intros Hfg. apply list_eq. intros k. rewrite !lookup_alter_dec. case_decide; case_decide; try done.
  destruct (l !! k); cbn; [|done]. by rewrite Hfg.
Qed.

Lemma xor_at_comm i a j b l : xor_at i a (xor_at j b l) = xor_at j b (xor_at i a l).
Proof.
  apply alter_comm. intros x. rewrite <- !Z.lxor_assoc. by rewrite (Z.lxor_comm a b).
Qed.

Lemma xor_at_twice i a l : xor_at i a (xor_at i a l) = l.
Proof.
  unfold xor_at. apply list_eq. intros k. rewrite !lookup_alter_dec. case_decide; [|done].
  destruct (l !! k); cbn; [|done]. f_equal. by rewrite <- Z.lxor_assoc, Z.lxor_nilpotent, Z.lxor_0_l.
Qed.

Lemma corrupt_xor_at n st i a l : corrupt n st (xor_at i a l) = xor_at i a (corrupt n st l).
Proof.
  revert st l; induction n as [|n IH]; intros st l; [done|]. cbn [corrupt].
  by rewrite length_xor_at, xor_at_comm, IH.
Qed.

Lemma corrupt_twice n st l : corrupt n st (corrupt n st l) = l.
Proof.
  revert st l; induction n as [|n IH]; intros st l; [done|]. cbn [corrupt].
  rewrite length_corrupt, length_xor_at, <- !corrupt_xor_at, IH. apply xor_at_twice.
Qed.

Lemma nonempty_change_Some buffer out max out' :
  nonempty_change buffer out max = Some out' →
  out' = out ∧ Z.of_nat (length out) ≤ max ∧ out ≠ buffer.
Proof.
  unfold nonempty_change. intros H. destruct (Z.ltb_spec max (Z.of_nat (length out))); [done|].
  destruct (decide _); simplify_eq. done.
Qed.

(** What a mutation makes of a payload, as a relation. *)
Inductive mutates (buffer : list Z) : Mutation → list Z → Prop :=
  | mutates_truncate size :
      size < Z.of_nat (length buffer) →
      mutates buffer (Truncate size) (take (Z.to_nat size) buffer)
  | mutates_corrupt count seed out :
      length out = length buffer →
      corrupt (Z.to_nat count) (lcg64 seed) out = buffer →
      mutates buffer (CorruptBytes count seed) out
  | mutates_inject pos data n pre post :
      buffer = pre ++ post → Z.of_nat (length pre) = pos →
      mutates buffer (InjectBytes pos data n) (pre ++ take (Z.to_nat n) data ++ post)
  | mutates_replace find n replace m pre post :
      buffer = pre ++ take (Z.to_nat n) find ++ post →
      (∀ q, (q < length pre)%nat → ¬ take (Z.to_nat n) find `prefix_of` drop q buffer) →
      mutates buffer (ReplacePattern find n replace m) (pre ++ take (Z.to_nat m) replace ++ post)
  | mutates_encoding x rest :
      buffer = x :: rest → mutates buffer CorruptEncoding (255 :: rest)
  | mutates_swap i j a b out :
      buffer !! Z.to_nat i = Some a → buffer !! Z.to_nat j = Some b →
      out !! Z.to_nat i = Some b → out !! Z.to_nat j = Some a →
      (∀ k, k ≠ Z.to_nat i → k ≠ Z.to_nat j → out !! k = buffer !! k) →
      mutates buffer (SwapBytes i j) out.

(** The integers of a mutation are [u64]s. *)
Definition mutation_ok (m : Mutation) : Prop :=
  match m with
  | Truncate n => 0 ≤ n
  | CorruptBytes n s => 0 ≤ n
  | InjectBytes p _ n => 0 ≤ p ∧ 0 ≤ n
  | ReplacePattern _ n _ m => 0 ≤ n ∧ 0 ≤ m
  | CorruptEncoding => True
  | SwapBytes i j => 0 ≤ i ∧ 0 ≤ j
  end.

Lemma take_min {A} n (l : list A) :
  0 ≤ n → take (Z.to_nat (Z.min n (Z.of_nat (length l)))) l = take (Z.to_nat n) l.
Proof.
  intros Hn. destruct (Z.le_ge_cases n (Z.of_nat (length l))) as [H|H].
  - by rewrite Z.min_l.
  - rewrite Z.min_r, Nat2Z.id by done. rewrite !take_ge; [done|lia|done].
Qed.

Lemma apply_mutation_mutates buffer m max out :
  mutation_ok m → apply_mutation buffer m max = Some out → mutates buffer m out.
Proof.
  intros Hok H. unfold apply_mutation in H. apply bind_Some in H as (out' & H & Hc).
  apply nonempty_change_Some in Hc as (-> & _ & _). destruct m; cbn in Hok.
  - destruct (Z.leb_spec (Z.of_nat (length buffer)) size); simplify_eq. by constructor.
  - destruct (_ || _); simplify_eq. constructor; [apply length_corrupt|apply corrupt_twice].
  - destruct (Z.ltb_spec (Z.of_nat (length buffer)) position0); cbn [orb] in H; [done|].
    destruct (_ =? 0); [done|]. destruct (_ <? _); simplify_eq. rewrite take_min by lia.
    constructor; [by rewrite take_drop|]. rewrite length_take. lia.
  - destruct (_ =? 0); [done|]. destruct (position _ buffer) as [p|] eqn:E; [|done].
    destruct (_ <? _); simplify_eq. apply position_Some in E as [E1 E2].
    rewrite !take_min in * by lia.
    set (needle := take (Z.to_nat find_len) find) in *.
    assert (Hn : length needle = Z.to_nat (Z.min find_len (Z.of_nat (length find)))).
    { unfold needle. rewrite length_take. lia. }
    assert (Hp : (p ≤ length buffer)%nat ∨ needle = []).
    { destruct (decide (p ≤ length buffer)%nat); [by left|right].
      rewrite <- E1, drop_ge, take_nil by lia. done. }
    rewrite <- Hn, <- drop_drop.
    apply mutates_replace.
    + fold needle. rewrite <- E1 at 1. by rewrite take_drop, take_drop.
    + intros q Hq [k Hk]. rewrite length_take in Hq. apply (E2 q); [lia|].
      by rewrite Hk, take_app_length.
  - destruct buffer; simplify_eq. by econstructor.
  - destruct (_ || _) eqn:E; [done|]. apply orb_false_iff in E as [_ E]. apply Z.eqb_neq in E.
    destruct (buffer !! Z.to_nat pos1) as [a|] eqn:Ea; [|done].
    destruct (buffer !! Z.to_nat pos2) as [b|] eqn:Eb; simplify_eq.
    pose proof (lookup_lt_Some _ _ _ Ea). pose proof (lookup_lt_Some _ _ _ Eb).
    econstructor; [done|done|..].
    + rewrite list_lookup_insert_ne by lia. by apply list_lookup_insert_eq.
    + apply list_lookup_insert_eq. by rewrite length_insert.
    + intros k Hi Hj. by rewrite !list_lookup_insert_ne by done.
Qed.

(** ** Properties *)

(** C23. Mutations do what their names say.  A mutation that produces a payload
    produces one that differs from the original and fits the buffer limit, and
    it is: for truncation, a proper prefix of the given size; for injection, the
    original with the data inserted at the position; for replacement, the
    original with the first occurrence of the pattern, and no earlier one,
    replaced; for the encoding fault, the original with a first byte of 0xFF; for
    swapping, the original with two bytes exchanged; for corruption, a payload of
    the same length that the same corruption maps back to the original. *)
Theorem apply_mutation_spec buffer m max out :
  mutation_ok m → apply_mutation buffer m max = Some out →
  mutates buffer m out ∧ out ≠ buffer ∧ Z.of_nat (length out) ≤ max.
Proof.
  intros Hok H. split; [by eapply apply_mutation_mutates|].
  unfold apply_mutation in H. apply bind_Some in H as (out' & _ & Hc).
  by apply nonempty_change_Some in Hc as (-> & ? & ?).
Qed.

(** Corruption is its own inverse.  Whenever a seeded corruption changes a
    payload, corrupting the result with the same count and seed gives the
    original payload back. *)
Theorem corrupt_roundtrip buffer count seed max out :
  apply_mutation buffer (CorruptBytes count seed) max = Some out →
  apply_mutation out (CorruptBytes count seed) max = Some buffer.
Proof.
  unfold apply_mutation. intros H. apply bind_Some in H as (out' & H & Hc).
  apply nonempty_change_Some in Hc as (-> & Hlen & Hne).
  destruct ((Z.of_nat (length buffer) =? 0) || (count =? 0)) eqn:E; simplify_eq.
  rewrite length_corrupt in *. rewrite E. cbn [mbind option_bind].
  rewrite corrupt_twice. unfold nonempty_change.
  rewrite (proj2 (Z.ltb_ge _ _)) by done. by rewrite decide_False.
Qed.

(** When a payload is touched.  The transform yields a new payload only for
    a non-empty send or receive in the targeted direction, of a size within the
    configured limits, with mutations enabled and not in dry-run mode; the
    decision then names the configured mutation and the payload is the result of
    applying it.  In dry-run mode the mutation is reported and the payload never
    changes, and with no mutation reported nothing changes either. *)
Theorem payload_touched ctx buffer d out :
  R7_process_with_buffer ctx buffer = (d, out) →
  let c := ctx.(config) in
  (d = Continue ∧ out = None) ∨
  ∃ m, configured_mutation c = Some m ∧ d = Mutate [m] ∧
    buffer ≠ [] ∧ is_stream ctx = true ∧ c.(payload_mutation_enabled) ≠ 0 ∧
    applies_direction c.(payload_mutation_target) ctx.(direction) = true ∧
    (0 < c.(payload_mutation_min_size) → c.(payload_mutation_min_size) ≤ Z.of_nat (length buffer)) ∧
    (0 < c.(payload_mutation_max_size) → Z.of_nat (length buffer) ≤ c.(payload_mutation_max_size)) ∧
    out = if 0 <? c.(payload_mutation_dry_run) then None
          else apply_mutation buffer m c.(payload_mutation_max_buffer_size).
Proof.
  intros H c. unfold R7_process_with_buffer in H. fold c in H.
  destruct (gates ctx buffer) eqn:Hg; cbn [negb] in H; [|left; by simplify_eq].
  destruct (configured_mutation c) as [m|]; [|left; by simplify_eq]. right. exists m.
  unfold gates in Hg. fold c in Hg. rewrite !andb_true_iff, !negb_true_iff in Hg.
  destruct Hg as (((((Hg1 & Hg2) & Hg3) & Hg4) & Hg5) & _).
  apply orb_false_iff in Hg1 as [[Hg0 Hg1]%orb_false_iff Hg1'].
  apply orb_false_iff in Hg5 as [Hmin Hmax]. apply Z.eqb_neq in Hg0, Hg2.
  split_and!; try done.
  - destruct (0 <? payload_mutation_dry_run c); by simplify_eq.
  - by intros ->.
  - unfold is_stream, is_connect, is_dns in *. by destruct (operation ctx).
  - intros. apply andb_false_iff in Hmin. lia.
  - intros. apply andb_false_iff in Hmax. lia.
  - destruct (0 <? payload_mutation_dry_run c); by simplify_eq.
Qed.

(** ** Witnesses *)

Lemma apply_mutation_spec_witness :
  apply_mutation [1; 2; 3; 2; 3] (ReplacePattern [2; 3; 9] 2 [7] 1) 64 = Some [1; 7; 2; 3] ∧
  mutates [1; 2; 3; 2; 3] (ReplacePattern [2; 3; 9] 2 [7] 1) [1; 7; 2; 3].
Proof.
  split; [reflexivity|].
  refine (proj1 (apply_mutation_spec [1; 2; 3; 2; 3] (ReplacePattern [2; 3; 9] 2 [7] 1) 64
    [1; 7; 2; 3] _ _)); [by vm_compute|reflexivity].
Defined.

Lemma corrupt_roundtrip_witness :
  apply_mutation [246; 110; 29; 178] (CorruptBytes 3 42) 64 = Some [90; 110; 130; 178].
Proof.
  apply (corrupt_roundtrip [90; 110; 130; 178] 3 42 64 [246; 110; 29; 178]). by vm_compute.
Defined.

Definition example_mutation : Config :=
  Config_default <| payload_mutation_enabled := 1 |> <| payload_mutation_prob_ppm := 1000000 |>
    <| payload_mutation_type := 5 |> <| payload_mutation_max_buffer_size := 64 |>.

Lemma payload_touched_witness :
  R7_process_with_buffer (example_packet example_mutation 3) [72; 105] =
    (Mutate [CorruptEncoding], Some [255; 105]) ∧
  (Mutate [CorruptEncoding] = Continue ∧ Some [255; 105] = None ∨
   ∃ m, configured_mutation example_mutation = Some m ∧ Mutate [CorruptEncoding] = Mutate [m]).
Proof.
  split; [reflexivity|].
  destruct (payload_touched (example_packet example_mutation 3) [72; 105]
    (Mutate [CorruptEncoding]) (Some [255; 105]) eq_refl) as [?|(m & H1 & H2 & _)];
    [by left|right; by exists m].
Defined.
