(* ===== verification/Observability.v ===== *)
(** * Advanced metrics

    [faultcore_network/src/observability.rs]: the latency histogram, the fault
    counters and the target-rule hits of the process, and their snapshot.  A
    [HashMap] is a finite map; the snapshot sorts what it iterates over, so the
    iteration order does not show. *)

From stdpp Require Import sorting.
From S2P Require Import Prelude.
From S2P Require Import Layers.

Open Scope Z_scope.

(* faultcore_network/src/observability.rs:7-16 LATENCY_BUCKET_UPPER_BOUNDS_NS *)
Definition LATENCY_BUCKET_UPPER_BOUNDS_NS : list Z :=
  [1000000; 5000000; 10000000; 50000000; 100000000; 250000000; 500000000; 1000000000].

(* faultcore_network/src/observability.rs:17-17 LATENCY_BUCKET_COUNT *)
Definition LATENCY_BUCKET_COUNT : nat := length LATENCY_BUCKET_UPPER_BOUNDS_NS + 1.

(* faultcore_network/src/observability.rs:18-18 TARGET_RULE_TOP_N *)
Definition TARGET_RULE_TOP_N : nat := 8.

(** The nine counters; the snapshot has the same fields. *)
(* faultcore_network/src/observability.rs:75-85 FaultCounters *)
Record FaultCounters : Type := mkFaultCounters {
  delay_count : Z;
  drop_count : Z;
  timeout_count : Z;
  error_count : Z;
  connection_error_count : Z;
  reorder_count : Z;
  duplicate_count : Z;
  nxdomain_count : Z;
  mutate_count : Z
}.

#[export] Instance eta_FaultCounters : Eta FaultCounters := λ c, mkFaultCounters
  (c.(delay_count)) (c.(drop_count)) (c.(timeout_count)) (c.(error_count))
  (c.(connection_error_count)) (c.(reorder_count)) (c.(duplicate_count))
  (c.(nxdomain_count)) (c.(mutate_count)).

(* faultcore_network/src/observability.rs:87-112 FaultCounters::new, FaultCounters::reset *)
Definition FaultCounters_new : FaultCounters := mkFaultCounters 0 0 0 0 0 0 0 0 0.

(* faultcore_network/src/observability.rs:34-39 TargetRuleCounterSnapshot *)
Record TargetRuleCounterSnapshot : Type := mkTargetRuleCounterSnapshot {
  target_rule_id : Z;
  hits : Z
}.

(* faultcore_network/src/observability.rs:129-134 AdvancedMetrics *)
Record AdvancedMetrics : Type := mkAdvancedMetrics {
  latency_histogram : list Z;
  latency_sample_count : Z;
  fault_counters : FaultCounters;
  target_rule_hits : gmap Z Z
}.

#[export] Instance eta_AdvancedMetrics : Eta AdvancedMetrics := λ m, mkAdvancedMetrics
  (m.(latency_histogram)) (m.(latency_sample_count)) (m.(fault_counters))
  (m.(target_rule_hits)).

(* faultcore_network/src/observability.rs:136-144 AdvancedMetrics::new *)
Definition AdvancedMetrics_new : AdvancedMetrics :=
  mkAdvancedMetrics (replicate LATENCY_BUCKET_COUNT 0) 0 FaultCounters_new ∅.

(** [fetch_add(1, Relaxed)] *)
Definition incr (n : Z) : Z := wrapping_add n 1.

(** The bucket of a delay. *)
Definition bucket_of (delay_ns : Z) : nat :=
  match list_find (λ bound, delay_ns ≤ bound) LATENCY_BUCKET_UPPER_BOUNDS_NS with
  | Some (i, _) => i
  | None => LATENCY_BUCKET_COUNT - 1
  end.

(* faultcore_network/src/observability.rs:146-156 AdvancedMetrics::record_delay_ns *)
Definition record_delay_ns (delay_ns : Z) (m : AdvancedMetrics) : AdvancedMetrics :=
  m <| latency_histogram ::= alter incr (bucket_of delay_ns) |>
    <| latency_sample_count ::= incr |>
    <| fault_counters ::= λ c, c <| delay_count ::= incr |> |>.

(* faultcore_network/src/observability.rs:158-203 AdvancedMetrics::record_fault_decision *)
Definition record_fault_decision (d : LayerDecision) (m : AdvancedMetrics) : AdvancedMetrics :=
  match d with
  | Continue => m
  | DelayNs ns => record_delay_ns ns m
  | Drop => m <| fault_counters ::= λ c, c <| drop_count ::= incr |> |>
  | TimeoutMs _ => m <| fault_counters ::= λ c, c <| timeout_count ::= incr |> |>
  | Error _ => m <| fault_counters ::= λ c, c <| error_count ::= incr |> |>
  | ConnectionErrorKind _ => m <| fault_counters ::= λ c, c <| connection_error_count ::= incr |> |>
  | StageReorder => m <| fault_counters ::= λ c, c <| reorder_count ::= incr |> |>
  | Duplicate _ => m <| fault_counters ::= λ c, c <| duplicate_count ::= incr |> |>
  | NxDomain => m <| fault_counters ::= λ c, c <| nxdomain_count ::= incr |> |>
  | Mutate _ => m <| fault_counters ::= λ c, c <| mutate_count ::= incr |> |>
  end.

(* faultcore_network/src/observability.rs:205-209 AdvancedMetrics::record_target_rule_hit *)
Definition record_target_rule_hit (id : Z) (m : AdvancedMetrics) : AdvancedMetrics :=
  m <| target_rule_hits ::= λ h, <[id := saturating_add (default 0 (h !! id)) 1]> h |>.

Fixpoint percentile_scan (counts bounds : list Z) (cumulative rank : Z) : Z :=
  match counts with
  | [] => List.last LATENCY_BUCKET_UPPER_BOUNDS_NS 0
  | count :: counts =>
      let cumulative := saturating_add cumulative count in
      if rank <=? cumulative then
        match bounds with
        | bound :: _ => bound
        | [] => List.last LATENCY_BUCKET_UPPER_BOUNDS_NS 0
        end
      else percentile_scan counts (tail bounds) cumulative rank
  end.

(* faultcore_network/src/observability.rs:211-231 AdvancedMetrics::percentile_from_histogram *)
Definition percentile_from_histogram (counts : list Z) (sample_count percentile : Z) : Z :=
  if sample_count =? 0 then 0 else
  let rank := (saturating_mul sample_count percentile + 99) / 100 in
  percentile_scan counts LATENCY_BUCKET_UPPER_BOUNDS_NS 0 rank.

(** The order of the snapshot's entries: more hits first, then smaller ids. *)
Definition entry_le (a b : Z * Z) : Prop := b.2 < a.2 ∨ (b.2 = a.2 ∧ a.1 ≤ b.1).

#[export] Instance entry_le_dec a b : Decision (entry_le a b).
Proof. unfold entry_le. apply _. Defined.

(* faultcore_network/src/observability.rs:41-55 FaultOsiAdvancedMetricsSnapshot *)
Record Snapshot : Type := mkSnapshot {
  latency_bucket_counts : list Z;
  snap_sample_count : Z;
  latency_p50_ns : Z;
  latency_p95_ns : Z;
  latency_p99_ns : Z;
  snap_fault_counters : FaultCounters;
  target_rule_top : list TargetRuleCounterSnapshot;
  target_rule_other_count : Z
}.

Definition sorted_entries (h : gmap Z Z) : list (Z * Z) := merge_sort entry_le (map_to_list h).

(** [target_rule_top] is the used part of the array, [target_rule_top_len] its length. *)
(* faultcore_network/src/observability.rs:233-268 AdvancedMetrics::snapshot *)
Definition snapshot (m : AdvancedMetrics) : Snapshot :=
  let counts := m.(latency_histogram) in
  let n := m.(latency_sample_count) in
  let entries := sorted_entries m.(target_rule_hits) in
  let top_len := Nat.min (length entries) TARGET_RULE_TOP_N in
  mkSnapshot counts n
    (percentile_from_histogram counts n 50) (percentile_from_histogram counts n 95)
    (percentile_from_histogram counts n 99) m.(fault_counters)
    ((λ e, mkTargetRuleCounterSnapshot e.1 e.2) <$> take top_len entries)
    (foldl (λ acc e, saturating_add acc e.2) 0 (drop top_len entries)).

(* faultcore_network/src/observability.rs:270-277 AdvancedMetrics::reset *)
Definition reset (m : AdvancedMetrics) : AdvancedMetrics :=
  m <| latency_histogram ::= map (λ _, 0) |> <| latency_sample_count := 0 |>
    <| fault_counters := FaultCounters_new |> <| target_rule_hits := ∅ |>.

(** ** Counting *)

Definition occurrences (P : LayerDecision → bool) (ds : list LayerDecision) : Z :=
  Z.of_nat (length (filter (λ d, P d = true) ds)).

Definition record_all (ds : list LayerDecision) (m : AdvancedMetrics) : AdvancedMetrics :=
  foldl (λ m d, record_fault_decision d m) m ds.

Lemma occurrences_snoc P ds d : occurrences P (ds ++ [d]) = occurrences P ds + if P d then 1 else 0.
Proof.
  unfold occurrences. rewrite filter_app, length_app, filter_cons, filter_nil.
  destruct (decide (P d = true)) as [E|E].
  - rewrite E. cbn. lia.
  - apply not_true_iff_false in E. rewrite E. cbn. lia.
Qed.

Lemma occurrences_bound P ds : 0 ≤ occurrences P ds ≤ Z.of_nat (length ds).
Proof. unfold occurrences. pose proof (length_filter (λ d, P d = true) ds). lia. Qed.

(** A quantity that every decision of a kind increments and no other touches
    counts the decisions of that kind. *)
Lemma record_all_counts (f : AdvancedMetrics → Z) P ds :
  f AdvancedMetrics_new = 0 →
  (∀ (m : AdvancedMetrics) (d : LayerDecision), length m.(latency_histogram) = LATENCY_BUCKET_COUNT →
     f (record_fault_decision d m) = if (P d : bool) then incr (f m) else f m) →
  Z.of_nat (length ds) < 2 ^ 64 →
  f (record_all ds AdvancedMetrics_new) = occurrences P ds ∧
  length (record_all ds AdvancedMetrics_new).(latency_histogram) = LATENCY_BUCKET_COUNT.
Proof.
  intros Hnew Hstep. induction ds as [|d ds IH] using rev_ind; intros Hlen; [by split|].
  rewrite length_app in Hlen. cbn in Hlen. destruct IH as [IH1 IH2]; [lia|].
  unfold record_all in *. rewrite foldl_app. cbn [foldl].
  rewrite Hstep, IH1, occurrences_snoc by done. split.
  - pose proof (occurrences_bound P ds). destruct (P d); [|lia].
    unfold incr. rewrite wrapping_add_small; lia.
  - destruct d; cbn; rewrite ?length_alter; done.
Qed.

Definition is_delay (d : LayerDecision) : bool := match d with DelayNs _ => true | _ => false end.
Definition in_bucket (i : nat) (d : LayerDecision) : bool :=
  match d with DelayNs ns => bool_decide (bucket_of ns = i) | _ => false end.

(** The counters with the decisions each of them counts. *)
Definition counter_kinds : list ((FaultCounters → Z) * (LayerDecision → bool)) :=
  [(delay_count, is_delay);
   (drop_count, λ d, match d with Drop => true | _ => false end);
   (timeout_count, λ d, match d with TimeoutMs _ => true | _ => false end);
   (error_count, λ d, match d with Error _ => true | _ => false end);
   (connection_error_count, λ d, match d with ConnectionErrorKind _ => true | _ => false end);
   (reorder_count, λ d, match d with StageReorder => true | _ => false end);
   (duplicate_count, λ d, match d with Duplicate _ => true | _ => false end);
   (nxdomain_count, λ d, match d with NxDomain => true | _ => false end);
   (mutate_count, λ d, match d with Mutate _ => true | _ => false end)].

Lemma bucket_of_lt ns : (bucket_of ns < LATENCY_BUCKET_COUNT)%nat.
Proof.
  unfold bucket_of. destruct (list_find _ _) as [[i b]|] eqn:E; [|by vm_compute; lia].
  apply list_find_Some in E as (E & _ & _). apply lookup_lt_Some in E.
  unfold LATENCY_BUCKET_COUNT. lia.
Qed.

Lemma occurrences_buckets ds :
  zsum ((λ i, occurrences (in_bucket i) ds) <$> seq 0 LATENCY_BUCKET_COUNT) = occurrences is_delay ds.
Proof.
  induction ds as [|d ds IH] using rev_ind; [by vm_compute|]. rewrite occurrences_snoc, <- IH.
  assert (Hsum : ∀ n, zsum ((λ i, occurrences (in_bucket i) (ds ++ [d])) <$> seq 0 n) =
    zsum ((λ i, occurrences (in_bucket i) ds) <$> seq 0 n) +
    match d with DelayNs ns => if decide (bucket_of ns < n)%nat then 1 else 0 | _ => 0 end).
  { induction n as [|n IHn]; [by destruct d|].
    rewrite !seq_S, !fmap_app, !zsum_app, IHn. cbn [fmap list_fmap zsum foldr].
    rewrite occurrences_snoc. destruct d; cbn [in_bucket]; try lia.
    case_bool_decide; repeat case_decide; lia. }
  rewrite Hsum. destruct d; cbn [is_delay]; try done.
  pose proof (bucket_of_lt ns). by rewrite decide_True.
Qed.

(** ** Percentiles *)

Lemma bound_lookup i :
  (i < 9)%nat →
  default (List.last LATENCY_BUCKET_UPPER_BOUNDS_NS 0) (head (drop i LATENCY_BUCKET_UPPER_BOUNDS_NS)) =
    LATENCY_BUCKET_UPPER_BOUNDS_NS !!! Nat.min i 7.
Proof. intros Hi. do 9 (destruct i as [|i]; [done|]). lia. Qed.

Lemma percentile_scan_spec counts bounds acc rank :
  Forall (λ z, 0 ≤ z) counts → 0 ≤ acc → acc + zsum counts ≤ u64_max →
  acc < rank ≤ acc + zsum counts →
  ∃ i, (i < length counts)%nat ∧
    percentile_scan counts bounds acc rank =
      default (List.last LATENCY_BUCKET_UPPER_BOUNDS_NS 0) (head (drop i bounds)) ∧
    acc + zsum (take i counts) < rank ≤ acc + zsum (take (S i) counts).
Proof.
  intros Hc. revert bounds acc; induction Hc as [|x counts Hx Hc IH]; intros bounds acc Ha Hmax Hr;
    [cbn in *; lia|].
  assert (Hs : 0 ≤ zsum counts) by by apply zsum_nonneg.
  change (zsum (x :: counts)) with (x + zsum counts) in *. cbn [percentile_scan].
  replace (saturating_add acc x) with (acc + x) by mach.
  destruct (Z.leb_spec rank (acc + x)).
  - exists 0%nat. cbn [length take drop]. split; [lia|]. split; [by destruct bounds|].
    cbn. rewrite take_0. unfold zsum. cbn. lia.
  - destruct (IH (tail bounds) (acc + x)) as (i & Hi & E & Hb); [lia..|].
    exists (S i). cbn [length take]. split; [lia|]. split.
    + rewrite E. by destruct bounds; [destruct i|].
    + change (zsum (x :: take i counts)) with (x + zsum (take i counts)).
      change (zsum (x :: take (S i) counts)) with (x + zsum (take (S i) counts)). lia.
Qed.

(** ** Top rules *)

#[export] Instance entry_le_trans : Transitive entry_le.
Proof. intros [a1 a2] [b1 b2] [c1 c2]. unfold entry_le. cbn. lia. Qed.
#[export] Instance entry_le_total : Total entry_le.
Proof. intros [a1 a2] [b1 b2]. unfold entry_le. cbn. lia. Qed.
#[export] Instance entry_le_antisymm : AntiSymm eq entry_le.
Proof. intros [a1 a2] [b1 b2]. unfold entry_le. cbn. intros. f_equal; lia. Qed.

(** Whatever order the map is iterated in, the sorted entries are the same. *)
Lemma sorted_entries_any_order h entries :
  entries ≡ₚ map_to_list h → merge_sort entry_le entries = sorted_entries h.
Proof.
  intros Hp. apply (Sorted_unique entry_le); try apply Sorted_merge_sort, _.
  unfold sorted_entries. by rewrite !merge_sort_Permutation.
Qed.

Lemma saturating_sum (l : list (Z * Z)) acc :
  Forall (λ e, 0 ≤ e.2) l → 0 ≤ acc → acc + zsum l.*2 ≤ u64_max →
  foldl (λ acc e, saturating_add acc e.2) acc l = acc + zsum l.*2.
Proof.
  intros Hl. revert acc; induction Hl as [|e l He Hl IH]; intros acc Ha Hm; [cbn; lia|].
  assert (Hs : 0 ≤ zsum l.*2)
    by (by apply zsum_nonneg, Forall_fmap).
  cbn [fmap list_fmap] in *. change (zsum (e.2 :: l.*2)) with (e.2 + zsum l.*2) in *.
  cbn [foldl]. replace (saturating_add acc e.2) with (acc + e.2) by mach.
  rewrite IH by lia. unfold fmap. lia.
Qed.

(** ** Properties *)

(** C27. The metrics count what was recorded.  After any sequence of fewer than
    [2^64] decisions, each fault counter is the number of decisions of its kind,
    each histogram bucket is the number of delays that fall into it, and the
    sample count is the number of delays and the sum of the buckets; decisions
    to continue leave no trace. *)
Theorem metrics_count_decisions ds :
  Z.of_nat (length ds) < 2 ^ 64 →
  let m := record_all ds AdvancedMetrics_new in
  Forall (λ p, p.1 m.(fault_counters) = occurrences p.2 ds) counter_kinds ∧
  m.(latency_histogram) = (λ i, occurrences (in_bucket i) ds) <$> seq 0 LATENCY_BUCKET_COUNT ∧
  m.(latency_sample_count) = occurrences is_delay ds ∧
  m.(latency_sample_count) = zsum m.(latency_histogram).
Proof.
  intros Hlen m.
  assert (Hhist : m.(latency_histogram) =
                  (λ i, occurrences (in_bucket i) ds) <$> seq 0 LATENCY_BUCKET_COUNT).
  { apply list_eq. intros i. rewrite list_lookup_fmap.
    assert (Hl : length m.(latency_histogram) = LATENCY_BUCKET_COUNT).
    { apply (record_all_counts latency_sample_count is_delay); [done| |done]. by intros ? []. }
    destruct (decide (i < LATENCY_BUCKET_COUNT)%nat) as [Hi|Hi].
    - rewrite lookup_seq_lt by done. cbn.
      destruct (record_all_counts (λ m, m.(latency_histogram) !!! i) (in_bucket i) ds) as [E _];
        [cbn in Hi; do 9 (destruct i as [|i]; [done|]); lia| |done|].
      + intros m' d Hm'. destruct d; cbn; try done. case_bool_decide as Hb.
        * rewrite Hb.
          rewrite <- Hm' in Hi. apply lookup_lt_is_Some_2 in Hi as [x Hx].
          rewrite !list_lookup_total_alt, list_lookup_alter_eq, Hx. done.
        * by rewrite !list_lookup_total_alt, list_lookup_alter_ne.
      + fold m in E. rewrite <- E. apply list_lookup_lookup_total_lt. lia.
    - rewrite !lookup_ge_None_2; [done|rewrite length_seq; lia|lia]. }
  assert (Hn : m.(latency_sample_count) = occurrences is_delay ds).
  { apply (record_all_counts latency_sample_count is_delay); [done| |done]. by intros ? []. }
  split_and!; [|done|done|by rewrite Hhist, occurrences_buckets].
  unfold counter_kinds.
  repeat (apply Forall_cons_2; [cbn [fst snd];
    apply (record_all_counts (λ m, _ m.(fault_counters))); [done|by intros ? []|done]|]).
  done.
Qed.

(** Percentiles are the smallest sufficient bucket.  For a histogram of nine
    buckets whose counts add up to the sample count, the [p]-th percentile is
    the upper bound of a bucket (the last bound, for the overflow bucket) such
    that the buckets up to it hold at least [p] percent of the samples and the
    buckets before it hold less. *)
Theorem percentile_spec counts n p :
  length counts = LATENCY_BUCKET_COUNT → Forall (λ z, 0 ≤ z) counts → n = zsum counts →
  0 < n → 1 ≤ p ≤ 100 → n * 100 ≤ u64_max →
  ∃ i, (i < LATENCY_BUCKET_COUNT)%nat ∧
    percentile_from_histogram counts n p = LATENCY_BUCKET_UPPER_BOUNDS_NS !!! Nat.min i 7 ∧
    zsum (take i counts) * 100 < n * p ≤ zsum (take (S i) counts) * 100.
Proof.
  intros Hl Hc Hn Hpos Hp Hmax. unfold percentile_from_histogram.
  rewrite (proj2 (Z.eqb_neq _ _)) by lia.
  assert (Hnp : n * p ≤ n * 100) by nia.
  replace (saturating_mul n p) with (n * p) by mach.
  destruct (percentile_scan_spec counts LATENCY_BUCKET_UPPER_BOUNDS_NS 0 ((n * p + 99) / 100))
    as (i & Hi & E & Hb); [done|lia|mach| |].
  { split; [apply Z.div_str_pos; nia|]. rewrite <- Hn.
    assert ((n * p + 99) / 100 < n + 1) by (apply Z.div_lt_upper_bound; lia). lia. }
  rewrite Hl in Hi. exists i. split; [done|]. split; [by rewrite E, bound_lookup|].
  pose proof (Z.div_mod (n * p + 99) 100). pose proof (Z.mod_pos_bound (n * p + 99) 100). lia.
Qed.

(** The snapshot reports the most hit rules.  Whatever the order in which
    the map of hits is iterated, the reported rules are at most eight, are all
    of them when there are at most eight, and every reported rule precedes every
    other rule of the map (more hits, or as many and a smaller id); the reported
    hits and the remainder add up to all hits. *)
Theorem top_rules_spec m :
  map_Forall (λ _ n, 0 ≤ n) m.(target_rule_hits) →
  zsum (map_to_list m.(target_rule_hits)).*2 ≤ u64_max →
  let s := snapshot m in
  let top := (λ t, (t.(target_rule_id), t.(hits))) <$> s.(target_rule_top) in
  ∃ rest, top ++ rest ≡ₚ map_to_list m.(target_rule_hits) ∧
    (length top ≤ 8)%nat ∧ ((0 < length rest)%nat → length top = 8%nat) ∧
    StronglySorted entry_le top ∧ (∀ a b, a ∈ top → b ∈ rest → entry_le a b) ∧
    zsum top.*2 + s.(target_rule_other_count) = zsum (map_to_list m.(target_rule_hits)).*2.
Proof.
  intros Hpos Hsum s top. set (es := sorted_entries m.(target_rule_hits)).
  set (k := Nat.min (length es) TARGET_RULE_TOP_N).
  assert (Hp : es ≡ₚ map_to_list m.(target_rule_hits)) by apply merge_sort_Permutation.
  assert (Htop : top = take k es).
  { unfold top, s, snapshot. cbn [target_rule_top]. fold es k. rewrite <- list_fmap_compose.
    rewrite <- (list_fmap_id (take k es)) at 2. apply list_fmap_ext. by intros ? [? ?] ?. }
  assert (Hs : StronglySorted entry_le es) by apply (StronglySorted_merge_sort _).
  rewrite <- (take_drop k es) in Hs. apply StronglySorted_app in Hs as (H1 & H2 & H3).
  exists (drop k es). rewrite Htop, take_drop. split_and!; try done.
  - rewrite length_take. unfold k, TARGET_RULE_TOP_N. lia.
  - rewrite length_drop, length_take. unfold k, TARGET_RULE_TOP_N. lia.
  - assert (Hall : Forall (λ e, 0 ≤ e.2) es).
    { rewrite Hp, Forall_forall. intros [i n] Hin. apply elem_of_map_to_list in Hin.
      by apply (Hpos i n). }
    rewrite <- Hp in Hsum |- *. rewrite <- (take_drop k es), fmap_app, zsum_app in Hsum.
    assert (Ht : 0 ≤ zsum (take k es).*2).
    { apply zsum_nonneg, Forall_fmap. by apply (Forall_take _ k) in Hall. }
    change (target_rule_other_count s) with
      (foldl (λ acc e, saturating_add acc e.2) 0 (drop k es)).
    rewrite saturating_sum; [|by apply Forall_drop|done|lia].
    rewrite <- (take_drop k es) at 3. rewrite fmap_app, zsum_app. lia.
Qed.

(** ** Witnesses *)

Lemma metrics_count_decisions_witness :
  (record_all [Drop; DelayNs 3000000; Continue; Drop] AdvancedMetrics_new).(latency_sample_count) = 1.
Proof.
  refine (eq_trans (proj1 (proj2 (proj2
    (metrics_count_decisions [Drop; DelayNs 3000000; Continue; Drop] _)))) _); by vm_compute.
Defined.

Lemma percentile_spec_witness :
  percentile_from_histogram [0; 4; 0; 0; 0; 0; 0; 0; 1] 5 50 = 5000000 ∧
  ∃ i, (i < LATENCY_BUCKET_COUNT)%nat ∧
    percentile_from_histogram [0; 4; 0; 0; 0; 0; 0; 0; 1] 5 50 =
      LATENCY_BUCKET_UPPER_BOUNDS_NS !!! Nat.min i 7 ∧
    zsum (take i [0; 4; 0; 0; 0; 0; 0; 0; 1]) * 100 < 5 * 50 ≤
      zsum (take (S i) [0; 4; 0; 0; 0; 0; 0; 0; 1]) * 100.
Proof.
  split; [by vm_compute|].
  apply (percentile_spec [0; 4; 0; 0; 0; 0; 0; 0; 1] 5 50); try by vm_compute.
  repeat constructor; lia.
Defined.

Definition example_hits : AdvancedMetrics :=
  record_target_rule_hit 7 (record_target_rule_hit 9 (record_target_rule_hit 7 AdvancedMetrics_new)).

Lemma top_rules_spec_witness :
  ∃ rest, ((λ t, (t.(target_rule_id), t.(hits))) <$> (snapshot example_hits).(target_rule_top)) ++ rest
    ≡ₚ map_to_list example_hits.(target_rule_hits).
Proof.
  destruct (top_rules_spec example_hits) as (rest & H & _); [|by vm_compute|by exists rest].
  apply map_Forall_to_list. vm_compute. repeat constructor; done.
Defined.
