(* ===== verification/ChaosEngine.v ===== *)
(** * The chaos engine

    [faultcore_network/src/chaos_engine.rs]: the stages R1 to R7 with their
    decision counters, the main pipeline R2-R3-R4-R5-R6, and the evaluation
    entry points. *)

From S2P Require Import Prelude.
From S2P Require Import Config.
From S2P Require Import Layers.
From S2P Require Import R1SessionGuard.
From S2P Require Import R2ChaosBase.
From S2P Require Import R3FlowControl.
From S2P Require Import R4TimingVariation.
From S2P Require Import R5TransportFaults.
From S2P Require Import R6ResolverFaults.
From S2P Require Import R7PayloadTransform.
From S2P Require Import Observability.

Open Scope Z_scope.

(** ** Counters *)

(* faultcore_network/src/chaos_engine.rs:27-40 CounterType *)
Inductive CounterType : Type :=
  | CContinue | CDelay | CDrop | CTimeout | CError | CConnectionError | CReorder
  | CDuplicate | CNxDomain | CMutate | CSkipped.

Definition counter_index (t : CounterType) : nat :=
  match t with
  | CContinue => 0 | CDelay => 1 | CDrop => 2 | CTimeout => 3 | CError => 4
  | CConnectionError => 5 | CReorder => 6 | CDuplicate => 7 | CNxDomain => 8
  | CMutate => 9 | CSkipped => 10
  end.

(** Eleven counters, indexed by [CounterType]. *)
Abbreviation LayerMetrics := (list Z).

(* faultcore_network/src/chaos_engine.rs:42-51 LayerMetrics::new *)
Definition LayerMetrics_new : LayerMetrics := replicate 11 0.

Definition counter_of (d : LayerDecision) : CounterType :=
  match d with
  | Continue => CContinue
  | DelayNs _ => CDelay
  | Drop => CDrop
  | TimeoutMs _ => CTimeout
  | Error _ => CError
  | ConnectionErrorKind _ => CConnectionError
  | StageReorder => CReorder
  | Duplicate _ => CDuplicate
  | NxDomain => CNxDomain
  | Mutate _ => CMutate
  end.

(* faultcore_network/src/chaos_engine.rs:53-67 LayerMetrics::record_decision *)
Definition record_decision (d : LayerDecision) (m : LayerMetrics) : LayerMetrics :=
  alter incr (counter_index (counter_of d)) m.

(* faultcore_network/src/chaos_engine.rs:69-71 LayerMetrics::record_skipped *)
Definition record_skipped (m : LayerMetrics) : LayerMetrics :=
  alter incr (counter_index CSkipped) m.

(* faultcore_network/src/chaos_engine.rs:12-25 DecisionCounters *)
Record DecisionCounters : Type := mkDecisionCounters {
  continue_count : Z;
  delay_count : Z;
  drop_count : Z;
  timeout_count : Z;
  error_count : Z;
  connection_error_count : Z;
  reorder_count : Z;
  duplicate_count : Z;
  nxdomain_count : Z;
  mutate_count : Z;
  skipped_count : Z
}.

(* faultcore_network/src/chaos_engine.rs:73-88 LayerMetrics::snapshot *)
Definition LayerMetrics_snapshot (m : LayerMetrics) : DecisionCounters :=
  let load t := m !!! counter_index t in
  mkDecisionCounters (load CContinue) (load CDelay) (load CDrop) (load CTimeout) (load CError)
    (load CConnectionError) (load CReorder) (load CDuplicate) (load CNxDomain) (load CMutate)
    (load CSkipped).

(* faultcore_network/src/chaos_engine.rs:90-94 LayerMetrics::reset *)
Definition LayerMetrics_reset (m : LayerMetrics) : LayerMetrics := map (λ _, 0) m.

(** ** The engine *)

(* faultcore_network/src/chaos_engine.rs:115-124 ChaosEngine *)
Record ChaosEngine `{Host} : Type := mkChaosEngine {
  r2 : R2ChaosBase;
  r3 : R3FlowControl;
  r4 : R4TimingVariation;
  r5 : R5TransportFaults;
  r1 : R1SessionGuard;
  r7 : R7PayloadTransform;
  r6 : R6ResolverFaults;
  metrics : list LayerMetrics
}.

#[export] Instance eta_ChaosEngine `{Host} : Eta ChaosEngine := λ e, mkChaosEngine _
  (e.(r2)) (e.(r3)) (e.(r4)) (e.(r5)) (e.(r1)) (e.(r7)) (e.(r6)) (e.(metrics)).

(* faultcore_network/src/chaos_engine.rs:148-160 ChaosEngine::stage_index *)
Definition stage_index (s : LayerStage) : nat :=
  match s with
  | R0 => 0 | R1 => 1 | R2 => 2 | R3 => 3 | R4 => 4 | R5 => 5 | R6 => 6 | R7 => 7 | R8 => 8
  end.

(* faultcore_network/src/chaos_engine.rs:162-174 ChaosEngine::stage_order *)
Definition stage_order : list LayerStage := [R0; R1; R2; R3; R4; R5; R6; R7; R8].

(** [&dyn Layer]: a layer inside the engine. *)
Record LayerObj `{Host} : Type := mkLayerObj {
  obj_stage : LayerStage;
  obj_applies_to : PacketContext → bool;
  obj_process : PacketContext → M (ChaosEngine * World) LayerDecision;
  obj_name : string
}.

(** The engine's process state: itself, the global metrics, and the world. *)
Record Sys `{Host} : Type := mkSys {
  engine : ChaosEngine;
  advanced : AdvancedMetrics;
  world : World
}.

#[export] Instance eta_Sys `{Host} : Eta Sys := λ s, mkSys _ (s.(engine)) (s.(advanced)) (s.(world)).

Section engine.
  Context `{Host}.

(** A computation on one layer, run inside the engine. *)
Definition on_layer {L A} (get : ChaosEngine → L) (put : L → ChaosEngine → ChaosEngine)
    (c : M (L * World) A) : M (ChaosEngine * World) A :=
  zoom (λ s, (get s.1, s.2)) (λ lw s, (put lw.1 s.1, lw.2)) c.

Definition dyn (L : Type) `{!Layer L} (get : ChaosEngine → L) (put : L → ChaosEngine → ChaosEngine) :
    LayerObj :=
  mkLayerObj _ (stage L) (applies_to L) (λ ctx, on_layer get put (process ctx)) (name L).

Definition put_r1 (l : R1SessionGuard) (e : ChaosEngine) : ChaosEngine := e <| r1 := l |>.
Definition put_r2 (l : R2ChaosBase) (e : ChaosEngine) : ChaosEngine := e <| r2 := l |>.
Definition put_r3 (l : R3FlowControl) (e : ChaosEngine) : ChaosEngine := e <| r3 := l |>.
Definition put_r4 (l : R4TimingVariation) (e : ChaosEngine) : ChaosEngine := e <| r4 := l |>.
Definition put_r5 (l : R5TransportFaults) (e : ChaosEngine) : ChaosEngine := e <| r5 := l |>.
Definition put_r6 (l : R6ResolverFaults) (e : ChaosEngine) : ChaosEngine := e <| r6 := l |>.

(* faultcore_network/src/chaos_engine.rs:127-138 ChaosEngine::new *)
Definition ChaosEngine_new (faultcore_seed : option string) : M World ChaosEngine :=
  flow ← R3_with_rate 0;
  mret (mkChaosEngine _ (R2_new faultcore_seed) flow (R4_new faultcore_seed)
          (R5_new faultcore_seed) R1_new R7_new (R6_new faultcore_seed)
          (replicate 9 LayerMetrics_new)).

(* faultcore_network/src/chaos_engine.rs:176-179 ChaosEngine::metrics_snapshot *)
Definition metrics_snapshot (e : ChaosEngine) : list (LayerStage * DecisionCounters) :=
  zip stage_order (LayerMetrics_snapshot <$> e.(metrics)).

(* faultcore_network/src/chaos_engine.rs:185-189 ChaosEngine::reset_metrics *)
Definition reset_metrics (e : ChaosEngine) : ChaosEngine :=
  e <| metrics ::= map LayerMetrics_reset |>.

(** [self.metrics[stage_index(stage)].record_…] *)
Definition note (f : LayerMetrics → LayerMetrics) (s : LayerStage) :
    M (ChaosEngine * World) unit :=
  modify (λ ew, (ew.1 <| metrics ::= alter f (stage_index s) |>, ew.2)).

(* faultcore_network/src/chaos_engine.rs:181-183 ChaosEngine::record_config_resolve *)
Definition record_config_resolve : M (ChaosEngine * World) unit :=
  note (record_decision Continue) R0.

(** The loop of [process_pipeline] over the remaining stages. *)
(* faultcore_network/src/chaos_engine.rs:193-228 ChaosEngine::process_pipeline *)
Fixpoint run_stages (stages : list LayerObj) (ctx : PacketContext) (delay_ns : Z) :
    M (ChaosEngine * World) LayerDecision :=
  match stages with
  | [] => mret (if 0 <? delay_ns then DelayNs delay_ns else Continue)
  | layer :: stages =>
      if negb (layer.(obj_applies_to) ctx) then
        note record_skipped layer.(obj_stage);; run_stages stages ctx delay_ns
      else
        decision ← layer.(obj_process) ctx;
        note (record_decision decision) layer.(obj_stage);;
        match decision with
        | Continue => run_stages stages ctx delay_ns
        | DelayNs ns => run_stages stages ctx (saturating_add delay_ns ns)
        | Drop | TimeoutMs _ | Error _ | ConnectionErrorKind _ | NxDomain => mret decision
        | StageReorder | Duplicate _ =>
            mret (Error (layer.(obj_name) ++ " returned a post-routing decision in main pipeline"))
        | Mutate _ =>
            mret (Error (layer.(obj_name) ++ " returned an unsupported decision in main pipeline"))
        end
  end.

Definition pipeline : list LayerObj :=
  [dyn R2ChaosBase r2 put_r2; dyn R3FlowControl r3 put_r3; dyn R4TimingVariation r4 put_r4;
   dyn R5TransportFaults r5 put_r5; dyn R6ResolverFaults r6 put_r6].

(* faultcore_network/src/chaos_engine.rs:191-229 ChaosEngine::process_pipeline *)
Definition process_pipeline (ctx : PacketContext) : M (ChaosEngine * World) LayerDecision :=
  run_stages pipeline ctx 0.

(** ** Entry points *)

Definition on_engine {A} (c : M (ChaosEngine * World) A) : M Sys A :=
  zoom (λ s, (s.(engine), s.(world))) (λ ew s, s <| engine := ew.1 |> <| world := ew.2 |>) c.

Definition on_world {A} (c : M World A) : M Sys A := zoom world (λ w s, s <| world := w |>) c.

Definition record_fault_observability_decision (d : LayerDecision) : M Sys unit :=
  modify (λ s, s <| advanced ::= record_fault_decision d |>).

Definition effective (d : Direction) (c : Config) : Config :=
  match d with Uplink => effective_for_send c | Downlink => effective_for_recv c end.
Definition operation_of (d : Direction) : Operation :=
  match d with Uplink => Send | Downlink => Recv end.

(* faultcore_network/src/chaos_engine.rs:231-246 ChaosEngine::evaluate_connect *)
Definition evaluate_connect (fd : Z) (c : Config) : M Sys LayerDecision :=
  on_engine record_config_resolve;;
  now_ns ← on_world monotonic_now_ns;
  let ctx := mkPacketContext fd 0 Connect (Some Uplink) (effective_for_send c) now_ns in
  decision ← on_engine (process_pipeline ctx);
  record_fault_observability_decision decision;;
  mret decision.

(* faultcore_network/src/chaos_engine.rs:248-292 ChaosEngine::evaluate_stream_pre *)
Definition evaluate_stream_pre (fd : Z) (c : Config) (bytes : Z) (direction : Direction) :
    M Sys LayerDecision :=
  on_engine record_config_resolve;;
  let c := effective direction c in
  now_ns ← on_world monotonic_now_ns;
  let ctx := mkPacketContext fd bytes (operation_of direction) (Some direction) c now_ns in
  session_decision ← on_engine (on_layer r1 put_r1 (process ctx));
  on_engine (note (record_decision session_decision) R1);;
  if decide (session_decision = Continue) then
    decision ← on_engine (process_pipeline ctx);
    if decide (decision = Continue) then
      decision ← on_engine (on_layer r2 put_r2 (R2ChaosBase.reorder_decision c));
      on_engine (note (record_decision decision) R8);;
      record_fault_observability_decision decision;;
      mret decision
    else
      record_fault_observability_decision decision;;
      mret decision
  else
    record_fault_observability_decision session_decision;;
    mret session_decision.

(* faultcore_network/src/chaos_engine.rs:294-308 ChaosEngine::evaluate_stream_post *)
Definition evaluate_stream_post (c : Config) (direction : Direction) : M Sys LayerDecision :=
  match direction with
  | Uplink =>
      decision ← on_engine (on_layer r2 put_r2 (R2ChaosBase.duplicate_decision (effective Uplink c)));
      on_engine (note (record_decision decision) R8);;
      record_fault_observability_decision decision;;
      mret decision
  | Downlink => mret Continue
  end.

(* faultcore_network/src/chaos_engine.rs:310-324 ChaosEngine::evaluate_dns_lookup *)
Definition evaluate_dns_lookup (c : Config) : M Sys LayerDecision :=
  on_engine record_config_resolve;;
  now_ns ← on_world monotonic_now_ns;
  let ctx := mkPacketContext (-1) 0 DnsLookup None c now_ns in
  decision ← on_engine (process_pipeline ctx);
  record_fault_observability_decision decision;;
  mret decision.

(* faultcore_network/src/chaos_engine.rs:326-361 ChaosEngine::evaluate_r7_with_buffer *)
Definition evaluate_r7_with_buffer (fd : Z) (c : Config) (direction : Direction) (bytes : Z)
    (buffer : list Z) : M Sys (LayerDecision * option (list Z)) :=
  now_ns ← on_world monotonic_now_ns;
  let ctx := mkPacketContext fd bytes (operation_of direction) (Some direction)
               (effective direction c) now_ns in
  if negb (applies_to R7PayloadTransform ctx) then
    on_engine (note record_skipped R7);; mret (Continue, None)
  else
    r ← on_engine (on_layer r7 (λ l e, e <| r7 := l |>) (process_with_buffer ctx buffer));
    on_engine (note (record_decision r.1) R7);;
    (if decide (r.1 = Continue) then mret tt else record_fault_observability_decision r.1);;
    mret r.

(* faultcore_network/src/chaos_engine.rs:363-365 ChaosEngine::record_stream_bytes *)
Definition record_stream_bytes (fd bytes : Z) (e : ChaosEngine) : ChaosEngine :=
  e <| r5 ::= R5TransportFaults.record_stream_bytes fd bytes |>.

(* faultcore_network/src/chaos_engine.rs:367-370 ChaosEngine::clear_fd_state *)
Definition clear_fd_state (fd : Z) (e : ChaosEngine) : ChaosEngine :=
  e <| r5 ::= R5TransportFaults.clear_fd_state fd |>
    <| r1 ::= R1SessionGuard.clear_fd_state fd |>.
End engine.

(** ** Lenses *)

(** Reading a layer back after replacing it. *)
Class Lens `{Host} {L : Type} (get : ChaosEngine → L) (put : L → ChaosEngine → ChaosEngine) : Prop := {
  get_put l e : get (put l e) = l;
  put_metrics l e : (put l e).(metrics) = e.(metrics);
}.

#[export] Instance lens_r1 `{Host} : Lens r1 put_r1. Proof. by split. Qed.
#[export] Instance lens_r2 `{Host} : Lens r2 put_r2. Proof. by split. Qed.
#[export] Instance lens_r3 `{Host} : Lens r3 put_r3. Proof. by split. Qed.
#[export] Instance lens_r4 `{Host} : Lens r4 put_r4. Proof. by split. Qed.
#[export] Instance lens_r5 `{Host} : Lens r5 put_r5. Proof. by split. Qed.
#[export] Instance lens_r6 `{Host} : Lens r6 put_r6. Proof. by split. Qed.

Lemma on_layer_run `{Host} {L A} get put (c : M (L * World) A) s :
  on_layer get put c s =
    let r := c (get s.1, s.2) in (r.1, (put r.2.1 s.1, r.2.2)).
Proof. done. Qed.

(** ** What one pipeline run answers *)

(** A decision that ends the pipeline. *)
Definition stops (d : LayerDecision) : bool :=
  match d with Continue | DelayNs _ => false | _ => true end.

(** The decisions of the stages that apply, up to the first that stops. *)
Fixpoint decisions `{Host} (stages : list LayerObj) (ctx : PacketContext)
    (s : ChaosEngine * World) : list LayerDecision :=
  match stages with
  | [] => []
  | layer :: stages =>
      if negb (layer.(obj_applies_to) ctx) then
        decisions stages ctx (note record_skipped layer.(obj_stage) s).2
      else
        let r := layer.(obj_process) ctx s in
        r.1 :: if stops r.1 then []
               else decisions stages ctx (note (record_decision r.1) layer.(obj_stage) r.2).2
  end.

Definition delay_of (d : LayerDecision) : Z := match d with DelayNs ns => ns | _ => 0 end.

(** The first decision that stops, or else the sum of the delays. *)
Definition answer (ds : list LayerDecision) (delay_ns : Z) : LayerDecision :=
  match list_find (λ d, stops d = true) ds with
  | Some (_, d) => d
  | None =>
      let total := Z.min (delay_ns + zsum (delay_of <$> ds)) u64_max in
      if 0 <? total then DelayNs total else Continue
  end.

Definition obj_main `{Host} (o : LayerObj) : Prop :=
  ∀ ctx s, ctx_ok ctx → main_decision (o.(obj_process) ctx s).1.

Lemma dyn_main `{StageLayer L} get put :
  (∀ l, layer_ok (L:=L) l) → obj_main (dyn L get put).
Proof.
  intros Hok ctx s Hctx. cbn [dyn obj_process]. rewrite on_layer_run. by apply process_main.
Qed.

Lemma pipeline_main `{HostLaws} : Forall obj_main pipeline.
Proof. repeat (apply Forall_cons_2; [by apply dyn_main|]). by apply Forall_nil. Qed.

Lemma delays_nonneg ds : Forall main_decision ds → 0 ≤ zsum (delay_of <$> ds).
Proof.
  intros H. apply zsum_nonneg, Forall_fmap. eapply Forall_impl; [exact H|].
  intros []; cbn; mach || done.
Qed.

Lemma answer_nil n : 0 ≤ n ≤ u64_max → answer [] n = if 0 <? n then DelayNs n else Continue.
Proof.
  intros Hn. unfold answer. cbn [list_find].
  by replace (Z.min (n + zsum (delay_of <$> [])) u64_max) with n by (cbn -[u64_max]; lia).
Qed.

Lemma answer_cons d ds n :
  main_decision d → Forall main_decision ds → 0 ≤ n ≤ u64_max →
  answer (d :: ds) n = if stops d then d else answer ds (saturating_add n (delay_of d)).
Proof.
  intros Hd Hds Hn. unfold answer. cbn [list_find].
  destruct (stops d) eqn:E; [by rewrite decide_True|]. rewrite decide_False by done.
  assert (Hz : 0 ≤ delay_of d) by (destruct d; cbn in *; mach || done).
  pose proof (delays_nonneg ds Hds).
  change (zsum (delay_of <$> d :: ds)) with (delay_of d + zsum (delay_of <$> ds)).
  replace (Z.min (saturating_add n (delay_of d) + zsum (delay_of <$> ds)) u64_max)
    with (Z.min (n + (delay_of d + zsum (delay_of <$> ds))) u64_max) by mach.
  by destruct (list_find (λ d, stops d = true) ds) as [[i d']|].
Qed.

Lemma run_stages_answer `{Host} stages ctx n s :
  Forall obj_main stages → ctx_ok ctx → 0 ≤ n ≤ u64_max →
  Forall main_decision (decisions stages ctx s) ∧
  (run_stages stages ctx n s).1 = answer (decisions stages ctx s) n.
Proof.
  intros Hm Hctx. revert n s; induction Hm as [|o stages Ho _ IH]; intros n s Hn.
  { split; [constructor|]. cbn [decisions run_stages]. by rewrite answer_nil. }
  cbn [decisions run_stages]. destruct (negb (obj_applies_to o ctx)).
  { run_simpl. by apply IH. }
  run_simpl. pose proof (Ho ctx s Hctx) as Hd.
  destruct (obj_process o ctx s) as [d s']. cbn [fst snd] in *.
  set (s1 := (note (record_decision d) (obj_stage o) s').2).
  assert (Hds : Forall main_decision (if stops d then [] else decisions stages ctx s1)).
  { destruct (stops d); [constructor|]. by destruct (IH n s1). }
  split; [by constructor|]. rewrite answer_cons by done.
  destruct d; cbn in Hd; try done; cbn [stops delay_of].
  - destruct (IH n s1) as [_ E]; [done|]. rewrite E. f_equal. mach.
  - destruct (IH (saturating_add n ns) s1) as [_ E]; [mach|]. exact E.
Qed.

(** ** What one pipeline run counts *)

(** The number of stages a run reaches. *)
Fixpoint reached `{Host} (stages : list LayerObj) (ctx : PacketContext)
    (s : ChaosEngine * World) : nat :=
  match stages with
  | [] => 0
  | layer :: stages =>
      if negb (layer.(obj_applies_to) ctx) then
        S (reached stages ctx (note record_skipped layer.(obj_stage) s).2)
      else
        let r := layer.(obj_process) ctx s in
        S (if stops r.1 then 0
           else reached stages ctx (note (record_decision r.1) layer.(obj_stage) r.2).2)
  end.

(** Eleven counters, none about to wrap. *)
Definition row_ok (m : LayerMetrics) : Prop :=
  length m = 11%nat ∧ Forall (λ n, 0 ≤ n < u64_max) m.

(** The counters of a stage, and all the decisions they have counted. *)
Definition row `{Host} (e : ChaosEngine) (st : LayerStage) : LayerMetrics :=
  e.(metrics) !!! stage_index st.
Definition counted `{Host} (e : ChaosEngine) (st : LayerStage) : Z := zsum (row e st).

Definition metrics_ok `{Host} (e : ChaosEngine) : Prop :=
  length e.(metrics) = 9%nat ∧ Forall row_ok e.(metrics).

Lemma zsum_alter_incr (m : LayerMetrics) i :
  row_ok m → (i < 11)%nat → zsum (alter incr i m) = zsum m + 1.
Proof.
  intros [Hl Hm] Hi. rewrite <- Hl in Hi. apply lookup_lt_is_Some_2 in Hi as [x Hx].
  assert (E : alter incr i m = <[i := incr x]> m).
  { apply list_eq. intros k. rewrite lookup_alter_dec. case_decide as Hk.
    - subst k. rewrite Hx, list_lookup_insert_eq by (by eapply lookup_lt_Some). done.
    - by rewrite list_lookup_insert_ne. }
  rewrite E, (zsum_insert _ _ x) by done.
  rewrite Forall_forall in Hm. specialize (Hm x (list_elem_of_lookup_2 _ _ _ Hx)).
  unfold incr. rewrite wrapping_add_small; mach.
Qed.

Lemma counter_index_lt t : (counter_index t < 11)%nat.
Proof. destruct t; cbn; lia. Qed.

Lemma stage_index_lt st : (stage_index st < 9)%nat.
Proof. destruct st; cbn; lia. Qed.

Lemma stage_index_inj st st' : stage_index st = stage_index st' → st = st'.
Proof. by destruct st, st'. Qed.

(** A note touches its own row only. *)
Lemma note_row `{Host} f st st' s :
  length s.1.(metrics) = 9%nat →
  length (note f st s).2.1.(metrics) = 9%nat ∧
  row (note f st s).2.1 st' = if decide (st = st') then f (row s.1 st') else row s.1 st'.
Proof.
  intros Hl. unfold row, note. cbn [modify fst snd update metrics]. rewrite length_alter.
  split; [done|].
  destruct (lookup_lt_is_Some_2 (metrics s.1) (stage_index st')) as [m Hm];
    [rewrite Hl; apply stage_index_lt|].
  rewrite !list_lookup_total_alt, lookup_alter_dec, Hm. cbn [default].
  case_decide as E1; case_decide as E2; try done; [by apply stage_index_inj in E1|by subst].
Qed.

(** A stage that leaves the counters alone. *)
Definition obj_quiet `{Host} (o : LayerObj) : Prop :=
  ∀ ctx s, (o.(obj_process) ctx s).2.1.(metrics) = s.1.(metrics).

Lemma dyn_quiet `{Layer L} get put `{!Lens get put} : obj_quiet (dyn L get put).
Proof. intros ctx s. cbn [dyn obj_process]. rewrite on_layer_run. exact (put_metrics (get:=get) _ _). Qed.

Lemma pipeline_quiet `{Host} : Forall obj_quiet pipeline.
Proof. repeat (apply Forall_cons_2; [exact (dyn_quiet _ _)|]). by apply Forall_nil. Qed.

(** What a stretch of the pipeline from [e] to [e'] over stages of the given
    names, of which the first [n] were reached, does to the row of [st]. *)
Definition stretch `{Host} (st : LayerStage) (names : list LayerStage) (n : nat)
    (e e' : ChaosEngine) : Prop :=
  (st ∉ names → row e' st = row e st) ∧
  (NoDup names → row_ok (row e st) →
     counted e' st = counted e st + if decide (st ∈ take n names) then 1 else 0).

Lemma stretch_nil `{Host} st names e : stretch st names 0 e e.
Proof.
  split; [done|]. intros _ _. rewrite decide_False; [lia|]. rewrite take_0. apply not_elem_of_nil.
Qed.

Lemma stretch_cons `{Host} st st0 names n k e s e' :
  length e.(metrics) = 9%nat → s.1.(metrics) = e.(metrics) → (k < 11)%nat →
  stretch st names n (note (alter incr k) st0 s).2.1 e' →
  stretch st (st0 :: names) (S n) e e'.
Proof.
  intros Hl Hs Hk [H1 H2].
  destruct (note_row (alter incr k) st0 st s) as [_ Hrow]; [by rewrite Hs|].
  assert (He : row s.1 st = row e st) by (unfold row; by rewrite Hs). rewrite He in Hrow.
  split.
  - rewrite not_elem_of_cons. intros [Hne Hin]. by rewrite H1, Hrow, decide_False.
  - intros [Hnin Hnd]%NoDup_cons Hok. cbn [take]. destruct (decide (st0 = st)) as [->|Hne].
    + unfold counted. rewrite (H1 Hnin), Hrow, zsum_alter_incr by done.
      by rewrite decide_True by by left.
    + unfold counted in *. rewrite H2, Hrow by (rewrite ?Hrow; done). f_equal.
      apply decide_ext. rewrite elem_of_cons. intuition congruence.
Qed.

Lemma run_stages_rows `{Host} stages ctx n s st :
  Forall obj_quiet stages → length s.1.(metrics) = 9%nat →
  let s' := (run_stages stages ctx n s).2 in
  length s'.1.(metrics) = 9%nat ∧
  stretch st (obj_stage <$> stages) (reached stages ctx s) s.1 s'.1.
Proof.
  intros Hq. revert n s; induction Hq as [|o stages Ho Hq IH]; intros n s Hl.
  { split; [done|apply stretch_nil]. }
  cbn [run_stages reached fmap list_fmap]. destruct (negb (obj_applies_to o ctx)).
  - run_simpl. set (s1 := (note record_skipped (obj_stage o) s).2).
    destruct (IH n s1) as [L1 R1]; [by apply note_row|]. split; [done|].
    by apply stretch_cons with (k := 10%nat) (s := s); [done|done|lia|].
  - run_simpl. generalize (Ho ctx s). destruct (obj_process o ctx s) as [d s0]. intros Hm.
    cbn [fst snd] in *. set (s1 := (note (record_decision d) (obj_stage o) s0).2).
    assert (Hl1 : length s1.1.(metrics) = 9%nat) 
      by (refine (proj1 (note_row _ _ R0 s0 _)); by rewrite Hm).
    assert (Hstep : ∀ m e', stretch st (obj_stage <$> stages) m s1.1 e' →
              stretch st (obj_stage o :: (obj_stage <$> stages)) (S m) s.1 e').
    { intros m e'. apply stretch_cons; [done|done|apply counter_index_lt]. }
    destruct d; cbn [stops]; run_simpl;
      first [by split; [done|apply Hstep, stretch_nil]
            |destruct (IH n s1 Hl1) as [L1 R1]; by split; [done|apply Hstep]
            |destruct (IH (saturating_add n ns) s1 Hl1) as [L1 R1]; by split; [done|apply Hstep]].
Qed.

(** ** Sequences of calls *)

Inductive Call : Type :=
  | CallConnect (fd : Z) (c : Config)
  | CallPre (fd : Z) (c : Config) (bytes : Z) (d : Direction)
  | CallPost (c : Config) (d : Direction)
  | CallDns (c : Config)
  | CallPayload (fd : Z) (c : Config) (d : Direction) (bytes : Z) (buffer : list Z)
  | CallBytes (fd bytes : Z)
  | CallClear (fd : Z).

(** The descriptor a call is about. *)
Definition call_fd (k : Call) : option Z :=
  match k with
  | CallConnect fd _ | CallPre fd _ _ _ | CallPayload fd _ _ _ _ | CallBytes fd _ | CallClear fd => Some fd
  | CallPost _ _ | CallDns _ => None
  end.

Definition run_call `{Host} (k : Call) : M Sys LayerDecision :=
  match k with
  | CallConnect fd c => evaluate_connect fd c
  | CallPre fd c bytes d => evaluate_stream_pre fd c bytes d
  | CallPost c d => evaluate_stream_post c d
  | CallDns c => evaluate_dns_lookup c
  | CallPayload fd c d bytes buffer =>
      r ← evaluate_r7_with_buffer fd c d bytes buffer; mret r.1
  | CallBytes fd bytes => modify (λ s, s <| engine ::= record_stream_bytes fd bytes |>);; mret Continue
  | CallClear fd => modify (λ s, s <| engine ::= clear_fd_state fd |>);; mret Continue
  end.

Fixpoint run_calls `{Host} (ks : list Call) : M Sys (list LayerDecision) :=
  match ks with
  | [] => mret []
  | k :: ks => d ← run_call k; ds ← run_calls ks; mret (d :: ds)
  end.

(** ** Isolation of descriptors *)

(** What the engine remembers about a descriptor. *)
Definition fd_state `{Host} (e : ChaosEngine) (i : Z) :
    View R1SessionGuard * View R2ChaosBase * View R5TransportFaults :=
  (view e.(r1) i, view e.(r2) i, view e.(r5) i).

Definition obj_local `{Host} (o : LayerObj) : Prop :=
  ∀ ctx s i, i ≠ ctx.(fd) → fd_state (o.(obj_process) ctx s).2.1 i = fd_state s.1 i.

Lemma pipeline_local `{Host} : Forall obj_local pipeline.
Proof.
  repeat apply Forall_cons_2; [..|by apply Forall_nil]; intros ctx s i Hi;
    cbn [dyn obj_process]; rewrite on_layer_run; unfold fd_state; cbn [fst snd].
  - change (view (r2 (put_r2 _ _)) i) with (view (process (L:=R2ChaosBase) ctx (r2 s.1, s.2)).2.1 i).
    by rewrite process_view.
  - done.
  - done.
  - change (view (r5 (put_r5 _ _)) i) with (view (process (L:=R5TransportFaults) ctx (r5 s.1, s.2)).2.1 i).
    by rewrite process_view.
  - done.
Qed.

Lemma run_stages_local `{Host} stages ctx n s i :
  Forall obj_local stages → i ≠ ctx.(fd) →
  fd_state (run_stages stages ctx n s).2.1 i = fd_state s.1 i.
Proof.
  intros Hl Hi. revert n s; induction Hl as [|o stages Ho _ IH]; intros n s; [done|].
  cbn [run_stages]. destruct (negb (obj_applies_to o ctx)); run_simpl; [by rewrite IH|].
  generalize (Ho ctx s i Hi). destruct (obj_process o ctx s) as [d s']. cbn [fst snd]. intros <-.
  destruct d; run_simpl; try done; by rewrite IH.
Qed.

Section isolation.
Context `{Host} (i : Z).

(** Computations that leave what is remembered about [i] alone. *)
Definition keeps {A} (c : M Sys A) : Prop :=
  ∀ s, fd_state (c s).2.(engine) i = fd_state s.(engine) i.

Lemma keeps_ret {A} (a : A) : keeps (mret a).
Proof. done. Qed.

Lemma keeps_bind {A B} (c : M Sys A) (f : A → M Sys B) :
  keeps c → (∀ a, keeps (f a)) → keeps (c ≫= f).
Proof. intros Hc Hf s. rewrite bind_run. by rewrite Hf, Hc. Qed.

Lemma keeps_engine {A} (c : M (ChaosEngine * World) A) :
  (∀ s, fd_state (c s).2.1 i = fd_state s.1 i) → keeps (on_engine c).
Proof. intros Hc s. unfold on_engine. rewrite zoom_run. cbn. by rewrite Hc. Qed.

Lemma keeps_note f st : keeps (on_engine (note f st)).
Proof. by apply keeps_engine. Qed.

Lemma keeps_world {A} (c : M World A) : keeps (on_world c).
Proof. done. Qed.

Lemma keeps_observe d : keeps (record_fault_observability_decision d).
Proof. done. Qed.

Lemma keeps_pipeline ctx : i ≠ ctx.(fd) → keeps (on_engine (process_pipeline ctx)).
Proof. intros Hi. apply keeps_engine. intros s. by apply run_stages_local; [apply pipeline_local|]. Qed.

Lemma event_view p c s :
  view (R2ChaosBase.event_happens p c s).2.1 i = view s.1 i.
Proof. done. Qed.

Lemma reorder_keeps c : keeps (on_engine (on_layer r2 put_r2 (reorder_decision c))).
Proof. by apply keeps_engine. Qed.

Lemma count_events_view n p c k s :
  view (count_events n p c k s).2.1 i = view s.1 i.
Proof.
  revert k s; induction n as [|n IH]; intros k s; cbn [count_events]; run_simpl; [done|].
  by rewrite IH, event_view.
Qed.

Lemma duplicate_keeps c : keeps (on_engine (on_layer r2 put_r2 (duplicate_decision c))).
Proof.
  apply keeps_engine. intros s. rewrite on_layer_run. cbn [fst snd]. unfold fd_state.
  change (view (r2 (put_r2 ?l _)) i) with (view l i). do 2 f_equal.
  unfold duplicate_decision, duplicate_extra. run_simpl.
  destruct (dup_prob_ppm c =? 0); [done|]. by rewrite count_events_view.
Qed.
End isolation.

Create HintDb keeps.
#[export] Hint Resolve keeps_ret keeps_bind keeps_note keeps_world keeps_observe keeps_pipeline
  reorder_keeps duplicate_keeps : keeps.

Lemma keeps_modify `{Host} i (f : ChaosEngine → ChaosEngine) :
  (∀ e, fd_state (f e) i = fd_state e i) → keeps i (modify (λ s, s <| engine ::= f |>)).
Proof. intros Hf s. apply Hf. Qed.

Lemma record_stream_bytes_local `{Host} fd n e i :
  i ≠ fd → fd_state (record_stream_bytes fd n e) i = fd_state e i.
Proof.
  intros Hi. unfold fd_state, record_stream_bytes. cbn. f_equal.
  unfold R5TransportFaults.record_stream_bytes. destruct (_ || _); [done|].
  destruct (stream_bytes (r5 e) !! fd); cbn; by rewrite lookup_insert_ne.
Qed.

Lemma clear_fd_state_local `{Host} fd e i :
  i ≠ fd → fd_state (clear_fd_state fd e) i = fd_state e i.
Proof.
  intros Hi. unfold fd_state, clear_fd_state. cbn.
  unfold R5TransportFaults.clear_fd_state, R1SessionGuard.clear_fd_state.
  destruct (fd <? 0); cbn; rewrite ?lookup_delete_ne by done; done.
Qed.

(** Walks through an entry point. *)
Ltac keep :=
  repeat (cbn zeta; lazymatch goal with
    | |- keeps _ (mret _) => apply keeps_ret
    | |- keeps _ (mbind _ _) => apply keeps_bind; [|intros ?]
    | |- keeps _ (on_engine (note _ _)) => apply keeps_note
    | |- keeps _ (on_engine record_config_resolve) => apply keeps_note
    | |- keeps _ (on_engine (process_pipeline _)) => apply keeps_pipeline; cbn; congruence || lia
    | |- keeps _ (on_engine (on_layer _ _ (reorder_decision _))) => apply reorder_keeps
    | |- keeps _ (on_engine (on_layer _ _ (duplicate_decision _))) => apply duplicate_keeps
    | |- keeps _ (on_world _) => apply keeps_world
    | |- keeps _ (record_fault_observability_decision _) => apply keeps_observe
    | |- keeps _ (if decide _ then _ else _) => case_decide
    end).

Lemma run_call_keeps `{Host} k i : 0 ≤ i → call_fd k ≠ Some i → keeps i (run_call k).
Proof.
  intros Hi Hk. destruct k; cbn [run_call call_fd] in *.
  - unfold evaluate_connect. keep.
  - unfold evaluate_stream_pre. keep. apply keeps_engine. intros s. rewrite on_layer_run.
    unfold fd_state. cbn [fst snd]. change (view (r1 (put_r1 ?l _)) i) with (view l i).
    rewrite process_view; [done|]. cbn. congruence.
  - destruct d; cbn [evaluate_stream_post]; keep.
  - unfold evaluate_dns_lookup. keep.
  - unfold evaluate_r7_with_buffer. keep. destruct (negb _); keep. by apply keeps_engine.
  - keep. apply keeps_modify. intros e. apply record_stream_bytes_local. congruence.
  - keep. apply keeps_modify. intros e. apply clear_fd_state_local. congruence.
Qed.

(** ** Reproducibility under a seed *)

(** Everything but the process-wide generators, the session accounts and the
    counters; the engine's own rate limiter has no rate. *)
Definition engine_same `{HostLaws} (e e' : ChaosEngine) : Prop :=
  same e.(r2) e'.(r2) ∧ same e.(r3) e'.(r3) ∧ same e.(r4) e'.(r4) ∧
  same e.(r5) e'.(r5) ∧ same e.(r6) e'.(r6).

Section seeded.
Context `{HostLaws}.

Definition obj_seeded (o : LayerObj) : Prop :=
  (∀ ctx, 0 < ctx.(config).(policy_seed) → ctx.(config).(bandwidth_bps) = 0 →
     det engine_same (o.(obj_process) ctx)) ∧
  ∀ ctx n, o.(obj_process) (ctx <| now_ns := n |>) = o.(obj_process) ctx ∧
           o.(obj_applies_to) (ctx <| now_ns := n |>) = o.(obj_applies_to) ctx.

Lemma dyn_seeded {L} `{!Layer L, !SeedDetermined L} get put :
  (∀ e e', engine_same e e' → same (get e) (get e')) →
  (∀ e e' l l', engine_same e e' → same l l' → engine_same (put l e) (put l' e')) →
  (∀ ctx n, applies_to L (ctx <| now_ns := n |>) = applies_to L ctx) →
  obj_seeded (dyn L get put).
Proof.
  intros Hget Hput Happ. split.
  - intros ctx Hs Hb l l' w w' Hl. cbn [dyn obj_process]. rewrite !on_layer_run. cbn [fst snd].
    destruct (process_seeded ctx (get l) (get l') w w' Hs Hb (Hget _ _ Hl)) as [E1 E2].
    split; [exact E1|by apply Hput].
  - intros ctx n. cbn. by rewrite process_clockless, Happ.
Qed.

Lemma pipeline_seeded : Forall obj_seeded pipeline.
Proof.
  repeat apply Forall_cons_2; [..|by apply Forall_nil]; apply dyn_seeded;
    try (by intros e e' (? & ? & ? & ? & ?)); try done;
    by intros e e' l l' (? & ? & ? & ? & ?) Hl.
Qed.

Lemma det_note f st : det engine_same (note f st).
Proof. by apply (det_modify engine_same (λ e, e <| metrics ::= alter f (stage_index st) |>)). Qed.

Lemma det_run_stages stages ctx n :
  Forall obj_seeded stages → 0 < ctx.(config).(policy_seed) → ctx.(config).(bandwidth_bps) = 0 →
  det engine_same (run_stages stages ctx n).
Proof.
  intros Hst Hs Hb. revert n; induction Hst as [|o stages [Ho _] _ IH]; intros n;
    [apply det_ret|]. cbn [run_stages]. apply det_if.
  - apply det_bind; [apply det_note|intros _; apply IH].
  - apply det_bind; [by apply Ho|intros d]. apply det_bind; [apply det_note|intros _].
    destruct d; solve [apply IH|apply det_ret].
Qed.

Lemma run_stages_clockless stages ctx n m s :
  Forall obj_seeded stages →
  run_stages stages (ctx <| now_ns := m |>) n s = run_stages stages ctx n s.
Proof.
  intros Hst. revert n s; induction Hst as [|o stages [_ Ho] _ IH]; intros n s; [done|].
  cbn [run_stages]. destruct (Ho ctx m) as [-> ->]. destruct (negb _); run_simpl; [apply IH|].
  destruct (obj_process o ctx s) as [[] s']; run_simpl; try done; apply IH.
Qed.

(** Two computations that, from engines that agree, give the same result and
    engines that agree. *)
Definition agree {A} (c c' : M Sys A) : Prop :=
  ∀ s s', engine_same s.(engine) s'.(engine) →
    (c s).1 = (c' s').1 ∧ engine_same (c s).2.(engine) (c' s').2.(engine).

Lemma agree_ret {A} (a : A) : agree (mret a) (mret a).
Proof. done. Qed.

Lemma agree_bind {A B} (c c' : M Sys A) (f f' : A → M Sys B) :
  agree c c' → (∀ a, agree (f a) (f' a)) → agree (c ≫= f) (c' ≫= f').
Proof.
  intros Hc Hf s s' Hs. rewrite !bind_run. destruct (Hc s s' Hs) as [E HR]. rewrite <- E.
  by apply Hf.
Qed.

(** The clock may read differently, as long as the rest does not notice. *)
Lemma agree_now {B} (f f' : Z → M Sys B) :
  (∀ n n', agree (f n) (f' n')) →
  agree (on_world monotonic_now_ns ≫= f) (on_world monotonic_now_ns ≫= f').
Proof. intros Hf s s' Hs. rewrite !bind_run. by apply Hf. Qed.

Lemma agree_engine {A} (c : M (ChaosEngine * World) A) :
  det engine_same c → agree (on_engine c) (on_engine c).
Proof. intros Hc s s' Hs. unfold on_engine. rewrite !zoom_run. by apply Hc. Qed.

Lemma agree_observe d :
  agree (record_fault_observability_decision d) (record_fault_observability_decision d).
Proof. done. Qed.

Lemma agree_pipeline ctx n n' :
  0 < ctx.(config).(policy_seed) → ctx.(config).(bandwidth_bps) = 0 →
  agree (on_engine (process_pipeline (ctx <| now_ns := n |>)))
        (on_engine (process_pipeline (ctx <| now_ns := n' |>))).
Proof.
  intros Hs Hb s s' HR. unfold on_engine. rewrite !zoom_run. unfold process_pipeline.
  rewrite !run_stages_clockless by apply pipeline_seeded.
  by apply det_run_stages; [apply pipeline_seeded|..].
Qed.
End seeded.

#[export] Hint Resolve agree_ret agree_bind agree_observe agree_engine det_note : det.

(** A configuration that is seeded and does not look at the clock. *)
Definition seeded_config (c : Config) : Prop :=
  0 < c.(policy_seed) ∧ c.(bandwidth_bps) = 0 ∧ c.(uplink_bandwidth_bps) = 0 ∧
  c.(downlink_bandwidth_bps) = 0 ∧ c.(session_budget_enabled) = 0.

Definition seeded_call (k : Call) : Prop :=
  match k with
  | CallConnect _ c | CallPre _ c _ _ | CallPost c _ | CallDns c => seeded_config c
  | CallPayload _ _ _ _ _ => False
  | CallBytes _ _ | CallClear _ => True
  end.

Lemma seeded_effective d c : seeded_config c → seeded_config (effective d c).
Proof.
  intros (H1 & H2 & H3 & H4 & H5). unfold seeded_config.
  destruct d; cbn; rewrite ?H2, ?H3, ?H4; by split_and!.
Qed.

Section seeded_calls.
Context `{HostLaws}.

Lemma R1_off ctx (s : R1SessionGuard * World) :
  ctx.(config).(session_budget_enabled) = 0 → R1_process ctx s = (Continue, s).
Proof.
  intros E. unfold R1_process, precheck. rewrite E. destruct (direction ctx); [|done].
  rewrite orb_true_r. cbn. by destruct s.
Qed.

Lemma agree_session ctx n n' :
  ctx.(config).(session_budget_enabled) = 0 →
  agree (on_engine (on_layer r1 put_r1 (process (ctx <| now_ns := n |>))))
        (on_engine (on_layer r1 put_r1 (process (ctx <| now_ns := n' |>)))).
Proof.
  intros E s s' Hs. unfold on_engine. rewrite !zoom_run, !on_layer_run. cbn [process R1_layer].
  by rewrite !R1_off.
Qed.

Lemma det_on_r2 {A} (c : M (R2ChaosBase * World) A) :
  det R2_same c → det engine_same (on_layer r2 put_r2 c).
Proof.
  intros Hc l l' w w' (H2 & H3 & H4 & H5 & H6). rewrite !on_layer_run. cbn [fst snd].
  destruct (Hc (r2 l) (r2 l') w w' H2) as [E1 E2]. split; [exact E1|]. by split.
Qed.

Lemma agree_modify (f : ChaosEngine → ChaosEngine) :
  (∀ e e', engine_same e e' → engine_same (f e) (f e')) →
  agree (modify (λ s, s <| engine ::= f |>)) (modify (λ s, s <| engine ::= f |>)).
Proof. intros Hf s s' Hs. split; [done|]. by apply Hf. Qed.

Lemma agree_bind_engine {A B} (c : M (ChaosEngine * World) A) (f f' : A → M Sys B) :
  det engine_same c → (∀ a, agree (f a) (f' a)) →
  agree (on_engine c ≫= f) (on_engine c ≫= f').
Proof. intros. apply agree_bind; [by apply agree_engine|done]. Qed.

Lemma agree_report d :
  agree (record_fault_observability_decision d;; mret d)
        (record_fault_observability_decision d;; mret d).
Proof. apply agree_bind; [done|intros _; done]. Qed.

Lemma run_call_agree k : seeded_call k → agree (run_call k) (run_call k).
Proof.
  destruct k; cbn [run_call seeded_call]; intros Hk; try done.
  - apply agree_bind_engine; [apply det_note|intros _]. apply agree_now. intros n n'.
    apply (seeded_effective Uplink) in Hk as (? & ? & _). apply agree_bind; [|apply agree_report].
    by apply (agree_pipeline (mkPacketContext fd 0 Connect (Some Uplink) (effective_for_send c) 0)).
  - apply (seeded_effective d) in Hk as (Hs & Hb & _ & _ & He).
    apply agree_bind_engine; [apply det_note|intros _]. apply agree_now. intros n n'.
    set (ctx := mkPacketContext fd bytes (operation_of d) (Some d) (effective d c) 0).
    apply agree_bind; [by apply (agree_session ctx)|intros d0].
    apply agree_bind_engine; [apply det_note|intros _]. case_decide; [|apply agree_report].
    apply agree_bind; [by apply (agree_pipeline ctx)|intros d1]. case_decide; [|apply agree_report].
    apply agree_bind_engine; [by apply det_on_r2, det_reorder|intros d2].
    apply agree_bind_engine; [apply det_note|intros _]. apply agree_report.
  - destruct d; [|done]. apply (seeded_effective Uplink) in Hk as (Hs & _).
    apply agree_bind_engine; [by apply det_on_r2, det_duplicate|intros d2].
    apply agree_bind_engine; [apply det_note|intros _]. apply agree_report.
  - destruct Hk as (Hs & Hb & _).
    apply agree_bind_engine; [apply det_note|intros _]. apply agree_now. intros n n'.
    apply agree_bind; [|apply agree_report].
    by apply (agree_pipeline (mkPacketContext (-1) 0 DnsLookup None c 0)).
  - apply agree_bind; [|done]. apply agree_modify. intros e e' (? & ? & ? & [? E] & ?).
    split_and!; try done. split; cbn; unfold R5TransportFaults.record_stream_bytes;
      destruct (_ || _); cbn; try done; rewrite E; by destruct (_ !! fd); cbn; rewrite ?E.
  - apply agree_bind; [|done]. apply agree_modify. intros e e' (? & ? & ? & [? E] & ?).
    split_and!; try done. split; cbn; unfold R5TransportFaults.clear_fd_state;
      destruct (_ <? _); cbn; try done; by rewrite E.
Qed.
End seeded_calls.

(** ** The stream check, case by case *)

Section stream_pre.
Context `{Host} (fd : Z) (c : Config) (bytes : Z) (d : Direction) (s : Sys).
Let now := (monotonic_now_ns s.(world)).1.
Let w := (monotonic_now_ns s.(world)).2.
Let ctx := mkPacketContext fd bytes (operation_of d) (Some d) (effective d c) now.
Let e0 := s.(engine) <| metrics ::= alter (record_decision Continue) 0%nat |>.
Let r := precheck fd bytes d (effective d c) now s.(engine).(r1).
Let e1 := (put_r1 r.2 e0) <| metrics ::= alter (record_decision r.1) 1%nat |>.

(** The check up to the session guard's verdict. *)
Lemma stream_pre_session :
  evaluate_stream_pre fd c bytes d s =
    (if decide (r.1 = Continue) then
       decision ← on_engine (process_pipeline ctx);
       if decide (decision = Continue) then
         decision ← on_engine (on_layer r2 put_r2 (reorder_decision (effective d c)));
         on_engine (note (record_decision decision) R8);;
         record_fault_observability_decision decision;; mret decision
       else record_fault_observability_decision decision;; mret decision
     else record_fault_observability_decision r.1;; mret r.1) (mkSys _ e1 s.(advanced) w).
Proof.
  unfold evaluate_stream_pre. rewrite bind_run.
  change ((on_engine record_config_resolve s).2) with (mkSys _ e0 s.(advanced) s.(world)).
  rewrite bind_run.
  change (on_world monotonic_now_ns (mkSys _ e0 s.(advanced) s.(world)))
    with (now, mkSys _ e0 s.(advanced) w).
  cbn [fst snd]. fold ctx. rewrite bind_run.
  change (on_engine (on_layer r1 put_r1 (process ctx)) (mkSys _ e0 s.(advanced) w))
    with (r.1, mkSys _ (put_r1 r.2 e0) s.(advanced) w).
  cbn [fst snd]. rewrite bind_run.
  by change ((on_engine (note (record_decision r.1) R1) (mkSys _ (put_r1 r.2 e0) s.(advanced) w)).2)
    with (mkSys _ e1 s.(advanced) w).
Qed.

Lemma stream_pre_refused :
  r.1 ≠ Continue →
  evaluate_stream_pre fd c bytes d s =
    (r.1, mkSys _ e1 (record_fault_decision r.1 s.(advanced)) w).
Proof. intros Hr. rewrite stream_pre_session. by rewrite decide_False. Qed.

Lemma stream_pre_faulted :
  let p := process_pipeline ctx (e1, w) in
  r.1 = Continue → p.1 ≠ Continue →
  evaluate_stream_pre fd c bytes d s =
    (p.1, mkSys _ p.2.1 (record_fault_decision p.1 s.(advanced)) p.2.2).
Proof.
  intros p Hr Hp. rewrite stream_pre_session, decide_True by done. rewrite bind_run.
  change (on_engine (process_pipeline ctx) (mkSys _ e1 s.(advanced) w))
    with (p.1, mkSys _ p.2.1 s.(advanced) p.2.2).
  cbn [fst snd]. by rewrite decide_False.
Qed.
End stream_pre.

(** A stage that drops the packet ends the pipeline. *)
Lemma run_stages_drop `{Host} o stages ctx n s :
  o.(obj_applies_to) ctx = true → (o.(obj_process) ctx s).1 = Drop →
  (run_stages (o :: stages) ctx n s).1 = Drop.
Proof. intros Ha Hd. cbn [run_stages]. rewrite Ha. cbn [negb]. run_simpl. by rewrite Hd. Qed.

Lemma process_pipeline_burst `{Host} ctx e w :
  is_dns ctx = false → 0 < burst_left e.(r2) ctx.(fd) → (process_pipeline ctx (e, w)).1 = Drop.
Proof.
  intros Hdns Hb. apply run_stages_drop; [cbn; by rewrite Hdns|].
  cbn [dyn obj_process]. rewrite on_layer_run. by apply R2_process_in_burst.
Qed.

(** ** Properties *)

Lemma answer_main ds n :
  Forall main_decision ds → 0 ≤ n ≤ u64_max → main_decision (answer ds n).
Proof.
  intros Hds Hn. unfold answer. destruct (list_find _ ds) as [[i d]|] eqn:E.
  - apply list_find_Some in E as (E & _ & _). rewrite Forall_forall in Hds.
    apply Hds. by eapply list_elem_of_lookup_2.
  - pose proof (delays_nonneg ds Hds). destruct (Z.ltb_spec 0 (Z.min (n + zsum (delay_of <$> ds)) u64_max));
      [|done]. cbn. mach.
Qed.

(** C1. The pipeline answers with the first fault.  For well-formed packets, the
    answer is the first decision that ends the pipeline (a drop, a timeout, a
    connection error or a failed lookup) among those of the stages that apply,
    taken in the order R2, R3, R4, R5, R6; when none does, it is one delay, the
    saturating sum of the stages' delays, or to continue when that sum is zero.
    It is never an internal error, and a lookup is judged by R6 alone. *)
Theorem pipeline_answer `{HostLaws} ctx s :
  ctx_ok ctx →
  let ds := decisions pipeline ctx s in
  let d := (process_pipeline ctx s).1 in
  d = answer ds 0 ∧ main_decision d ∧
  (is_dns ctx = true →
     ∃ s', ds = [(R6_process ctx s').1] ∧ (s'.1, s'.2) = (s.1.(r6), s.2)).
Proof.
  intros Hctx ds d.
  destruct (run_stages_answer pipeline ctx 0 s) as [Hds E]; [apply pipeline_main|done|mach|].
  split_and!; [exact E|unfold d, process_pipeline; rewrite E; by apply answer_main; [|mach]|].
  intros Hdns. exists (s.1.(r6), s.2). split; [|done]. unfold ds.
  assert (Hstream : is_stream ctx = false)
    by (unfold is_dns, is_stream in *; by destruct (operation ctx)).
  unfold pipeline. cbn [decisions dyn obj_applies_to obj_process obj_stage applies_to R2_layer
    R3_layer R4_layer R5_layer R6_layer stage process].
  rewrite Hdns, Hstream. cbn [negb]. rewrite on_layer_run. cbn [fst snd].
  by destruct (stops _).
Qed.

(** The counters balance.  One pipeline run adds exactly one decision (or
    skip) to the counters of every stage it reaches, up to and including the one
    that ends it, and none to any other stage's. *)
Theorem pipeline_counts `{Host} ctx s st :
  metrics_ok s.1 →
  let e := s.1 in
  let e' := (process_pipeline ctx s).2.1 in
  counted e' st = counted e st +
    if decide (st ∈ take (reached pipeline ctx s) [R2; R3; R4; R5; R6]) then 1 else 0.
Proof.
  intros [Hl Hm] e e'.
  destruct (run_stages_rows pipeline ctx 0 s st pipeline_quiet Hl) as [_ [_ Hc]].
  apply Hc.
  - apply (bool_decide_unpack _). by vm_compute.
  - unfold row. destruct (lookup_lt_is_Some_2 (metrics s.1) (stage_index st)) as [m Hrow];
      [rewrite Hl; apply stage_index_lt|].
    rewrite list_lookup_total_alt, Hrow. rewrite Forall_forall in Hm. apply Hm.
    by eapply list_elem_of_lookup_2.
Qed.

(** C17. Descriptors do not interfere.  Any sequence of engine calls about other
    descriptors (connecting, sending, receiving, duplicating, lookups, payload
    transforms, byte counts, closings) leaves everything the engine remembers of
    a descriptor - session account, burst, correlated-loss state, byte count -
    exactly as it was. *)
Theorem fd_isolation `{Host} ks i s :
  0 ≤ i → Forall (λ k, call_fd k ≠ Some i) ks →
  fd_state (run_calls ks s).2.(engine) i = fd_state s.(engine) i.
Proof.
  intros Hi Hks. revert s. change (keeps i (run_calls ks)).
  induction Hks as [|k ks Hk _ IH]; [apply keeps_ret|]. cbn [run_calls].
  apply keeps_bind; [by apply run_call_keeps|intros d].
  apply keeps_bind; [done|intros; apply keeps_ret].
Qed.


(** A refused session never reaches the faults.  When the session guard
    refuses an operation, its decision is the answer, no random word is drawn,
    no fault layer changes and no counter but those of the stages R0 and R1
    moves. *)
Theorem session_refusal_short_circuits `{Host} fd c bytes d s :
  let now := (monotonic_now_ns s.(world)).1 in
  let refusal := (precheck fd bytes d (effective d c) now s.(engine).(r1)).1 in
  refusal ≠ Continue → length s.(engine).(metrics) = 9%nat →
  let out := evaluate_stream_pre fd c bytes d s in
  let e := s.(engine) in
  let e' := out.2.(engine) in
  out.1 = refusal ∧ out.2.(world).(draws) = s.(world).(draws) ∧
  e'.(r2) = e.(r2) ∧ e'.(r3) = e.(r3) ∧ e'.(r4) = e.(r4) ∧ e'.(r5) = e.(r5) ∧ e'.(r6) = e.(r6) ∧
  ∀ st, st ≠ R0 → st ≠ R1 → row e' st = row e st.
Proof.
  intros now refusal Href Hl out e e'. unfold e', out.
  rewrite stream_pre_refused by exact Href. cbn [fst snd engine world]. fold now refusal.
  split_and!; try done. intros st H0 H1.
  destruct (note_row (record_decision Continue) R0 st (e, s.(world)) Hl) as [L1 E1].
  rewrite decide_False in E1 by done.
  set (e0 := (note (record_decision Continue) R0 (e, s.(world))).2.1) in *.
  destruct (note_row (record_decision refusal) R1 st
    (put_r1 (precheck fd bytes d (effective d c) now (r1 e)).2 e0, s.(world))) as [_ E2]; [done|].
  rewrite decide_False in E2 by done. exact (eq_trans E2 E1).
Qed.

(** A reused descriptor inherits a burst.  Clearing a descriptor's state, as
    closing it does, forgets its session account and byte count but not its
    burst: if the old connection was inside a loss burst, the first packet of
    the next connection on that descriptor is dropped, even under a
    configuration without any fault. *)
Theorem reused_descriptor_burst `{Host} fd c bytes d s :
  0 ≤ fd → 0 < burst_left s.(engine).(r2) fd → c.(session_budget_enabled) = 0 →
  let cleared := s <| engine ::= clear_fd_state fd |> in
  cleared.(engine).(r1).(state_by_fd) !! fd = None ∧
  cleared.(engine).(r5).(stream_bytes) !! fd = None ∧
  burst_left cleared.(engine).(r2) fd = burst_left s.(engine).(r2) fd ∧
  (evaluate_stream_pre fd c bytes d cleared).1 = Drop.
Proof.
  intros Hfd Hb Hc cleared.
  assert (Hguard : (fd <? 0) = false) by by apply Z.ltb_ge.
  split_and!; [..|done|].
  - unfold cleared, clear_fd_state, R1SessionGuard.clear_fd_state. rewrite Hguard. cbn.
    apply lookup_delete_eq.
  - unfold cleared, clear_fd_state, R5TransportFaults.clear_fd_state. rewrite Hguard. cbn.
    apply lookup_delete_eq.
  - assert (He : (effective d c).(session_budget_enabled) = 0) by by destruct d.
    assert (Hr : ∀ now g, precheck fd bytes d (effective d c) now g = (Continue, g))
      by (intros; unfold precheck; by rewrite He, orb_true_r).
    assert (Hp : ∀ e ctx w, is_dns ctx = false → ctx.(Layers.fd) = fd → e.(r2) = s.(engine).(r2) →
              (process_pipeline ctx (e, w)).1 = Drop).
    { intros e ctx w Hdns Hctx E. apply process_pipeline_burst; [done|]. by rewrite Hctx, E. }
    rewrite stream_pre_faulted; cbn [fst]; rewrite ?Hr; try done; rewrite Hp; try done; by destruct d.
Qed.

(** ** Witnesses *)

Definition example_engine : ChaosEngine (H:=example_host) :=
  (ChaosEngine_new (H:=example_host) None example_world).1.

Definition example_sys : Sys (H:=example_host) :=
  mkSys example_host example_engine AdvancedMetrics_new example_world.

Definition example_slow : Config :=
  Config_default <| latency_ns := 3000 |> <| jitter_ns := 10 |> <| policy_seed := 7 |>.

Lemma example_slow_ok i : ctx_ok (example_packet example_slow i).
Proof.
  split_and!; [|done|done|done]. split_and!; try reflexivity;
    apply (bool_decide_unpack _); by vm_compute.
Qed.

Lemma pipeline_answer_witness :
  (process_pipeline (H:=example_host) (example_packet example_slow 3) (example_engine, example_world)).1 =
    answer [DelayNs 3000; Continue; DelayNs 8; Continue] 0 ∨
  main_decision
    (process_pipeline (H:=example_host) (example_packet example_slow 3) (example_engine, example_world)).1.
Proof.
  right. refine (proj1 (proj2 (@pipeline_answer example_host example_host_laws
    (example_packet example_slow 3) (example_engine, example_world) _))).
  apply example_slow_ok.
Defined.

Lemma example_metrics_ok : metrics_ok example_engine.
Proof. split; [by vm_compute|]. by repeat constructor. Qed.

Lemma pipeline_counts_witness :
  counted (H:=example_host) (process_pipeline (example_packet example_slow 3)
    (example_engine, example_world)).2.1 R5 = 1.
Proof.
  refine (eq_trans (@pipeline_counts example_host (example_packet example_slow 3)
    (example_engine, example_world) R5 example_metrics_ok) _).
  by vm_compute.
Defined.

Lemma fd_isolation_witness :
  fd_state (H:=example_host) (run_calls [CallPre 4 example_lossy 100 Uplink; CallBytes 4 10;
    CallClear 4; CallDns example_slow] example_sys).2.(engine) 3 = fd_state example_engine 3.
Proof.
  refine (@fd_isolation example_host [CallPre 4 example_lossy 100 Uplink; CallBytes 4 10;
    CallClear 4; CallDns example_slow] 3 example_sys _ _); [lia|].
  repeat (apply Forall_cons_2; [done|]). by apply Forall_nil.
Defined.


Lemma session_refusal_short_circuits_witness :
  (evaluate_stream_pre (H:=example_host) 3 (example_budget <| session_max_ops := 0 |>
     <| session_max_bytes_tx := 50 |>) 100 Uplink example_sys).1 = Drop.
Proof.
  refine (proj1 (@session_refusal_short_circuits example_host 3 (example_budget
    <| session_max_ops := 0 |> <| session_max_bytes_tx := 50 |>) 100 Uplink example_sys _ _));
    by vm_compute.
Defined.

Definition example_burst_sys : Sys (H:=example_host) :=
  (run_calls [CallPre 3 example_lossy 100 Uplink] example_sys).2.

Lemma reused_descriptor_burst_witness :
  (evaluate_stream_pre (H:=example_host) 3 Config_default 100 Uplink
     (example_burst_sys <| engine ::= clear_fd_state 3 |>)).1 = Drop.
Proof.
  refine (proj2 (proj2 (proj2 (@reused_descriptor_burst example_host 3 Config_default 100 Uplink
    example_burst_sys _ _ _)))); by vm_compute.
Defined.
