(* ===== verification/Runtime.v ===== *)
(** * The interceptor's runtime

    [faultcore_network/src/runtime.rs]: the queues of reordered datagrams, the
    non-blocking delay, and the translation of decisions into what a hooked libc
    call does.  A readable buffer is a list of bytes and a null pointer is
    [None]; a [Mutex]ed map is the map, calls not overlapping (overlapping calls
    on one queue are the subject of [RuntimeRace]). *)

From stdpp Require Import sorting.
From S2P Require Import Prelude.
From S2P Require Import Layers.

Open Scope Z_scope.

(** ** Datagrams *)

(* faultcore_network/src/runtime.rs:25-32 PendingDatagram *)
Record PendingDatagram : Type := mkPendingDatagram {
  data : list Z;
  flags : Z;
  addr : list Z;
  addr_len : Z;
  staged_at : Z
}.

(* faultcore_network/src/runtime.rs:58-63 ConnectDirective *)
Inductive ConnectDirective : Type :=
  | CContinue
  | CSleepNs (ns : Z)
  | CReturnErrno (errno ret : Z).

(* faultcore_network/src/runtime.rs:65-71 StreamDirective *)
Inductive StreamDirective : Type :=
  | SContinue
  | SSleepNs (ns : Z)
  | SReturnValue (v : Z)
  | SReturnErrno (errno ret : Z).

(* faultcore_network/src/runtime.rs:46-56 InterceptorRuntime *)
Record InterceptorRuntime : Type := mkInterceptorRuntime {
  latency_start_by_fd : gmap Z Z;
  reorder_pending_by_fd : gmap Z (list PendingDatagram);
  reorder_pending_recv_by_fd : gmap Z (list PendingDatagram);
  mutation_attempt_total : Z;
  mutation_applied_total : Z;
  mutation_skipped_total : Z;
  mutation_error_total : Z;
  mutation_bytes_in_total : Z;
  mutation_bytes_out_total : Z
}.

#[export] Instance eta_InterceptorRuntime : Eta InterceptorRuntime := λ r, mkInterceptorRuntime
  (r.(latency_start_by_fd)) (r.(reorder_pending_by_fd)) (r.(reorder_pending_recv_by_fd))
  (r.(mutation_attempt_total)) (r.(mutation_applied_total)) (r.(mutation_skipped_total))
  (r.(mutation_error_total)) (r.(mutation_bytes_in_total)) (r.(mutation_bytes_out_total)).

(* faultcore_network/src/runtime.rs:245-257 InterceptorRuntime::new *)
Definition InterceptorRuntime_new : InterceptorRuntime := mkInterceptorRuntime ∅ ∅ ∅ 0 0 0 0 0 0.

(** The error numbers of Linux. *)
Definition EIO : Z := 5.
Definition EAGAIN : Z := 11.
Definition EINVAL : Z := 22.
Definition ENETUNREACH : Z := 101.
Definition ECONNRESET : Z := 104.
Definition ETIMEDOUT : Z := 110.
Definition ECONNREFUSED : Z := 111.
Definition EAI_NONAME : Z := -2.
Definition EAI_AGAIN : Z := -3.
Definition EAI_FAIL : Z := -4.

Section runtime.
Context `{Host}.

(* faultcore_network/src/runtime.rs:34-44 PendingDatagram::new *)
Definition PendingDatagram_new (data : list Z) (flags : Z) (addr : list Z) (addr_len : Z) :
    M World PendingDatagram :=
  now ← instant_now; mret (mkPendingDatagram data flags addr addr_len now).

(** A computation on one queue. *)
Abbreviation Q := (list PendingDatagram).

Definition in_world {S A} (c : M World A) : M (S * World) A := zoom snd (λ w s, (s.1, w)) c.

(** [b.cast::<u8>()] read for [l] bytes. *)
Definition copy_bytes (b : list Z) (l : Z) : list Z := take (Z.to_nat l) b.

(* faultcore_network/src/runtime.rs:85-97 stage_reorder_send *)
Definition stage_reorder_send (b : option (list Z)) (l flags : Z) : M (Q * World) (option Z) :=
  match b with
  | None => mret None
  | Some b =>
      if l =? 0 then mret None else
      pkt ← in_world (PendingDatagram_new (copy_bytes b l) flags [] 0);
      modify (λ s, (s.1 ++ [pkt], s.2));;
      mret (Some l)
  end.

(* faultcore_network/src/runtime.rs:102-121 stage_reorder_sendto *)
Definition stage_reorder_sendto (b : option (list Z)) (l flags : Z) (addr : option (list Z))
    (addr_len : Z) : M (Q * World) (option Z) :=
  match b with
  | None => mret None
  | Some b =>
      if l =? 0 then mret None else
      let addr_bytes := match addr with
                        | Some a => if 0 <? addr_len then copy_bytes a addr_len else []
                        | None => []
                        end in
      pkt ← in_world (PendingDatagram_new (copy_bytes b l) flags addr_bytes addr_len);
      modify (λ s, (s.1 ++ [pkt], s.2));;
      mret (Some l)
  end.

(** The caller's buffer after the copy, and the number of bytes copied. *)
(* faultcore_network/src/runtime.rs:125-138 write_pending_recv_result *)
Definition write_pending_recv_result (pkt : PendingDatagram) (b : option (list Z)) (l : Z) :
    Z * option (list Z) :=
  match b with
  | None => (0, None)
  | Some buf =>
      if l =? 0 then (0, b) else
      let to_copy := Z.min l (Z.of_nat (length pkt.(data))) in
      (to_copy, Some (take (Z.to_nat to_copy) pkt.(data) ++ drop (Z.to_nat to_copy) buf))
  end.

(** Also the caller's address buffer and the length written back. *)
(* faultcore_network/src/runtime.rs:143-171 write_pending_recvfrom_result *)
Definition write_pending_recvfrom_result (pkt : PendingDatagram) (b : option (list Z)) (l : Z)
    (a : option (list Z * Z)) : Z * option (list Z) * option (list Z * Z) :=
  match b with
  | None => (0, None, a)
  | Some buf =>
      if l =? 0 then (0, b, a) else
      let to_copy := Z.min l (Z.of_nat (length pkt.(data))) in
      let a' := match a with
                | Some (abuf, capacity) =>
                    let available := Z.min (Z.of_nat (length pkt.(addr))) pkt.(addr_len) in
                    let copy_addr := Z.min capacity available in
                    Some (take (Z.to_nat copy_addr) pkt.(addr) ++ drop (Z.to_nat copy_addr) abuf,
                          pkt.(addr_len))
                | None => None
                end in
      (to_copy, Some (take (Z.to_nat to_copy) pkt.(data) ++ drop (Z.to_nat to_copy) buf), a')
  end.

(* faultcore_network/src/runtime.rs:175-185 snapshot_recv_datagram *)
Definition snapshot_recv_datagram (b : option (list Z)) (recv_len flags : Z) :
    M World (option PendingDatagram) :=
  match b with
  | None => mret None
  | Some b =>
      if recv_len <=? 0 then mret None else
      pkt ← PendingDatagram_new (copy_bytes b recv_len) flags [] 0;
      mret (Some pkt)
  end.

(* faultcore_network/src/runtime.rs:190-213 snapshot_recvfrom_datagram *)
Definition snapshot_recvfrom_datagram (b : option (list Z)) (recv_len flags : Z)
    (a : option (list Z * Z)) : M World (option PendingDatagram) :=
  match b with
  | None => mret None
  | Some b =>
      if recv_len <=? 0 then mret None else
      let '(addr_bytes, len_u32) :=
        match a with
        | Some (abuf, len) => if len =? 0 then ([], 0) else (copy_bytes abuf len, len)
        | None => ([], 0)
        end in
      pkt ← PendingDatagram_new (copy_bytes b recv_len) flags addr_bytes len_u32;
      mret (Some pkt)
  end.

(** ** Bookkeeping *)

(* faultcore_network/src/runtime.rs:259-272 InterceptorRuntime::record_mutation_outcome *)
Definition record_mutation_outcome (o : MutationOutcome) (r : InterceptorRuntime) :
    InterceptorRuntime :=
  let r := r <| mutation_attempt_total ::= λ n, wrapping_add n 1 |> in
  let r := if o.(applied) then r <| mutation_applied_total ::= λ n, wrapping_add n 1 |>
           else r <| mutation_skipped_total ::= λ n, wrapping_add n 1 |> in
  r <| mutation_error_total ::= λ n, wrapping_add n o.(error_count) |>
    <| mutation_bytes_in_total ::= λ n, wrapping_add n o.(input_len) |>
    <| mutation_bytes_out_total ::= λ n, wrapping_add n o.(output_len) |>.

(* faultcore_network/src/runtime.rs:274-278 InterceptorRuntime::clear_fd_state *)
Definition clear_fd_state (fd : Z) (r : InterceptorRuntime) : InterceptorRuntime :=
  r <| latency_start_by_fd ::= delete fd |> <| reorder_pending_by_fd ::= delete fd |>
    <| reorder_pending_recv_by_fd ::= delete fd |>.

(** [start.elapsed()] *)
Definition elapsed (start : Z) : M World Z := now ← instant_now; mret (saturating_sub now start).

(* faultcore_network/src/runtime.rs:280-294 InterceptorRuntime::nonblocking_delay_pending *)
Definition nonblocking_delay_pending (fd latency_ns : Z) : M (InterceptorRuntime * World) bool :=
  if latency_ns =? 0 then mret false else
  start ← gets (λ s, s.1.(latency_start_by_fd) !! fd);
  match start with
  | Some start =>
      e ← in_world (elapsed start);
      if latency_ns <=? e then
        modify (λ s, (s.1 <| latency_start_by_fd ::= delete fd |>, s.2));; mret false
      else mret true
  | None =>
      now ← in_world instant_now;
      modify (λ s, (s.1 <| latency_start_by_fd ::= <[fd := now]> |>, s.2));;
      mret true
  end.

(** ** Queues *)

(** The body of [with_reorder_pending] and [with_reorder_pending_recv] over the
    map they use: the queue of the descriptor, created if missing, removed from
    the map when it is left empty. *)
Definition with_queue {A} (fd : Z) (op : M (Q * World) A) : M (gmap Z Q * World) A := λ s,
  let queue := default [] (s.1 !! fd) in
  let r := op (queue, s.2) in
  (r.1, (match r.2.1 with [] => delete fd s.1 | q => <[fd := q]> s.1 end, r.2.2)).

(* faultcore_network/src/runtime.rs:324-352 InterceptorRuntime::with_reorder_pending *)
Definition with_reorder_pending {A} (fd : Z) (op : M (Q * World) A) :
    M (InterceptorRuntime * World) A :=
  zoom (λ s, (s.1.(reorder_pending_by_fd), s.2))
       (λ qw s, (s.1 <| reorder_pending_by_fd := qw.1 |>, qw.2)) (with_queue fd op).

(* faultcore_network/src/runtime.rs:354-382 InterceptorRuntime::with_reorder_pending_recv *)
Definition with_reorder_pending_recv {A} (fd : Z) (op : M (Q * World) A) :
    M (InterceptorRuntime * World) A :=
  zoom (λ s, (s.1.(reorder_pending_recv_by_fd), s.2))
       (λ qw s, (s.1 <| reorder_pending_recv_by_fd := qw.1 |>, qw.2)) (with_queue fd op).

(** [std::mem::take] *)
Definition mem_take : M (Q * World) Q := λ s, (s.1, ([], s.2)).

(** [queue.append(&mut incoming)] *)
Definition append (incoming : Q) : M (Q * World) unit := modify (λ s, (s.1 ++ incoming, s.2)).

(* faultcore_network/src/runtime.rs:296-298 InterceptorRuntime::take_reorder_pending *)
Definition take_reorder_pending (fd : Z) : M (InterceptorRuntime * World) Q :=
  with_reorder_pending fd mem_take.

(* faultcore_network/src/runtime.rs:300-308 InterceptorRuntime::put_reorder_pending *)
Definition put_reorder_pending (fd : Z) (pending : Q) : M (InterceptorRuntime * World) unit :=
  match pending with [] => mret tt | _ => with_reorder_pending fd (append pending) end.

(* faultcore_network/src/runtime.rs:310-312 InterceptorRuntime::take_reorder_pending_recv *)
Definition take_reorder_pending_recv (fd : Z) : M (InterceptorRuntime * World) Q :=
  with_reorder_pending_recv fd mem_take.

(* faultcore_network/src/runtime.rs:314-322 InterceptorRuntime::put_reorder_pending_recv *)
Definition put_reorder_pending_recv (fd : Z) (pending : Q) : M (InterceptorRuntime * World) unit :=
  match pending with [] => mret tt | _ => with_reorder_pending_recv fd (append pending) end.

(** The loop of [flush_expired_reorder]: the clock is read for every front. *)
Fixpoint flush_loop (pending : Q) (max_delay : Z) (w : World) : Q * (Q * World) :=
  match pending with
  | [] => ([], ([], w))
  | pkt :: rest =>
      let (e, w) := elapsed pkt.(staged_at) w in
      if max_delay <=? e then
        let r := flush_loop rest max_delay w in (pkt :: r.1, r.2)
      else ([], (pending, w))
  end.

(* faultcore_network/src/runtime.rs:384-403 InterceptorRuntime::flush_expired_reorder *)
Definition flush_expired_reorder (max_delay_ns : Z) : M (Q * World) Q := λ s,
  if max_delay_ns =? 0 then ([], s) else flush_loop s.1 max_delay_ns s.2.

(** The loop of [enforce_reorder_window]. *)
Fixpoint window_loop (pending : Q) (limit : Z) : Q * Q :=
  match pending with
  | [] => ([], [])
  | pkt :: rest =>
      if limit <? Z.of_nat (length pending) then
        let r := window_loop rest limit in (pkt :: r.1, r.2)
      else ([], pending)
  end.

(* faultcore_network/src/runtime.rs:405-418 InterceptorRuntime::enforce_reorder_window *)
Definition enforce_reorder_window (window : Z) : M (Q * World) Q := λ s,
  let limit := Z.max window 1 in
  let r := window_loop s.1 limit in
  (r.1, (r.2, s.2)).

(* faultcore_network/src/runtime.rs:420-429 InterceptorRuntime::pop_reorder_after_success *)
Definition pop_reorder_after_success (staged_reorder : bool) : M (Q * World) (option PendingDatagram) :=
  λ s, if staged_reorder then (None, s) else (head s.1, (tail s.1, s.2)).

(** ** Directives *)

(* faultcore_network/src/runtime.rs:528-535 err_kind_to_errno *)
Definition err_kind_to_errno (kind : Z) : Z :=
  match kind with 1 => ECONNRESET | 2 => ECONNREFUSED | 3 => ENETUNREACH | _ => EIO end.

(* faultcore_network/src/runtime.rs:431-462 InterceptorRuntime::map_connect_decision *)
Definition map_connect_decision (d : LayerDecision) : ConnectDirective :=
  match d with
  | Continue => CContinue
  | Drop => CReturnErrno ECONNREFUSED (-1)
  | DelayNs latency_ns => CSleepNs latency_ns
  | TimeoutMs _ => CReturnErrno ETIMEDOUT (-1)
  | Error _ => CReturnErrno EIO (-1)
  | ConnectionErrorKind kind => CReturnErrno (err_kind_to_errno kind) (-1)
  | StageReorder | Duplicate _ | NxDomain => CReturnErrno EIO (-1)
  | Mutate _ => CReturnErrno EIO (-1)
  end.

(* faultcore_network/src/runtime.rs:464-505 InterceptorRuntime::map_stream_decision *)
Definition map_stream_decision (fd : Z) (d : LayerDecision) (is_non_blocking : bool) :
    M (InterceptorRuntime * World) StreamDirective :=
  match d with
  | Continue | StageReorder | Duplicate _ | Mutate _ => mret SContinue
  | Drop => mret (SReturnErrno EIO (-1))
  | DelayNs latency_ns =>
      pending ← (if is_non_blocking then nonblocking_delay_pending fd latency_ns else mret false);
      mret (if pending : bool then SReturnErrno EAGAIN (-1) else SSleepNs latency_ns)
  | TimeoutMs _ => mret (SReturnErrno ETIMEDOUT (-1))
  | Error _ => mret (SReturnErrno EIO (-1))
  | ConnectionErrorKind kind => mret (SReturnErrno (err_kind_to_errno kind) (-1))
  | NxDomain => mret (SReturnErrno EIO (-1))
  end.

(* faultcore_network/src/runtime.rs:507-519 InterceptorRuntime::map_dns_decision_to_eai *)
Definition map_dns_decision_to_eai (d : LayerDecision) : option Z :=
  match d with
  | Continue | DelayNs _ => None
  | TimeoutMs _ => Some EAI_AGAIN
  | NxDomain => Some EAI_NONAME
  | Drop | Error _ | ConnectionErrorKind _ | StageReorder | Duplicate _ | Mutate _ => Some EAI_FAIL
  end.
End runtime.

(** What a directive does to the calling thread. *)
Record Thread : Type := mkThread { errno : Z; slept_ns : Z }.

#[export] Instance eta_Thread : Eta Thread := λ t, mkThread (t.(errno)) (t.(slept_ns)).

Definition sleep_if_needed (ns : Z) (t : Thread) : Thread :=
  if 0 <? ns then t <| slept_ns ::= Z.add ns |> else t.

(* faultcore_network/src/runtime.rs:215-227 apply_connect_directive *)
Definition apply_connect_directive (d : ConnectDirective) : M Thread (option Z) := λ t,
  match d with
  | CContinue => (None, t)
  | CSleepNs ns => (None, sleep_if_needed ns t)
  | CReturnErrno e ret => (Some ret, t <| errno := e |>)
  end.

(* faultcore_network/src/runtime.rs:229-242 apply_stream_directive *)
Definition apply_stream_directive (d : StreamDirective) : M Thread (option Z) := λ t,
  match d with
  | SContinue => (None, t)
  | SSleepNs ns => (None, sleep_if_needed ns t)
  | SReturnValue v => (Some v, t)
  | SReturnErrno e ret => (Some ret, t <| errno := e |>)
  end.

(** ** Facts about the queues *)

Section facts.
Context `{HostLaws}.

Lemma flush_loop_app pending d w :
  (flush_loop pending d w).1 ++ (flush_loop pending d w).2.1 = pending.
Proof.
  revert w; induction pending as [|pkt rest IH]; intros w; [done|]. cbn [flush_loop].
  destruct (elapsed (staged_at pkt) w) as [e w']. destruct (d <=? e); [|done].
  cbn. by rewrite IH.
Qed.

Lemma flush_loop_ticks pending d w : (ticks w ≤ ticks (flush_loop pending d w).2.2)%nat.
Proof.
  revert w; induction pending as [|pkt rest IH]; intros w; [done|]. cbn [flush_loop].
  unfold elapsed. run_simpl. cbn [instant_now fst snd]. destruct (d <=? _); cbn; [|lia].
  specialize (IH (w <| ticks ::= S |>)). cbn in IH. lia.
Qed.

Lemma flush_loop_front pending d w pkt rest :
  (flush_loop pending d w).2.1 = pkt :: rest →
  ∃ n, (w.(ticks) ≤ n)%nat ∧ saturating_sub (instant n) pkt.(staged_at) < d.
Proof.
  intros Hq. revert w Hq; induction pending as [|p pending IH]; intros w Hq; [done|].
  cbn [flush_loop] in Hq. unfold elapsed in Hq. rewrite bind_run in Hq. cbn [instant_now fst snd] in Hq.
  rewrite ret_run in Hq. destruct (Z.leb_spec d (saturating_sub (instant (ticks w)) (staged_at p))).
  - destruct (IH _ Hq) as (n & Hn & Hlt). exists n. cbn in Hn. split; [lia|done].
  - cbn in Hq. simplify_eq. exists w.(ticks). done.
Qed.

Lemma window_loop_spec pending limit :
  0 ≤ limit →
  let excess := (length pending - Z.to_nat limit)%nat in
  window_loop pending limit = (take excess pending, drop excess pending).
Proof.
  intros Hl. induction pending as [|pkt rest IH]; [done|]. cbn [window_loop length].
  destruct (Z.ltb_spec limit (Z.of_nat (S (length rest)))).
  - cbn zeta. rewrite IH. replace (S (length rest) - Z.to_nat limit)%nat
      with (S (length rest - Z.to_nat limit)) by lia. done.
  - by replace (S (length rest) - Z.to_nat limit)%nat with 0%nat by lia.
Qed.
End facts.

(** ** Histories of one queue *)

(** What the hooks do to a queue. *)
Inductive QueueOp : Type :=
  | OpStage (b : list Z) (l flags : Z)
  | OpPut (incoming : list PendingDatagram)
  | OpFlush (max_delay_ns : Z)
  | OpWindow (window : Z)
  | OpPop (staged_reorder : bool)
  | OpTake.

(** The datagrams an operation puts into the queue and takes out of it. *)
Definition run_op `{Host} (op : QueueOp) :
    M (list PendingDatagram * World) (list PendingDatagram * list PendingDatagram) :=
  match op with
  | OpStage b l flags =>
      before ← gets fst;
      _ ← stage_reorder_send (Some b) l flags;
      after ← gets fst;
      mret (drop (length before) after, [])
  | OpPut incoming => append incoming;; mret (incoming, [])
  | OpFlush d => out ← flush_expired_reorder d; mret ([], out)
  | OpWindow n => out ← enforce_reorder_window n; mret ([], out)
  | OpPop staged => out ← pop_reorder_after_success staged; mret ([], from_option (λ p, [p]) [] out)
  | OpTake => out ← mem_take; mret ([], out)
  end.

Fixpoint run_ops `{Host} (ops : list QueueOp) :
    M (list PendingDatagram * World) (list PendingDatagram * list PendingDatagram) :=
  match ops with
  | [] => mret ([], [])
  | op :: ops => r ← run_op op; rs ← run_ops ops; mret (r.1 ++ rs.1, r.2 ++ rs.2)
  end.

Lemma run_op_fifo `{Host} op s :
  (run_op op s).1.2 ++ (run_op op s).2.1 = s.1 ++ (run_op op s).1.1.
Proof.
  destruct s as [q w], op; cbn [run_op]; run_simpl.
  - unfold stage_reorder_send. destruct (l =? 0); run_simpl.
    + rewrite drop_all. by rewrite app_nil_r.
    + cbn. by rewrite drop_app_length.
  - done.
  - rewrite app_nil_r. unfold flush_expired_reorder. destruct (max_delay_ns =? 0); [done|].
    apply flush_loop_app.
  - rewrite app_nil_r. unfold enforce_reorder_window. cbn [fst snd].
    rewrite window_loop_spec by lia. apply take_drop.
  - rewrite app_nil_r. unfold pop_reorder_after_success. destruct staged_reorder; [done|].
    by destruct q.
  - cbn. by rewrite app_nil_r.
Qed.

(** ** Properties *)

(** Reordering never loses, duplicates or permutes the queued datagrams.
    For any history of staging, returning, flushing expired ones, enforcing the
    window, popping after a successful call and taking the whole queue, the
    datagrams taken out, in order, followed by those left in the queue are those
    that were in the queue followed by those put in, in order. *)
Theorem reorder_queue_fifo `{Host} ops q w :
  let out := run_ops ops (q, w) in
  out.1.2 ++ out.2.1 = q ++ out.1.1.
Proof.
  revert q w; induction ops as [|op ops IH]; intros q w; cbn [run_ops]; run_simpl.
  { by rewrite app_nil_r. }
  pose proof (run_op_fifo op (q, w)) as E. destruct (run_op op (q, w)) as [[ins outs] [q' w']].
  cbn [fst snd] in *. rewrite <- app_assoc, IH, app_assoc, E. by rewrite app_assoc.
Qed.

(** The window and the deadline hold.  After enforcing the window at most
    [max 1 window] datagrams stay, and none is taken out when that already held;
    after flushing with a deadline from a queue in staging order, every datagram
    that stays was younger than the deadline at one common reading of the clock. *)
Theorem reorder_window_and_deadline `{HostLaws} window d q w :
  let r := (enforce_reorder_window window (q, w)) in
  Z.of_nat (length r.2.1) ≤ Z.max 1 window ∧
  (Z.of_nat (length q) ≤ Z.max 1 window → r = ([], (q, w))) ∧
  (0 < d → StronglySorted (λ a b, a.(staged_at) ≤ b.(staged_at)) q →
   ∃ n, (w.(ticks) ≤ n)%nat ∧
     Forall (λ p, saturating_sub (instant n) p.(staged_at) < d) (flush_expired_reorder d (q, w)).2.1).
Proof.
  intros r. unfold r, enforce_reorder_window. cbn [fst snd]. rewrite window_loop_spec by lia.
  split_and!.
  - cbn [fst snd]. rewrite length_drop. lia.
  - intros Hlen. replace (length q - Z.to_nat (Z.max window 1))%nat with 0%nat by lia. done.
  - intros Hd Hs. unfold flush_expired_reorder. rewrite (proj2 (Z.eqb_neq _ _)) by lia.
    cbn [fst snd]. destruct (flush_loop q d w).2.1 as [|p rest] eqn:E.
    { exists w.(ticks). split; [done|constructor]. }
    destruct (flush_loop_front q d w p rest E) as (n & Hn & Hlt). exists n. split; [done|].
    rewrite <- (flush_loop_app q d w), E in Hs. apply StronglySorted_app_1_r in Hs.
    apply StronglySorted_inv in Hs as [_ Hs]. constructor; [done|].
    eapply Forall_impl; [exact Hs|]. intros b Hb. cbn beta in *. mach.
Qed.

(** The attempts of a non-blocking caller to pass a delay. *)
Fixpoint attempts `{Host} (n : nat) (fd latency_ns : Z) :
    M (InterceptorRuntime * World) (list StreamDirective) :=
  match n with
  | O => mret []
  | S n =>
      x ← map_stream_decision fd (DelayNs latency_ns) true;
      xs ← attempts n fd latency_ns;
      mret (x :: xs)
  end.

Lemma attempt_run `{Host} fd l r w :
  0 < l →
  map_stream_decision fd (DelayNs l) true (r, w) =
    match r.(latency_start_by_fd) !! fd with
    | None => (SReturnErrno EAGAIN (-1),
               (r <| latency_start_by_fd ::= <[fd := instant w.(ticks)]> |>, w <| ticks ::= S |>))
    | Some start =>
        if l <=? saturating_sub (instant w.(ticks)) start then
          (SSleepNs l, (r <| latency_start_by_fd ::= delete fd |>, w <| ticks ::= S |>))
        else (SReturnErrno EAGAIN (-1), (r, w <| ticks ::= S |>))
    end.
Proof.
  intros Hl. unfold map_stream_decision, nonblocking_delay_pending.
  rewrite (proj2 (Z.eqb_neq _ _)) by lia. run_simpl.
  destruct (latency_start_by_fd r !! fd) as [start|]; [|done].
  unfold in_world, elapsed. run_simpl. cbn [instant_now fst snd].
  by destruct (l <=? _).
Qed.

Lemma attempts_waiting `{Host} n fd l start r w :
  0 < l → r.(latency_start_by_fd) !! fd = Some start →
  (∀ k, (k < n)%nat → saturating_sub (instant (w.(ticks) + k)%nat) start < l) →
  l ≤ saturating_sub (instant (w.(ticks) + n)%nat) start →
  (attempts (S n) fd l (r, w)).1 = replicate n (SReturnErrno EAGAIN (-1)) ++ [SSleepNs l] ∧
  (attempts (S n) fd l (r, w)).2.1.(latency_start_by_fd) !! fd = None.
Proof.
  intros Hl Hs. revert w; induction n as [|n IH]; intros w Hbefore Hafter.
  - cbn [attempts]. run_simpl. rewrite attempt_run, Hs by done.
    rewrite Nat.add_0_r in Hafter. rewrite (proj2 (Z.leb_le _ _)) by done.
    split; [done|]. cbn. apply lookup_delete_eq.
  - change (attempts (S (S n)) fd l) with
      (x ← map_stream_decision fd (DelayNs l) true; xs ← attempts (S n) fd l; mret (x :: xs)).
    rewrite bind_run, attempt_run, Hs by done. specialize (Hbefore 0%nat) as H0.
    rewrite Nat.add_0_r in H0. rewrite (proj2 (Z.leb_gt _ _)) by (apply H0; lia).
    cbn [fst snd]. rewrite bind_run.
    destruct (IH (w <| ticks ::= S |>)) as [IH1 IH2].
    + intros k Hk. cbn. replace (S (ticks w + k)) with (ticks w + S k)%nat by lia. apply Hbefore. lia.
    + cbn. replace (S (ticks w + n)) with (ticks w + S n)%nat by lia. done.
    + rewrite IH1. by split.
Qed.

(** A non-blocking delay blocks after all.  The first attempt of a
    non-blocking caller to pass a delay starts its clock and gets EAGAIN, and so
    does every attempt until the delay has elapsed; the first attempt after that
    clears the clock, but instead of proceeding at once it is told to sleep for
    the whole delay again. *)
Theorem nonblocking_delay_then_sleeps `{Host} n fd l r w :
  0 < l → r.(latency_start_by_fd) !! fd = None →
  let t := w.(ticks) in
  (∀ k, (k < n)%nat → saturating_sub (instant (S t + k)%nat) (instant t) < l) →
  l ≤ saturating_sub (instant (S t + n)%nat) (instant t) →
  let out := attempts (S (S n)) fd l (r, w) in
  out.1 = replicate (S n) (SReturnErrno EAGAIN (-1)) ++ [SSleepNs l] ∧
  out.2.1.(latency_start_by_fd) !! fd = None.
Proof.
  intros Hl Hnone t Hbefore Hafter out. unfold out.
  change (attempts (S (S n)) fd l) with
    (x ← map_stream_decision fd (DelayNs l) true; xs ← attempts (S n) fd l; mret (x :: xs)).
  rewrite bind_run, attempt_run, Hnone by done. cbn [fst snd]. rewrite bind_run.
  destruct (attempts_waiting n fd l (instant t) (r <| latency_start_by_fd ::= <[fd := instant t]> |>)
    (w <| ticks ::= S |>)) as [E1 E2]; [done|cbn; by rewrite lookup_insert_eq|done|done|].
  fold t. rewrite E1. by split.
Qed.

(** Every fault surfaces to the caller.  A decision of the pipeline that is
    neither to continue nor a delay makes the hooked call return -1 with a
    positive error number, for connecting and for streams alike, and makes a
    lookup fail with a negative code; to continue lets the call through and a
    delay only sleeps. *)
Theorem faults_surface `{Host} fd d nb s t :
  main_decision d →
  match d with
  | Continue =>
      apply_connect_directive (map_connect_decision d) t = (None, t) ∧
      apply_stream_directive (map_stream_decision fd d nb s).1 t = (None, t) ∧
      map_dns_decision_to_eai d = None
  | DelayNs ns =>
      apply_connect_directive (map_connect_decision d) t = (None, t <| slept_ns ::= Z.add ns |>) ∧
      apply_stream_directive (map_stream_decision fd d false s).1 t =
        (None, t <| slept_ns ::= Z.add ns |>) ∧
      map_dns_decision_to_eai d = None
  | _ =>
      ∃ e e' g, 0 < e ∧ 0 < e' ∧ g < 0 ∧
        apply_connect_directive (map_connect_decision d) t = (Some (-1), t <| errno := e |>) ∧
        apply_stream_directive (map_stream_decision fd d nb s).1 t =
          (Some (-1), t <| errno := e' |>) ∧
        map_dns_decision_to_eai d = Some g
  end.
Proof.
  assert (Hk : ∀ k, 0 < err_kind_to_errno k) by (intros k; unfold err_kind_to_errno; by repeat case_match).
  destruct d; cbn [main_decision]; try done; intros Hd.
  - assert (Hs : sleep_if_needed ns t = t <| slept_ns ::= Z.add ns |>).
    { unfold sleep_if_needed. destruct (Z.ltb_spec 0 ns); [done|].
      assert (ns = 0) as -> by mach. by destruct t. }
    by rewrite <- Hs.
  - by exists ECONNREFUSED, EIO, EAI_FAIL.
  - by exists ETIMEDOUT, ETIMEDOUT, EAI_AGAIN.
  - exists (err_kind_to_errno kind), (err_kind_to_errno kind), EAI_FAIL. by split_and!.
  - by exists EIO, EIO, EAI_NONAME.
Qed.

(** ** Witnesses *)

Definition example_pkt (n t : Z) : PendingDatagram := mkPendingDatagram [n] 0 [] 0 t.

Lemma reorder_window_and_deadline_witness :
  (enforce_reorder_window 1
     ([example_pkt 1 0; example_pkt 2 5; example_pkt 3 9], example_world)).2.1 = [example_pkt 3 9] ∧
  Z.of_nat (length (enforce_reorder_window 1
     ([example_pkt 1 0; example_pkt 2 5; example_pkt 3 9], example_world)).2.1) ≤ Z.max 1 1.
Proof.
  split; [reflexivity|].
  apply (@reorder_window_and_deadline example_host example_host_laws 1 10
    [example_pkt 1 0; example_pkt 2 5; example_pkt 3 9] example_world).
Defined.

Lemma nonblocking_delay_then_sleeps_witness :
  (attempts (H:=example_host) 5 3 4000 (InterceptorRuntime_new, example_world)).1 =
    replicate 4 (SReturnErrno EAGAIN (-1)) ++ [SSleepNs 4000].
Proof.
  refine (proj1 (@nonblocking_delay_then_sleeps example_host 3 3 4000 InterceptorRuntime_new
    example_world _ _ _ _)); [lia|done| |by vm_compute].
  intros k Hk. do 3 (destruct k as [|k]; [by vm_compute|]). lia.
Defined.

Lemma faults_surface_witness :
  ∃ e e' g, 0 < e ∧ 0 < e' ∧ g < 0 ∧
    apply_connect_directive (map_connect_decision Drop) (mkThread 0 0) =
      (Some (-1), (mkThread 0 0) <| errno := e |>) ∧
    apply_stream_directive (map_stream_decision (H:=example_host) 3 Drop true
      (InterceptorRuntime_new, example_world)).1 (mkThread 0 0) =
      (Some (-1), (mkThread 0 0) <| errno := e' |>) ∧
    map_dns_decision_to_eai Drop = Some g.
Proof.
  exact (@faults_surface example_host 3 Drop true (InterceptorRuntime_new, example_world)
    (mkThread 0 0) I).
Defined.
