(* ===== verification/RuntimeRace.v ===== *)
(** * Threads on one reorder queue

    [faultcore_network/src/runtime.rs], [with_reorder_pending], as a step
    relation.  A call locks the map to clone the descriptor's queue, locks the
    queue to operate on it, and, having found it empty, locks the map again to
    remove it; the three are atomic and calls of several threads interleave
    between them.  [Runtime] gives the operations, and what a call does when no
    other overlaps it. *)

From S2P Require Import Prelude.
From S2P Require Import Threads.
From S2P Require Import Layers.
From S2P Require Import Runtime.

Open Scope Z_scope.

Abbreviation Q := (list PendingDatagram).

(** Where a call is: before cloning the [Arc], holding it, or about to remove it. *)
Inductive Pc : Type :=
  | Enter (op : QueueOp)
  | Holding (op : QueueOp) (queue : nat)
  | Cleaning (queue : nat).

(** Queues are shared by identity: the map has their names, [heap] what they
    hold.  [staged] and [taken] record what calls have put in and taken out. *)
Record State : Type := mkState {
  pending_map : gmap Z nat;
  heap : list Q;
  calls : gmap nat (Z * Pc);
  clock : World;
  staged : Q;
  taken : Q
}.

#[export] Instance eta_State : Eta State := λ s,
  mkState (s.(pending_map)) (s.(heap)) (s.(calls)) (s.(clock)) (s.(staged)) (s.(taken)).

Definition State_init : State := mkState ∅ [] ∅ (mkWorld 0 0) [] [].

(** A thread enters a call, or its call advances to its next lock. *)
Inductive Action : Type :=
  | Call (thread : nat) (fd : Z) (op : QueueOp)
  | Advance (thread : nat).

Section steps.
Context `{Host}.

(** [map.entry(fd).or_insert_with(..)], cloned. *)
(* faultcore_network/src/runtime.rs:328-334 InterceptorRuntime::with_reorder_pending *)
Definition clone_queue (fd : Z) (s : State) : nat * State :=
  match s.(pending_map) !! fd with
  | Some queue => (queue, s)
  | None =>
      let queue := length s.(heap) in
      (queue, s <| pending_map ::= <[fd := queue]> |> <| heap ::= λ h, h ++ [[]] |>)
  end.

(** The operation under the queue's lock; whether it left the queue empty. *)
(* faultcore_network/src/runtime.rs:336-339 InterceptorRuntime::with_reorder_pending *)
Definition operate (op : QueueOp) (queue : nat) (s : State) : bool * State :=
  let r := run_op op (default [] (s.(heap) !! queue), s.(clock)) in
  (match r.2.1 with [] => true | _ => false end,
   s <| heap ::= <[queue := r.2.1]> |> <| clock := r.2.2 |>
     <| staged ::= λ l, l ++ r.1.1 |> <| taken ::= λ l, l ++ r.1.2 |>).

(** [Arc::ptr_eq] with what the map has now. *)
(* faultcore_network/src/runtime.rs:341-349 InterceptorRuntime::with_reorder_pending *)
Definition clean_up (fd : Z) (queue : nat) (s : State) : State :=
  if decide (s.(pending_map) !! fd = Some queue) then s <| pending_map ::= delete fd |> else s.

Definition act (a : Action) (s : State) : option State :=
  match a with
  | Call t fd op =>
      match s.(calls) !! t with
      | None => Some (s <| calls ::= <[t := (fd, Enter op)]> |>)
      | Some _ => None
      end
  | Advance t =>
      match s.(calls) !! t with
      | None => None
      | Some (fd, Enter op) =>
          let (queue, s) := clone_queue fd s in
          Some (s <| calls ::= <[t := (fd, Holding op queue)]> |>)
      | Some (fd, Holding op queue) =>
          let (empty, s) := operate op queue s in
          Some (s <| calls ::= if empty then <[t := (fd, Cleaning queue)]> else delete t |>)
      | Some (fd, Cleaning queue) => Some ((clean_up fd queue s) <| calls ::= delete t |>)
      end
  end.

Definition step (s s' : State) : Prop := ∃ a, act a s = Some s'.

(** A step that starts no call on a descriptor another call is working on. *)
Definition exclusive_step (s s' : State) : Prop :=
  ∃ a, act a s = Some s' ∧
    match a with
    | Call _ fd _ => ∀ t' fd' pc, s.(calls) !! t' = Some (fd', pc) → fd' ≠ fd
    | Advance _ => True
    end.
End steps.

(** ** Invariants *)

Lemma concat_insert (h : list Q) i q q' :
  h !! i = Some q → q' ++ concat h ≡ₚ q ++ concat (<[i := q']> h).
Proof.
  revert i; induction h as [|x h IH]; intros [|i] Hi; simplify_eq/=.
  - rewrite !app_assoc. by rewrite (Permutation_app_comm q' q).
  - rewrite (Permutation_app_swap_app q' x), (Permutation_app_swap_app q x).
    by rewrite (IH i Hi).
Qed.

(** Every queue that is named exists, and nothing is lost from the heap. *)
Record conserved (s : State) : Prop := {
  map_in_heap fd q : s.(pending_map) !! fd = Some q → (q < length s.(heap))%nat;
  held_in_heap t fd op q : s.(calls) !! t = Some (fd, Holding op q) → (q < length s.(heap))%nat;
  nothing_lost : s.(staged) ≡ₚ s.(taken) ++ concat s.(heap);
}.

Lemma concat_snoc_nil (h : list Q) : concat (h ++ [[]]) = concat h.
Proof. rewrite concat_app. cbn. by rewrite app_nil_r. Qed.

Section invariants.
Context `{Host}.

Lemma clone_queue_conserved fd s :
  conserved s →
  let r := clone_queue fd s in
  conserved r.2 ∧ (r.1 < length r.2.(heap))%nat ∧ r.2.(calls) = s.(calls) ∧
  r.2.(pending_map) !! fd = Some r.1.
Proof.
  intros Hs. unfold clone_queue. destruct (pending_map s !! fd) as [q|] eqn:Hq; cbn zeta; cbn [fst snd].
  { split_and!; [done|by eapply map_in_heap|done|done]. }
  split_and!; [split|..]; cbn.
  - intros fd' q'. rewrite lookup_insert_Some, length_app; cbn.
    intros [[_ <-]|[_ Hq'%map_in_heap]]; [lia| |done]. lia.
  - intros t fd' op q' Ht%held_in_heap; [|done]. rewrite length_app. cbn. lia.
  - rewrite concat_snoc_nil. apply Hs.
  - rewrite length_app. cbn. lia.
  - done.
  - apply lookup_insert_eq.
Qed.

Lemma operate_conserved op q s :
  conserved s → (q < length s.(heap))%nat → conserved (operate op q s).2.
Proof.
  intros Hs Hq. destruct (lookup_lt_is_Some_2 _ _ Hq) as [l Hl].
  unfold operate. cbn zeta. cbn [snd]. split; cbn.
  - intros fd q' Hq'%map_in_heap; [|done]. by rewrite length_insert.
  - intros t fd op' q' Ht%held_in_heap; [|done]. by rewrite length_insert.
  - rewrite Hl. cbn [default from_option id]. pose proof (run_op_fifo op (l, s.(clock))) as Hfifo.
    destruct (run_op op (l, s.(clock))) as [[ins outs] [q' w']]. cbn [fst snd] in *.
    rewrite (nothing_lost s Hs), <- !app_assoc. apply Permutation_app_head.
    rewrite (Permutation_app_comm (concat _) ins). apply (Permutation_app_inv_l q').
    rewrite (Permutation_app_swap_app q' outs), (Permutation_app_swap_app q' ins).
    rewrite (concat_insert s.(heap) q l q' Hl).
    rewrite app_assoc, (Permutation_app_comm ins l), <- Hfifo.
    rewrite <- app_assoc. apply Permutation_app_head.
    pose proof (concat_insert (<[q := q']> s.(heap)) q q' q'
      (list_lookup_insert_eq _ _ _ Hq)) as Hc. done.
Qed.

(** Replacing a call by one that holds an existing queue, or none. *)
Lemma conserved_calls s t fd pc :
  conserved s →
  match pc with Some (Holding _ q) => (q < length s.(heap))%nat | _ => True end →
  conserved (s <| calls ::= match pc with Some pc => <[t := (fd, pc)]> | None => delete t end |>).
Proof.
  intros Hs Hpc. split; cbn; [apply Hs| |apply Hs].
  intros t' fd' op q. destruct pc as [pc|].
  - rewrite lookup_insert_Some. intros [[_ [= _ ->]]|[_ Ht]]; [done|by eapply held_in_heap].
  - rewrite lookup_delete_Some. intros [_ Ht]. by eapply held_in_heap.
Qed.

Lemma act_conserved a s s' : conserved s → act a s = Some s' → conserved s'.
Proof.
  intros Hs. destruct a as [t fd op|t]; cbn [act].
  { destruct (calls s !! t); [done|]. intros [= <-]. by apply (conserved_calls s t fd (Some (Enter op))). }
  destruct (calls s !! t) as [[fd [op|op q|q]]|] eqn:Ht; [| | |done].
  - pose proof (clone_queue_conserved fd s Hs) as (Hc & Hq & _ & _).
    destruct (clone_queue fd s) as [q s1]. intros [= <-].
    by apply (conserved_calls s1 t fd (Some (Holding op q))).
  - pose proof (operate_conserved op q s Hs (held_in_heap s Hs _ _ _ _ Ht)) as Hc.
    destruct (operate op q s) as [empty s1]. intros [= <-].
    destruct empty; [by apply (conserved_calls s1 t fd (Some (Cleaning q)))|].
    by apply (conserved_calls s1 t fd None).
  - intros [= <-]. apply (conserved_calls _ t fd None); [|done].
    unfold clean_up. case_decide; [|done]. split; cbn; [|apply Hs..].
    intros fd' q'. rewrite lookup_delete_Some. intros [_ Hq]. by eapply map_in_heap.
Qed.
End invariants.

(** What holds between steps when no two calls on one descriptor overlap: only
    mapped queues have datagrams, names are not shared, and a call's queue is the
    one its descriptor is mapped to. *)
Record exclusive (s : State) : Prop := {
  excl_conserved : conserved s;
  nonempty_mapped q l : s.(heap) !! q = Some l → l ≠ [] → ∃ fd, s.(pending_map) !! fd = Some q;
  map_injective fd fd' q :
    s.(pending_map) !! fd = Some q → s.(pending_map) !! fd' = Some q → fd = fd';
  holding_mapped t fd op q :
    s.(calls) !! t = Some (fd, Holding op q) → s.(pending_map) !! fd = Some q;
  cleaning_mapped t fd q :
    s.(calls) !! t = Some (fd, Cleaning q) →
    s.(pending_map) !! fd = Some q ∧ s.(heap) !! q = Some [];
  one_call t t' fd pc pc' :
    s.(calls) !! t = Some (fd, pc) → s.(calls) !! t' = Some (fd, pc') → t = t';
}.

Section exclusive.
Context `{Host}.

Lemma exclusive_init : exclusive State_init.
Proof. split; [split|..]; cbn; try (intros *; rewrite lookup_empty; done); done. Qed.

Lemma exclusive_call s t fd op :
  exclusive s → s.(calls) !! t = None →
  (∀ t' fd' pc, s.(calls) !! t' = Some (fd', pc) → fd' ≠ fd) →
  exclusive (s <| calls ::= <[t := (fd, Enter op)]> |>).
Proof.
  intros Hs Ht Hfree. split; cbn.
  - exact (conserved_calls s t fd (Some (Enter op)) (excl_conserved s Hs) I).
  - apply Hs.
  - apply Hs.
  - intros t' fd' op' q. rewrite lookup_insert_Some. intros [[_ [=]]|[_ ?]]. by eapply holding_mapped.
  - intros t' fd' q. rewrite lookup_insert_Some. intros [[_ [=]]|[_ ?]]. by eapply cleaning_mapped.
  - intros t1 t2 fd' pc pc'. rewrite !lookup_insert_Some.
    intros [[<- [= <- <-]]|[Hne H1]] [[<- [= <-]]|[Hne' H2]].
    + done.
    + by destruct (Hfree _ _ _ H2).
    + by destruct (Hfree _ _ _ H1).
    + by eapply one_call.
Qed.

Lemma exclusive_clone s t fd op :
  exclusive s → s.(calls) !! t = Some (fd, Enter op) →
  let r := clone_queue fd s in
  exclusive (r.2 <| calls ::= <[t := (fd, Holding op r.1)]> |>).
Proof.
  intros Hs Ht r.
  destruct (clone_queue_conserved fd s (excl_conserved s Hs)) as (Hc & Hlt & Hcalls & Hmap).
  fold r in Hc, Hlt, Hcalls, Hmap.
  assert (Hcases : (s.(pending_map) !! fd = Some r.1 ∧ r.2 = s) ∨
    (s.(pending_map) !! fd = None ∧ r.1 = length s.(heap) ∧
     r.2.(pending_map) = <[fd := r.1]> s.(pending_map) ∧ r.2.(heap) = s.(heap) ++ [[]])).
  { unfold r, clone_queue. destruct (pending_map s !! fd) eqn:E; [by left|right]. done. }
  assert (Hold : ∀ fd' q, s.(pending_map) !! fd' = Some q → r.2.(pending_map) !! fd' = Some q).
  { intros fd' q Hq. destruct Hcases as [[_ ->]|(Hn & _ & -> & _)]; [done|].
    rewrite lookup_insert_ne; [done|congruence]. }
  split; cbn.
  - apply (conserved_calls r.2 t fd (Some (Holding op r.1))); [done|]. exact Hlt.
  - intros q l Hl Hne. destruct Hcases as [[_ E]|(_ & _ & _ & E)]; rewrite E in Hl.
    + destruct (nonempty_mapped s Hs q l Hl Hne) as [fd' ?]. exists fd'. by apply Hold.
    + apply lookup_app_Some in Hl as [Hl|[_ Hl]]; [|by apply list_lookup_singleton_Some in Hl as [_ <-]].
      destruct (nonempty_mapped s Hs q l Hl Hne) as [fd' ?]. exists fd'. by apply Hold.
  - intros fd1 fd2 q. destruct Hcases as [[_ ->]|(_ & Hr & -> & _)]; [apply Hs|].
    rewrite !lookup_insert_Some. intros [[<- <-]|[_ H1]] [[<- Hq]|[_ H2]]; [done| | |by eapply map_injective].
    + apply (map_in_heap s (excl_conserved s Hs)) in H2. lia.
    + apply (map_in_heap s (excl_conserved s Hs)) in H1. lia.
  - intros t' fd' op' q. rewrite Hcalls, lookup_insert_Some. intros [[_ [= <- _ <-]]|[_ Ht']]; [done|].
    apply Hold. by eapply holding_mapped.
  - intros t' fd' q. rewrite Hcalls, lookup_insert_Some. intros [[_ [=]]|[_ Ht']].
    destruct (cleaning_mapped s Hs _ _ _ Ht') as [Hq He]. split; [by apply Hold|].
    destruct Hcases as [[_ ->]|(_ & _ & _ & ->)]; [done|]. by apply lookup_app_l_Some.
  - intros t1 t2 fd' pc pc'. rewrite Hcalls, !lookup_insert_Some.
    intros [[<- E1]|[_ H1]] [[<- E2]|[_ H2]]; [done| | |by eapply one_call].
    + injection E1 as <- _. by eapply one_call.
    + injection E2 as <- _. by eapply one_call.
Qed.
End exclusive.

Section exclusive_steps.
Context `{Host}.

Lemma exclusive_operate s t fd op q :
  exclusive s → s.(calls) !! t = Some (fd, Holding op q) →
  let r := operate op q s in
  exclusive (r.2 <| calls ::= if r.1 then <[t := (fd, Cleaning q)]> else delete t |>).
Proof.
  intros Hs Ht r. pose proof (holding_mapped s Hs _ _ _ _ Ht) as Hmap.
  pose proof (held_in_heap s (excl_conserved s Hs) _ _ _ _ Ht) as Hlt.
  pose proof (operate_conserved op q s (excl_conserved s Hs) Hlt) as Hc. fold r in Hc.
  assert (Em : r.2.(pending_map) = s.(pending_map)) by done.
  assert (Ec : r.2.(calls) = s.(calls)) by done.
  assert (Eh : ∃ l, r.2.(heap) = <[q := l]> s.(heap) ∧ (r.1 = true → l = [])).
  { eexists. split; [done|]. unfold r, operate. cbn [fst snd]. by destruct (run_op _ _).2.1. }
  destruct Eh as (l & Eh & Hempty). clearbody r. destruct r as [empty s1]. cbn [fst snd] in *.
  assert (Hcalls : ∀ t' fd' pc,
    (if empty then <[t := (fd, Cleaning q)]> else delete t) s1.(calls) !! t' = Some (fd', pc) →
    (t' = t ∧ fd' = fd ∧ pc = Cleaning q ∧ empty = true) ∨ (t' ≠ t ∧ s.(calls) !! t' = Some (fd', pc))).
  { intros t' fd' pc. rewrite Ec. destruct empty.
    - rewrite lookup_insert_Some. intros [[<- [= <- <-]]|[? ?]]; [by left|by right].
    - rewrite lookup_delete_Some. intros [? ?]. by right. }
  split; cbn.
  - destruct empty; [exact (conserved_calls s1 t fd (Some (Cleaning q)) Hc I)
                    |exact (conserved_calls s1 t fd None Hc I)].
  - intros q' l'. rewrite Em, Eh. destruct (decide (q' = q)) as [->|Hne].
    + intros _ _. by exists fd.
    + rewrite list_lookup_insert_ne by done. apply Hs.
  - rewrite Em. apply Hs.
  - rewrite Em. intros t' fd' op' q' [(_ & _ & [=] & _)|[_ ?]]%Hcalls. by eapply holding_mapped.
  - rewrite Em, Eh. intros t' fd' q' [(-> & -> & [= <-] & He)|[Hne Ht']]%Hcalls.
    + rewrite Hempty by done. split; [done|]. by apply list_lookup_insert_eq.
    + destruct (cleaning_mapped s Hs _ _ _ Ht') as [Hq' He]. split; [done|].
      rewrite list_lookup_insert_ne; [done|]. intros ->. destruct Hne.
      assert (fd' = fd) as -> by by eapply map_injective. by eapply one_call.
  - intros t1 t2 fd' pc pc' [(-> & -> & _)|[_ H1]]%Hcalls [(-> & E & _)|[_ H2]]%Hcalls;
      [done| | |by eapply one_call].
    + by eapply one_call.
    + subst fd'. by eapply one_call.
Qed.

Lemma exclusive_clean s t fd q :
  exclusive s → s.(calls) !! t = Some (fd, Cleaning q) →
  exclusive ((clean_up fd q s) <| calls ::= delete t |>).
Proof.
  intros Hs Ht. destruct (cleaning_mapped s Hs _ _ _ Ht) as [Hmap He].
  assert (Hother : ∀ t' fd' pc, delete t s.(calls) !! t' = Some (fd', pc) →
    s.(calls) !! t' = Some (fd', pc) ∧ fd' ≠ fd).
  { intros t' fd' pc. rewrite lookup_delete_Some. intros [Hne Ht']. split; [done|]. intros ->.
    destruct Hne. by eapply one_call. }
  unfold clean_up. rewrite decide_True by done. split; cbn.
  - split; cbn; [| |apply Hs].
    + intros fd' q'. rewrite lookup_delete_Some. intros [_ ?]. by eapply map_in_heap; [apply Hs|].
    + intros t' fd' op' q' [? _]%Hother. by eapply held_in_heap; [apply Hs|].
  - intros q' l Hl Hne. destruct (nonempty_mapped s Hs q' l Hl Hne) as [fd' Hfd']. exists fd'.
    rewrite lookup_delete_ne; [done|]. intros ->. congruence.
  - intros fd1 fd2 q'. rewrite !lookup_delete_Some. intros [_ ?] [_ ?]. by eapply map_injective.
  - intros t' fd' op' q' [Ht' Hne]%Hother. rewrite lookup_delete_ne by done.
    by eapply holding_mapped.
  - intros t' fd' q' [Ht' Hne]%Hother. rewrite lookup_delete_ne by done. by eapply cleaning_mapped.
  - intros t1 t2 fd' pc pc' [? _]%Hother [? _]%Hother. by eapply one_call.
Qed.

Lemma exclusive_invariant s s' : exclusive s → exclusive_step s s' → exclusive s'.
Proof.
  intros Hs (a & Ha & Hfree). destruct a as [t fd op|t]; cbn [act] in Ha.
  { destruct (calls s !! t) eqn:Ht; [done|]. injection Ha as <-. by apply exclusive_call. }
  destruct (calls s !! t) as [[fd [op|op q|q]]|] eqn:Ht; [| | |done].
  - pose proof (exclusive_clone s t fd op Hs Ht) as Hx. destruct (clone_queue fd s) as [q s1].
    injection Ha as <-. exact Hx.
  - pose proof (exclusive_operate s t fd op q Hs Ht) as Hx. destruct (operate op q s) as [empty s1].
    injection Ha as <-. exact Hx.
  - injection Ha as <-. by apply exclusive_clean.
Qed.
End exclusive_steps.

(** A queue no descriptor is mapped to and no call holds. *)
Definition orphaned (q : nat) (s : State) : Prop :=
  (q < length s.(heap))%nat ∧ (∀ fd, s.(pending_map) !! fd ≠ Some q) ∧
  (∀ t fd pc, s.(calls) !! t = Some (fd, pc) →
     match pc with Enter _ => True | Holding _ q' | Cleaning q' => q' ≠ q end).

Lemma orphaned_step `{Host} q l s s' :
  orphaned q s → s.(heap) !! q = Some l → step s s' → orphaned q s' ∧ s'.(heap) !! q = Some l.
Proof.
  intros (Hlt & Hmap & Hcalls) Hl (a & Ha). destruct a as [t fd op|t]; cbn [act] in Ha.
  { destruct (calls s !! t) eqn:Ht; [done|]. injection Ha as <-. split; [|done]. split_and!; [done..|].
    cbn. intros t' fd' pc. rewrite lookup_insert_Some. intros [[_ [= _ <-]]|[_ ?]]; [done|by eapply Hcalls]. }
  destruct (calls s !! t) as [[fd pc0]|] eqn:Ht; [|done]. pose proof (Hcalls _ _ _ Ht) as Hpc.
  destruct pc0 as [op|op q0|q0].
  - unfold clone_queue in Ha. destruct (pending_map s !! fd) as [q1|] eqn:Hq1.
    + injection Ha as <-. split; [|done]. split_and!; [done..|]. cbn. intros t' fd' pc.
      rewrite lookup_insert_Some. intros [[_ [= _ <-]]|[_ ?]]; [|by eapply Hcalls]. congruence.
    + injection Ha as <-. split; [|by apply lookup_app_l_Some]. split_and!; cbn.
      * rewrite length_app. lia.
      * intros fd'. rewrite lookup_insert_Some. intros [[_ ?]|[_ ?]]; [lia|by apply (Hmap fd')].
      * intros t' fd' pc. rewrite lookup_insert_Some. intros [[_ [= _ <-]]|[_ ?]]; [lia|by eapply Hcalls].
  - unfold operate in Ha. injection Ha as <-. cbn. split; [|by rewrite list_lookup_insert_ne].
    split_and!; cbn; [by rewrite length_insert|done|]. intros t' fd' pc.
    destruct (match _ with [] => true | _ => false end).
    + rewrite lookup_insert_Some. intros [[_ [= _ <-]]|[_ ?]]; [done|by eapply Hcalls].
    + rewrite lookup_delete_Some. intros [_ ?]. by eapply Hcalls.
  - injection Ha as <-. unfold clean_up. split; [|by case_decide].
    split_and!; [by case_decide| |].
    + intros fd'. case_decide; cbn; [|apply Hmap]. rewrite lookup_delete_Some. intros [_ ?]. by apply (Hmap fd').
    + intros t' fd' pc Hd. assert (Hd' : delete t s.(calls) !! t' = Some (fd', pc)) by (by case_decide).
      apply lookup_delete_Some in Hd' as [_ ?]. by eapply Hcalls.
Qed.

(** One thread finds the queue empty, another stages in it, the first removes it. *)
Definition race (fd : Z) (b : list Z) (flags : Z) : list Action :=
  [Call 1 fd OpTake; Advance 1; Call 2 fd (OpStage b (Z.of_nat (length b)) flags); Advance 2;
   Advance 1; Advance 2; Advance 1].

(** The advances of a call, as equations. *)
Section advances.
Context `{Host} (s : State) (t : nat) (fd : Z).

Lemma act_create op :
  s.(calls) !! t = Some (fd, Enter op) → s.(pending_map) !! fd = None →
  act (Advance t) s = Some (s <| pending_map ::= <[fd := length s.(heap)]> |>
    <| heap ::= λ h, h ++ [[]] |> <| calls ::= <[t := (fd, Holding op (length s.(heap)))]> |>).
Proof. intros Ht Hm. cbn [act]. rewrite Ht. unfold clone_queue. by rewrite Hm. Qed.

Lemma act_clone op q :
  s.(calls) !! t = Some (fd, Enter op) → s.(pending_map) !! fd = Some q →
  act (Advance t) s = Some (s <| calls ::= <[t := (fd, Holding op q)]> |>).
Proof. intros Ht Hm. cbn [act]. rewrite Ht. unfold clone_queue. by rewrite Hm. Qed.

Lemma act_operate op q l ins outs l' w' :
  s.(calls) !! t = Some (fd, Holding op q) → s.(heap) !! q = Some l →
  run_op op (l, s.(clock)) = ((ins, outs), (l', w')) →
  act (Advance t) s = Some (s <| heap ::= <[q := l']> |> <| clock := w' |>
    <| staged ::= λ k, k ++ ins |> <| taken ::= λ k, k ++ outs |>
    <| calls ::= if l' is [] then <[t := (fd, Cleaning q)]> else delete t |>).
Proof.
  intros Ht Hq Hop. cbn [act]. rewrite Ht. unfold operate. rewrite Hq. cbn [default from_option id].
  rewrite Hop. by destruct l'.
Qed.

Lemma act_clean q :
  s.(calls) !! t = Some (fd, Cleaning q) → s.(pending_map) !! fd = Some q →
  act (Advance t) s = Some (s <| pending_map ::= delete fd |> <| calls ::= delete t |>).
Proof. intros Ht Hm. cbn [act]. rewrite Ht. unfold clean_up. by rewrite decide_True. Qed.
End advances.

Lemma run_stage_op `{Host} b flags w :
  b ≠ [] →
  run_op (OpStage b (Z.of_nat (length b)) flags) ([], w) =
    let p := mkPendingDatagram b flags [] 0 (instant w.(ticks)) in
    (([p], []), ([p], w <| ticks ::= S |>)).
Proof.
  intros Hb. cbn [run_op]. run_simpl. unfold stage_reorder_send.
  destruct (Z.eqb_spec (Z.of_nat (length b)) 0); [by destruct b|]. run_simpl.
  unfold copy_bytes. by rewrite Nat2Z.id, take_ge by done.
Qed.

Lemma race_run `{Host} fd b flags :
  b ≠ [] →
  ∃ s p, run_actions act (race fd b flags) State_init = Some s ∧ s.(calls) = ∅ ∧ s.(staged) = [p] ∧
    p.(data) = b ∧ s.(taken) = [] ∧ s.(pending_map) = ∅ ∧ s.(heap) = [[p]].
Proof.
  intros Hb. unfold race. set (stage := OpStage b _ flags).
  set (c1 := <[1%nat := (fd, Enter OpTake)]> ∅ : gmap nat (Z * Pc)).
  set (c2 := <[1%nat := (fd, Holding OpTake 0)]> c1).
  set (c3 := <[2%nat := (fd, Enter stage)]> c2).
  set (c4 := <[2%nat := (fd, Holding stage 0)]> c3).
  set (c5 := <[1%nat := (fd, Cleaning 0)]> c4).
  set (m := <[fd := 0%nat]> ∅ : gmap Z nat).
  set (w0 := mkWorld 0 0). set (p := mkPendingDatagram b flags [] 0 (instant 0)).
  exists (mkState (delete fd m) [[p]] (delete 1%nat (delete 2%nat c5)) (mkWorld 0 1) [p] []), p.
  split; [|split_and!; try done].
  - apply (run_cons _ _ _ (mkState ∅ [] c1 w0 [] [])); [done|].
    eapply run_cons; [apply (act_create _ 1 fd OpTake); cbn; unfold c1; by simplify_map_eq|].
    apply (run_cons _ _ _ (mkState m [[]] c3 w0 [] [])); [done|].
    eapply run_cons; [apply (act_clone _ 2 fd stage 0); cbn; [unfold c3|unfold m]; by simplify_map_eq|].
    eapply run_cons; [apply (act_operate _ 1 fd OpTake 0 [] [] [] [] w0); [|done..];
                      cbn; unfold c3, c2; by simplify_map_eq|].
    eapply run_cons; [apply (act_operate _ 2 fd stage 0 [] [p] [] [p] (mkWorld 0 1));
                      [cbn; unfold c3, c2; by simplify_map_eq|done|by apply run_stage_op]|].
    eapply run_cons; [apply (act_clean _ 1 fd 0); cbn; [|unfold m; by simplify_map_eq];
                      unfold c3, c2; by simplify_map_eq|].
    done.
  - cbn [pending_map]. unfold m. by rewrite delete_insert_eq, delete_empty.
Qed.

(** ** A call on its own *)

(** The contents of the queues by descriptor, which is [Runtime]'s state. *)
Definition view (s : State) : gmap Z Q := (λ q, default [] (s.(heap) !! q)) <$> s.(pending_map).

Section alone.
Context `{Host}.

Lemma lookup_view s fd :
  view s !! fd = (λ q, default [] (s.(heap) !! q)) <$> s.(pending_map) !! fd.
Proof. apply lookup_fmap. Qed.

Lemma clone_view fd s :
  exclusive s →
  view (clone_queue fd s).2 = <[fd := default [] (view s !! fd)]> (view s) ∧
  (clone_queue fd s).2.(heap) !! (clone_queue fd s).1 = Some (default [] (view s !! fd)).
Proof.
  intros Hs. unfold clone_queue. rewrite lookup_view.
  destruct (pending_map s !! fd) as [q|] eqn:Hq; cbn [fst snd fmap option_fmap option_map default from_option id].
  - pose proof (map_in_heap s (excl_conserved s Hs) _ _ Hq) as Hlt.
    destruct (lookup_lt_is_Some_2 _ _ Hlt) as [l Hl]. rewrite Hl. split; [|done].
    symmetry. apply insert_id. rewrite lookup_view, Hq. cbn. by rewrite Hl.
  - split; [|cbn; by rewrite lookup_app_r, Nat.sub_diag by done].
    apply map_eq. intros fd'. rewrite lookup_view. cbn. destruct (decide (fd' = fd)) as [->|Hne].
    + rewrite !lookup_insert_eq. cbn. by rewrite lookup_app_r, Nat.sub_diag by done.
    + rewrite !lookup_insert_ne, lookup_view by done. destruct (pending_map s !! fd') as [q|] eqn:Hq'; [|done].
      cbn. by rewrite lookup_app_l by by eapply map_in_heap, Hq'; apply excl_conserved.
Qed.

(** Replacing what a descriptor's queue holds. *)
Lemma heap_view s s' fd q l :
  exclusive s → s.(pending_map) !! fd = Some q →
  s'.(pending_map) = s.(pending_map) → s'.(heap) = <[q := l]> s.(heap) →
  view s' = <[fd := l]> (view s).
Proof.
  intros Hs Hq Em Eh. pose proof (map_in_heap s (excl_conserved s Hs) _ _ Hq) as Hlt.
  apply map_eq. intros fd'. rewrite lookup_view, Em, Eh. destruct (decide (fd' = fd)) as [->|Hne].
  - by rewrite lookup_insert_eq, Hq; cbn; rewrite list_lookup_insert_eq.
  - rewrite lookup_insert_ne, lookup_view by done.
    destruct (pending_map s !! fd') as [q'|] eqn:Hq'; [|done]. cbn.
    rewrite list_lookup_insert_ne; [done|]. intros <-. destruct Hne. by eapply map_injective.
Qed.

Lemma clean_view s fd t :
  view (s <| pending_map ::= delete fd |> <| calls ::= delete t |>) = delete fd (view s).
Proof. exact (fmap_delete _ (pending_map s) fd). Qed.

(** The first advance of a call, on its own. *)
Lemma enter_alone s t fd op :
  exclusive s → s.(calls) !! t = None →
  (∀ t' fd' pc, s.(calls) !! t' = Some (fd', pc) → fd' ≠ fd) →
  ∃ q s', run_actions act [Call t fd op; Advance t] s = Some s' ∧ exclusive s' ∧
    s'.(calls) !! t = Some (fd, Holding op q) ∧ delete t s'.(calls) = s.(calls) ∧
    s'.(clock) = s.(clock) ∧ s'.(heap) !! q = Some (default [] (view s !! fd)) ∧
    view s' = <[fd := default [] (view s !! fd)]> (view s).
Proof.
  intros Hs Ht Hfree. set (s1 := s <| calls ::= <[t := (fd, Enter op)]> |>).
  assert (Hs1 : exclusive s1) by by apply exclusive_call.
  assert (Ht1 : s1.(calls) !! t = Some (fd, Enter op)) by apply lookup_insert_eq.
  pose proof (clone_queue_conserved fd s1 (excl_conserved s1 Hs1)) as (_ & _ & Ec & _).
  pose proof (clone_view fd s1 Hs1) as [Hv Hh].
  pose proof (exclusive_clone s1 t fd op Hs1 Ht1) as Hs2. cbn zeta in Hs2.
  exists (clone_queue fd s1).1, ((clone_queue fd s1).2
    <| calls ::= <[t := (fd, Holding op (clone_queue fd s1).1)]> |>).
  split_and!; [|done|apply lookup_insert_eq| | |exact Hh|exact Hv].
  - apply (run_cons _ _ _ s1); [cbn [act]; by rewrite Ht|]. cbn [run_actions act]. rewrite Ht1.
    by destruct (clone_queue fd s1).
  - cbn. rewrite Ec. cbn. by rewrite !delete_insert_eq, delete_id.
  - cbn. unfold clone_queue. by destruct (pending_map s1 !! fd).
Qed.

(** A call that no call on its descriptor overlaps does to the queues what
    [Runtime.with_queue] says, in two or three advances. *)
Lemma call_alone s t fd op :
  exclusive s → s.(calls) !! t = None →
  (∀ t' fd' pc, s.(calls) !! t' = Some (fd', pc) → fd' ≠ fd) →
  ∃ n s', run_actions act (Call t fd op :: replicate n (Advance t)) s = Some s' ∧
    (2 ≤ n ≤ 3)%nat ∧ s'.(calls) = s.(calls) ∧
    (view s', s'.(clock)) = (with_queue fd (run_op op) (view s, s.(clock))).2.
Proof.
  intros Hs Ht Hfree.
  destruct (enter_alone s t fd op Hs Ht Hfree) as (q & s2 & Hrun & Hs2 & Ht2 & Hc2 & Hw2 & Hh2 & Hv2).
  pose proof (holding_mapped s2 Hs2 _ _ _ _ Ht2) as Hm2.
  unfold with_queue. cbn [fst snd].
  destruct (run_op op (default [] (view s !! fd), s.(clock))) as [[ins outs] [l' w']] eqn:Hop.
  pose proof (act_operate s2 t fd op q _ ins outs l' w' Ht2 Hh2 ltac:(by rewrite Hw2)) as Ha3.
  match type of Ha3 with _ = Some ?x => set (s3 := x) in Ha3 end.
  assert (Hv3 : view s3 = <[fd := l']> (view s)).
  { rewrite (heap_view s2 s3 fd q l' Hs2 Hm2 eq_refl eq_refl), Hv2. apply insert_insert_eq. }
  destruct l' as [|x l'].
  - assert (Ha4 := act_clean s3 t fd q (lookup_insert_eq _ _ _) Hm2).
    exists 3%nat. eexists. split_and!; [|lia|lia| |].
    + cbn [replicate]. eapply (run_trans _ [_; _]); [exact Hrun|].
      eapply run_cons; [exact Ha3|]. eapply run_cons; [exact Ha4|done].
    + cbn. by rewrite delete_insert_eq.
    + cbn [fst snd]. by rewrite clean_view, Hv3, delete_insert_eq.
  - exists 2%nat, s3. split_and!; [|lia|lia|exact Hc2|by rewrite Hv3].
    cbn [replicate]. eapply (run_trans _ [_; _]); [exact Hrun|].
    eapply run_cons; [exact Ha3|done].
Qed.
End alone.

(** ** Progress *)

(** The advances a call still has before it, and those of a thread in a run. *)
Definition remaining (pc : Pc) : nat :=
  match pc with Enter _ => 3 | Holding _ _ => 2 | Cleaning _ => 1 end.

Definition turn (t : nat) (a : Action) : bool :=
  match a with Advance t' => Nat.eqb t' t | Call _ _ _ => false end.

Definition left_of (t : nat) (s : State) : option nat :=
  (λ c, remaining c.2) <$> s.(calls) !! t.

Section progress.
Context `{Host}.

(** A call's own advance is always possible and brings it closer to its end. *)
Lemma advance_progress s t fd pc :
  s.(calls) !! t = Some (fd, pc) →
  ∃ s', act (Advance t) s = Some s' ∧
    (s'.(calls) !! t = None ∨
     ∃ pc', s'.(calls) !! t = Some (fd, pc') ∧ (remaining pc' < remaining pc)%nat).
Proof.
  intros Ht. cbn [act]. rewrite Ht. destruct pc as [op|op q|q].
  - destruct (clone_queue fd s) as [q s1]. eexists. split; [done|]. right. exists (Holding op q).
    split; [apply lookup_insert_eq|cbn; lia].
  - destruct (operate op q s) as [[] s1]; (eexists; split; [done|]).
    + right. exists (Cleaning q). split; [apply lookup_insert_eq|cbn; lia].
    + left. apply lookup_delete_eq.
  - eexists. split; [done|]. left. apply lookup_delete_eq.
Qed.

(** The steps of others, and calls they start, leave it where it is. *)
Lemma others_keep a s s' t fd pc :
  s.(calls) !! t = Some (fd, pc) → act a s = Some s' → a ≠ Advance t →
  s'.(calls) !! t = Some (fd, pc).
Proof.
  intros Ht Ha Hne. destruct a as [t' fd' op|t']; cbn [act] in Ha.
  { destruct (calls s !! t') eqn:Ht'; [done|]. injection Ha as <-. cbn.
    rewrite lookup_insert_ne; [done|congruence]. }
  assert (t' ≠ t) by congruence. destruct (calls s !! t') as [[fd' [op|op q|q]]|]; [| | |done].
  - unfold clone_queue in Ha.
    destruct (pending_map s !! fd'); injection Ha as <-; cbn; by rewrite lookup_insert_ne.
  - unfold operate in Ha. injection Ha as <-. cbn.
    destruct (match _ with [] => true | _ => false end); [by rewrite lookup_insert_ne|by rewrite lookup_delete_ne].
  - injection Ha as <-. cbn. unfold clean_up. case_decide; cbn; by rewrite lookup_delete_ne.
Qed.

Lemma queue_turns t a s s' n :
  left_of t s = Some n → act a s = Some s' →
  match left_of t s' with
  | None => turn t a = true
  | Some n' => (if turn t a then 1 else 0) + n' ≤ n
  end%nat.
Proof.
  unfold left_of. intros Hn Ha. destruct (calls s !! t) as [[fd pc]|] eqn:Ht; [|done].
  injection Hn as <-. cbn [snd]. destruct (turn t a) eqn:Hturn.
  - destruct a as [|t']; [done|]. apply Nat.eqb_eq in Hturn as ->.
    destruct (advance_progress s t fd pc Ht) as (s1 & Ha1 & Hend). rewrite Ha in Ha1.
    apply (inj Some) in Ha1 as <-. destruct Hend as [->|(pc' & -> & Hlt)]; [done|cbn; lia].
  - rewrite (others_keep a s s' t fd pc Ht Ha); [cbn; lia|].
    intros ->. cbn in Hturn. by rewrite Nat.eqb_refl in Hturn.
Qed.

Lemma finishes l s s' t fd pc :
  s.(calls) !! t = Some (fd, pc) → run_actions act l s = Some s' →
  (remaining pc ≤ turns (turn t) l)%nat →
  ∃ l1 l2 s1, l = l1 ++ l2 ∧ run_actions act l1 s = Some s1 ∧ s1.(calls) !! t = None ∧
    (turns (turn t) l1 ≤ remaining pc)%nat.
Proof.
  intros Ht Hrun Hn.
  destruct (turns_end act (turn t) (left_of t) (λ _, 0)%nat (λ _, True))
    with (l := l) (s := s) (s' := s') (n := remaining pc) as (l1 & l2 & s1 & -> & Hr & He & Hle); try done.
  - intros s1 n. unfold left_of. destruct (calls s1 !! t) as [[fd1 pc1]|]; [|done]. intros [= <-].
    destruct pc1; cbn; lia.
  - intros a s1 s2 n _ Hn1 Ha. pose proof (queue_turns t a s1 s2 n Hn1 Ha). destruct (left_of t s2); [lia|done].
  - by apply Forall_true.
  - unfold left_of. by rewrite Ht.
  - lia.
  - exists l1, l2, s1. split_and!; [done..| |lia]. unfold left_of in He. by destruct (calls s1 !! t).
Qed.
End progress.

(** ** Properties *)


(** C35. A call on its own is atomic.  From any state in which calls on one
    descriptor did not overlap, a call that no call on its descriptor overlaps,
    among any calls in progress on other descriptors, ends after two or three
    advances, leaves the other calls as they were, and does to the queues by
    descriptor exactly what the sequential [with_queue] does, empty queues
    removed. *)
Theorem call_refines `{Host} s t fd op :
  star exclusive_step State_init s → s.(calls) !! t = None →
  (∀ t' fd' pc, s.(calls) !! t' = Some (fd', pc) → fd' ≠ fd) →
  ∃ n s', run_actions act (Call t fd op :: replicate n (Advance t)) s = Some s' ∧
    (2 ≤ n ≤ 3)%nat ∧ s'.(calls) = s.(calls) ∧
    (view s', s'.(clock)) = (with_queue fd (run_op op) (view s, s.(clock))).2.
Proof.
  intros Hstar. apply call_alone.
  apply (star_invariant exclusive_step exclusive exclusive_invariant _ _ Hstar), exclusive_init.
Qed.


(** ** Witnesses *)



Lemma call_refines_witness :
  ∃ n s', run_actions (act (H:=example_host))
      (Call 1 7 (OpStage [104; 105] 2 0) :: replicate n (Advance 1)) State_init = Some s' ∧
    (2 ≤ n ≤ 3)%nat ∧ s'.(calls) = ∅ ∧ data <$> default [] (view s' !! 7) = [[104; 105]].
Proof.
  destruct (call_refines (H:=example_host) State_init 1 7 (OpStage [104; 105] 2 0))
    as (n & s' & Hrun & Hn & Hc & Hv); [constructor|done|by intros ? ? ? ?|].
  exists n, s'. split_and!; try done; try lia.
  pose proof (f_equal fst Hv) as Hview. cbn [fst] in Hview. rewrite Hview. by vm_compute.
Defined.
