(* ===== verification/SetPriority.v ===== *)
(** * The [setpriority] side channel

    [faultcore_network/src/setpriority_compat.rs]: three values of [which] are
    commands that update the calling thread's configuration row. *)

From S2P Require Import Prelude.
From S2P Require Import Config.
From S2P Require Import ShmContract.
From S2P Require Import ShmRuntime.
From S2P Require Import Runtime.

Open Scope Z_scope.

(* faultcore_network/src/setpriority_compat.rs:5-7 FAULTCORE_SETPRIORITY_LATENCY *)
Definition FAULTCORE_SETPRIORITY_LATENCY : Z := 0xFA.
Definition FAULTCORE_SETPRIORITY_BANDWIDTH : Z := 0xFB.
Definition FAULTCORE_SETPRIORITY_TIMEOUT : Z := 0xFC.

(* faultcore_network/src/setpriority_compat.rs:9-14 SetpriorityCompatOutcome *)
Inductive SetpriorityCompatOutcome : Type :=
  | NotHandled
  | Handled
  | FaultcoreError (errno : Z).

#[export] Instance SetpriorityCompatOutcome_eq_dec : EqDecision SetpriorityCompatOutcome.
Proof. solve_decision. Defined.

(* faultcore_network/src/setpriority_compat.rs:66-73 is_faultcore_mode *)
Definition is_faultcore_mode (which : Z) : bool :=
  (which =? FAULTCORE_SETPRIORITY_LATENCY) || (which =? FAULTCORE_SETPRIORITY_BANDWIDTH) ||
  (which =? FAULTCORE_SETPRIORITY_TIMEOUT).

(* faultcore_network/src/setpriority_compat.rs:75-82 is_valid_faultcore_args *)
Definition is_valid_faultcore_args (which who prio : Z) : bool :=
  if which =? FAULTCORE_SETPRIORITY_LATENCY then (0 <=? who) && (0 <=? prio)
  else if which =? FAULTCORE_SETPRIORITY_BANDWIDTH then 0 <=? prio
  else if which =? FAULTCORE_SETPRIORITY_TIMEOUT then (-1 <=? who) && (-1 <=? prio)
  else false.

(** The closure passed to [update_config_for_tid]; [as u64] of the arguments,
    which are [c_int]s. *)
Definition compat_update (which who prio : Z) (config : Fc.FaultcoreConfig) : Fc.FaultcoreConfig :=
  let config :=
    if which =? FAULTCORE_SETPRIORITY_LATENCY then
      config <| Fc.latency_ns := wrapping_mul (as_u64 who) 1000000 |>
             <| Fc.packet_loss_ppm := as_u64 prio |>
    else if which =? FAULTCORE_SETPRIORITY_BANDWIDTH then
      config <| Fc.bandwidth_bps := wrapping_mul (as_u64 prio) 1024 |>
    else if which =? FAULTCORE_SETPRIORITY_TIMEOUT then
      let config := if who =? -1 then config else config <| Fc.connect_timeout_ms := as_u64 who |> in
      if prio =? -1 then config else config <| Fc.recv_timeout_ms := as_u64 prio |>
    else config in
  config <| Fc.magic := FAULTCORE_MAGIC |>.

(** [get_thread_id] is a system call, its answer a parameter. *)
(* faultcore_network/src/setpriority_compat.rs:16-57 handle_setpriority_compat *)
Definition handle_setpriority_compat (thread_id which who prio : Z) :
    M ShmState SetpriorityCompatOutcome :=
  if negb (is_faultcore_mode which) then mret NotHandled else
  if negb (is_valid_faultcore_args which who prio) then mret (FaultcoreError EINVAL) else
  ok ← update_config_for_tid thread_id (compat_update which who prio);
  mret (if ok : bool then Handled else FaultcoreError EIO).

(* faultcore_network/src/setpriority_compat.rs:59-64 try_handle_setpriority *)
Definition try_handle_setpriority (thread_id which who prio : Z) : M ShmState bool :=
  o ← handle_setpriority_compat thread_id which who prio;
  mret (match o with Handled => true | _ => false end).

(** ** Facts *)

(** The fields of a row, by their index, when the row is well formed. *)
Lemma row_wf_u64 (c : Fc.FaultcoreConfig) i v (w : Fc.FaultcoreConfig) :
  row_wf c → (row_layout Fc.FaultcoreConfig) !! i = Some U64 →
  row_fields w = <[i := [v]]> (row_fields c) → is_u64 v → row_wf w.
Proof.
  intros Hc Hi Hw Hv. unfold row_wf. rewrite Hw, <- (list_insert_id _ _ _ Hi).
  apply Forall2_insert; [done|]. split; [done|]. by constructor.
Qed.

Lemma compat_update_wf which who prio c :
  row_wf c → row_wf (compat_update which who prio c).
Proof.
  assert (H64 : ∀ z, is_u64 (as_u64 z)) by (intros; apply Z.mod_pos_bound; lia).
  intros Hc. unfold compat_update. cbn zeta. apply row_wf_magic; [|done].
  destruct (which =? _).
  { apply (row_wf_u64 (c <| Fc.latency_ns := wrapping_mul (as_u64 who) 1000000 |>) 4 (as_u64 prio));
      [|done..|apply H64].
    apply (row_wf_u64 c 2 (wrapping_mul (as_u64 who) 1000000)); [done..|apply wrapping_mul_u64]. }
  destruct (which =? _).
  { apply (row_wf_u64 c 6 (wrapping_mul (as_u64 prio) 1024)); [done..|apply wrapping_mul_u64]. }
  destruct (which =? _); [|done].
  assert (Hw : row_wf (if who =? -1 then c else c <| Fc.connect_timeout_ms := as_u64 who |>)).
  { destruct (who =? -1); [done|]. by apply (row_wf_u64 c 7 (as_u64 who)). }
  destruct (prio =? -1); [done|].
  by apply (row_wf_u64 (if who =? -1 then c else c <| Fc.connect_timeout_ms := as_u64 who |>)
    8 (as_u64 prio)).
Qed.

(** The thread's row with its generation locked, and as published. *)
Definition locked_row (s : ShmState) (tid : Z) : Fc.FaultcoreConfig :=
  let p := (MAX_FDS + tid_slot tid) * CONFIG_SIZE in
  (config_row s.(shm_mem) p) <| Fc.ruleset_generation :=
    Z.lor (read_u64 s.(shm_mem) (p + OFFSET_RULESET_GENERATION)) 1 |>.

Lemma locked_row_wf s tid : ready s → row_wf (locked_row s tid).
Proof.
  intros (_ & _ & Hm). apply row_wf_generation; [by apply row_at_wf|].
  apply lor_1_u64, read_u64_range, Hm.
Qed.

(** A well-formed command updates the row, and the next lookup sees it exactly
    when the updated row is valid. *)
Lemma handle_command `{Os} tid which who prio s :
  ready s → is_faultcore_mode which = true → is_valid_faultcore_args which who prio = true →
  let s' := (handle_setpriority_compat tid which who prio s).2 in
  (handle_setpriority_compat tid which who prio s).1 = Handled ∧
  ∃ g, is_u64 g ∧
    let row := (compat_update which who prio (locked_row s tid)) <| Fc.ruleset_generation := g |> in
    (get_config_for_tid tid s').1 = if Fc.is_valid row then Some row else None.
Proof.
  intros Hs Hm Ha. unfold handle_setpriority_compat. rewrite Hm, Ha. cbn [negb]. run_simpl.
  assert (Hwf : row_wf (compat_update which who prio (locked_row s tid)))
    by by apply compat_update_wf, locked_row_wf.
  rewrite (update_run s tid _ Hs). cbn [fst snd]. split; [done|].
  eexists. split; [|rewrite (update_read s tid _ Hs Hwf); reflexivity].
  apply Z.mod_pos_bound. lia.
Qed.

(** Only the two fields and the magic of a latency command matter to its validity. *)
Lemma latency_validity who prio c g :
  Fc.is_valid (c <| Fc.latency_ns := 0 |> <| Fc.packet_loss_ppm := 0 |>
                 <| Fc.magic := FAULTCORE_MAGIC |>) = true →
  let row := (compat_update FAULTCORE_SETPRIORITY_LATENCY who prio c)
               <| Fc.ruleset_generation := g |> in
  Fc.is_valid row =
    (row.(Fc.latency_ns) <=? MAX_LATENCY_NS) && (row.(Fc.packet_loss_ppm) <=? 1000000).
Proof.
  intros H row.
  change row with (c <| Fc.latency_ns := wrapping_mul (as_u64 who) 1000000 |>
    <| Fc.packet_loss_ppm := as_u64 prio |> <| Fc.magic := FAULTCORE_MAGIC |>
    <| Fc.ruleset_generation := g |>).
  clear row. revert H. generalize (wrapping_mul (as_u64 who) 1000000) (as_u64 prio).
  intros lat loss. unfold Fc.is_valid. destruct c.
  cbn -[Z.leb Z.eqb Z.mul MAX_LATENCY_NS MAX_BANDWIDTH_BPS FAULTCORE_MAGIC
    MAX_TARGET_RULES_PER_TID].
  intros H. repeat match goal with
    | H : _ && _ = true |- _ => apply andb_true_iff in H as [H ?]
    end.
  repeat match goal with H : _ = true |- _ => rewrite H; clear H end.
  rewrite ?andb_true_l, ?andb_true_r. reflexivity.
Qed.

(** ** Properties *)


