(* ===== verification/Bridge.v ===== *)
(** * The interceptor bridge

    [faultcore_network/src/interceptor_bridge.rs]: which configuration applies to
    a call of the hooked libc.  The row of the descriptor's owner (or of the
    calling thread) is loaded, and when it has target rules the best one for the
    peer's endpoint and the observed names is selected, under a bounded retry when
    the rule set is republished in between.  What is read from the segment goes
    through two readers, as in the code, so that their interleaving with a writer
    is a parameter; names observed on sockets are kept in two maps. *)

From stdpp Require Import sorting.
From S2P Require Import Prelude.
From S2P Require Import Config.
From S2P Require Import ShmContract.
From S2P Require Import RustStr.
From S2P Require Import ShmRuntime.
From S2P Require Import Layers.
From S2P Require Import Observability.

Open Scope Z_scope.

(* faultcore_network/src/interceptor_bridge.rs:15-15 RULESET_READ_RETRY_LIMIT *)
Definition RULESET_READ_RETRY_LIMIT : nat := 3.
(* faultcore_network/src/interceptor_bridge.rs:16-16 HOSTNAME_OBSERVATION_TTL_NS *)
Definition HOSTNAME_OBSERVATION_TTL_NS : Z := 30000000000.
(* faultcore_network/src/interceptor_bridge.rs:17-17 HOSTNAME_OBSERVATION_MAX_ENTRIES *)
Definition HOSTNAME_OBSERVATION_MAX_ENTRIES : nat := 4096.

(** ** Names and rules *)

(* faultcore_network/src/interceptor_bridge.rs:48-54 normalize_semantic_name *)
Definition normalize_semantic_name (value : str) : option str :=
  let normalized := to_ascii_lowercase (trim_end_matches 46 (trim value)) in
  match normalized with [] => None | _ => Some normalized end.

(* faultcore_network/src/interceptor_bridge.rs:199-203 SemanticContext *)
Record SemanticContext : Type := mkSemanticContext {
  sem_hostname : option str;
  sem_sni : option str
}.

(* faultcore_network/src/interceptor_bridge.rs:205-211 rule_name *)
Definition rule_name (raw : list Z) : option str :=
  match take_while (λ b, negb (b =? 0)) raw with
  | [] => None
  | name => from_utf8 name
  end.

(* faultcore_network/src/interceptor_bridge.rs:213-215 wildcard_suffix *)
Definition wildcard_suffix (name : str) : option str := strip_prefix (lit "*.") name.

(* faultcore_network/src/interceptor_bridge.rs:217-224 wildcard_matches *)
Definition wildcard_matches (suffix candidate : str) : bool :=
  if bool_decide (candidate = suffix) then false else
  match strip_suffix suffix candidate with
  | Some prefix => ends_with prefix 46
  | None => false
  end.

(* faultcore_network/src/interceptor_bridge.rs:226-232 match_name_score *)
Definition match_name_score (rule_name : str) (candidate : option str) : option Z :=
  candidate ← candidate;
  match wildcard_suffix rule_name with
  | Some suffix => if wildcard_matches suffix candidate then Some 1 else None
  | None => if bool_decide (rule_name = candidate) then Some 2 else None
  end.

(* faultcore_network/src/interceptor_bridge.rs:234-240 rule_port_end *)
Definition rule_port_end (rule : Rule.TargetRule) : Z :=
  if 0 <? rule.(Rule.reserved) then rule.(Rule.reserved) else rule.(Rule.port).

(* faultcore_network/src/interceptor_bridge.rs:242-256 endpoint_matches_rule_filters *)
Definition endpoint_matches_rule_filters (rule : Rule.TargetRule) (endpoint : Endpoint) : bool :=
  if (0 <? rule.(Rule.protocol)) && negb (rule.(Rule.protocol) =? endpoint.(protocol)) then false else
  let endpoint_port := endpoint.(port) in
  let port_start := rule.(Rule.port) in
  let port_end := rule_port_end rule in
  if ((0 <? port_start) || (0 <? port_end)) &&
     ((endpoint_port <? port_start) || (port_end <? endpoint_port)) then false
  else true.

(** The same text as the function of [lib.rs]; [None] is a panic, which the
    callers' bound on the prefix excludes ([cidr_total]). *)
(* faultcore_network/src/interceptor_bridge.rs:312-326 prefix_match *)
Definition prefix_match (candidate network : list Z) (prefix_len : Z) : option bool :=
  Config.prefix_match candidate network prefix_len.

Definition is_some {A} (o : option A) : bool := match o with Some _ => true | None => false end.

(* faultcore_network/src/interceptor_bridge.rs:258-310 rule_match_class *)
Definition rule_match_class (rule : Rule.TargetRule) (endpoint : option Endpoint)
    (semantic : SemanticContext) : option Z :=
  if rule.(Rule.enabled) =? 0 then None else
  let hostname_rule := rule_name rule.(Rule.hostname) in
  let sni_rule := rule_name rule.(Rule.sni) in
  if is_some hostname_rule && is_some sni_rule then None else
  let is_semantic := is_some hostname_rule || is_some sni_rule in
  if is_semantic && negb (rule.(Rule.kind) =? 0) then None else
  let name_rule :=
    match sni_rule with
    | Some value => Some (value, semantic.(sem_sni), 3)
    | None => (λ value, (value, semantic.(sem_hostname), 1)) <$> hostname_rule
    end in
  match name_rule with
  | Some (name, candidate, bonus) =>
      let filtered := (0 <? rule.(Rule.protocol)) || (0 <? rule.(Rule.port)) ||
                      (0 <? rule.(Rule.reserved)) in
      let score := (λ score, score + bonus) <$> match_name_score name candidate in
      if filtered then
        endpoint ← endpoint;
        if negb (endpoint_matches_rule_filters rule endpoint) then None else score
      else score
  | None =>
      endpoint ← endpoint;
      if negb (endpoint_matches_rule_filters rule endpoint) then None else
      let family := rule.(Rule.address_family) in
      if family =? 0 then None else
      if rule.(Rule.kind) =? 1 then
        if (endpoint.(address_family) =? family) && bool_decide (endpoint.(addr) = rule.(Rule.addr))
        then Some 1 else None
      else if rule.(Rule.kind) =? 2 then
        let max_prefix := if family =? 1 then 32 else 128 in
        let bounded_prefix := Z.min rule.(Rule.prefix_len) max_prefix in
        if (endpoint.(address_family) =? family) &&
           bool_decide (prefix_match endpoint.(addr) rule.(Rule.addr) bounded_prefix = Some true)
        then Some 1 else None
      else None
  end.

(** The loop of [select_best_target_rule] from index [idx] on. *)
(* faultcore_network/src/interceptor_bridge.rs:337-351 select_best_target_rule *)
Fixpoint select_loop (endpoint : option Endpoint) (semantic : SemanticContext)
    (rules : list Rule.TargetRule) (idx : nat) (selected : option (nat * Z * Z)) :
    option (nat * Z * Z) :=
  match rules with
  | [] => selected
  | rule :: rules =>
      let selected :=
        match rule_match_class rule endpoint semantic with
        | None => selected
        | Some match_class =>
            let should_replace :=
              match selected with
              | None => true
              | Some (_, selected_priority, selected_class) =>
                  (selected_priority <? rule.(Rule.priority)) ||
                  ((rule.(Rule.priority) =? selected_priority) && (selected_class <? match_class))
              end in
            if should_replace then Some (idx, rule.(Rule.priority), match_class) else selected
        end in
      select_loop endpoint semantic rules (S idx) selected
  end.

(* faultcore_network/src/interceptor_bridge.rs:328-353 select_best_target_rule *)
Definition select_best_target_rule (endpoint : option Endpoint) (semantic : SemanticContext)
    (rules : list Rule.TargetRule) (count : nat) : option (nat * Rule.TargetRule) :=
  let limit := (count `min` length rules)%nat in
  sel ← select_loop endpoint semantic (take limit rules) 0 None;
  rule ← rules !! sel.1.1;
  Some (sel.1.1, rule).

(* faultcore_network/src/interceptor_bridge.rs:355-357 target_rule_id_for_slot_idx *)
Definition target_rule_id_for_slot_idx (tid_slot : Z) (idx : nat) : Z :=
  Z.lor (Z.shiftl tid_slot 32) (Z.of_nat idx).

(** ** Names observed on sockets *)

(* faultcore_network/src/interceptor_bridge.rs:29-36 HostnameObservationKey *)
Record HostnameObservationKey : Type := mkHostnameObservationKey {
  key_tid_slot : Z;
  key_address_family : Z;
  key_addr : list Z;
  key_port : Z;
  key_protocol : Z
}.

#[export] Instance HostnameObservationKey_eq_dec : EqDecision HostnameObservationKey.
Proof. solve_decision. Defined.

#[export] Instance HostnameObservationKey_countable : Countable HostnameObservationKey.
Proof.
  apply (inj_countable'
    (λ k, (k.(key_tid_slot), k.(key_address_family), k.(key_addr), k.(key_port), k.(key_protocol)))
    (λ '(t, f, a, p, q), mkHostnameObservationKey t f a p q)).
  by intros [].
Defined.

(* faultcore_network/src/interceptor_bridge.rs:38-41 ObservedName *)
Record ObservedName : Type := mkObservedName {
  hostname : str;
  observed_at_ns : Z
}.

Abbreviation Observations := (gmap HostnameObservationKey ObservedName).

(** The order in which a [HashMap] is iterated is unspecified; sorting what it
    gives with a stable sort covers every result of the unstable sort. *)
Class HashOrder : Type := hash_iter : Observations → list (HostnameObservationKey * ObservedName).
Class HashOrderLaw `{HashOrder} : Prop := hash_iter_perm m : hash_iter m ≡ₚ map_to_list m.

(* faultcore_network/src/interceptor_bridge.rs:63-74 hostname_observation_key *)
Definition hostname_observation_key (tid_slot : Z) (endpoint : Endpoint) : option HostnameObservationKey :=
  if negb (endpoint.(address_family) =? 1) && negb (endpoint.(address_family) =? 2) then None else
  Some (mkHostnameObservationKey tid_slot endpoint.(address_family) endpoint.(addr)
          endpoint.(port) endpoint.(protocol)).

Definition fresh (now_ns : Z) (item : ObservedName) : Prop :=
  saturating_sub now_ns item.(observed_at_ns) ≤ HOSTNAME_OBSERVATION_TTL_NS.

#[export] Instance fresh_dec now_ns item : Decision (fresh now_ns item).
Proof. unfold fresh. apply _. Defined.

Definition older (a b : HostnameObservationKey * Z) : Prop := a.2 ≤ b.2.

#[export] Instance older_dec a b : Decision (older a b).
Proof. unfold older. apply _. Defined.

(* faultcore_network/src/interceptor_bridge.rs:76-93 prune_hostname_observations *)
Definition prune_hostname_observations `{HashOrder} (map : Observations) (now_ns : Z) : Observations :=
  let map := filter (λ kv, fresh now_ns kv.2) map in
  if decide (size map ≤ HOSTNAME_OBSERVATION_MAX_ENTRIES)%nat then map else
  let items := merge_sort older ((λ kv, (kv.1, kv.2.(observed_at_ns))) <$> hash_iter map) in
  let remove_count := (size map - HOSTNAME_OBSERVATION_MAX_ENTRIES)%nat in
  foldl (λ map item, delete item.1 map) map (take remove_count items).

(** ** The state of the bridge *)

Record Bridge : Type := mkBridge {
  RELOAD_APPLIED_TOTAL : Z;
  RELOAD_RETRY_TOTAL : Z;
  OBSERVED_SNI_BY_FD : gmap Z str;
  OBSERVED_HOSTNAME_BY_ENDPOINT : Observations;
  metrics : AdvancedMetrics;
  world : World
}.

#[export] Instance eta_Bridge : Eta Bridge := λ b, mkBridge
  (b.(RELOAD_APPLIED_TOTAL)) (b.(RELOAD_RETRY_TOTAL)) (b.(OBSERVED_SNI_BY_FD))
  (b.(OBSERVED_HOSTNAME_BY_ENDPOINT)) (b.(metrics)) (b.(world)).

Section observe.
Context `{Host} `{HashOrder}.

Definition bridge_now : M Bridge Z :=
  zoom world (λ w b, b <| world := w |>) monotonic_now_ns.

(* faultcore_network/src/interceptor_bridge.rs:95-112 observe_hostname_for_slot_endpoint *)
Definition observe_hostname_for_slot_endpoint (tid_slot : Z) (endpoint : Endpoint) (name : str) :
    M Bridge unit :=
  match normalize_semantic_name name with
  | None => mret tt
  | Some normalized =>
      match hostname_observation_key tid_slot endpoint with
      | None => mret tt
      | Some key =>
          now_ns ← bridge_now;
          modify (λ b, b <| OBSERVED_HOSTNAME_BY_ENDPOINT ::= λ map,
            prune_hostname_observations (<[key := mkObservedName normalized now_ns]> map) now_ns |>)
      end
  end.

(** [Iterator::max_by_key]: the last of the greatest. *)
Definition max_by_key {A} (f : A → Z) (l : list A) : option A :=
  foldl (λ best x, match best with
                   | Some b => if f b <=? f x then Some x else Some b
                   | None => Some x
                   end) None l.

(** The observation for a key: its own, else the latest one of the same thread
    slot and address. *)
Definition select_observation (map : Observations) (tid_slot : Z) (endpoint : Endpoint)
    (key : HostnameObservationKey) : option (HostnameObservationKey * ObservedName) :=
  match map !! key with
  | Some item => Some (key, item)
  | None =>
      max_by_key (λ kv, kv.2.(observed_at_ns))
        (filter (λ kv, kv.1.(key_tid_slot) = tid_slot ∧
                       kv.1.(key_address_family) = endpoint.(address_family) ∧
                       kv.1.(key_addr) = endpoint.(addr)) (hash_iter map))
  end.

(* faultcore_network/src/interceptor_bridge.rs:114-139 observed_hostname_for_slot_endpoint *)
Definition observed_hostname_for_slot_endpoint (tid_slot : Z) (endpoint : Endpoint) :
    M Bridge (option str) :=
  match hostname_observation_key tid_slot endpoint with
  | None => mret None
  | Some key =>
      now_ns ← bridge_now;
      map ← gets OBSERVED_HOSTNAME_BY_ENDPOINT;
      match select_observation map tid_slot endpoint key with
      | None => mret None
      | Some (selected_key, item) =>
          if HOSTNAME_OBSERVATION_TTL_NS <? saturating_sub now_ns item.(observed_at_ns) then
            modify (λ b, b <| OBSERVED_HOSTNAME_BY_ENDPOINT ::= delete selected_key |>);;
            mret None
          else mret (Some item.(hostname))
      end
  end.

(* faultcore_network/src/interceptor_bridge.rs:56-61 observed_sni_for_fd *)
Definition observed_sni_for_fd (fd : Z) : M Bridge (option str) :=
  if fd <? 0 then mret None else gets (λ b, b.(OBSERVED_SNI_BY_FD) !! fd).

(* faultcore_network/src/interceptor_bridge.rs:141-149 observe_sni_for_fd *)
Definition observe_sni_for_fd (fd : Z) (sni : str) : M Bridge unit :=
  if fd <? 0 then mret tt else
  match normalize_semantic_name sni with
  | None => mret tt
  | Some normalized => modify (λ b, b <| OBSERVED_SNI_BY_FD ::= <[fd := normalized]> |>)
  end.

(* faultcore_network/src/interceptor_bridge.rs:151-156 clear_observed_semantic_for_fd *)
Definition clear_observed_semantic_for_fd (fd : Z) : M Bridge unit :=
  if fd <? 0 then mret tt else modify (λ b, b <| OBSERVED_SNI_BY_FD ::= delete fd |>).

(* faultcore_network/src/interceptor_bridge.rs:158-171 clone_observed_semantic_for_fd *)
Definition clone_observed_semantic_for_fd (src_fd dst_fd : Z) : M Bridge unit :=
  if (src_fd <? 0) || (dst_fd <? 0) then mret tt else
  modify (λ b, b <| OBSERVED_SNI_BY_FD ::= λ map,
    match map !! src_fd with
    | Some sni => <[dst_fd := sni]> map
    | None => delete dst_fd map
    end |>).
End observe.

(* faultcore_network/src/interceptor_bridge.rs:187-192 runtime_reload_metrics_snapshot *)
Definition runtime_reload_metrics_snapshot (b : Bridge) : Z * Z :=
  (b.(RELOAD_APPLIED_TOTAL), b.(RELOAD_RETRY_TOTAL)).

(* faultcore_network/src/interceptor_bridge.rs:194-197 reset_runtime_reload_metrics *)
Definition reset_runtime_reload_metrics (b : Bridge) : Bridge :=
  b <| RELOAD_APPLIED_TOTAL := 0 |> <| RELOAD_RETRY_TOTAL := 0 |>.

(** ** The configuration of a call *)

(** The selected rule becomes the configuration's target. *)
Definition with_rule (cfg : Config) (rule : Rule.TargetRule) : Config :=
  cfg <| target_enabled := 0 |>
      <| target_kind := rule.(Rule.kind) |>
      <| target_prefix_len := rule.(Rule.prefix_len) |>
      <| target_port := rule.(Rule.port) |>
      <| target_protocol := rule.(Rule.protocol) |>
      <| target_address_family := rule.(Rule.address_family) |>
      <| target_addr := rule.(Rule.addr) |>
      <| target_hostname := rule.(Rule.hostname) |>
      <| target_sni := rule.(Rule.sni) |>.

(** What the readers and the clock act on: the bridge and an environment [E]. *)
Section reader.
Context `{Host} {E : Type}.

Definition on_bridge {A} (c : M Bridge A) : M (Bridge * E) A := zoom fst (λ b s, (b, s.2)) c.
Definition on_env {A} (c : M E A) : M (Bridge * E) A := zoom snd (λ e s, (s.1, e)) c.

Definition filtered_now (cfg : Config) (endpoint : option Endpoint) : M (Bridge * E) (option Config) :=
  now ← on_bridge bridge_now; mret (runtime_filtered cfg endpoint now).

Context (tid_slot : Z) (endpoint : option Endpoint) (semantic : SemanticContext).
Context (read_rules : M E (option (list Rule.TargetRule))) (read_cfg : M E (option Config)).

(** The loop, with the attempts that remain. *)
(* faultcore_network/src/interceptor_bridge.rs:391-421 apply_multi_target_for_tid_with_reader *)
Fixpoint reload_loop (attempts : nat) (cfg : Config) : M (Bridge * E) (option Config) :=
  match attempts with
  | O => mret None
  | S attempts =>
      if cfg.(target_enabled) =? 0 then filtered_now cfg endpoint else
      let generation_before := cfg.(ruleset_generation) in
      rules ← on_env read_rules;
      match rules with
      | None => mret None
      | Some rules =>
          refreshed_cfg ← on_env read_cfg;
          match refreshed_cfg with
          | None => mret None
          | Some refreshed_cfg =>
              if negb (refreshed_cfg.(ruleset_generation) =? generation_before) then
                on_bridge (modify (λ b, b <| RELOAD_RETRY_TOTAL ::= incr |>));;
                reload_loop attempts refreshed_cfg
              else
                let count := (Z.to_nat cfg.(target_enabled) `min` length rules)%nat in
                match select_best_target_rule endpoint semantic rules count with
                | None => mret None
                | Some (rule_idx, rule) =>
                    on_bridge (modify (λ b,
                      b <| metrics ::= record_target_rule_hit
                             (target_rule_id_for_slot_idx tid_slot rule_idx) |>
                        <| RELOAD_APPLIED_TOTAL ::= incr |>));;
                    filtered_now (with_rule cfg rule) endpoint
                end
          end
      end
  end.

(* faultcore_network/src/interceptor_bridge.rs:379-422 apply_multi_target_for_tid_with_reader *)
Definition apply_multi_target_for_tid_with_reader (cfg : Config) : M (Bridge * E) (option Config) :=
  reload_loop RULESET_READ_RETRY_LIMIT cfg.
End reader.

(** The segment as the environment. *)
Section segment.
Context `{Host} `{HashOrder} `{Os}.

Definition read_cfg_of_slot (slot : Z) : M ShmState (option Config) :=
  item ← get_config_for_tid_slot slot; mret (Fc.into_network_config <$> item).

(* faultcore_network/src/interceptor_bridge.rs:359-377 apply_multi_target_for_tid *)
Definition apply_multi_target_for_tid (cfg : Config) (tid_slot : Z) (endpoint : option Endpoint)
    (semantic : SemanticContext) : M (Bridge * ShmState) (option Config) :=
  if cfg.(target_enabled) =? 0 then filtered_now cfg endpoint else
  match endpoint with
  | None => mret None
  | Some endpoint =>
      apply_multi_target_for_tid_with_reader tid_slot (Some endpoint) semantic
        (get_target_rules_for_tid_slot tid_slot) (read_cfg_of_slot tid_slot) cfg
  end.

(* faultcore_network/src/interceptor_bridge.rs:424-426 init_runtime_shm *)
Definition init_runtime_shm : M ShmState bool := try_open_shm.

(** [get_thread_id] is a system call, its answer a parameter here and below. *)
(* faultcore_network/src/interceptor_bridge.rs:428-434 bind_fd_to_current_thread *)
Definition bind_fd_to_current_thread (thread_id fd : Z) : M (Bridge * ShmState) unit :=
  if fd <? 0 then mret tt else on_env (assign_rule_to_fd fd thread_id).

(* faultcore_network/src/interceptor_bridge.rs:436-439 clear_fd_binding *)
Definition clear_fd_binding (fd : Z) : M (Bridge * ShmState) unit :=
  on_env (clear_rule_for_fd fd);;
  on_bridge (clear_observed_semantic_for_fd fd).

(* faultcore_network/src/interceptor_bridge.rs:441-444 clone_fd_binding *)
Definition clone_fd_binding (src_fd dst_fd : Z) : M (Bridge * ShmState) unit :=
  on_env (clone_rule_for_fd src_fd dst_fd);;
  on_bridge (clone_observed_semantic_for_fd src_fd dst_fd).

(** The row of the descriptor's owner and its slot, else the calling thread's. *)
(* faultcore_network/src/interceptor_bridge.rs:447-458 resolve_runtime_config_for_endpoint *)
Definition base_config (thread_id fd : Z) : M ShmState (option (Config * Z)) :=
  owner_slot ← get_tid_slot_for_fd fd;
  owner ← match owner_slot with
          | Some slot => cfg ← read_cfg_of_slot slot; mret ((λ c, (c, slot)) <$> cfg)
          | None => mret None
          end;
  match owner with
  | Some owner => mret (Some owner)
  | None =>
      cfg ← get_config_for_tid thread_id;
      mret ((λ c, (Fc.into_network_config c, get_tid_slot_for_tid thread_id)) <$> cfg)
  end.

(* faultcore_network/src/interceptor_bridge.rs:446-468 resolve_runtime_config_for_endpoint *)
Definition resolve_runtime_config_for_endpoint (thread_id fd : Z) (endpoint : option Endpoint) :
    M (Bridge * ShmState) (option Config) :=
  base ← on_env (base_config thread_id fd);
  match base with
  | None => mret None
  | Some (base_cfg, slot) =>
      observed_sni ← on_bridge (observed_sni_for_fd fd);
      observed_hostname ←
        match endpoint with
        | Some resolved => on_bridge (observed_hostname_for_slot_endpoint slot resolved)
        | None => mret None
        end;
      apply_multi_target_for_tid base_cfg slot endpoint
        (mkSemanticContext observed_hostname observed_sni)
  end.

(* faultcore_network/src/interceptor_bridge.rs:488-503 runtime_dns_config_for_query *)
Definition runtime_dns_config_for_query (thread_id : Z) (hostname sni : option str) :
    M (Bridge * ShmState) (option Config) :=
  cfg ← on_env (get_config_for_tid thread_id);
  match cfg with
  | None => mret None
  | Some cfg =>
      let cfg := Fc.into_network_config cfg in
      let slot := get_tid_slot_for_tid thread_id in
      if cfg.(target_enabled) =? 0 then filtered_now cfg None else
      apply_multi_target_for_tid_with_reader slot None (mkSemanticContext hostname sni)
        (get_target_rules_for_tid_slot slot) (read_cfg_of_slot slot) cfg
  end.

(* faultcore_network/src/interceptor_bridge.rs:484-486 runtime_dns_config_for_current_thread *)
Definition runtime_dns_config_for_current_thread (thread_id : Z) : M (Bridge * ShmState) (option Config) :=
  runtime_dns_config_for_query thread_id None None.
End segment.

(** ** Facts about rules *)

(** [a] is preferred to [b]: by priority, then by class, then by position. *)
Definition preferred (a b : nat * Z * Z) : Prop :=
  b.1.2 < a.1.2 ∨ b.1.2 = a.1.2 ∧ (b.2 < a.2 ∨ b.2 = a.2 ∧ (a.1.1 ≤ b.1.1)%nat).

Lemma preferred_refl a : preferred a a.
Proof. unfold preferred. lia. Qed.

Lemma preferred_trans a b c : preferred a b → preferred b c → preferred a c.
Proof. unfold preferred. lia. Qed.

Section select.
Context (endpoint : option Endpoint) (semantic : SemanticContext).

(** The matching rule at a position of a list that starts at [idx]. *)
Definition candidate (rules : list Rule.TargetRule) (idx : nat) (x : nat * Z * Z) : Prop :=
  ∃ j rule, rules !! j = Some rule ∧ x.1.1 = (idx + j)%nat ∧ x.1.2 = rule.(Rule.priority) ∧
    rule_match_class rule endpoint semantic = Some x.2.

Lemma candidate_cons rule rules idx x :
  candidate (rule :: rules) idx x ↔
    (x.1.1 = idx ∧ x.1.2 = rule.(Rule.priority) ∧ rule_match_class rule endpoint semantic = Some x.2) ∨
    candidate rules (S idx) x.
Proof.
  split.
  - intros ([|j] & r & Hr & Hi & Hp & Hc); cbn in Hr.
    + injection Hr as ->. left. by rewrite Nat.add_0_r in Hi.
    + right. exists j, r. split_and!; try done. lia.
  - intros [(Hi & Hp & Hc)|(j & r & Hr & Hi & Hp & Hc)].
    + exists 0%nat, rule. split_and!; try done. lia.
    + exists (S j), r. split_and!; try done. lia.
Qed.

Lemma select_loop_spec rules idx sel :
  (∀ s, sel = Some s → (s.1.1 < idx)%nat) →
  match select_loop endpoint semantic rules idx sel with
  | None => sel = None ∧ ∀ x, ¬ candidate rules idx x
  | Some x => (sel = Some x ∨ candidate rules idx x) ∧
      (∀ s, sel = Some s → preferred x s) ∧ (∀ y, candidate rules idx y → preferred x y)
  end.
Proof.
  revert idx sel; induction rules as [|rule rules IH]; intros idx sel Hsel; cbn [select_loop].
  { assert (H0 : ∀ x, ¬ candidate [] idx x) by (by intros x (j & r & Hr & _)).
    destruct sel as [s|]; [|done]. split_and!; [by left| |by intros y ?%H0].
    intros s' [= <-]. apply preferred_refl. }
  destruct (rule_match_class rule endpoint semantic) as [c|] eqn:Hc.
  2: { specialize (IH (S idx) sel). destruct (select_loop _ _ rules (S idx) sel) as [x|].
    - destruct IH as (H1 & H2 & H3); [intros s Hs; specialize (Hsel s Hs); lia|].
      split_and!; [|done|].
      + destruct H1; [by left|]. right. apply candidate_cons. by right.
      + intros y [(_ & _ & Hy)|Hy]%candidate_cons; [by rewrite Hc in Hy|by apply H3].
    - destruct IH as (H1 & H2); [intros s Hs; specialize (Hsel s Hs); lia|].
      split; [done|]. intros x [(_ & _ & Hy)|Hy]%candidate_cons; [by rewrite Hc in Hy|by apply (H2 x)]. }
  set (new := (idx, rule.(Rule.priority), c)).
  set (sel' := if match sel with None => true | Some (_, p, k) => _ end then Some new else sel).
  assert (Hnew : candidate (rule :: rules) idx new) by (apply candidate_cons; by left).
  assert (Huniq : ∀ y, candidate (rule :: rules) idx y → y = new ∨ candidate rules (S idx) y).
  { intros [[i p] k] [(Hi & Hp & Hk)|Hy]%candidate_cons; [left|by right].
    cbn in Hi, Hp, Hk. rewrite Hc in Hk. injection Hk as <-. by subst i p. }
  assert (Hs' : ∃ s', sel' = Some s' ∧ (s'.1.1 < S idx)%nat ∧ preferred s' new ∧
    (sel = Some s' ∨ s' = new) ∧ ∀ s, sel = Some s → preferred s' s).
  { unfold sel'. destruct sel as [[[i p] k]|].
    2: { exists new. split_and!; [done|cbn; lia|apply preferred_refl|by right|done]. }
    specialize (Hsel _ eq_refl). cbn in Hsel.
    destruct ((p <? Rule.priority rule) || ((Rule.priority rule =? p) && (k <? c))) eqn:E.
    - exists new. split_and!; [done|cbn; lia|apply preferred_refl|by right|].
      intros s [= <-]. unfold preferred. cbn. lia.
    - exists (i, p, k). split_and!; [done|cbn; lia| |by left|].
      + unfold preferred. cbn. lia.
      + intros s [= <-]. apply preferred_refl. }
  destruct Hs' as (s' & Hs' & Hlt & Hpn & Hor & Hps).
  specialize (IH (S idx) sel'). fold sel'. destruct (select_loop _ _ rules (S idx) sel') as [x|].
  2: { destruct IH as [Hn ?]; [by intros s Hs; rewrite Hs' in Hs; injection Hs as <-|].
       by rewrite Hs' in Hn. }
  destruct IH as (H1 & H2 & H3); [by intros s Hs; rewrite Hs' in Hs; injection Hs as <-|].
  specialize (H2 _ Hs'). split_and!.
  - destruct H1 as [H1|H1]; [|right; apply candidate_cons; by right].
    rewrite Hs' in H1. injection H1 as ->. destruct Hor as [| ->]; [by left|by right].
  - intros s Hs. eapply preferred_trans; [apply H2|by apply Hps].
  - intros y [->|Hy]%Huniq; [eapply preferred_trans; [apply H2|done]|by apply H3].
Qed.
End select.

(** ** Properties of the selection *)

(** C28. The best target rule.  Among the first [count] rules, the one selected
    matches, and no other matching rule has a greater priority, the same priority
    and a more specific match, or the same of both at an earlier position; no rule
    is selected exactly when none of them matches. *)
Theorem target_rule_selection endpoint semantic rules count :
  match select_best_target_rule endpoint semantic rules count with
  | Some (i, rule) =>
      (i < count)%nat ∧ rules !! i = Some rule ∧
      ∃ c, rule_match_class rule endpoint semantic = Some c ∧
        ∀ j rule' c', (j < count)%nat → rules !! j = Some rule' →
          rule_match_class rule' endpoint semantic = Some c' →
          preferred (i, rule.(Rule.priority), c) (j, rule'.(Rule.priority), c')
  | None => ∀ j rule', (j < count)%nat → rules !! j = Some rule' →
      rule_match_class rule' endpoint semantic = None
  end.
Proof.
  unfold select_best_target_rule.
  assert (Hc : ∀ j rule' c', (j < count)%nat → rules !! j = Some rule' →
    rule_match_class rule' endpoint semantic = Some c' →
    candidate endpoint semantic (take (count `min` length rules) rules) 0
      (j, rule'.(Rule.priority), c')).
  { intros j rule' c' Hj Hr Hcl. exists j, rule'. split_and!; try done.
    rewrite lookup_take. apply lookup_lt_Some in Hr as Hl. rewrite decide_True by lia. done. }
  pose proof (select_loop_spec endpoint semantic (take (count `min` length rules) rules) 0 None)
    as Hsel. destruct (select_loop _ _ _ 0 None) as [[[i p] c]|]; cbn [mbind option_bind fst snd].
  - destruct Hsel as ([?|(j & rule & Hr & Hi & Hp & Hcl)] & _ & Hbest); [done|done|].
    cbn in Hi, Hp, Hcl. subst j.
    rewrite lookup_take in Hr. case_decide as Hlt; [|done]. rewrite Hr. cbn [mbind option_bind].
    split_and!; [lia|done|]. exists c. split; [done|]. intros. subst p. by apply Hbest, Hc.
  - destruct Hsel as [_ Hnone]; [done|]. intros j rule' Hj Hr.
    destruct (rule_match_class rule' endpoint semantic) as [c'|] eqn:Hcl; [|done].
    exfalso. by eapply Hnone, Hc.
Qed.

(** ** What a rule matches *)

(** The protocol and port conditions of a rule on an endpoint: a port range when
    [reserved] gives its end, one port when only [port] is given. *)
Definition filters_hold (r : Rule.TargetRule) (e : Endpoint) : Prop :=
  (r.(Rule.protocol) = 0 ∨ r.(Rule.protocol) = e.(protocol)) ∧
  (if decide (r.(Rule.reserved) = 0)
   then r.(Rule.port) = 0 ∨ e.(port) = r.(Rule.port)
   else r.(Rule.port) ≤ e.(port) ≤ r.(Rule.reserved)).

Definition unfiltered (r : Rule.TargetRule) : Prop :=
  r.(Rule.protocol) = 0 ∧ r.(Rule.port) = 0 ∧ r.(Rule.reserved) = 0.

(** A name rule's filters need an endpoint only when there are any. *)
Definition name_filters_hold (r : Rule.TargetRule) (ep : option Endpoint) : Prop :=
  unfiltered r ∨ ∃ e, ep = Some e ∧ filters_hold r e.

(** [n] is a pattern, [*.] followed by a suffix. *)
Definition is_pattern (n suf : str) : Prop := n = lit "*." ++ suf.

(** A name matches a pattern when it ends with a dot and the suffix. *)
Inductive name_match (n : str) (c : str) : Z → Prop :=
  | name_exact : n = c → (∀ suf, ¬ is_pattern n suf) → name_match n c 2
  | name_wildcard suf p : is_pattern n suf → c = p ++ 46 :: suf → name_match n c 1.

Definition family_width (r : Rule.TargetRule) : Z := if r.(Rule.address_family) =? 1 then 32 else 128.

(** The address of kind 1, or the leading bits of kind 2. *)
Definition address_matches (r : Rule.TargetRule) (e : Endpoint) : Prop :=
  r.(Rule.address_family) ≠ 0 ∧ e.(address_family) = r.(Rule.address_family) ∧
  (r.(Rule.kind) = 1 ∧ e.(addr) = r.(Rule.addr) ∨
   r.(Rule.kind) = 2 ∧
   ∀ i, 0 ≤ i < Z.min r.(Rule.prefix_len) (family_width r) →
     addr_bit e.(addr) i = addr_bit r.(Rule.addr) i).

Inductive rule_matches (r : Rule.TargetRule) (ep : option Endpoint) (sem : SemanticContext) : Z → Prop :=
  | match_sni n c k :
      rule_name r.(Rule.sni) = Some n → rule_name r.(Rule.hostname) = None →
      r.(Rule.kind) = 0 → name_filters_hold r ep →
      sem.(sem_sni) = Some c → name_match n c k → rule_matches r ep sem (3 + k)
  | match_hostname n c k :
      rule_name r.(Rule.hostname) = Some n → rule_name r.(Rule.sni) = None →
      r.(Rule.kind) = 0 → name_filters_hold r ep →
      sem.(sem_hostname) = Some c → name_match n c k → rule_matches r ep sem (1 + k)
  | match_address e :
      rule_name r.(Rule.hostname) = None → rule_name r.(Rule.sni) = None →
      ep = Some e → filters_hold r e →
      address_matches r e →
      rule_matches r ep sem 1.

(** What the segment's encoding guarantees of a rule, and the socket of an endpoint. *)
Definition rule_ok (r : Rule.TargetRule) : Prop :=
  is_addr16 r.(Rule.addr) ∧ 0 ≤ r.(Rule.prefix_len) ∧ 0 ≤ r.(Rule.protocol) ∧
  0 ≤ r.(Rule.port) ∧ 0 ≤ r.(Rule.reserved).
Definition endpoint_ok (e : Endpoint) : Prop :=
  is_addr16 e.(addr) ∧ 0 ≤ e.(port) ∧ 0 ≤ e.(protocol).

Lemma filters_spec r e :
  rule_ok r → endpoint_ok e → endpoint_matches_rule_filters r e = true ↔ filters_hold r e.
Proof.
  intros (_ & _ & ? & ? & ?) (_ & ? & ?).
  unfold endpoint_matches_rule_filters, filters_hold, rule_port_end. cbn zeta.
  destruct (decide (Rule.reserved r = 0)) as [->|].
  - change (0 <? 0) with false. cbn iota. repeat case_match; split; done || lia.
  - rewrite (proj2 (Z.ltb_lt 0 (Rule.reserved r))) by lia.
    repeat case_match; split; done || lia.
Qed.

Lemma unfiltered_spec r :
  rule_ok r → (0 <? r.(Rule.protocol)) || (0 <? r.(Rule.port)) || (0 <? r.(Rule.reserved)) = false ↔
  unfiltered r.
Proof. intros (_ & _ & ? & ? & ?). unfold unfiltered. lia. Qed.

Lemma wildcard_suffix_Some n suf : wildcard_suffix n = Some suf ↔ is_pattern n suf.
Proof. apply strip_prefix_Some. Qed.

Lemma wildcard_matches_spec suf c : wildcard_matches suf c = true ↔ ∃ p, c = p ++ 46 :: suf.
Proof.
  unfold wildcard_matches. case_bool_decide as Hc.
  { split; [done|]. intros [p Hp]. subst c. apply (f_equal length) in Hp.
    rewrite length_app in Hp. cbn in Hp. lia. }
  destruct (strip_suffix suf c) as [q|] eqn:E.
  - apply strip_suffix_Some in E. subst c. unfold ends_with. rewrite bool_decide_eq_true.
    rewrite last_Some. split.
    + intros [p ->]. exists p. by rewrite <- app_assoc.
    + intros [p Hp]. exists p. apply (app_inv_tail suf). rewrite Hp. by rewrite <- app_assoc.
  - split; [done|]. intros [p ->].
    assert (H : strip_suffix suf (p ++ 46 :: suf) = Some (p ++ [46]))
      by (apply strip_suffix_Some; by rewrite <- app_assoc).
    by rewrite H in E.
Qed.

Lemma match_name_score_spec n cand k :
  match_name_score n cand = Some k ↔ ∃ c, cand = Some c ∧ name_match n c k.
Proof.
  destruct cand as [c|]; cbn [match_name_score mbind option_bind].
  2: { split; [done|]. by intros (c & ? & _). }
  unfold match_name_score; cbn [mbind option_bind].
  destruct (wildcard_suffix n) as [suf|] eqn:Hw.
  - apply wildcard_suffix_Some in Hw as Hp. split.
    + destruct (wildcard_matches suf c) eqn:E; [|done]. intros [= <-].
      apply wildcard_matches_spec in E as [p ->]. exists (p ++ 46 :: suf). split; [done|]. by econstructor.
    + intros (? & [= <-] & [Heq Hn|suf' p Hp' ->]).
      * by destruct (Hn suf).
      * apply wildcard_suffix_Some in Hp'. rewrite Hw in Hp'. injection Hp' as <-.
        by rewrite (proj2 (wildcard_matches_spec suf (p ++ 46 :: suf))) by by exists p.
  - assert (Hn : ∀ suf, ¬ is_pattern n suf)
      by (intros suf Hs%wildcard_suffix_Some; by rewrite Hw in Hs).
    split.
    + case_bool_decide; [|done]. intros [= <-]. exists c. split; [done|]. by constructor.
    + intros (? & [= <-] & [Heq _|suf' p Hp' ->]); [|by destruct (Hn suf')].
      by rewrite bool_decide_eq_true_2.
Qed.

(** The panic of [prefix_match] is out of reach. *)
Lemma cidr_total r e :
  rule_ok r → endpoint_ok e →
  bool_decide (prefix_match e.(addr) r.(Rule.addr)
    (Z.min r.(Rule.prefix_len) (family_width r)) = Some true) = true ↔
  ∀ i, 0 ≤ i < Z.min r.(Rule.prefix_len) (family_width r) →
    addr_bit e.(addr) i = addr_bit r.(Rule.addr) i.
Proof.
  intros (Hr & ? & _) (He & _). set (p := Z.min _ _).
  assert (0 ≤ p ≤ 128) by (unfold p, family_width; destruct (_ =? 1); lia).
  destruct (prefix_match_bits e.(addr) r.(Rule.addr) p) as (b & Hb & Hbits); [done..|].
  unfold prefix_match. rewrite Hb, bool_decide_eq_true, <- Hbits.
  split; [by intros [= ->]|by intros ->].
Qed.

Lemma name_filters_spec r ep (score : option Z) :
  rule_ok r → (∀ e, ep = Some e → endpoint_ok e) →
  ∀ k, (if (0 <? r.(Rule.protocol)) || (0 <? r.(Rule.port)) || (0 <? r.(Rule.reserved)) then
          endpoint ← ep; if negb (endpoint_matches_rule_filters r endpoint) then None else score
        else score) = Some k ↔ name_filters_hold r ep ∧ score = Some k.
Proof.
  intros Hr He k. unfold name_filters_hold.
  destruct (_ || _) eqn:E.
  - assert (Hu : ¬ unfiltered r) by (intros Hu%unfiltered_spec; [by rewrite Hu in E|done]).
    destruct ep as [e|]; cbn [mbind option_bind].
    2: { split; [done|]. by intros [[?|(e & ? & _)] _]. }
    specialize (filters_spec r e Hr (He e eq_refl)) as Hf.
    destruct (endpoint_matches_rule_filters r e); cbn [negb].
    + split; [|by intros [_ ?]]. intros Hs. split; [|done]. right. exists e. split; [done|]. by apply Hf.
    + split; [done|]. intros [[?|(e' & [= <-] & Hh)] _]; [done|]. by apply Hf in Hh.
  - apply unfiltered_spec in E; [|done]. split; [by split; [left|]|by intros [_ ?]].
Qed.

Lemma is_some_false {A} (o : option A) : is_some o = false ↔ o = None.
Proof. by destruct o. Qed.

Lemma name_rule_spec r ep n cand bonus k :
  rule_ok r → (∀ e, ep = Some e → endpoint_ok e) →
  (let score := (λ score, score + bonus) <$> match_name_score n cand in
   if (0 <? r.(Rule.protocol)) || (0 <? r.(Rule.port)) || (0 <? r.(Rule.reserved)) then
     endpoint ← ep; if negb (endpoint_matches_rule_filters r endpoint) then None else score
   else score) = Some k ↔
  name_filters_hold r ep ∧ ∃ c k', cand = Some c ∧ name_match n c k' ∧ k = bonus + k'.
Proof.
  intros Hr He. cbn zeta. rewrite name_filters_spec by done. rewrite fmap_Some. split.
  - intros [Hf (m & (c & Hc & Hm)%match_name_score_spec & ->)]. split; [done|].
    exists c, m. split_and!; [done..|lia].
  - intros [Hf (c & m & Hc & Hm & ->)]. split; [done|]. exists m. split; [|lia].
    apply match_name_score_spec. by exists c.
Qed.

Lemma address_rule_spec r e k :
  rule_ok r → endpoint_ok e →
  (let family := r.(Rule.address_family) in
   if family =? 0 then None else
   if r.(Rule.kind) =? 1 then
     if (e.(address_family) =? family) && bool_decide (e.(addr) = r.(Rule.addr)) then Some 1 else None
   else if r.(Rule.kind) =? 2 then
     if (e.(address_family) =? family) &&
        bool_decide (prefix_match e.(addr) r.(Rule.addr)
          (Z.min r.(Rule.prefix_len) (if family =? 1 then 32 else 128)) = Some true)
     then Some 1 else None
   else None) = Some k ↔ k = 1 ∧ address_matches r e.
Proof.
  intros Hr He. cbn zeta. fold (family_width r). unfold address_matches.
  destruct (Z.eqb_spec (Rule.address_family r) 0); [split; [done|tauto]|].
  destruct (Z.eqb_spec (address_family e) (Rule.address_family r)); cbn [andb].
  2: { repeat case_match; (split; [done|tauto]). }
  destruct (Z.eqb_spec (Rule.kind r) 1) as [->|].
  { case_bool_decide; split; [intros [= <-]; tauto|by intros [-> _]|done|].
    by intros (_ & _ & _ & [[_ ?]|[? _]]). }
  destruct (Z.eqb_spec (Rule.kind r) 2) as [->|]; [|split; [done|tauto]].
  rewrite <- (cidr_total r e Hr He).
  destruct (bool_decide _); split; [intros [= <-]; tauto|by intros [-> _]|done|].
  by intros (_ & _ & _ & [[? _]|[_ ?]]).
Qed.

(** C29. What a target rule matches.  An enabled rule with a server name matches
    when its filters hold and the observed server name is the rule's (class 5) or
    ends with a dot and the suffix of its wildcard (class 4); one with a host name
    likewise on the observed host name (classes 3 and 2); one with neither matches
    an endpoint of its family by equal address, or by equal leading bits up to the
    family's width (class 1), when the protocol and the port range agree.  A rule
    with both names, or a name and an address kind, matches nothing. *)
Theorem rule_match_class_spec r ep sem k :
  rule_ok r → (∀ e, ep = Some e → endpoint_ok e) →
  rule_match_class r ep sem = Some k ↔ r.(Rule.enabled) ≠ 0 ∧ rule_matches r ep sem k.
Proof.
  intros Hr He. unfold rule_match_class.
  destruct (Z.eqb_spec (Rule.enabled r) 0) as [H0|H0]; [split; [done|by intros [? _]]|]. cbn zeta.
  destruct (rule_name (Rule.sni r)) as [n|] eqn:Hs, (rule_name (Rule.hostname r)) as [h|] eqn:Hh;
    cbn [is_some andb orb fmap option_fmap option_map].
  - split; [done|]. intros [_ Hm]. inversion Hm; congruence.
  - destruct (Z.eqb_spec (Rule.kind r) 0) as [Hk|Hk]; cbn [negb].
    2: { split; [done|]. intros [_ Hm]. inversion Hm; congruence. }
    rewrite name_rule_spec by done. split.
    + intros [Hf (c & k' & Hc & Hm & ->)]. split; [done|]. by eapply match_sni.
    + intros [_ Hm]. inversion Hm; [|congruence..]. split; [done|].
      eexists _, _. split_and!; [done| |done]. congruence.
  - destruct (Z.eqb_spec (Rule.kind r) 0) as [Hk|Hk]; cbn [negb].
    2: { split; [done|]. intros [_ Hm]. inversion Hm; congruence. }
    rewrite name_rule_spec by done. split.
    + intros [Hf (c & k' & Hc & Hm & ->)]. split; [done|]. by eapply match_hostname.
    + intros [_ Hm]. inversion Hm; [congruence| |congruence]. split; [done|].
      eexists _, _. split_and!; [done| |done]. congruence.
  - assert (Hm : rule_matches r ep sem k ↔
      k = 1 ∧ ∃ e, ep = Some e ∧ filters_hold r e ∧ address_matches r e).
    { split; [|intros [-> (e & ? & ? & ?)]; by eapply match_address].
      intros Hm. inversion Hm; [congruence..|]. split; [done|]. by exists e. }
    rewrite Hm. clear Hm. destruct ep as [e|]; cbn [mbind option_bind];
      [|split; [done|by intros (_ & _ & e & ? & _)]].
    specialize (filters_spec r e Hr (He e eq_refl)) as Hf.
    destruct (endpoint_matches_rule_filters r e); cbn [negb].
    2: { split; [done|]. intros (_ & _ & e' & [= <-] & Hh' & _). by apply Hf in Hh'. }
    rewrite (address_rule_spec r e k Hr (He e eq_refl)). split.
    + intros [-> Ha]. split_and!; [done..|]. exists e. split_and!; [done| |done]. by apply Hf.
    + by intros (_ & -> & e' & [= <-] & _ & ?).
Qed.

(** ** Facts about observations *)

#[export] Instance older_trans : Transitive older.
Proof. intros ???. unfold older. lia. Qed.
#[export] Instance older_total : Total older.
Proof. intros ??. unfold older. lia. Qed.

(** Deleting the keys of a list. *)
Lemma lookup_delete_keys {A B} (l : list (HostnameObservationKey * A))
    (m : gmap HostnameObservationKey B) k :
  foldl (λ m item, delete item.1 m) m l !! k = if decide (k ∈ l.*1) then None else m !! k.
Proof.
  revert m; induction l as [|[k' a] l IH]; intros m; cbn.
  { by rewrite decide_False by apply not_elem_of_nil. }
  rewrite IH. destruct (decide (k = k')) as [->|Hne].
  - rewrite lookup_delete_eq. rewrite (decide_True (P:=_ ∈ _ :: _)) by left.
    by destruct (decide _).
  - rewrite lookup_delete_ne by done. apply decide_ext. rewrite elem_of_cons. split; [by right|by intros [?|?]].
Qed.

Lemma size_delete_keys {A B} (l : list (HostnameObservationKey * A))
    (m : gmap HostnameObservationKey B) :
  NoDup l.*1 → (∀ k, k ∈ l.*1 → is_Some (m !! k)) →
  (size (foldl (λ m item, delete item.1 m) m l) + length l = size m)%nat.
Proof.
  revert m; induction l as [|[k a] l IH]; intros m Hnd Hin; [cbn; lia|].
  rewrite fmap_cons in Hnd. apply NoDup_cons in Hnd as [Hk Hnd]. cbn [foldl fst length] in *.
  destruct (Hin k) as [x Hx]; [by left|].
  assert (size m ≠ 0%nat) by (intros ->%map_size_empty_iff; by rewrite lookup_empty in Hx).
  specialize (IH (delete k m) Hnd). rewrite map_size_delete_Some in IH by by exists x.
  cut ((size (foldl (λ m item, delete item.1 m) (delete k m) l) + length l = pred (size m))%nat);
    [lia|]. apply IH. intros k' Hk'. rewrite lookup_delete_ne by by intros ->.
  apply Hin. by right.
Qed.

Section prune.
Context `{HashOrderLaw} (m : Observations) (now : Z).

Let live := filter (λ kv, fresh now kv.2) m.
Let items (m : Observations) :=
  merge_sort older ((λ kv, (kv.1, kv.2.(observed_at_ns))) <$> hash_iter m).

Lemma items_perm (m' : Observations) :
  items m' ≡ₚ (λ kv, (kv.1, kv.2.(observed_at_ns))) <$> map_to_list m'.
Proof. unfold items. by rewrite merge_sort_Permutation, hash_iter_perm. Qed.

Lemma items_keys (m' : Observations) : (items m').*1 ≡ₚ (map_to_list m').*1.
Proof. rewrite items_perm, <- list_fmap_compose. done. Qed.

Lemma elem_of_items (m' : Observations) k t :
  (k, t) ∈ items m' ↔ ∃ x, m' !! k = Some x ∧ x.(observed_at_ns) = t.
Proof.
  rewrite items_perm, list_elem_of_fmap. split.
  - intros ([k' x] & [= -> ->] & Hx%elem_of_map_to_list). by exists x.
  - intros (x & Hx%elem_of_map_to_list & <-). by exists (k, x).
Qed.

(** What is kept was there and is fresh, the bound holds, and what is evicted for
    room is not later than anything kept. *)
Lemma prune_spec :
  let m' := prune_hostname_observations m now in
  (size m' ≤ HOSTNAME_OBSERVATION_MAX_ENTRIES)%nat ∧
  (∀ k x, m' !! k = Some x → m !! k = Some x ∧ fresh now x) ∧
  (∀ k x, m !! k = Some x → fresh now x → m' !! k = None →
     (HOSTNAME_OBSERVATION_MAX_ENTRIES < size m)%nat ∧
     size m' = HOSTNAME_OBSERVATION_MAX_ENTRIES ∧
     ∀ k' y, m' !! k' = Some y → x.(observed_at_ns) ≤ y.(observed_at_ns)).
Proof.
  cbn zeta. unfold prune_hostname_observations. fold live. fold (items live). cbn zeta.
  assert (Hlive : ∀ k x, live !! k = Some x ↔ m !! k = Some x ∧ fresh now x)
    by (intros; apply map_lookup_filter_Some).
  destruct (decide _) as [Hle|Hgt].
  { split_and!; [done|by intros k x ?%Hlive|]. intros k x Hk Hf Hnone.
    assert (Hx : live !! k = Some x) by by apply Hlive. congruence. }
  set (n := (size live - HOSTNAME_OBSERVATION_MAX_ENTRIES)%nat).
  assert (Hkeys : NoDup (items live).*1)
    by (rewrite items_keys; apply NoDup_fst_map_to_list).
  assert (Hsize : size live = length (items live)).
  { by rewrite items_perm, length_fmap, length_map_to_list. }
  assert (Hm' : size (foldl (λ m item, delete item.1 m) live (take n (items live))) =
                HOSTNAME_OBSERVATION_MAX_ENTRIES).
  { pose proof (size_delete_keys (take n (items live)) live) as Hd.
    rewrite length_take, <- Hsize in Hd.
    assert (Hd1 : NoDup (take n (items live)).*1).
    { rewrite fmap_take. rewrite <- (take_drop n (items live).*1) in Hkeys.
      by apply NoDup_app in Hkeys as (? & _). }
    specialize (Hd Hd1). cut (∀ k, k ∈ (take n (items live)).*1 → is_Some (live !! k));
      [intros Hd2; specialize (Hd Hd2); lia|].
    intros k [[k' t] [-> Hin]]%list_elem_of_fmap. apply elem_of_take in Hin as (i & Hi & _).
    apply list_elem_of_lookup_2, elem_of_items in Hi as (x & Hx & _). by exists x. }
  split_and!; [by rewrite Hm'|..].
  - intros k x. rewrite lookup_delete_keys. case_decide; [done|]. apply Hlive.
  - intros k x Hk Hf. rewrite lookup_delete_keys. case_decide as Hin.
    2: { intros Hnone. assert (live !! k = Some x) by by apply Hlive. congruence. }
    intros _. split.
    { eapply Nat.lt_le_trans; [apply Nat.nle_gt, Hgt|]. apply map_size_filter. }
    split; [done|]. intros k' y. rewrite lookup_delete_keys. case_decide as Hnin; [done|]. intros Hy.
    assert (Hsort : StronglySorted older (items live)) by apply (StronglySorted_merge_sort older).
    apply list_elem_of_fmap in Hin as ([k1 t1] & [= <-] & Hin).
    assert (t1 = x.(observed_at_ns)) as ->.
    { apply elem_of_take in Hin as (i & Hi & _).
      apply list_elem_of_lookup_2, elem_of_items in Hi as (x' & Hx' & <-).
      apply Hlive in Hx' as [Hx' _]. congruence. }
    assert (Hy' : (k', y.(observed_at_ns)) ∈ drop n (items live)).
    { assert (Hiy : (k', y.(observed_at_ns)) ∈ items live) by (apply elem_of_items; eauto).
      rewrite <- (take_drop n (items live)) in Hiy. apply elem_of_app in Hiy as [Ht|?]; [|done].
      destruct Hnin. apply list_elem_of_fmap. by eexists (_, _). }
    rewrite <- (take_drop n (items live)) in Hsort.
    exact (StronglySorted_app_1_elem_of older _ _ _ _ Hsort Hin Hy').
Qed.
End prune.

Lemma max_by_key_elem {A} (f : A → Z) l x : max_by_key f l = Some x → x ∈ l.
Proof.
  unfold max_by_key.
  cut (∀ best, foldl (λ best x, match best with
    | Some b => if f b <=? f x then Some x else Some b | None => Some x end) best l = Some x →
    best = Some x ∨ x ∈ l).
  { intros H Hx. by destruct (H None Hx). }
  induction l as [|a l IH]; intros best; cbn; [by left|]. intros [Hb|Hx]%IH; [|right; by right].
  destruct best as [b|]; [destruct (f b <=? f a)|]; injection Hb as ->; [right; by left|by left|right; by left].
Qed.

(** The clock reading of the bridge's next operation. *)
Definition now_of `{Host} (b : Bridge) : Z := (bridge_now b).1.

(** ** Properties of observations *)

(** Observed host names.  Observing a name for an endpoint never leaves more
    than 4096 names and changes no other entry except by removing it; the
    normalised name is stored with the time, unless 4096 names were observed at
    that very instant.  A lookup for that endpoint from then on gives the name
    until 30 seconds have passed, and nothing, removing it, afterwards; and every
    name a lookup ever gives was observed for the same thread slot, family and
    address at most 30 seconds before. *)
Theorem hostname_observed `{Host} `{HashOrderLaw} slot ep name b n k :
  normalize_semantic_name name = Some n → hostname_observation_key slot ep = Some k →
  let m := b.(OBSERVED_HOSTNAME_BY_ENDPOINT) in
  let t := now_of b in
  let m' := (observe_hostname_for_slot_endpoint slot ep name b).2.(OBSERVED_HOSTNAME_BY_ENDPOINT) in
  (size m' ≤ HOSTNAME_OBSERVATION_MAX_ENTRIES)%nat ∧
  (∀ k' x, k' ≠ k → m' !! k' = Some x → m !! k' = Some x) ∧
  ((size m < HOSTNAME_OBSERVATION_MAX_ENTRIES)%nat ∨
     (∀ k' x, m !! k' = Some x → x.(observed_at_ns) < t) → m' !! k = Some (mkObservedName n t)) ∧
  (∀ b', b'.(OBSERVED_HOSTNAME_BY_ENDPOINT) !! k = Some (mkObservedName n t) →
     let r := observed_hostname_for_slot_endpoint slot ep b' in
     if HOSTNAME_OBSERVATION_TTL_NS <? saturating_sub (now_of b') t
     then r.1 = None ∧ r.2.(OBSERVED_HOSTNAME_BY_ENDPOINT) =
                         delete k b'.(OBSERVED_HOSTNAME_BY_ENDPOINT)
     else r.1 = Some n ∧ r.2.(OBSERVED_HOSTNAME_BY_ENDPOINT) = b'.(OBSERVED_HOSTNAME_BY_ENDPOINT)) ∧
  (∀ b' h, (observed_hostname_for_slot_endpoint slot ep b').1 = Some h →
     ∃ k' x, b'.(OBSERVED_HOSTNAME_BY_ENDPOINT) !! k' = Some x ∧ x.(hostname) = h ∧
       k'.(key_tid_slot) = slot ∧ k'.(key_address_family) = ep.(address_family) ∧
       k'.(key_addr) = ep.(addr) ∧ fresh (now_of b') x).
Proof.
  intros Hn Hk m t m'.
  assert (E : m' = prune_hostname_observations (<[k := mkObservedName n t]> m) t).
  { unfold m', observe_hostname_for_slot_endpoint. by rewrite Hn, Hk. }
  destruct (prune_spec (<[k := mkObservedName n t]> m) t) as (Hs1 & Hs2 & Hs3). rewrite <- E in *.
  assert (Hkey : k = mkHostnameObservationKey slot (address_family ep) (addr ep) (port ep) (protocol ep))
    by (unfold hostname_observation_key in Hk; by case_match; simplify_eq).
  split_and!.
  - done.
  - intros k' x Hne [Hx _]%Hs2. by rewrite lookup_insert_ne in Hx by done.
  - intros Hroom. destruct (m' !! k) as [x|] eqn:Hx.
    { apply Hs2 in Hx as [Hx _]. by rewrite lookup_insert_eq in Hx. }
    exfalso. destruct (Hs3 k (mkObservedName n t)) as (Hover & Hfull & Hold);
      [by rewrite lookup_insert_eq|unfold fresh, HOSTNAME_OBSERVATION_TTL_NS; cbn; mach|done|].
    destruct Hroom as [Hroom|Hroom].
    + rewrite map_size_insert in Hover. case_match; unfold id in Hover; cbv beta in Hover; unfold m in *; lia.
    + destruct (map_choose m') as (k' & x & Hk'); [by intros Hm'; rewrite Hm' in Hfull|].
      specialize (Hold _ _ Hk'). apply Hs2 in Hk' as Hx'. destruct Hx' as [Hx' _].
      rewrite lookup_insert_ne in Hx' by (intros ->; congruence).
      specialize (Hroom _ _ Hx'). cbn [observed_at_ns] in Hold. lia.
  - intros b' Hb' r. unfold r, observed_hostname_for_slot_endpoint. rewrite Hk. run_simpl.
    unfold select_observation. cbn. rewrite Hb'. cbn. fold (now_of b').
    by destruct (HOSTNAME_OBSERVATION_TTL_NS <? _).
  - intros b' h. unfold observed_hostname_for_slot_endpoint. rewrite Hk. run_simpl.
    destruct (select_observation _ slot ep k) as [[k' x]|] eqn:Hsel; [|done].
    destruct (Z.ltb_spec HOSTNAME_OBSERVATION_TTL_NS (saturating_sub (bridge_now b').1 (observed_at_ns x)));
      [done|]. intros [= <-]. exists k', x.
    unfold select_observation in Hsel. destruct (_ !! k) as [x'|] eqn:Hx'.
    + injection Hsel as <- <-. by rewrite Hkey in Hx' |- *.
    + apply max_by_key_elem, list_elem_of_filter in Hsel as [(? & ? & ?) Hin].
      rewrite hash_iter_perm in Hin. by apply elem_of_map_to_list in Hin.
Qed.

(** ** The reload loop *)

Lemma runtime_filtered_untargeted c ep now :
  c.(target_enabled) = 0 → runtime_filtered c ep now = Some (apply_schedule c now).
Proof. intros H. unfold runtime_filtered, matches_target. rewrite H. reflexivity. Qed.

Section rounds.
Context `{Host} {E : Type} (slot : Z) (ep : option Endpoint) (sem : SemanticContext).
Context (read_rules : M E (option (list Rule.TargetRule))) (read_cfg : M E (option Config)).
Context (cfg : Config) (e : E).

(** The environment before round [n], the configuration that round starts from
    and the rules it reads. *)
Fixpoint env_at (n : nat) : E :=
  match n with O => e | S n => (read_cfg (read_rules (env_at n)).2).2 end.
Definition cfg_at (n : nat) : option Config :=
  match n with O => Some cfg | S n => (read_cfg (read_rules (env_at n)).2).1 end.
Definition rules_at (n : nat) : option (list Rule.TargetRule) := (read_rules (env_at n)).1.

(** Round [n] has rules to select from, and reads [rules], starting from [c],
    before reading a configuration of generation [g]. *)
Definition round (n : nat) (c : Config) (rules : list Rule.TargetRule) (g : Z) : Prop :=
  cfg_at n = Some c ∧ c.(target_enabled) ≠ 0 ∧ rules_at n = Some rules ∧
  ∃ c', cfg_at (S n) = Some c' ∧ c'.(ruleset_generation) = g.

(** The rule set was republished during round [n]. *)
Definition republished (n : nat) : Prop :=
  ∃ c rules g, round n c rules g ∧ g ≠ c.(ruleset_generation).

Lemma filtered_with_rule c rule b (e' : E) :
  filtered_now (with_rule c rule) ep (b, e') =
    (Some (apply_schedule (with_rule c rule) (now_of b)), ((bridge_now b).2, e')).
Proof.
  unfold filtered_now, on_bridge, now_of. rewrite bind_run, zoom_run, ret_run. cbn [fst snd].
  rewrite (runtime_filtered_untargeted (with_rule c rule)) by reflexivity. reflexivity.
Qed.

Definition retried (n : nat) (b : Bridge) : Bridge := b <| RELOAD_RETRY_TOTAL ::= Nat.iter n incr |>.

(** One attempt of the loop at a round that has rules. *)
Lemma reload_step k n c rules c' b :
  cfg_at n = Some c → c.(target_enabled) ≠ 0 → rules_at n = Some rules → cfg_at (S n) = Some c' →
  reload_loop slot ep sem read_rules read_cfg (S k) c (b, env_at n) =
    if decide (c'.(ruleset_generation) = c.(ruleset_generation)) then
      match select_best_target_rule ep sem rules (Z.to_nat c.(target_enabled) `min` length rules) with
      | None => (None, (b, env_at (S n)))
      | Some (i, rule) =>
          filtered_now (with_rule c rule) ep
            (b <| metrics ::= record_target_rule_hit (target_rule_id_for_slot_idx slot i) |>
               <| RELOAD_APPLIED_TOTAL ::= incr |>, env_at (S n))
      end
    else reload_loop slot ep sem read_rules read_cfg k c' (retried 1 b, env_at (S n)).
Proof.
  intros Hc Hen Hr Hc'. cbn [reload_loop]. rewrite (proj2 (Z.eqb_neq _ _)) by done.
  unfold on_env. run_simpl. unfold rules_at in Hr. rewrite Hr. run_simpl.
  cbn [cfg_at] in Hc'. rewrite Hc'. cbn [env_at].
  destruct (Z.eqb_spec (ruleset_generation c') (ruleset_generation c)) as [Hg|Hg]; cbn [negb].
  - rewrite (decide_True _ _ Hg). by destruct (select_best_target_rule _ _ _ _) as [[i rule]|].
  - rewrite (decide_False _ _ Hg). done.
Qed.

Lemma reload_republished n k c b :
  cfg_at n = Some c → (∀ m, (m < n)%nat → republished m) →
  reload_loop slot ep sem read_rules read_cfg (n + k) cfg (b, e) =
    reload_loop slot ep sem read_rules read_cfg k c (retried n b, env_at n).
Proof.
  revert k c; induction n as [|n IH]; intros k c Hc Hrep.
  { injection Hc as <-. cbn. by destruct b. }
  destruct (Hrep n) as (c0 & rules & g & (Hc0 & Hen & Hr & c1 & Hc1 & Hg) & Hne); [lia|].
  replace (S n + k)%nat with (n + S k)%nat by lia.
  rewrite (IH (S k) c0) by (try done; intros; apply Hrep; lia).
  rewrite (reload_step k n c0 rules c1) by done. rewrite decide_False by congruence.
  rewrite Hc in Hc1. injection Hc1 as <-. done.
Qed.
End rounds.

(** C16. A consistent rule set.  Whatever happens to the segment between the reads
    (the readers act on any environment), the target rule that is applied was read
    between two reads of the row with the same generation, with that row's faults:
    the first of at most three rounds that the rule set was not republished in
    decides, its best rule replaces the target, is counted once as a hit and as an
    applied reload, and every republished round before it as a retry.  When all
    three rounds are republished no configuration applies. *)
Theorem ruleset_reload `{Host} {E} slot ep sem read_rules read_cfg cfg b (e : E) :
  let r := apply_multi_target_for_tid_with_reader slot ep sem read_rules read_cfg cfg (b, e) in
  (∀ n c rules, (n < RULESET_READ_RETRY_LIMIT)%nat →
     (∀ m, (m < n)%nat → republished read_rules read_cfg cfg e m) →
     round read_rules read_cfg cfg e n c rules c.(ruleset_generation) →
     match select_best_target_rule ep sem rules (Z.to_nat c.(target_enabled) `min` length rules) with
     | None => r.1 = None ∧ r.2.1 = retried n b
     | Some (i, rule) =>
         r.1 = Some (apply_schedule (with_rule c rule) (now_of b)) ∧
         r.2.1.(RELOAD_APPLIED_TOTAL) = incr b.(RELOAD_APPLIED_TOTAL) ∧
         r.2.1.(RELOAD_RETRY_TOTAL) = Nat.iter n incr b.(RELOAD_RETRY_TOTAL) ∧
         r.2.1.(metrics) = record_target_rule_hit (target_rule_id_for_slot_idx slot i) b.(metrics)
     end) ∧
  ((∀ m, (m < RULESET_READ_RETRY_LIMIT)%nat → republished read_rules read_cfg cfg e m) →
     r.1 = None ∧ r.2.1 = retried RULESET_READ_RETRY_LIMIT b).
Proof.
  intros r. split.
  - intros n c rules Hn Hrep (Hc & Hen & Hr & c' & Hc' & Hg).
    unfold r, apply_multi_target_for_tid_with_reader.
    replace RULESET_READ_RETRY_LIMIT with (n + S (RULESET_READ_RETRY_LIMIT - S n))%nat by lia.
    rewrite (reload_republished slot ep sem read_rules read_cfg cfg e n _ c b Hc Hrep).
    rewrite (reload_step slot ep sem read_rules read_cfg cfg e _ n c rules c') by done.
    rewrite decide_True by done.
    destruct (select_best_target_rule _ _ _ _) as [[i rule]|]; [|done].
    rewrite filtered_with_rule. cbn [fst snd]. done.
  - intros Hrep. unfold r, apply_multi_target_for_tid_with_reader.
    destruct (Hrep 2%nat) as (c0 & rules & g & (_ & _ & _ & c1 & Hc1 & _) & _); [unfold RULESET_READ_RETRY_LIMIT; lia|].
    pose proof (reload_republished slot ep sem read_rules read_cfg cfg e 3 0 c1 b Hc1 Hrep) as Er.
    change (3 + 0)%nat with RULESET_READ_RETRY_LIMIT in Er. by rewrite Er.
Qed.

(** ** Resolving on a quiet segment *)

Lemma read_cfg_of_slot_ready `{Os} s slot :
  ready s → 0 ≤ slot < MAX_TIDS →
  read_cfg_of_slot slot s =
    (Fc.into_network_config <$> read_stable_config s.(shm_mem) ((MAX_FDS + slot) * CONFIG_SIZE), s).
Proof.
  intros Hs Hslot. unfold read_cfg_of_slot, get_config_for_tid_slot. run_simpl.
  rewrite ensure_open_ready by done. run_simpl.
  rewrite (proj2 (Z.leb_gt _ _)) by lia. destruct Hs as (_ & Hp & _).
  by rewrite (proj2 (Z.eqb_neq _ _) Hp).
Qed.

Lemma target_rules_ready `{Os} s slot :
  ready s → slot < MAX_TIDS →
  ∃ rules, get_target_rules_for_tid_slot slot s = (Some rules, s) ∧ length rules = 8%nat.
Proof.
  intros Hs Hslot. unfold get_target_rules_for_tid_slot. run_simpl.
  rewrite ensure_open_ready by done. run_simpl. unfold get_target_rules_base_ptr.
  rewrite (proj2 (Z.leb_gt _ _)) by lia. destruct Hs as (_ & Hp & _).
  rewrite (proj2 (Z.eqb_neq _ _) Hp). eexists. split; [reflexivity|].
  by rewrite length_fmap, length_seq.
Qed.

Lemma bridge_reads_quiet `{Host} `{HashOrder} slot ep fd b :
  (observed_sni_for_fd fd b).2 = b ∧
  (observed_hostname_for_slot_endpoint slot ep b).2.(OBSERVED_SNI_BY_FD) = b.(OBSERVED_SNI_BY_FD).
Proof.
  split; [unfold observed_sni_for_fd; by destruct (fd <? 0)|].
  unfold observed_hostname_for_slot_endpoint. destruct (hostname_observation_key slot ep); [|done].
  run_simpl. destruct (select_observation _ _ _ _) as [[k x]|]; [|done].
  by destruct (HOSTNAME_OBSERVATION_TTL_NS <? _).
Qed.

(** The row and slot a call is configured from: the owner's when the descriptor
    has one with a valid row, the calling thread's otherwise. *)
Definition configuring_row (s : ShmState) (thread_id fd : Z) : option (Config * Z) :=
  let row slot := (λ c, (Fc.into_network_config c, slot)) <$>
                    read_stable_config s.(shm_mem) ((MAX_FDS + slot) * CONFIG_SIZE) in
  match slot_of_word (read_u64 s.(shm_mem) (FD_OWNER_REGION_OFFSET + 8 * fd)) ≫= row with
  | Some c => Some c
  | None => row (tid_slot thread_id)
  end.

Lemma base_config_ready `{Os} s thread_id fd :
  ready s → 0 ≤ fd < MAX_FDS → base_config thread_id fd s = (configuring_row s thread_id fd, s).
Proof.
  intros Hs Hfd. unfold base_config, configuring_row. rewrite bind_run, get_tid_slot_for_fd_ready by done.
  cbn [fst snd].
  destruct (slot_of_word _) as [slot|] eqn:Hslot; cbn [mbind option_bind].
  - assert (0 ≤ slot < MAX_TIDS).
    { pose proof (read_u64_range s.(shm_mem) (FD_OWNER_REGION_OFFSET + 8 * fd) ltac:(apply Hs)) as Hr.
      unfold slot_of_word, is_u64 in *. destruct (_ || _) eqn:E; [done|]. simplify_eq.
      apply orb_false_iff in E as [_ E]. lia. }
    run_simpl. rewrite read_cfg_of_slot_ready by done. run_simpl.
    destruct (read_stable_config _ _); [done|].
    cbn [fmap option_fmap option_map]. run_simpl.
    rewrite get_config_for_tid_ready by done. run_simpl.
    by destruct (read_stable_config _ _).
  - run_simpl. rewrite get_config_for_tid_ready by done. run_simpl.
    by destruct (read_stable_config _ _).
Qed.

Lemma configuring_row_slot s thread_id fd c slot :
  ready s → configuring_row s thread_id fd = Some (c, slot) →
  0 ≤ slot < MAX_TIDS ∧
  Fc.into_network_config <$> read_stable_config s.(shm_mem) ((MAX_FDS + slot) * CONFIG_SIZE) = Some c.
Proof.
  intros (_ & _ & Hm). unfold configuring_row.
  pose proof (read_u64_range s.(shm_mem) (FD_OWNER_REGION_OFFSET + 8 * fd) Hm) as Hr.
  assert (Hin : ∀ sl o, (λ c, (Fc.into_network_config c, sl)) <$> o = Some (c, slot) →
    slot = sl ∧ Fc.into_network_config <$> o = Some c).
  { intros sl [row|] Heq; [|done]. pose proof (f_equal (fmap fst) Heq) as H1.
    pose proof (f_equal (fmap snd) Heq) as H2. cbn [fmap option_fmap option_map fst snd] in H1, H2.
    split; [by injection H2|exact H1]. }
  destruct (slot_of_word _) as [sl|] eqn:Hsl; cbn [mbind option_bind].
  - assert (0 ≤ sl < MAX_TIDS).
    { unfold slot_of_word, is_u64 in *. destruct (_ || _) eqn:E; [done|]. simplify_eq.
      apply orb_false_iff in E as [_ E]. lia. }
    intros Hrow. case_match eqn:Hsome.
    + injection Hrow as ->. by apply Hin in Hsome as [-> ?].
    + apply Hin in Hrow as [-> ?]. split; [apply tid_slot_range|done].
  - intros [-> ?]%Hin. split; [apply tid_slot_range|done].
Qed.

(** The name observed for the endpoint of a call, and the bridge after the lookup. *)
Definition endpoint_name `{Host} `{HashOrder} (slot : Z) (ep : option Endpoint) (b : Bridge) :
    option str * Bridge :=
  match ep with
  | Some e => observed_hostname_for_slot_endpoint slot e b
  | None => (None, b)
  end.

Lemma resolve_run `{Host} `{HashOrder} `{Os} thread_id fd ep b s c slot :
  0 ≤ fd → base_config thread_id fd s = (Some (c, slot), s) →
  resolve_runtime_config_for_endpoint thread_id fd ep (b, s) =
    apply_multi_target_for_tid c slot ep
      (mkSemanticContext (endpoint_name slot ep b).1 (b.(OBSERVED_SNI_BY_FD) !! fd))
      ((endpoint_name slot ep b).2, s).
Proof.
  intros Hfd Hb. unfold resolve_runtime_config_for_endpoint, on_env at 1.
  rewrite bind_run, zoom_run. cbn [fst snd]. rewrite Hb. cbn [fst snd].
  rewrite bind_run. unfold on_bridge at 1 2. rewrite zoom_run. cbn [fst snd].
  unfold observed_sni_for_fd. rewrite (proj2 (Z.ltb_ge fd 0)) by lia.
  rewrite gets_run. cbn [fst snd]. by destruct ep.
Qed.

(** A quiet segment needs one round. *)
Lemma reload_quiet `{Host} `{Os} slot ep sem c b s rules :
  ready s → 0 ≤ slot < MAX_TIDS → c.(target_enabled) ≠ 0 →
  read_cfg_of_slot slot s = (Some c, s) → get_target_rules_for_tid_slot slot s = (Some rules, s) →
  apply_multi_target_for_tid_with_reader slot ep sem (get_target_rules_for_tid_slot slot)
      (read_cfg_of_slot slot) c (b, s) =
    match select_best_target_rule ep sem rules (Z.to_nat c.(target_enabled) `min` length rules) with
    | None => (None, (b, s))
    | Some (i, rule) =>
        filtered_now (with_rule c rule) ep
          (b <| metrics ::= record_target_rule_hit (target_rule_id_for_slot_idx slot i) |>
             <| RELOAD_APPLIED_TOTAL ::= incr |>, s)
    end.
Proof.
  intros Hs Hslot Hen Hc Hr.
  set (rd := get_target_rules_for_tid_slot slot) in *. set (rc := read_cfg_of_slot slot) in *.
  assert (H1 : rules_at rd rc s 0 = Some rules) by (unfold rules_at; cbn [env_at]; by rewrite Hr).
  assert (H2 : cfg_at rd rc c s 1 = Some c) by (cbn [cfg_at env_at]; by rewrite Hr; cbn [snd]; rewrite Hc).
  assert (H3 : env_at rd rc s 1 = s) by (cbn [env_at]; by rewrite Hr; cbn [snd]; rewrite Hc).
  pose proof (reload_step slot ep sem rd rc c s 2 0 c rules c b eq_refl Hen H1 H2) as E.
  rewrite decide_True, H3 in E by done. exact E.
Qed.

(** The configuration of a call whose row has target rules. *)
Lemma resolve_targets `{Host} `{HashOrder} `{Os} thread_id fd e b s c slot rules :
  ready s → 0 ≤ fd < MAX_FDS → configuring_row s thread_id fd = Some (c, slot) →
  c.(target_enabled) ≠ 0 → get_target_rules_for_tid_slot slot s = (Some rules, s) →
  let names := endpoint_name slot (Some e) b in
  let r := resolve_runtime_config_for_endpoint thread_id fd (Some e) (b, s) in
  r.2.2 = s ∧
  r.1 = (λ sel, apply_schedule (with_rule c sel.2) (now_of names.2)) <$>
    select_best_target_rule (Some e) (mkSemanticContext names.1 (b.(OBSERVED_SNI_BY_FD) !! fd)) rules
      (Z.to_nat c.(target_enabled) `min` length rules).
Proof.
  intros Hs Hfd Hrow Hen Hrules names r.
  assert (Er : r = resolve_runtime_config_for_endpoint thread_id fd (Some e) (b, s)) by done. clearbody r.
  pose proof (base_config_ready s thread_id fd Hs Hfd) as Hbase. rewrite Hrow in Hbase.
  apply configuring_row_slot in Hrow as [Hslot Hrow]; [|done].
  rewrite (resolve_run thread_id fd (Some e) b s c slot ltac:(lia) Hbase) in Er. fold names in Er.
  destruct names as [h b']. cbn [fst snd] in *.
  generalize dependent (mkSemanticContext h (OBSERVED_SNI_BY_FD b !! fd)). intros sem Er.
  unfold apply_multi_target_for_tid in Er. rewrite (proj2 (Z.eqb_neq _ _) Hen) in Er.
  rewrite (reload_quiet slot (Some e) sem c b' s rules) in Er by
    (done || (rewrite read_cfg_of_slot_ready by done; by rewrite Hrow)).
  destruct (select_best_target_rule _ _ _ _) as [[i rule]|];
    [rewrite filtered_with_rule in Er|]; by subst r.
Qed.

(** C4. The configuration of a call.  On a segment that no one writes to, the row
    is that of the thread that owns the descriptor, or the calling thread's when
    the descriptor has no owner or its owner's row is invalid; without a row
    nothing applies.  A row without target rules applies with its schedule; with
    target rules, the best rule of its slot for the endpoint, the name observed
    for that endpoint and the server name observed on the descriptor becomes the
    target, and without an endpoint or a matching rule nothing applies.  The
    segment is left as it was. *)
Theorem runtime_config_resolved `{Host} `{HashOrder} `{Os} thread_id fd ep b s :
  ready s → 0 ≤ fd < MAX_FDS →
  let r := resolve_runtime_config_for_endpoint thread_id fd ep (b, s) in
  r.2.2 = s ∧
  match configuring_row s thread_id fd with
  | None => r.1 = None
  | Some (c, slot) =>
      let names := endpoint_name slot ep b in
      let sem := mkSemanticContext names.1 (b.(OBSERVED_SNI_BY_FD) !! fd) in
      let now := now_of names.2 in
      if decide (c.(target_enabled) = 0) then r.1 = (runtime_filtered c ep now) else
      ∃ rules, get_target_rules_for_tid_slot slot s = (Some rules, s) ∧
        r.1 = match ep with
              | None => None
              | Some _ =>
                  (λ sel, apply_schedule (with_rule c sel.2) now) <$>
                    select_best_target_rule ep sem rules
                      (Z.to_nat c.(target_enabled) `min` length rules)
              end
  end.
Proof.
  intros Hs Hfd r.
  assert (Er : r = resolve_runtime_config_for_endpoint thread_id fd ep (b, s)) by done. clearbody r.
  pose proof (base_config_ready s thread_id fd Hs Hfd) as Hbase.
  destruct (configuring_row s thread_id fd) as [[c slot]|] eqn:Hrow.
  2: { unfold resolve_runtime_config_for_endpoint, on_env at 1 in Er.
       rewrite bind_run, zoom_run in Er. cbn [fst snd] in Er. rewrite Hbase in Er. by subst r. }
  pose proof (configuring_row_slot _ _ _ _ _ Hs Hrow) as [Hslot _]. cbn zeta.
  destruct (target_rules_ready s slot Hs) as (rules & Hrules & _); [lia|].
  destruct (decide (target_enabled c = 0)) as [Hen|Hen].
  { rewrite (resolve_run thread_id fd ep b s c slot ltac:(lia) Hbase) in Er.
    unfold apply_multi_target_for_tid in Er. rewrite (proj2 (Z.eqb_eq _ _) Hen) in Er.
    unfold filtered_now, on_bridge in Er. rewrite bind_run, zoom_run, ret_run in Er. subst r. by split. }
  destruct ep as [e|].
  - destruct (resolve_targets thread_id fd e b s c slot rules) as [Hseg Hres]; [done..|].
    rewrite <- Er in Hres, Hseg. split; [exact Hseg|]. by exists rules.
  - rewrite (resolve_run thread_id fd None b s c slot ltac:(lia) Hbase) in Er.
    unfold apply_multi_target_for_tid in Er. rewrite (proj2 (Z.eqb_neq _ _) Hen) in Er.
    subst r. split; [done|by exists rules].
Qed.

(** ** Witnesses *)

#[export] Instance example_order : HashOrder := λ m, map_to_list m.
#[export] Instance example_order_law : HashOrderLaw.
Proof. by intros m. Qed.

Definition example_bridge : Bridge := mkBridge 0 0 ∅ ∅ AdvancedMetrics_new example_world.

(** [*.example.com] on port 443 to 8443. *)
Definition example_sni_rule : Rule.TargetRule :=
  Rule.TargetRule_default <| Rule.enabled := 1 |> <| Rule.priority := 5 |> <| Rule.port := 443 |>
    <| Rule.reserved := 8443 |>
    <| Rule.sni := as_bytes (lit "*.example.com") ++ replicate 19 0 |>.

(** [10.1.128.0/17] with the same priority. *)
Definition example_cidr_rule : Rule.TargetRule :=
  Rule.TargetRule_default <| Rule.enabled := 1 |> <| Rule.priority := 5 |> <| Rule.kind := 2 |>
    <| Rule.prefix_len := 17 |> <| Rule.address_family := 1 |> <| Rule.addr := example_network |>.

Definition example_https : Endpoint := example_peer <| port := 8080 |>.

Lemma example_rules_ok :
  rule_ok example_sni_rule ∧ rule_ok example_cidr_rule ∧ endpoint_ok example_https.
Proof.
  split_and!; try done; by apply (bool_decide_unpack _); vm_compute.
Qed.

Definition example_semantic : SemanticContext :=
  mkSemanticContext None (Some (lit "www.example.com")).

Lemma rule_match_class_spec_witness :
  rule_matches example_sni_rule (Some example_https) example_semantic 4 ∧
  rule_matches example_cidr_rule (Some example_https) example_semantic 1.
Proof.
  split.
  - refine (proj2 (proj1 (rule_match_class_spec example_sni_rule (Some example_https)
      example_semantic 4 (proj1 example_rules_ok) _) _)); [|by vm_compute].
    intros e [= <-]. apply example_rules_ok.
  - refine (proj2 (proj1 (rule_match_class_spec example_cidr_rule (Some example_https)
      example_semantic 1 (proj1 (proj2 example_rules_ok)) _) _)); [|by vm_compute].
    intros e [= <-]. apply example_rules_ok.
Defined.

(** The more specific of two rules of one priority wins, at a later position. *)
Example example_selection :
  select_best_target_rule (Some example_https) example_semantic [example_cidr_rule; example_sni_rule] 2 =
    Some (1%nat, example_sni_rule).
Proof. by vm_compute. Qed.

Lemma hostname_observed_witness :
  (observed_hostname_for_slot_endpoint (H:=example_host) 7 example_https
     (observe_hostname_for_slot_endpoint (H:=example_host) 7 example_https (lit " WWW.Example.com. ")
        example_bridge).2).1 = Some (lit "www.example.com").
Proof.
  pose proof (@hostname_observed example_host _ _ 7 example_https (lit " WWW.Example.com. ")
    example_bridge (lit "www.example.com") _ eq_refl eq_refl) as (_ & _ & Hkept & Hlook & _).
  specialize (Hlook (observe_hostname_for_slot_endpoint (H:=example_host) 7 example_https
    (lit " WWW.Example.com. ") example_bridge).2 (Hkept ltac:(left; vm_compute; lia))).
  exact (proj1 Hlook).
Defined.

(** A segment republished during the first two rounds. *)
Definition republishing : M nat (option Config) := λ n,
  (Some (Config_default <| target_enabled := 2 |> <| latency_ns := 1000 |>
           <| ruleset_generation := Z.min (Z.of_nat n) 2 |>), S n).

Lemma ruleset_reload_witness :
  let r := apply_multi_target_for_tid_with_reader (H:=example_host) 7 (Some example_https)
             example_semantic (mret (Some [example_cidr_rule; example_sni_rule])) republishing
             (Config_default <| target_enabled := 2 |> <| ruleset_generation := 9 |>)
             (example_bridge, 1%nat) in
  (default Config_default r.1).(latency_ns) = 1000 ∧ r.2.1.(RELOAD_RETRY_TOTAL) = 2.
Proof.
  pose proof (proj1 (@ruleset_reload example_host nat 7 (Some example_https) example_semantic
    (mret (Some [example_cidr_rule; example_sni_rule])) republishing
    (Config_default <| target_enabled := 2 |> <| ruleset_generation := 9 |>) example_bridge 1%nat)
    2%nat (Config_default <| target_enabled := 2 |> <| latency_ns := 1000 |> <| ruleset_generation := 2 |>)
    [example_cidr_rule; example_sni_rule] ltac:(unfold RULESET_READ_RETRY_LIMIT; lia)) as H.
  assert (Hsel : select_best_target_rule (Some example_https) example_semantic
    [example_cidr_rule; example_sni_rule] 2 = Some (1%nat, example_sni_rule)) by by vm_compute.
  destruct H as (Hr & _ & Hn & _).
  - intros [|[|m]] Hm; [| |lia];
      (eexists _, _, _; split; [split_and!; [reflexivity|done|reflexivity|eexists; split; reflexivity]|done]).
  - split_and!; [reflexivity|done|reflexivity|eexists; split; reflexivity].
  - split; [|exact Hn]. cbn zeta. rewrite Hr. reflexivity.
Defined.

Lemma example_updated_ready : ready (update_config_for_tid 1 example_update example_segment).2.
Proof. split_and!; [done|done|]. apply publish_ok. intros x. cbn. unfold is_byte. lia. Qed.

(** Descriptor 9 has no valid owner row, thread 1 delays by five milliseconds. *)
Lemma runtime_config_resolved_witness :
  let s := (update_config_for_tid 1 example_update example_segment).2 in
  (default Config_default
     (resolve_runtime_config_for_endpoint (H:=example_host) (H1:=example_os) 1 9
        (Some example_https) (example_bridge, s)).1).(latency_ns) = 5000000.
Proof.
  intros s. assert (Hs : ready s) by apply example_updated_ready.
  pose proof (@runtime_config_resolved example_host _ example_os 1 9 (Some example_https)
    example_bridge s Hs ltac:(vm_compute; split; congruence)) as [_ H].
  assert (Hrow : configuring_row s 1 9 = Some (Fc.into_network_config
    (Fc.FaultcoreConfig_default <| Fc.latency_ns := 5000000 |>
       <| Fc.magic := FAULTCORE_MAGIC |> <| Fc.ruleset_generation := 2 |>), tid_slot 1)) by by vm_compute.
  rewrite Hrow in H. cbn zeta in H. rewrite decide_True in H by done. rewrite H. by vm_compute.
Defined.
