(* ===== verification/Tls.v ===== *)
(** * The server name of a TLS client hello

    [tls_client_hello_sni] of [faultcore_interceptor/src/lib.rs]: the parser that
    looks at every buffer a hooked process sends.  Indexing a slice out of
    bounds and overflowing an addition panic in Rust, and a panic in a hook
    takes the hooked process down; here they are results of their own, so that
    their absence is a theorem. *)

From S2P Require Import Prelude.
From S2P Require Import ShmContract.
From S2P Require Import RustStr.
From S2P Require Import Sockets.
From S2P Require Import Bridge.

Open Scope Z_scope.

(** ** Computations that return, give up or panic *)

Inductive Res (A : Type) : Type :=
  | Ok (a : A)
  | Reject           (* [return None] *)
  | Panic
  | OutOfFuel.
Arguments Ok {A} _.
Arguments Reject {A}.
Arguments Panic {A}.
Arguments OutOfFuel {A}.

#[export] Instance Res_ret : MRet Res := @Ok.
#[export] Instance Res_bind : MBind Res := λ A B f r,
  match r with Ok a => f a | Reject => Reject | Panic => Panic | OutOfFuel => OutOfFuel end.

(** [if !cond { return None; }] *)
Definition require (b : bool) : Res unit := if b then Ok tt else Reject.

(** [payload[p]], [payload.get(p).copied()?], and the big-endian [u16] at [p]. *)
Definition at_ (payload : list Z) (p : Z) : Res Z :=
  match payload !! Z.to_nat p with Some b => Ok b | None => Panic end.
Definition get_at (payload : list Z) (p : Z) : Res Z :=
  match payload !! Z.to_nat p with Some b => Ok b | None => Reject end.
Definition u16_at (payload : list Z) (p : Z) : Res Z :=
  a ← at_ payload p; b ← at_ payload (p + 1); Ok (be_value [a; b]).

(** [&payload[p..q]] *)
Definition slice (payload : list Z) (p q : Z) : Res (list Z) :=
  if (p <=? q) && (q <=? Z.of_nat (length payload))
  then Ok (bytes_at payload (Z.to_nat p) (Z.to_nat (q - p))) else Panic.

(** [usize] addition: [checked_add(..)?], and the plain one. *)
Definition checked_add (a b : Z) : Res Z := if a + b <=? u64_max then Ok (a + b) else Reject.
Definition plus (a b : Z) : Res Z := if a + b <=? u64_max then Ok (a + b) else Panic.

(** ** The parser *)

(** The loop over the names of a server-name list, [list_end - q] bytes of which
    are left; every round consumes at least three. *)
(* faultcore_interceptor/src/lib.rs:491-506 tls_client_hello_sni *)
Fixpoint name_loop (fuel : nat) (payload : list Z) (q list_end : Z) : Res str :=
  match fuel with
  | O => OutOfFuel
  | S fuel =>
      next ← plus q 3;
      if negb (next <=? list_end) then Reject else
      name_type ← at_ payload q;
      name_len ← u16_at payload (q + 1);
      let q := q + 3 in
      name_end ← checked_add q name_len;
      require (name_end <=? list_end);;
      if name_type =? 0 then
        bytes ← slice payload q name_end;
        match from_utf8 bytes with
        | None => Reject
        | Some host =>
            match to_ascii_lowercase (trim_end_matches 46 (trim host)) with
            | [] => Reject
            | normalized => Ok normalized
            end
        end
      else name_loop fuel payload name_end list_end
  end.

(** The body of the extension loop for a server-name extension. *)
(* faultcore_interceptor/src/lib.rs:481-506 tls_client_hello_sni *)
Definition server_name (payload : list Z) (p data_end : Z) : Res str :=
  after ← plus p 2;
  require (after <=? data_end);;
  list_len ← u16_at payload p;
  let q := p + 2 in
  list_end ← checked_add q list_len;
  require (list_end <=? data_end);;
  name_loop (S (length payload)) payload q list_end.

(* faultcore_interceptor/src/lib.rs:473-510 tls_client_hello_sni *)
Fixpoint extension_loop (fuel : nat) (payload : list Z) (p ext_end : Z) : Res str :=
  match fuel with
  | O => OutOfFuel
  | S fuel =>
      next ← plus p 4;
      if negb (next <=? ext_end) then Reject else
      ext_type ← u16_at payload p;
      ext_len ← u16_at payload (p + 2);
      let p := p + 4 in
      data_end ← checked_add p ext_len;
      require (data_end <=? ext_end);;
      if ext_type =? 0 then server_name payload p data_end
      else extension_loop fuel payload data_end ext_end
  end.

(* faultcore_interceptor/src/lib.rs:416-511 tls_client_hello_sni *)
Definition tls_client_hello_sni (payload : list Z) : Res str :=
  let len := Z.of_nat (length payload) in
  if len <? 5 then Reject else
  content ← at_ payload 0;
  require (content =? 22);;
  record_len ← u16_at payload 3;
  record_end ← checked_add 5 record_len;
  require (record_end <=? len);;
  handshake ← get_at payload 5;
  require (handshake =? 1);;
  h6 ← get_at payload 6;
  h7 ← get_at payload 7;
  h8 ← get_at payload 8;
  let hs_len := Z.lor (Z.lor (Z.shiftl h6 16) (Z.shiftl h7 8)) h8 in
  let hs_start := 9 in
  hs_end ← checked_add hs_start hs_len;
  require (hs_end <=? record_end);;
  after_random ← plus hs_start 34;
  require (after_random <=? hs_end);;
  let p := after_random in
  session_len ← get_at payload p;
  p ← checked_add p (1 + session_len);
  require (p <=? hs_end);;
  after_suites_len ← plus p 2;
  require (after_suites_len <=? hs_end);;
  suites_len ← u16_at payload p;
  p ← checked_add p (2 + suites_len);
  require (p <=? hs_end);;
  compression_len ← get_at payload p;
  p ← checked_add p (1 + compression_len);
  require (p <=? hs_end);;
  after_ext_len ← plus p 2;
  require (after_ext_len <=? hs_end);;
  extensions_len ← u16_at payload p;
  let p := p + 2 in
  ext_end ← checked_add p extensions_len;
  require (ext_end <=? hs_end);;
  extension_loop (S (length payload)) payload p ext_end.

(** ** No panic, and termination *)

(** A result that did not go wrong and satisfies [P] if there is one: the weakest
    precondition of a parser that must not panic. *)
Definition safe {A} (P : A → Prop) (r : Res A) : Prop :=
  match r with Ok a => P a | Reject => True | Panic | OutOfFuel => False end.

Lemma safe_bind {A B} (P : A → Prop) (Q : B → Prop) r (f : A → Res B) :
  safe P r → (∀ a, P a → safe Q (f a)) → safe Q (r ≫= f).
Proof. by destruct r; cbn; auto. Qed.

Lemma safe_require b : safe (λ _, b = true) (require b).
Proof. by destruct b. Qed.

Lemma safe_checked_add a b : safe (λ c, c = a + b) (checked_add a b).
Proof. unfold checked_add. by destruct (_ <=? _). Qed.

Lemma safe_plus a b : a + b ≤ u64_max → safe (λ c, c = a + b) (plus a b).
Proof. intros H. unfold plus. by rewrite (proj2 (Z.leb_le _ _) H). Qed.

Section safety.
Context (payload : list Z) (Hb : Forall is_byte payload).
Let len := Z.of_nat (length payload).

Lemma safe_at p : 0 ≤ p < len → safe is_byte (at_ payload p).
Proof.
  intros Hp. unfold at_. destruct (lookup_lt_is_Some_2 payload (Z.to_nat p)) as [b E]; [lia|].
  rewrite E. exact (Forall_lookup_1 _ _ _ _ Hb E).
Qed.

Lemma safe_get_at p : safe (λ b, is_byte b) (get_at payload p).
Proof.
  unfold get_at. destruct (payload !! Z.to_nat p) eqn:E; [|done]. exact (Forall_lookup_1 _ _ _ _ Hb E).
Qed.

Lemma safe_u16_at p : 0 ≤ p → p + 1 < len → safe (λ v, 0 ≤ v < 65536) (u16_at payload p).
Proof.
  intros H0 H1. unfold u16_at. eapply safe_bind; [apply safe_at; lia|]. intros a Ha.
  eapply safe_bind; [apply safe_at; lia|]. intros b Hb'.
  assert (Hab : Forall is_byte [a; b]) by (by apply Forall_cons; split; [|apply Forall_singleton]).
  exact (be_value_bound [a; b] Hab).
Qed.

Lemma safe_slice p q : 0 ≤ p ≤ q → q ≤ len → safe (λ _, True) (slice payload p q).
Proof.
  intros Hp Hq. unfold slice. rewrite (proj2 (Z.leb_le p q)), (proj2 (Z.leb_le q _)) by lia. done.
Qed.
End safety.

(** Applies the rules above to the next step of a parser. *)
Ltac safe_step :=
  eapply safe_bind;
  [ first [ apply safe_require | apply safe_checked_add | apply safe_plus; mach
          | apply safe_get_at; assumption | apply safe_at; [assumption|lia]
          | apply safe_u16_at; [assumption|lia|lia] ]
  | cbn beta; let x := fresh "v" in let H := fresh "H" in intros x H; unfold is_byte in H;
    lazymatch type of H with
    | (_ <=? _) = true => apply Z.leb_le in H
    | x = _ => subst x
    | _ => idtac
    end ].

Lemma name_loop_safe fuel payload q list_end :
  Forall is_byte payload → Z.of_nat (length payload) < 2 ^ 63 →
  0 ≤ q ≤ list_end → list_end ≤ Z.of_nat (length payload) → list_end - q < Z.of_nat fuel →
  safe (λ _, True) (name_loop fuel payload q list_end).
Proof.
  intros Hb Hlen. revert q. induction fuel as [|fuel IH]; intros q Hq Hend Hfuel; [lia|].
  cbn [name_loop]. safe_step. destruct (Z.leb_spec (q + 3) list_end); cbn [negb]; [|done].
  do 4 safe_step. destruct (_ =? 0); [|apply IH; lia].
  eapply safe_bind; [apply safe_slice; lia|]. intros bytes _.
  destruct (from_utf8 bytes); [|done]. by destruct (to_ascii_lowercase _).
Qed.

Lemma server_name_safe payload p data_end :
  Forall is_byte payload → Z.of_nat (length payload) < 2 ^ 63 →
  0 ≤ p ≤ data_end → data_end ≤ Z.of_nat (length payload) →
  safe (λ _, True) (server_name payload p data_end).
Proof.
  intros Hb Hlen Hp Hend. unfold server_name. do 5 safe_step. apply name_loop_safe; [done|done|lia..].
Qed.

Lemma extension_loop_safe fuel payload p ext_end :
  Forall is_byte payload → Z.of_nat (length payload) < 2 ^ 63 →
  0 ≤ p ≤ ext_end → ext_end ≤ Z.of_nat (length payload) → ext_end - p < Z.of_nat fuel →
  safe (λ _, True) (extension_loop fuel payload p ext_end).
Proof.
  intros Hb Hlen. revert p. induction fuel as [|fuel IH]; intros p Hp Hend Hfuel; [lia|].
  cbn [extension_loop]. safe_step.
  destruct (Z.leb_spec (p + 4) ext_end); cbn [negb]; [|done].
  do 4 safe_step. destruct (_ =? 0); [apply server_name_safe; [done|done|lia..]|]. apply IH; lia.
Qed.

Lemma u24_nonneg a b c :
  0 ≤ a → 0 ≤ b → 0 ≤ c → 0 ≤ Z.lor (Z.lor (Z.shiftl a 16) (Z.shiftl b 8)) c.
Proof. intros. rewrite !Z.lor_nonneg, !Z.shiftl_nonneg. done. Qed.

Lemma tls_safe payload :
  Forall is_byte payload → Z.of_nat (length payload) < 2 ^ 63 →
  safe (λ _, True) (tls_client_hello_sni payload).
Proof.
  intros Hb Hlen. unfold tls_client_hello_sni.
  destruct (Z.ltb_spec (Z.of_nat (length payload)) 5); [done|].
  do 10 safe_step.
  pose proof (u24_nonneg v5 v6 v7 ltac:(lia) ltac:(lia) ltac:(lia)) as Hhs.
  set (hs := Z.lor _ _) in *. clearbody hs. cbn zeta.
  do 20 safe_step.
  apply extension_loop_safe; [done|done|lia..].
Qed.

(** ** The hello a client sends *)

(** A vector with a length prefix of [n] bytes. *)
Definition vec (n : nat) (bs : list Z) : list Z := be_bytes n (Z.of_nat (length bs)) ++ bs.

(** A type of [n] bytes and a vector: an extension ([n = 2]), a name ([n = 1]). *)
Definition typed (n : nat) (x : Z * list Z) : list Z := be_bytes n x.1 ++ vec 2 x.2.

(** The parts of a hello, as in RFC 8446 and RFC 6066; what may follow the first
    host name at every level is arbitrary. *)
Record ClientHello : Type := mkClientHello {
  record_version : list Z;
  version : list Z;
  random : list Z;
  session : list Z;
  suites : list Z;
  compression : list Z;
  extensions_before : list (Z * list Z);
  names_before : list (Z * list Z);
  host : list Z;
  names_after : list Z;
  extension_tail : list Z;
  extensions_after : list Z;
  body_tail : list Z;
  record_tail : list Z
}.

Definition sni_list (h : ClientHello) : list Z :=
  (h.(names_before) ≫= typed 1) ++ typed 1 (0, h.(host)) ++ h.(names_after).
Definition sni_data (h : ClientHello) : list Z := vec 2 (sni_list h) ++ h.(extension_tail).
Definition extensions (h : ClientHello) : list Z :=
  (h.(extensions_before) ≫= typed 2) ++ typed 2 (0, sni_data h) ++ h.(extensions_after).
Definition body (h : ClientHello) : list Z :=
  h.(version) ++ h.(random) ++ vec 1 h.(session) ++ vec 2 h.(suites) ++ vec 1 h.(compression) ++
  vec 2 (extensions h) ++ h.(body_tail).
Definition handshake (h : ClientHello) : list Z := 1 :: vec 3 (body h).
Definition client_hello (h : ClientHello) : list Z :=
  22 :: h.(record_version) ++ vec 2 (handshake h) ++ h.(record_tail).

(** The lengths fit their prefixes, the server name is the first extension of
    its type and the host name the first name of its type. *)
Record hello_ok (h : ClientHello) : Prop := {
  ok_record_version : length h.(record_version) = 2%nat;
  ok_version : length h.(version) = 2%nat;
  ok_random : length h.(random) = 32%nat;
  ok_session : Z.of_nat (length h.(session)) < 256;
  ok_suites : Z.of_nat (length h.(suites)) < 65536;
  ok_compression : Z.of_nat (length h.(compression)) < 256;
  ok_before : Forall (λ x, 0 < x.1 < 65536 ∧ Z.of_nat (length x.2) < 65536) h.(extensions_before);
  ok_names : Forall (λ x, 0 < x.1 < 256 ∧ Z.of_nat (length x.2) < 65536) h.(names_before);
  ok_record : Z.of_nat (length (handshake h)) < 65536;
  ok_length : Z.of_nat (length (client_hello h)) < 2 ^ 63;
}.

(** [payload] has [rest] from position [p] on. *)
Definition At (payload : list Z) (p : Z) (rest : list Z) : Prop :=
  ∃ pre, payload = pre ++ rest ∧ Z.of_nat (length pre) = p.

Section cursor.
Context (payload : list Z).

Lemma At_range p rest : At payload p rest → 0 ≤ p ∧ p + Z.of_nat (length rest) = Z.of_nat (length payload).
Proof. intros (pre & -> & <-). rewrite length_app. lia. Qed.

Lemma At_app p bs rest : At payload p (bs ++ rest) → At payload (p + Z.of_nat (length bs)) rest.
Proof.
  intros (pre & -> & <-). exists (pre ++ bs). split; [by rewrite app_assoc|]. rewrite length_app. lia.
Qed.

Lemma At_at p b rest : At payload p (b :: rest) → at_ payload p = Ok b ∧ get_at payload p = Ok b.
Proof.
  intros (pre & -> & <-). unfold at_, get_at. rewrite Nat2Z.id, lookup_app_r by lia.
  by rewrite Nat.sub_diag.
Qed.

Lemma At_cons p b rest : At payload p (b :: rest) → At payload (p + 1) rest.
Proof. intros H. by apply (At_app p [b] rest) in H. Qed.

Lemma At_u16 p n rest :
  0 ≤ n < 65536 → At payload p (be_bytes 2 n ++ rest) → u16_at payload p = Ok n.
Proof.
  intros Hn H. unfold u16_at. change (be_bytes 2 n ++ rest)
    with ((n / 256) mod 256 :: n mod 256 :: rest) in H.
  destruct (At_at _ _ _ H) as [-> _]. apply At_cons in H. destruct (At_at _ _ _ H) as [-> _].
  cbn [mbind Res_bind]. f_equal.
  change [(n / 256) mod 256; n mod 256] with (be_bytes 2 n). by apply be_value_bytes.
Qed.

Lemma At_slice p bs rest q :
  At payload p (bs ++ rest) → q = p + Z.of_nat (length bs) → slice payload p q = Ok bs.
Proof.
  intros H ->. pose proof (At_range _ _ H) as [Hp Hl]. rewrite length_app in Hl. unfold slice.
  rewrite (proj2 (Z.leb_le _ _)), (proj2 (Z.leb_le _ _)) by lia. cbn [andb].
  destruct H as (pre & -> & <-). f_equal. apply bytes_at_app; lia.
Qed.
End cursor.

(** ** Reading it back *)

Lemma plus_ok a b : a + b ≤ u64_max → plus a b = Ok (a + b).
Proof. intros H. unfold plus. by rewrite (proj2 (Z.leb_le _ _) H). Qed.

Lemma checked_add_ok a b : a + b ≤ u64_max → checked_add a b = Ok (a + b).
Proof. intros H. unfold checked_add. by rewrite (proj2 (Z.leb_le _ _) H). Qed.

Lemma require_le a b : a ≤ b → require (a <=? b) = Ok tt.
Proof. intros H. unfold require. by rewrite (proj2 (Z.leb_le _ _) H). Qed.

Lemma lor_shiftl a b k : 0 ≤ k → 0 ≤ b < 2 ^ k → Z.lor (Z.shiftl a k) b = a * 2 ^ k + b.
Proof.
  intros Hk Hb. rewrite <- Z.shiftl_mul_pow2 by done. rewrite <- (Z.add_lor_land (Z.shiftl a k) b).
  replace (Z.land (Z.shiftl a k) b) with 0; [lia|]. symmetry. apply Z.bits_inj'. intros n Hn.
  rewrite Z.land_spec, Z.bits_0, Z.shiftl_spec by done. destruct (decide (n < k)).
  - by rewrite Z.testbit_neg_r by lia.
  - rewrite andb_comm, <- (Z.mod_small b (2 ^ k)), Z.mod_pow2_bits_high by lia. done.
Qed.

Lemma u24_bytes n :
  0 ≤ n < 2 ^ 24 →
  Z.lor (Z.lor (Z.shiftl ((n / 256 / 256) mod 256) 16) (Z.shiftl ((n / 256) mod 256) 8)) (n mod 256) = n.
Proof.
  intros Hn. change (2 ^ 24) with 16777216 in Hn.
  assert (0 ≤ n / 256 / 256 < 256) by (split; [by repeat apply Z.div_pos; lia|];
    repeat (apply Z.div_lt_upper_bound; [done|]); lia).
  rewrite (Z.mod_small (n / 256 / 256)) by done.
  pose proof (Z.div_mod n 256 ltac:(done)). pose proof (Z.div_mod (n / 256) 256 ltac:(done)).
  pose proof (Z.mod_pos_bound (n / 256) 256 ltac:(done)). pose proof (Z.mod_pos_bound n 256 ltac:(done)).
  rewrite <- Z.lor_assoc, (lor_shiftl _ (n mod 256) 8) by (cbn; lia).
  rewrite (lor_shiftl _ _ 16) by (cbn; lia). change (2 ^ 8) with 256. change (2 ^ 16) with 65536. lia.
Qed.

Lemma length_vec n bs : length (vec n bs) = (n + length bs)%nat.
Proof. unfold vec. by rewrite length_app, length_be_bytes. Qed.

Lemma length_typed n x : length (typed n x) = (n + 2 + length x.2)%nat.
Proof. unfold typed. rewrite length_app, length_be_bytes, length_vec. lia. Qed.

Lemma length_typed_list n xs : (length xs ≤ length (xs ≫= typed n))%nat.
Proof.
  induction xs as [|x xs IH]; [done|]. rewrite bind_cons, length_app, length_typed. cbn [length]. lia.
Qed.

(** Rewrites the next step of a parser that goes on. *)
Ltac ok_step :=
  first [ rewrite plus_ok by mach | rewrite checked_add_ok by mach | rewrite require_le by lia ];
  cbn [mbind Res_bind].

Section reading.
Context (payload : list Z) (Hlen : Z.of_nat (length payload) < 2 ^ 63).

Lemma At_vec2 p bs rest :
  Z.of_nat (length bs) < 65536 → At payload p (vec 2 bs ++ rest) →
  u16_at payload p = Ok (Z.of_nat (length bs)) ∧ At payload (p + 2) (bs ++ rest).
Proof.
  intros Hbs H. unfold vec in H. rewrite <- app_assoc in H. split.
  - eapply At_u16, H. lia.
  - by apply At_app in H; rewrite length_be_bytes in H.
Qed.

Lemma At_vec1 p bs rest :
  Z.of_nat (length bs) < 256 → At payload p (vec 1 bs ++ rest) →
  get_at payload p = Ok (Z.of_nat (length bs)) ∧ At payload (p + 1) (bs ++ rest).
Proof.
  intros Hbs H. change (vec 1 bs) with (Z.of_nat (length bs) mod 256 :: bs) in H.
  rewrite Z.mod_small in H by lia. split; [by eapply At_at|by eapply At_cons].
Qed.

Lemma name_loop_reads fuel names host after q list_end s n :
  Forall (λ x, 0 < x.1 < 256 ∧ Z.of_nat (length x.2) < 65536) names →
  At payload q ((names ≫= typed 1) ++ typed 1 (0, host) ++ after) →
  q + Z.of_nat (length ((names ≫= typed 1) ++ typed 1 (0, host))) ≤ list_end →
  list_end ≤ Z.of_nat (length payload) →
  (length names < fuel)%nat → Z.of_nat (length host) < 65536 →
  from_utf8 host = Some s → normalize_semantic_name s = Some n →
  name_loop fuel payload q list_end = Ok n.
Proof.
  intros Hnames. revert q fuel. induction Hnames as [|[t bs] names [Ht Hbs] _ IH];
    intros q fuel Hat Hend Hle Hfuel Hhost Hs Hn; (destruct fuel as [|fuel]; [cbn in Hfuel; lia|]);
    pose proof (At_range _ _ _ Hat) as [Hq _]; cbn [name_loop].
  - cbn [mbind list_bind app] in Hat, Hend. rewrite length_typed in Hend. cbn [snd] in Hend.
    ok_step. rewrite (proj2 (Z.leb_le _ _)) by lia. cbn [negb].
    change (typed 1 (0, host)) with (0 :: vec 2 host) in Hat.
    destruct (At_at _ _ _ _ Hat) as [-> _]. apply At_cons in Hat.
    apply At_vec2 in Hat as [-> Hat]; [|done]. cbn [mbind Res_bind]. do 2 ok_step.
    replace (q + 1 + 2) with (q + 3) in Hat by lia.
    rewrite (At_slice _ _ _ _ _ Hat) by lia. cbn. rewrite Hs.
    unfold normalize_semantic_name in Hn. by destruct (to_ascii_lowercase _); simplify_eq/=.
  - rewrite bind_cons, <- app_assoc in Hat. rewrite bind_cons, <- app_assoc, length_app, length_typed in Hend.
    cbn [fst snd] in *. ok_step. rewrite (proj2 (Z.leb_le _ _)) by lia. cbn [negb].
    change (typed 1 (t, bs)) with (t mod 256 :: vec 2 bs) in Hat. rewrite Z.mod_small in Hat by lia.
    destruct (At_at _ _ _ _ Hat) as [-> _]. apply At_cons in Hat.
    apply At_vec2 in Hat as [-> Hat]; [|done]. cbn [mbind Res_bind]. do 2 ok_step.
    rewrite (proj2 (Z.eqb_neq t 0)) by lia. apply At_app in Hat.
    apply IH; [|lia|lia|cbn in Hfuel; lia|done..].
    by replace (q + 3 + Z.of_nat (length bs)) with (q + 1 + 2 + Z.of_nat (length bs)) by lia.
Qed.

Lemma extension_loop_reads fuel before data after p ext_end r :
  Forall (λ x, 0 < x.1 < 65536 ∧ Z.of_nat (length x.2) < 65536) before →
  At payload p ((before ≫= typed 2) ++ typed 2 (0, data) ++ after) →
  p + Z.of_nat (length ((before ≫= typed 2) ++ typed 2 (0, data))) ≤ ext_end →
  ext_end ≤ Z.of_nat (length payload) →
  (length before < fuel)%nat → Z.of_nat (length data) < 65536 →
  (∀ p', At payload p' (data ++ after) → server_name payload p' (p' + Z.of_nat (length data)) = r) →
  extension_loop fuel payload p ext_end = r.
Proof.
  intros Hbefore. revert p fuel. induction Hbefore as [|[t bs] before [Ht Hbs] _ IH];
    intros p fuel Hat Hend Hle Hfuel Hdata Hr; (destruct fuel as [|fuel]; [cbn in Hfuel; lia|]);
    pose proof (At_range _ _ _ Hat) as [Hp _]; cbn [extension_loop].
  - cbn [mbind list_bind app] in Hat, Hend. rewrite length_typed in Hend. cbn [snd] in Hend.
    ok_step. rewrite (proj2 (Z.leb_le _ _)) by lia. cbn [negb].
    unfold typed in Hat. rewrite <- app_assoc in Hat. cbn [fst snd] in Hat.
    rewrite (At_u16 _ _ 0 _ ltac:(lia) Hat). apply At_app in Hat. rewrite length_be_bytes in Hat.
    change (Z.of_nat 2) with 2 in Hat. apply At_vec2 in Hat as [-> Hat]; [|done]. cbn [mbind Res_bind]. do 2 ok_step.
    cbn [Z.eqb]. replace (p + 2 + 2) with (p + 4) in Hat by lia. by apply Hr.
  - rewrite bind_cons, <- app_assoc in Hat. rewrite bind_cons, <- app_assoc, length_app, length_typed in Hend.
    cbn [fst snd] in *. ok_step. rewrite (proj2 (Z.leb_le _ _)) by lia. cbn [negb].
    unfold typed at 1 in Hat. rewrite <- app_assoc in Hat. cbn [fst snd] in Hat.
    rewrite (At_u16 _ _ t _ ltac:(lia) Hat). apply At_app in Hat. rewrite length_be_bytes in Hat.
    change (Z.of_nat 2) with 2 in Hat. apply At_vec2 in Hat as [-> Hat]; [|done]. cbn [mbind Res_bind]. do 2 ok_step.
    rewrite (proj2 (Z.eqb_neq t 0)) by lia. apply At_app in Hat.
    apply IH; [|lia|lia|cbn in Hfuel; lia|done..].
    by replace (p + 4 + Z.of_nat (length bs)) with (p + 2 + 2 + Z.of_nat (length bs)) by lia.
Qed.

Lemma server_name_reads h after p s n :
  Forall (λ x, 0 < x.1 < 256 ∧ Z.of_nat (length x.2) < 65536) h.(names_before) →
  Z.of_nat (length (sni_data h)) < 65536 →
  At payload p (sni_data h ++ after) →
  from_utf8 h.(host) = Some s → normalize_semantic_name s = Some n →
  server_name payload p (p + Z.of_nat (length (sni_data h))) = Ok n.
Proof.
  intros Hnames Hdata Hat Hs Hn. pose proof (At_range _ _ _ Hat) as [Hp Hl].
  unfold sni_data in *. rewrite !length_app, length_vec in *. rewrite <- app_assoc in Hat. unfold server_name. do 2 ok_step.
  apply At_vec2 in Hat as [-> Hat]; [|lia]. cbn [mbind Res_bind]. do 2 ok_step.
  unfold sni_list in *. rewrite <- !app_assoc in Hat. rewrite !length_app in *. rewrite length_typed in *.
  cbn [snd] in *. pose proof (length_typed_list 1 h.(names_before)).
  eapply name_loop_reads; [done|exact Hat|rewrite length_app, length_typed; cbn [snd]; lia|lia..|done|done].
Qed.

Lemma At_vec3 p bs rest :
  Z.of_nat (length bs) < 65536 → At payload p (vec 3 bs ++ rest) →
  (∃ a b c, get_at payload p = Ok a ∧ get_at payload (p + 1) = Ok b ∧ get_at payload (p + 1 + 1) = Ok c ∧
    Z.lor (Z.lor (Z.shiftl a 16) (Z.shiftl b 8)) c = Z.of_nat (length bs)) ∧
  At payload (p + 3) (bs ++ rest).
Proof.
  intros Hbs H. change (vec 3 bs ++ rest) with (((Z.of_nat (length bs) / 256 / 256) mod 256) ::
    (Z.of_nat (length bs) / 256) mod 256 :: Z.of_nat (length bs) mod 256 :: bs ++ rest) in H.
  split; [|by apply (At_app _ _ [_; _; _]) in H]. do 3 eexists.
  split; [by eapply At_at|]. apply At_cons in H. split; [by eapply At_at|]. apply At_cons in H.
  split; [by eapply At_at|]. apply u24_bytes. lia.
Qed.

(** The body, from the extensions' length on. *)
Lemma extensions_read h rest p s n :
  hello_ok h → At payload p (vec 2 (extensions h) ++ rest) → Z.of_nat (length (extensions h)) < 65536 →
  from_utf8 h.(host) = Some s → normalize_semantic_name s = Some n →
  extension_loop (S (length payload)) payload (p + 2) (p + 2 + Z.of_nat (length (extensions h))) = Ok n.
Proof.
  intros Hok Hat Hext Hs Hn. apply At_vec2 in Hat as [_ Hat]; [|done].
  pose proof (At_range _ _ _ Hat) as [Hp Hl]. unfold extensions in *.
  rewrite <- !app_assoc in Hat. rewrite !length_app, length_typed in *. cbn [snd] in *.
  pose proof (length_typed_list 2 h.(extensions_before)).
  eapply extension_loop_reads; [apply Hok|exact Hat|rewrite length_app, length_typed; cbn [snd]; lia|lia..|].
  intros p' Hat'. eapply server_name_reads; [apply Hok|lia|exact Hat'|done|done].
Qed.
End reading.

Lemma client_hello_read h s n :
  hello_ok h → from_utf8 h.(host) = Some s → normalize_semantic_name s = Some n →
  tls_client_hello_sni (client_hello h) = Ok n.
Proof.
  intros Hok Hs Hn. pose proof Hok as [Hrv Hv Hr Hse Hsu Hco _ _ Hrec Hlen].
  assert (H : At (client_hello h) 0 (client_hello h)) by (by exists []).
  unfold tls_client_hello_sni. unfold client_hello at 2 in H.
  pose proof (At_range _ _ _ H) as [_ Hl]. cbn [length] in Hl. rewrite !length_app, length_vec in Hl.
  rewrite (proj2 (Z.ltb_ge _ _)) by lia.
  destruct (At_at _ _ _ _ H) as [-> _]. cbn [mbind Res_bind Z.eqb Pos.eqb require].
  apply At_cons in H. apply At_app in H. rewrite Hrv in H. change (0 + 1 + Z.of_nat 2) with 3 in H.
  apply At_vec2 in H as [-> H]; [|done]. cbn [mbind Res_bind]. change (3 + 2) with 5 in H.
  repeat ok_step. unfold handshake in *. cbn [length] in *. rewrite length_vec in *.
  destruct (At_at _ _ _ _ H) as [_ ->]. cbn [mbind Res_bind Z.eqb Pos.eqb require].
  apply At_cons in H. apply At_vec3 in H as [(h6 & h7 & h8 & H6 & H7 & H8 & Hhs) H]; [|lia].
  change (5 + 1) with 6 in *. change (6 + 1) with 7 in *. change (7 + 1) with 8 in *.
  rewrite H6, H7, H8. cbn [mbind Res_bind]. rewrite Hhs. cbn zeta. change (6 + 3) with 9 in H.
  repeat ok_step. unfold body in *. rewrite !length_app, !length_vec, Hv, Hr in *.
  rewrite <- !app_assoc in H. repeat ok_step.
  do 2 apply At_app in H. rewrite Hv, Hr in H. change (9 + Z.of_nat 2 + Z.of_nat 32) with (9 + 34) in H.
  apply At_vec1 in H as [-> H]; [|done]. apply At_app in H. cbn [mbind Res_bind]. repeat ok_step.
  rewrite <- Z.add_assoc in H. apply At_vec2 in H as [-> H]; [|done]. apply At_app in H.
  cbn [mbind Res_bind]. repeat ok_step.
  rewrite <- (Z.add_assoc _ 2) in H. apply At_vec1 in H as [-> H]; [|done]. apply At_app in H.
  cbn [mbind Res_bind]. repeat ok_step. rewrite <- (Z.add_assoc _ 1) in H.
  assert (He : Z.of_nat (length (extensions h)) < 65536) by lia.
  destruct (At_vec2 _ _ _ _ He H) as [-> _]. cbn [mbind Res_bind].
  repeat ok_step. by eapply extensions_read; [|exact Hok|exact H|..].
Qed.

(** C18. Every buffer a hooked process sends is parsed to an end: whatever the
    bytes, the parser answers a name or that there is none.  No index is out of
    bounds, no addition overflows, and the loops over extensions and names, which
    the buffer's own lengths drive, finish within one round per byte. *)
Theorem tls_parser_total payload :
  Forall is_byte payload → Z.of_nat (length payload) < 2 ^ 63 →
  tls_client_hello_sni payload = Reject ∨ ∃ name, tls_client_hello_sni payload = Ok name.
Proof.
  intros Hb Hlen. pose proof (tls_safe payload Hb Hlen) as H.
  destruct (tls_client_hello_sni payload); [right; by eexists|by left|done..].
Qed.

(** C14. The name the parser finds in a client hello is the one the client put
    there: for every hello whose lengths fit their prefixes, with the server name
    after any other extensions and the host name after any names of other types,
    parsing the bytes gives the host, trimmed, without trailing dots and in lower
    case; what follows the host name at any level is not looked at. *)
Theorem tls_roundtrip h s n :
  hello_ok h → h.(host) = as_bytes s → Forall is_scalar s → normalize_semantic_name s = Some n →
  tls_client_hello_sni (client_hello h) = Ok n.
Proof.
  intros Hok Hh Hs Hn. eapply client_hello_read; [done|rewrite Hh; by apply from_utf8_as_bytes|done].
Qed.

(** ** Witnesses *)

(** A hello for [Ex.], with a supported-groups extension and a private name type
    in front of the host name. *)
Definition example_hello : ClientHello :=
  mkClientHello [3; 1] [3; 3] (replicate 32 7) [9; 9] [19; 1] [0] [(10, [0; 2; 0; 29])] [(5, [1])]
    [69; 120; 46] [] [] [0; 43] [] [1; 2; 3].

Lemma tls_parser_total_witness :
  (tls_client_hello_sni [22; 3; 1; 0; 200; 1] = Reject ∨
    ∃ name, tls_client_hello_sni [22; 3; 1; 0; 200; 1] = Ok name).
Proof. apply tls_parser_total; [by apply (bool_decide_unpack _); vm_compute|by vm_compute]. Defined.

Lemma tls_roundtrip_witness : tls_client_hello_sni (client_hello example_hello) = Ok [101; 120].
Proof.
  apply (tls_roundtrip _ [69; 120; 46]);
    [constructor; apply (bool_decide_unpack _); by vm_compute
    |by vm_compute|apply (bool_decide_unpack _); by vm_compute|by vm_compute].
Defined.
