(* ===== verification/RecordReplay.v ===== *)
(** * Recording and replaying decisions

    [faultcore_network/src/record_replay.rs]: in record mode every decision is
    appended to a compressed log, in replay mode the log answers instead of the
    layers.  The JSON and gzip crates and the file system are the class
    [Storage]; a deferred evaluation is a computation on the rest of the process,
    of which only the mapped segment (for the policy name) is looked at. *)

From S2P Require Import Prelude.
From S2P Require Import RustStr.
From S2P Require Import ShmRuntime.
From S2P Require Import Layers.

Open Scope Z_scope.

(* faultcore_network/src/record_replay.rs:12-17 RecordReplayMode *)
Inductive RecordReplayMode : Type := Off | Record_ | Replay.

(* faultcore_network/src/record_replay.rs:19-25 RecordReplayEvent *)
Record RecordReplayEvent : Type := mkRecordReplayEvent {
  site : string;
  decision : string;
  value : Z;
  policy_name : option str
}.

#[export] Instance eta_RecordReplayEvent : Eta RecordReplayEvent := λ e,
  mkRecordReplayEvent (e.(site)) (e.(decision)) (e.(value)) (e.(policy_name)).

Open Scope string_scope.

(* faultcore_network/src/record_replay.rs:28-47 RecordReplayEvent::from_decision *)
Definition from_decision (site : string) (d : LayerDecision) : RecordReplayEvent :=
  let '(kind, value) :=
    match d with
    | Continue => ("continue", 0)
    | Drop => ("drop", 0)
    | DelayNs ns => ("delay_ns", ns)
    | TimeoutMs ms => ("timeout_ms", ms)
    | Error _ => ("error", 0)
    | ConnectionErrorKind kind => ("connection_error_kind", kind)
    | StageReorder => ("stage_reorder", 0)
    | Duplicate extra => ("duplicate", extra)
    | NxDomain => ("nxdomain", 0)
    | Mutate _ => ("mutate", 0)
    end%Z in
  mkRecordReplayEvent site kind value None.

(* faultcore_network/src/record_replay.rs:49-52 RecordReplayEvent::with_policy_name *)
Definition with_policy_name (name : option str) (e : RecordReplayEvent) : RecordReplayEvent :=
  e <| policy_name := name |>.

(* faultcore_network/src/record_replay.rs:54-68 RecordReplayEvent::to_decision *)
Definition to_decision (e : RecordReplayEvent) : option LayerDecision :=
  if bool_decide (e.(decision) = "continue") then Some Continue
  else if bool_decide (e.(decision) = "drop") then Some Drop
  else if bool_decide (e.(decision) = "delay_ns") then Some (DelayNs e.(value))
  else if bool_decide (e.(decision) = "timeout_ms") then Some (TimeoutMs e.(value))
  else if bool_decide (e.(decision) = "error") then Some (Error "record_replay_error")
  else if bool_decide (e.(decision) = "connection_error_kind") then Some (ConnectionErrorKind e.(value))
  else if bool_decide (e.(decision) = "stage_reorder") then Some StageReorder
  else if bool_decide (e.(decision) = "duplicate") then Some (Duplicate e.(value))
  else if bool_decide (e.(decision) = "nxdomain") then Some NxDomain
  else if bool_decide (e.(decision) = "mutate") then Some Continue
  else None.

(* faultcore_network/src/record_replay.rs:71-75 RecordReplayCore *)
Record RecordReplayCore : Type := mkRecordReplayCore {
  mode : RecordReplayMode;
  fail_fast : bool;
  replay_events : list RecordReplayEvent
}.

#[export] Instance eta_RecordReplayCore : Eta RecordReplayCore := λ c,
  mkRecordReplayCore (c.(mode)) (c.(fail_fast)) (c.(replay_events)).

(* faultcore_network/src/record_replay.rs:78-84 RecordReplayCore::new *)
Definition RecordReplayCore_new (mode : RecordReplayMode) (events : list RecordReplayEvent) :
    RecordReplayCore := mkRecordReplayCore mode false events.

(* faultcore_network/src/record_replay.rs:86-88 RecordReplayCore::fail_fast_decision *)
Definition fail_fast_decision : LayerDecision := Error "record_replay_fail_fast".

(** What the crates and the file system do.  A file is its bytes. *)
Abbreviation Files := (gmap string (list Z)).

Class Storage : Type := {
  to_string : RecordReplayEvent → option (list Z);      (* serde_json *)
  from_str : list Z → option RecordReplayEvent;
  gz_member : list Z → list Z;                          (* one finished GzEncoder *)
  gz_lines : list Z → list (list Z);                    (* MultiGzDecoder, by lines *)
  file_create : string → Files → option Files;          (* truncates *)
  file_append : string → list Z → Files → option Files;
  file_open : string → Files → option (list Z);
}.

(** Documented behaviour: an event's JSON has no line break and parses back; the
    members of a log decompress to their lines; a file that could be created can
    be appended to and opened. *)
Class StorageLaws `{Storage} : Prop := {
  to_string_from_str e : is_u64 e.(value) →
    ∃ l, to_string e = Some l ∧ (10 ∉ l)%Z ∧ from_str l = Some e;
  gz_lines_members ls : Forall (λ l, (10 ∉ l)%Z) ls →
    gz_lines (ls ≫= λ l, gz_member (l ++ [10%Z])%list) = ls;
  file_create_spec p f f' : file_create p f = Some f' → f' !! p = Some [];
  file_append_spec p bs f old : f !! p = Some old →
    ∃ f', file_append p bs f = Some f' ∧ f' !! p = Some (old ++ bs)%list;
  file_open_spec p f bs : f !! p = Some bs → file_open p f = Some bs;
}.

(* faultcore_network/src/record_replay.rs:130-133 RecordReplaySession *)
Record RecordReplaySession : Type := mkRecordReplaySession {
  core : RecordReplayCore;
  record_path : option string
}.

#[export] Instance eta_RecordReplaySession : Eta RecordReplaySession := λ s,
  mkRecordReplaySession (s.(core)) (s.(record_path)).

Section process.
(** The rest of the process, and the mapped segment in it. *)
Context {S : Type} (segment : S → ShmState).

(* faultcore_network/src/record_replay.rs:90-127 RecordReplayCore::evaluate_or_replay *)
Definition core_evaluate_or_replay (at_site : string) (evaluate : M S LayerDecision) :
    M (RecordReplayCore * S) (LayerDecision * option RecordReplayEvent) :=
  let deferred := zoom snd (λ e s, (s.1, e)) evaluate in
  let latch := modify (λ s, (s.1 <| fail_fast := true |>, s.2));;
               mret (fail_fast_decision, None) in
  c ← gets fst;
  if c.(fail_fast) : bool then mret (fail_fast_decision, None) else
  match c.(mode) with
  | Off => d ← deferred; mret (d, None)
  | Record_ =>
      d ← deferred;
      name ← gets (λ s, get_current_policy_name (segment s.2));
      mret (d, Some (with_policy_name name (from_decision at_site d)))
  | Replay =>
      match c.(replay_events) with
      | [] => latch
      | event :: rest =>
          modify (λ s, (s.1 <| replay_events := rest |>, s.2));;
          if negb (bool_decide (event.(site) = at_site)) then latch else
          match to_decision event with
          | None => latch
          | Some d => mret (d, None)
          end
      end
  end.

Context `{Storage}.

(* faultcore_network/src/record_replay.rs:194-208 RecordReplaySession::persist_event *)
Definition persist_event (event : RecordReplayEvent) (s : RecordReplaySession) (files : Files) : Files :=
  match s.(record_path) with
  | None => files
  | Some path =>
      match to_string event with
      | None => files
      | Some line => default files (file_append path (gz_member (line ++ [10%Z])%list) files)
      end
  end.

(* faultcore_network/src/record_replay.rs:210-219 RecordReplaySession::evaluate_or_replay *)
Definition evaluate_or_replay (at_site : string) (evaluate : M S LayerDecision) :
    M (RecordReplaySession * Files * S) LayerDecision := λ s,
  let r := core_evaluate_or_replay at_site evaluate (s.1.1.(core), s.2) in
  let session := s.1.1 <| core := r.2.1 |> in
  (r.1.1, (session, match r.1.2 with
                    | Some event => persist_event event session s.1.2
                    | None => s.1.2
                    end, r.2.2)).

(** The lock serialises the calls of a process: a run is a list of them. *)
(* faultcore_network/src/record_replay.rs:227-232 record_replay_evaluate_or_replay *)
Definition record_replay_evaluate_or_replay := evaluate_or_replay.

Fixpoint run_calls (calls : list (string * M S LayerDecision)) :
    M (RecordReplaySession * Files * S) (list LayerDecision) :=
  match calls with
  | [] => mret []
  | (at_site, evaluate) :: calls =>
      d ← record_replay_evaluate_or_replay at_site evaluate;
      ds ← run_calls calls;
      mret (d :: ds)
  end.
End process.

Section session.
Context `{Storage} `{Os}.

(* faultcore_network/src/record_replay.rs:136-146 RecordReplaySession::mode_from_env *)
Definition mode_from_env : RecordReplayMode :=
  let raw := string_lower (default "" (env_var "FAULTCORE_RECORD_REPLAY_MODE")) in
  if bool_decide (raw = "record") then Record_
  else if bool_decide (raw = "replay") then Replay
  else Off.

(* faultcore_network/src/record_replay.rs:148-151 RecordReplaySession::path_from_env *)
Definition path_from_env : string :=
  default "/tmp/faultcore_record_replay.jsonl.gz" (env_var "FAULTCORE_RECORD_REPLAY_PATH").

(* faultcore_network/src/record_replay.rs:153-165 RecordReplaySession::load_replay_events *)
Definition load_replay_events (path : string) (files : Files) : list RecordReplayEvent :=
  match file_open path files with
  | None => []
  | Some bytes => omap from_str (gz_lines bytes)
  end.

(* faultcore_network/src/record_replay.rs:167-192 RecordReplaySession::new *)
Definition RecordReplaySession_new : M Files RecordReplaySession := λ files,
  let path := path_from_env in
  match mode_from_env with
  | Off => (mkRecordReplaySession (RecordReplayCore_new Off []) None, files)
  | Record_ =>
      match file_create path files with
      | Some files => (mkRecordReplaySession (RecordReplayCore_new Record_ []) (Some path), files)
      | None => (mkRecordReplaySession (RecordReplayCore_new Record_ []) None, files)
      end
  | Replay =>
      (mkRecordReplaySession (RecordReplayCore_new Replay (load_replay_events path files)) None, files)
  end.
End session.

(** ** Facts *)

Close Scope string_scope.

(** What a recorded decision replays as. *)
Definition replayed (d : LayerDecision) : LayerDecision :=
  match d with
  | Error _ => Error "record_replay_error"
  | Mutate _ => Continue
  | d => d
  end.

Lemma to_decision_from_decision s d name :
  to_decision (with_policy_name name (from_decision s d)) = Some (replayed d).
Proof. by destruct d. Qed.

Lemma site_from_decision s d name : (with_policy_name name (from_decision s d)).(site) = s.
Proof. by destruct d. Qed.

(** A decision whose payload is a [u64]. *)
Definition decision_ok (d : LayerDecision) : Prop := is_u64 (from_decision EmptyString d).(value).

Section recording.
Context {S : Type} (segment : S → ShmState) `{StorageLaws}.

(** The events a run records. *)
Fixpoint recorded (calls : list (string * M S LayerDecision)) (e : S) : list RecordReplayEvent :=
  match calls with
  | [] => []
  | (at_site, evaluate) :: calls =>
      let r := evaluate e in
      with_policy_name (get_current_policy_name (segment r.2)) (from_decision at_site r.1)
        :: recorded calls r.2
  end.

(** The decisions of the evaluations alone. *)
Fixpoint evaluated (calls : list (string * M S LayerDecision)) (e : S) : list LayerDecision :=
  match calls with
  | [] => []
  | (_, evaluate) :: calls => let r := evaluate e in r.1 :: evaluated calls r.2
  end.

Lemma recorded_ok calls e :
  Forall decision_ok (evaluated calls e) → Forall (λ ev, is_u64 ev.(value)) (recorded calls e).
Proof.
  revert e; induction calls as [|[at_site evaluate] calls IH]; intros e; cbn; [done|].
  intros [Hd Hds]%Forall_cons. constructor; [|by apply IH].
  revert Hd. unfold decision_ok. by destruct (evaluate e).1.
Qed.

(** The log of a list of events. *)
Definition log_of (es : list RecordReplayEvent) : list Z :=
  omap to_string es ≫= λ l, gz_member (l ++ [10%Z]).

Lemma log_of_cons ev es l :
  to_string ev = Some l → log_of (ev :: es) = gz_member (l ++ [10%Z]) ++ log_of es.
Proof.
  intros Hl. unfold log_of.
  change (omap to_string (ev :: es)) with
    (match to_string ev with Some y => y :: omap to_string es | None => omap to_string es end).
  by rewrite Hl.
Qed.

Lemma persist_run ev s path l files files' :
  s.(record_path) = Some path → to_string ev = Some l →
  file_append path (gz_member (l ++ [10%Z])) files = Some files' →
  persist_event ev s files = files'.
Proof. unfold persist_event. intros -> -> ->. done. Qed.

(** Recording evaluates every call and appends its event. *)
Lemma record_run path calls files old (e : S) :
  files !! path = Some old → Forall (λ ev, is_u64 ev.(value)) (recorded calls e) →
  let s := mkRecordReplaySession (RecordReplayCore_new Record_ []) (Some path) in
  let r := run_calls segment calls (s, files, e) in
  r.2.1.1 = s ∧ r.2.1.2 !! path = Some (old ++ log_of (recorded calls e)) ∧
  r.1 = evaluated calls e ∧
  Forall2 (λ d ev, to_decision ev = Some d) (replayed <$> evaluated calls e) (recorded calls e) ∧
  (site <$> recorded calls e) = calls.*1.
Proof.
  intros Hold Hok s. revert files old e Hold Hok; induction calls as [|[at_site evaluate] calls IH];
    intros files old e Hold Hok.
  { cbn. split_and!; try done. by rewrite app_nil_r. }
  cbn [recorded run_calls] in *. apply Forall_cons in Hok as [Hev Hok].
  rewrite bind_run. set (d := (evaluate e).1) in *. set (e' := (evaluate e).2) in *.
  set (ev := with_policy_name _ _) in *.
  destruct (to_string_from_str ev Hev) as (l & Hl & _ & _).
  destruct (file_append_spec path (gz_member (l ++ [10%Z])) files old Hold) as (files' & Happ & Hfiles').
  assert (E : record_replay_evaluate_or_replay segment at_site evaluate (s, files, e) =
    (d, (s, files', e'))).
  { change (record_replay_evaluate_or_replay segment at_site evaluate (s, files, e))
      with (d, (s, persist_event ev s files, e')).
    by rewrite (persist_run ev s path l files files'). }
  rewrite E. cbn [fst snd]. rewrite bind_run, ret_run.
  specialize (IH files' _ e' Hfiles' Hok). cbn zeta in IH. destruct IH as (IH1 & IH2 & IH3 & IH4 & IH5).
  cbn zeta. cbn [fst snd]. split_and!.
  - done.
  - rewrite IH2. fold e' d ev. rewrite (log_of_cons ev _ l) by done. by rewrite app_assoc.
  - by rewrite IH3.
  - cbn [evaluated]. rewrite fmap_cons. constructor; [apply to_decision_from_decision|done].
  - rewrite !fmap_cons. fold e'. rewrite IH5. f_equal. apply site_from_decision.
Qed.

(** What was appended is what a replaying session loads. *)
Lemma load_log path files es :
  files !! path = Some (log_of es) → Forall (λ ev, is_u64 ev.(value)) es →
  load_replay_events path files = es.
Proof.
  intros Hf Hok. unfold load_replay_events. rewrite (file_open_spec _ _ _ Hf). unfold log_of.
  assert (Hls : Forall (λ l, (10 ∉ l)%Z) (omap to_string es) ∧ omap from_str (omap to_string es) = es).
  { clear Hf. induction Hok as [|ev es Hev Hok [IH1 IH2]]; [done|].
    destruct (to_string_from_str ev Hev) as (l & Hl & Hnl & Hback).
    change (omap to_string (ev :: es)) with
      (match to_string ev with Some y => y :: omap to_string es | None => omap to_string es end).
    rewrite Hl. split; [by constructor|].
    change (omap from_str (l :: omap to_string es)) with
      (match from_str l with Some y => y :: omap from_str (omap to_string es)
       | None => omap from_str (omap to_string es) end).
    rewrite Hback. by f_equal. }
  rewrite gz_lines_members by apply Hls. apply Hls.
Qed.
End recording.

Section replaying.
Context {S : Type} (segment : S → ShmState) `{Storage}.

Definition replaying (es : list RecordReplayEvent) : RecordReplaySession :=
  mkRecordReplaySession (mkRecordReplayCore Replay false es) None.

Definition latched (s : RecordReplaySession) : Prop := s.(core).(fail_fast) = true.

(** A replayed decision consumes its event and evaluates nothing. *)
Lemma replay_hit es ev d evaluate files (e : S) :
  to_decision ev = Some d →
  record_replay_evaluate_or_replay segment ev.(site) evaluate (replaying (ev :: es), files, e) =
    (d, (replaying es, files, e)).
Proof.
  intros Hd. unfold record_replay_evaluate_or_replay, evaluate_or_replay, core_evaluate_or_replay.
  run_simpl. cbn [replaying core fail_fast mode replay_events negb]. run_simpl.
  rewrite bool_decide_eq_true_2, Hd by done. done.
Qed.

Lemma latched_call s at_site evaluate files (e : S) :
  latched s →
  record_replay_evaluate_or_replay segment at_site evaluate (s, files, e) =
    (fail_fast_decision, (s, files, e)).
Proof.
  destruct s as [[m ff es] p]. unfold latched. cbn [core fail_fast]. intros ->. done.
Qed.

Lemma latched_run s calls files (e : S) :
  latched s →
  run_calls segment calls (s, files, e) =
    (replicate (length calls) fail_fast_decision, (s, files, e)).
Proof.
  intros Hs. induction calls as [|[at_site evaluate] calls IH]; [done|].
  cbn [run_calls]. rewrite bind_run, latched_call by done. cbn [fst snd].
  rewrite bind_run, IH. done.
Qed.

(** Closes [∃ s', P s' ∧ c = (.., s', ..)] where [c] computes. *)
Ltac next_session := eexists; split; [|reflexivity].

(** Outside record mode no file is written; in replay mode nothing is evaluated. *)
Lemma replay_frame_call s at_site evaluate files (e : S) :
  s.(core).(mode) = Replay →
  ∃ s', s'.(core).(mode) = Replay ∧
    (record_replay_evaluate_or_replay segment at_site evaluate (s, files, e)).2 = (s', files, e).
Proof.
  destruct s as [[m ff es] p]. cbn [core mode]. intros ->.
  unfold record_replay_evaluate_or_replay, evaluate_or_replay, core_evaluate_or_replay.
  run_simpl. cbn [core fail_fast mode replay_events]. destruct ff; [by next_session|].
  destruct es as [|ev es]; run_simpl; [by next_session|].
  destruct (bool_decide (site ev = at_site)); cbn [negb]; [|by next_session].
  destruct (to_decision ev); by next_session.
Qed.

Lemma replay_frame s calls files (e : S) :
  s.(core).(mode) = Replay →
  ∃ s', (run_calls segment calls (s, files, e)).2 = (s', files, e).
Proof.
  revert s; induction calls as [|[at_site evaluate] calls IH]; intros s Hs; [by eexists|].
  cbn [run_calls]. rewrite bind_run.
  destruct (replay_frame_call s at_site evaluate files e Hs) as (s1 & Hs1 & E). rewrite E.
  rewrite bind_run, ret_run. cbn [fst snd]. by apply IH.
Qed.

(** A call that does not find its event refuses and latches. *)
Lemma replay_miss es at_site evaluate files (e : S) :
  (∀ ev es', es = ev :: es' → ev.(site) = at_site → to_decision ev = None) →
  ∃ s', latched s' ∧
    record_replay_evaluate_or_replay segment at_site evaluate (replaying es, files, e) =
      (fail_fast_decision, (s', files, e)).
Proof.
  intros Hmiss.
  unfold record_replay_evaluate_or_replay, evaluate_or_replay, core_evaluate_or_replay.
  run_simpl. cbn [replaying core fail_fast mode replay_events].
  destruct es as [|ev es]; run_simpl; [by next_session|].
  case_bool_decide as Hsite; cbn [negb]; [|by next_session].
  rewrite (Hmiss ev es eq_refl Hsite). by next_session.
Qed.

Lemma replay_exhausted calls files (e : S) :
  ∃ s, run_calls segment calls (replaying [], files, e) =
    (replicate (length calls) fail_fast_decision, (s, files, e)).
Proof.
  destruct calls as [|[at_site evaluate] calls]; [by eexists|]. cbn [run_calls].
  rewrite bind_run.
  change (record_replay_evaluate_or_replay segment at_site evaluate (replaying [], files, e))
    with (fail_fast_decision, (mkRecordReplaySession (mkRecordReplayCore Replay true []) None, files, e)).
  cbn [fst snd]. rewrite bind_run, latched_run by done. by eexists.
Qed.

Lemma run_calls_app calls more s :
  run_calls segment (calls ++ more) s =
    let r := run_calls segment calls s in let r' := run_calls segment more r.2 in
    (r.1 ++ r'.1, r'.2).
Proof.
  revert s; induction calls as [|[at_site evaluate] calls IH]; intros s.
  { cbn. by destruct (run_calls segment more s). }
  cbn [run_calls app]. rewrite !bind_run, IH. done.
Qed.

Lemma replay_run es ds calls files (e : S) :
  Forall2 (λ d ev, to_decision ev = Some d) ds es → calls.*1 = site <$> es →
  run_calls segment calls (replaying es, files, e) = (ds, (replaying [], files, e)).
Proof.
  intros Hds. revert calls; induction Hds as [|d ev ds es Hd Hds IH]; intros calls Hc.
  { by destruct calls. }
  destruct calls as [|[at_site evaluate] calls]; [done|].
  rewrite !fmap_cons in Hc. cbn [fst] in Hc. injection Hc as -> Hc.
  cbn [run_calls]. rewrite bind_run, (replay_hit es ev d) by done. cbn [fst snd].
  rewrite bind_run, IH by done. done.
Qed.
End replaying.

(** ** Properties *)


(** C30. Replay fails fast.  In replay mode a call consumes the next event and
    returns its decision when the event is of the same site and of a known kind;
    an exhausted log, another site or an unknown kind is refused, and from then
    on every call at any site is.  Replaying never evaluates a layer nor writes a
    file. *)
Theorem replay_fail_fast {S : Type} (segment : S → ShmState) `{Storage} es at_site evaluate calls files e :
  let r := run_calls segment ((at_site, evaluate) :: calls) (replaying es, files, e) in
  r.2.2 = e ∧ r.2.1.2 = files ∧
  match es with
  | ev :: es' =>
      match to_decision ev with
      | Some d => ev.(site) = at_site →
          r.1 = d :: (run_calls segment calls (replaying es', files, e)).1
      | None => True
      end
  | [] => True
  end ∧
  ((∀ ev es', es = ev :: es' → ev.(site) = at_site → to_decision ev = None) →
   r.1 = replicate (Datatypes.S (length calls)) fail_fast_decision).
Proof.
  intros r. destruct (replay_frame segment (replaying es) ((at_site, evaluate) :: calls) files e eq_refl)
    as [s1 E1]. fold r in E1. split_and!; [by rewrite E1..| |].
  - destruct es as [|ev es']; [done|]. destruct (to_decision ev) as [d|] eqn:Hd; [|done]. intros <-.
    unfold r. cbn [run_calls]. by rewrite bind_run, (replay_hit segment es' ev d).
  - intros Hmiss. destruct (replay_miss segment es at_site evaluate files e Hmiss) as (s2 & Hs2 & E2).
    unfold r. cbn [run_calls]. rewrite bind_run, E2. cbn [fst snd].
    by rewrite bind_run, latched_run.
Qed.

(** ** Witnesses *)

(** A storage that satisfies the documented behaviour: events in unary-free
    binary of stdpp's [encode], one digit a byte, and uncompressed lines. *)
#[export] Instance RecordReplayEvent_eq_dec : EqDecision RecordReplayEvent.
Proof. solve_decision. Defined.
#[export] Instance RecordReplayEvent_countable : Countable RecordReplayEvent.
Proof.
  apply (inj_countable' (λ e, (e.(site), e.(decision), e.(value), e.(policy_name)))
    (λ '(s, d, v, p), mkRecordReplayEvent s d v p)). by intros [].
Defined.

Fixpoint digits (p : positive) : list Z :=
  match p with xH => [] | xO p => 48 :: digits p | xI p => 49 :: digits p end.
Fixpoint of_digits (l : list Z) : positive :=
  match l with [] => xH | d :: l => if d =? 48 then xO (of_digits l) else xI (of_digits l) end.

Lemma of_digits_digits p : of_digits (digits p) = p.
Proof. induction p as [p IH|p IH|]; cbn; by rewrite ?IH. Qed.
Lemma digits_no_break p : (10 ∉ digits p)%Z.
Proof.
  induction p as [p IH|p IH|]; cbn; [by intros [?|?]%elem_of_cons|by intros [?|?]%elem_of_cons|].
  apply not_elem_of_nil.
Qed.

(** The lines of a text whose every line is terminated. *)
Fixpoint split_lines (line l : list Z) : list (list Z) :=
  match l with
  | [] => []
  | c :: l => if c =? 10 then line :: split_lines [] l else split_lines (line ++ [c]) l
  end.

Lemma split_lines_line line l rest :
  (10 ∉ l)%Z → split_lines line (l ++ 10 :: rest) = (line ++ l) :: split_lines [] rest.
Proof.
  revert line; induction l as [|c l IH]; intros line Hl; cbn; [by rewrite app_nil_r|].
  apply not_elem_of_cons in Hl as [Hc Hl]. destruct (Z.eqb_spec c 10); [congruence|].
  rewrite IH by done. by rewrite <- app_assoc.
Qed.

#[export] Instance example_storage : Storage := {|
  to_string e := Some (digits (encode e));
  from_str l := decode (of_digits l);
  gz_member l := l;
  gz_lines := split_lines [];
  file_create p f := Some (<[p := []]> f);
  file_append p bs f := Some (<[p := default [] (f !! p) ++ bs]> f);
  file_open p f := f !! p
|}.

#[export] Instance example_storage_laws : StorageLaws.
Proof.
  split; cbn.
  - intros e _. exists (digits (encode e)). split_and!; [done|apply digits_no_break|].
    by rewrite of_digits_digits, decode_encode.
  - intros ls Hls. induction Hls as [|l ls Hl _ IH]; [done|]. cbn.
    rewrite <- app_assoc. cbn [app]. rewrite split_lines_line by done. by rewrite IH.
  - intros p f f' [= <-]. apply lookup_insert_eq.
  - intros p bs f old Hold. eexists. split; [done|]. by rewrite lookup_insert_eq, Hold.
  - done.
Qed.

(** A delay and a lost packet, recorded and replayed by a process whose layers
    would let everything through. *)
Definition example_calls : list (string * M ShmState LayerDecision) :=
  [("connect_pre", mret (DelayNs 42)); ("stream_uplink_pre", mret Drop)]%string.
Definition example_replay_calls : list (string * M ShmState LayerDecision) :=
  [("connect_pre", mret Continue); ("stream_uplink_pre", mret Continue)]%string.


Lemma replay_fail_fast_witness :
  (run_calls id (("dns_lookup"%string, mret Continue) :: example_calls)
     (replaying [mkRecordReplayEvent "connect_pre" "drop" 0 None], ∅, example_segment)).1 =
    replicate 3 fail_fast_decision.
Proof.
  refine (proj2 (proj2 (proj2 (replay_fail_fast id
    [mkRecordReplayEvent "connect_pre" "drop" 0 None] "dns_lookup" (mret Continue) example_calls
    ∅ example_segment))) _).
  by intros ev es' [= <- <-].
Defined.
