(* ===== verification/Process.v ===== *)
(** * A hooked process

    The state the hooks of [faultcore_interceptor/src/lib.rs] share: the
    process-wide statics (segment, bridge, engine, runtime, record/replay session,
    TLS maps), the thread's own state, and what answers the original calls.  Each
    component's computations run here on their part of it; the bridge's entry
    points that start from a descriptor ([interceptor_bridge.rs]) and the metrics
    of [faultcore_network/src/lib.rs] complete those components. *)

From S2P Require Import Prelude.
From S2P Require Import Config.
From S2P Require Import ShmContract.
From S2P Require Import RustStr.
From S2P Require Import ShmRuntime.
From S2P Require Import Layers.
From S2P Require Import Sockets.
From S2P Require Import Observability.
From S2P Require Import ChaosEngine.
From S2P Require Import Runtime.
From S2P Require Import Bridge.
From S2P Require Import RecordReplay.

Open Scope Z_scope.

(** ** The original functions

    A call of the next definition of a hooked symbol.  A pointer to bytes is
    [None] when null; an address with a length the call updates is a pair. *)

Inductive Syscall : Type :=
  | SysSocket (domain ty proto : Z)
  | SysClose (fd : Z)
  | SysDup (oldfd : Z)
  | SysDup2 (oldfd newfd : Z)
  | SysDup3 (oldfd newfd fl : Z)
  | SysAccept (s : Z) (a : option (list Z * Z))
  | SysAccept4 (s : Z) (a : option (list Z * Z)) (fl : Z)
  | SysConnect (s : Z) (a : option (list Z)) (l : Z)
  | SysSend (s : Z) (b : option (list Z)) (l f : Z)
  | SysWrite (s : Z) (b : option (list Z)) (l : Z)
  | SysSendto (s : Z) (b : option (list Z)) (l f : Z) (a : option (list Z)) (al : Z)
  | SysRecv (s : Z) (b : option (list Z)) (l f : Z)
  | SysRead (s : Z) (b : option (list Z)) (l : Z)
  | SysRecvfrom (s : Z) (b : option (list Z)) (l f : Z) (a : option (list Z * Z))
  | SysGetaddrinfo (node service : option (list Z)) (hints : option (list Z))
  | SysSslCtrl (ssl cmd larg : Z) (parg : option (list Z))
  | SysSslSetFd (ssl fd : Z)
  | SysSslGetFd (ssl : Z)
  | SysSslFree (ssl : Z)
  | SysSetpriority (which who prio : Z).

(** What it returns, and leaves in the caller's buffer, in the caller's address,
    and (for [getaddrinfo]) in the list of addresses, [ai_addr] and [ai_addrlen]. *)
Record Answer : Type := mkAnswer {
  ret : Z;
  filled : option (list Z);
  from : option (list Z * Z);
  infos : list (option (list Z) * Z)
}.

(** The C library above a kernel state [N]: the originals, which may set [errno];
    [fcntl(F_GETFL)]; whether [pthread_setspecific] fails; and which symbols
    [dlsym] finds. *)
Class Libc (N : Type) : Type := {
  original : Syscall → M (N * Thread) Answer;
  fcntl_getfl : Z → N → Z;
  setspecific_fails : N → bool;
  has_ssl_ctrl : bool;
  has_ssl_set_fd : bool;
  has_ssl_get_fd : bool;
  has_ssl_free : bool;
  has_setpriority : bool;
}.

(** ** The state *)

(** The clock and the global metrics are in [bridge]; [get_thread_id] answers
    [tid].  [trace] is not in the code: it lists the original calls made, and their
    answers. *)
(* faultcore_interceptor/src/lib.rs:93-94 SNI_BY_SSL *)
Record Process `{Host} {N : Type} : Type := mkProcess {
  segment : ShmState;
  bridge : Bridge;
  chaos : ChaosEngine;
  runtime : InterceptorRuntime;
  session : RecordReplaySession;
  files : Files;
  SNI_BY_SSL : gmap Z str;
  FD_BY_SSL : gmap Z Z;
  LAST_NAME : option (list Z);
  INITIALIZED : bool;
  in_hook : bool;
  tid : Z;
  thread : Thread;
  kernel : N;
  trace : list (Syscall * Answer)
}.
Arguments Process {_} N.

#[export] Instance eta_Process `{Host} {N} : Eta (Process N) := λ p, mkProcess _ N
  (p.(segment)) (p.(bridge)) (p.(chaos)) (p.(runtime)) (p.(session)) (p.(files))
  (p.(SNI_BY_SSL)) (p.(FD_BY_SSL)) (p.(LAST_NAME)) (p.(INITIALIZED)) (p.(in_hook))
  (p.(tid)) (p.(thread)) (p.(kernel)) (p.(trace)).

Section parts.
Context `{Host} {N : Type}.
Abbreviation P := (Process N).

(** A computation of a component, on its part of the process. *)
Definition on_engine_of {A} (c : M Sys A) : M P A :=
  zoom (λ p, mkSys _ p.(chaos) p.(bridge).(Bridge.metrics) p.(bridge).(Bridge.world))
       (λ s p, p <| chaos := s.(engine) |>
                 <| bridge := p.(bridge) <| Bridge.metrics := s.(advanced) |>
                                         <| Bridge.world := s.(ChaosEngine.world) |> |>) c.

Definition on_bridge_of {A} (c : M (Bridge * ShmState) A) : M P A :=
  zoom (λ p, (p.(bridge), p.(segment))) (λ s p, p <| bridge := s.1 |> <| segment := s.2 |>) c.

Definition on_runtime {A} (c : M (InterceptorRuntime * World) A) : M P A :=
  zoom (λ p, (p.(runtime), p.(bridge).(Bridge.world)))
       (λ s p, p <| runtime := s.1 |> <| bridge := p.(bridge) <| Bridge.world := s.2 |> |>) c.

Definition on_clock {A} (c : M World A) : M P A :=
  zoom (λ p, p.(bridge).(Bridge.world))
       (λ w p, p <| bridge := p.(bridge) <| Bridge.world := w |> |>) c.

Definition on_thread {A} (c : M Thread A) : M P A := zoom thread (λ t p, p <| thread := t |>) c.

(** Beside a larger state: the queue of a call, or a caller's buffer. *)
Definition on_process {S A} (c : M P A) : M (S * P) A := zoom snd (λ p s, (s.1, p)) c.

(** On a queue, with the process's clock. *)
Definition on_queue {A} (c : M (list PendingDatagram * World) A) : M (list PendingDatagram * P) A :=
  zoom (λ s, (s.1, s.2.(bridge).(Bridge.world)))
       (λ qw s, (qw.1, s.2 <| bridge := s.2.(bridge) <| Bridge.world := qw.2 |> |>)) c.

Definition replaying_at `{Storage} (at_site : string) (evaluate : M P LayerDecision) :
    M P LayerDecision :=
  zoom (λ p, (p.(session), p.(files), p))
       (λ s _, s.2 <| session := s.1.1 |> <| files := s.1.2 |>)
       (record_replay_evaluate_or_replay segment at_site evaluate).

(** An original function, remembered in the trace. *)
Definition call `{Libc N} (k : Syscall) : M P Answer := λ p,
  let r := original k (p.(kernel), p.(thread)) in
  (r.1, p <| kernel := r.2.1 |> <| thread := r.2.2 |> <| trace ::= λ t, t ++ [(k, r.1)] |>).

Definition call_ret `{Libc N} (k : Syscall) : M P Z := a ← call k; mret a.(ret).
End parts.

(** ** The bridge, from a descriptor or an address *)

Section bridge.
Context `{Host} `{HashOrder} `{Os} {N : Type} `{Sockets N}.
Abbreviation P := (Process N).

(* faultcore_network/src/interceptor_bridge.rs:173-185 observe_hostname_for_current_thread_addr *)
Definition observe_hostname_for_current_thread_addr (a : option (list Z)) (addr_len : Z)
    (hostname : str) : M P unit :=
  thread_id ← gets tid;
  n ← gets kernel;
  match endpoint_for_addr_or_fd (-1) a addr_len n with
  | None => mret tt
  | Some endpoint =>
      on_bridge_of (on_bridge
        (observe_hostname_for_slot_endpoint (get_tid_slot_for_tid thread_id) endpoint hostname))
  end.

(* faultcore_network/src/interceptor_bridge.rs:470-472 runtime_config_for_fd *)
Definition runtime_config_for_fd (fd : Z) : M P (option Config) :=
  thread_id ← gets tid;
  n ← gets kernel;
  on_bridge_of (resolve_runtime_config_for_endpoint thread_id fd (endpoint_for_fd fd n)).

(* faultcore_network/src/interceptor_bridge.rs:474-482 runtime_config_for_addr_or_fd *)
Definition runtime_config_for_addr_or_fd (fd : Z) (a : option (list Z)) (addr_len : Z) :
    M P (option Config) :=
  thread_id ← gets tid;
  n ← gets kernel;
  on_bridge_of
    (resolve_runtime_config_for_endpoint thread_id fd (endpoint_for_addr_or_fd fd a addr_len n)).

(* faultcore_interceptor/src/lib.rs:142-147 duplicate_count_from_decision *)
Definition duplicate_count_from_decision (d : LayerDecision) : Z :=
  match d with Duplicate count => count | _ => 0 end.

(* faultcore_network/src/interceptor_bridge.rs:505-515 uplink_duplicate_count_for_fd *)
Definition uplink_duplicate_count_for_fd (fd : Z) : M P Z :=
  network_cfg ← runtime_config_for_fd fd;
  match network_cfg with
  | None => mret 0
  | Some network_cfg =>
      d ← on_engine_of (evaluate_stream_post network_cfg Uplink);
      mret (match d with Duplicate n => n | _ => 0 end)
  end.

(* faultcore_network/src/interceptor_bridge.rs:517-530 uplink_duplicate_count_for_addr_or_fd *)
Definition uplink_duplicate_count_for_addr_or_fd (fd : Z) (a : option (list Z)) (addr_len : Z) :
    M P Z :=
  network_cfg ← runtime_config_for_addr_or_fd fd a addr_len;
  match network_cfg with
  | None => mret 0
  | Some network_cfg =>
      d ← on_engine_of (evaluate_stream_post network_cfg Uplink);
      mret (match d with Duplicate n => n | _ => 0 end)
  end.
End bridge.

(** ** The metrics of the whole process *)

Section global_metrics.
Context `{Host} {N : Type}.

(* faultcore_network/src/lib.rs:70-86 FaultOsiLayerMetricsSnapshot *)
Record FaultOsiLayerMetricsSnapshot : Type := mkFaultOsiLayerMetricsSnapshot {
  snap_stage : Z;
  snap_counters : DecisionCounters
}.

(* faultcore_network/src/lib.rs:88-95 FaultOsiMetricsSnapshot *)
Record FaultOsiMetricsSnapshot : Type := mkFaultOsiMetricsSnapshot {
  snap_len : Z;
  snap_layers : list FaultOsiLayerMetricsSnapshot;
  reload_applied_count : Z;
  reload_retry_count : Z
}.

(* faultcore_network/src/lib.rs:60-60 RUNTIME_STAGE_COUNT *)
Definition RUNTIME_STAGE_COUNT : nat := 9.

Definition zero_counters : DecisionCounters := mkDecisionCounters 0 0 0 0 0 0 0 0 0 0 0.

(* faultcore_network/src/lib.rs:97-106 FaultOsiMetricsSnapshot::default *)
Definition FaultOsiMetricsSnapshot_default : FaultOsiMetricsSnapshot :=
  mkFaultOsiMetricsSnapshot 0
    (replicate RUNTIME_STAGE_COUNT (mkFaultOsiLayerMetricsSnapshot 0 zero_counters)) 0 0.

(* faultcore_network/src/lib.rs:108-120 stage_code *)
Definition stage_code (stage : LayerStage) : Z :=
  match stage with
  | R0 => 0 | R1 => 1 | R2 => 2 | R3 => 3 | R4 => 4 | R5 => 5 | R6 => 6 | R7 => 7 | R8 => 8
  end.

(** [out.layers[idx] = ..] for every entry of [raw], whose index is in bounds. *)
(* faultcore_network/src/lib.rs:122-149 global_fault_osi_metrics_snapshot *)
Definition global_fault_osi_metrics_snapshot (p : Process N) : FaultOsiMetricsSnapshot :=
  let raw := metrics_snapshot p.(chaos) in
  let layers :=
    foldl (λ layers x, <[x.1 := mkFaultOsiLayerMetricsSnapshot (stage_code x.2.1) x.2.2]> layers)
      (FaultOsiMetricsSnapshot_default).(snap_layers) (imap pair raw) in
  let reload := runtime_reload_metrics_snapshot p.(bridge) in
  mkFaultOsiMetricsSnapshot (Z.of_nat (length raw)) layers reload.1 reload.2.

(* faultcore_network/src/lib.rs:151-155 reset_global_fault_osi_metrics *)
Definition reset_global_fault_osi_metrics (p : Process N) : Process N :=
  p <| chaos ::= reset_metrics |>
    <| bridge ::= λ b, (reset_runtime_reload_metrics b) <| Bridge.metrics ::= reset |> |>.
End global_metrics.

(** ** A concrete process, for the witnesses *)

(** Its kernel has the sockets of [example_sockets] and a queue of datagrams, which
    receiving calls take; sending calls take everything. *)
#[export] Instance example_net : Sockets (list (list Z)) := {|
  so_type fd _ := so_type fd tt;
  peer_name fd _ := peer_name fd tt
|}.

Definition example_received (b : option (list Z)) (l : Z) (d : list Z) : Answer :=
  let r := write_pending_recv_result (mkPendingDatagram d 0 [] 0 0) b l in
  mkAnswer r.1 r.2 None [].

#[export] Instance example_libc : Libc (list (list Z)) := {|
  original k st :=
    match k with
    | SysSend _ _ l _ | SysWrite _ _ l | SysSendto _ _ l _ _ _ => (mkAnswer l None None [], st)
    | SysRecv _ b l _ | SysRead _ b l | SysRecvfrom _ b l _ _ =>
        match st.1 with
        | [] => (mkAnswer 0 b None [], st)
        | d :: rest => (example_received b l d, (rest, st.2))
        end
    | SysSocket _ _ _ | SysDup _ => (mkAnswer 12 None None [], st)
    | _ => (mkAnswer 0 None None [], st)
    end;
  fcntl_getfl _ _ := 0;
  setspecific_fails _ := false;
  has_ssl_ctrl := true;
  has_ssl_set_fd := true;
  has_ssl_get_fd := true;
  has_ssl_free := true;
  has_setpriority := true
|}.

Definition example_session : RecordReplaySession :=
  mkRecordReplaySession (RecordReplayCore_new Off []) None.

(** Thread 1, outside a hook, over a segment and a network. *)
Definition example_process (s : ShmState) (net : list (list Z)) : Process (H:=example_host) (list (list Z)) :=
  mkProcess example_host _ s example_bridge example_engine InterceptorRuntime_new example_session
    ∅ ∅ ∅ None true false 1 (mkThread 0 0) net [].

(** A segment whose only row is that of thread 1. *)
Definition example_row (f : Fc.FaultcoreConfig → Fc.FaultcoreConfig) : ShmState :=
  (update_config_for_tid 1 f example_segment).2.

