(* ===== verification/Symbols.v ===== *)
(** * The originals of the hooked functions

    How [faultcore_interceptor/src/lib.rs] finds the functions it replaces: the
    next definition of a libc symbol, or the end of the process; and of a TLS symbol
    the next definition or that of a TLS library, unless it is the hook itself.  The
    dynamic linker is the class [Linker]. *)

From S2P Require Import Prelude.

Open Scope Z_scope.

(** The dynamic linker: addresses and handles are integers, 0 for null.  Looking a
    symbol up does not change it; opening and closing a library does. *)
Class Linker (L : Type) : Type := {
  dlsym_next : string → L → Z;
  dlsym : Z → string → L → Z;
  dlopen : string → M L Z;
  dlclose : Z → M L unit;
}.

(** What [dlopen] documents of handles: a library stays open, as many times as it
    was opened, until it is closed. *)
Class LinkerLaws (L : Type) `{Linker L} : Type := {
  opens : L → Z → nat;
  dlopen_opens name (l : L) h :
    opens (dlopen name l).2 h =
      (opens l h + if decide ((dlopen name l).1 = h ∧ h ≠ 0%Z) then 1 else 0)%nat;
  dlclose_opens h (l : L) h' :
    opens (dlclose h l).2 h' = (opens l h' - if decide (h = h') then 1 else 0)%nat;
}.

Section symbols.
Context {L : Type} `{Linker L}.

(** The address, or the end of the process. *)
(* faultcore_interceptor/src/lib.rs:97-104 get_original_fn *)
Definition get_original_fn (name : string) (l : L) : option Z :=
  let fn_ptr := dlsym_next name l in
  if fn_ptr =? 0 then None else Some fn_ptr.

(* faultcore_interceptor/src/lib.rs:106-108 is_excluded_symbol *)
Definition is_excluded_symbol (symbol : Z) (exclude : option Z) : bool :=
  match exclude with Some excluded => symbol =? excluded | None => false end.

Definition ssl_libraries : list string := ["libssl.so.3"; "libssl.so.1.1"; "libssl.so"]%string.

(** The loop over the libraries that remain. *)
(* faultcore_interceptor/src/lib.rs:121-135 get_optional_ssl_original_fn *)
Fixpoint search_libraries (name : string) (exclude_symbol : option Z) (libraries : list string) :
    M L (option Z) :=
  match libraries with
  | [] => mret None
  | lib_name :: libraries =>
      handle ← dlopen lib_name;
      if handle =? 0 then search_libraries name exclude_symbol libraries else
      ptr ← gets (dlsym handle name);
      if negb (ptr =? 0) && negb (is_excluded_symbol ptr exclude_symbol) then mret (Some ptr) else
      dlclose handle;;
      search_libraries name exclude_symbol libraries
  end.

(* faultcore_interceptor/src/lib.rs:110-136 get_optional_ssl_original_fn *)
Definition get_optional_ssl_original_fn (name : string) (exclude_symbol : option Z) :
    M L (option Z) :=
  next_ptr ← gets (dlsym_next name);
  if negb (next_ptr =? 0) && negb (is_excluded_symbol next_ptr exclude_symbol)
  then mret (Some next_ptr)
  else search_libraries name exclude_symbol ssl_libraries.

(** The symbols that must exist, and the TLS symbols with the hooks' own addresses,
    in the order in which they are looked up. *)
(* faultcore_interceptor/src/lib.rs:66-80 ORIG_SOCKET *)
Definition required_symbols : list string :=
  ["socket"; "close"; "dup"; "dup2"; "dup3"; "accept"; "accept4"; "connect"; "send"; "recv";
   "write"; "read"; "sendto"; "recvfrom"; "getaddrinfo"]%string.

(* faultcore_interceptor/src/lib.rs:81-92 ORIG_SSL_CTRL *)
Definition optional_symbols (own : string → Z) : list (string * option Z) :=
  [("SSL_ctrl", Some (own "SSL_ctrl")); ("SSL_set_fd", Some (own "SSL_set_fd"));
   ("SSL_get_fd", None); ("SSL_free", Some (own "SSL_free"))]%string.

Fixpoint resolve_optional (symbols : list (string * option Z)) : M L (list (option Z)) :=
  match symbols with
  | [] => mret []
  | (name, exclude) :: symbols =>
      ptr ← get_optional_ssl_original_fn name exclude;
      ptrs ← resolve_optional symbols;
      mret (ptr :: ptrs)
  end.

(** The originals; [None] when the process ends for want of one. *)
(* faultcore_interceptor/src/lib.rs:268-288 initialize *)
Definition resolve_originals (own : string → Z) : M L (option (list Z * list (option Z))) := λ l,
  match mapM (λ name, get_original_fn name l) required_symbols with
  | None => (None, l)
  | Some required => let r := resolve_optional (optional_symbols own) l in (Some (required, r.1), r.2)
  end.

(** An address a hook can call: not null, and not the hook's own. *)
Definition usable (exclude_symbol : option Z) (ptr : Z) : Prop :=
  ptr ≠ 0 ∧ exclude_symbol ≠ Some ptr.

#[export] Instance usable_dec exclude ptr : Decision (usable exclude ptr).
Proof. unfold usable. apply _. Defined.

Lemma usable_spec exclude ptr :
  negb (ptr =? 0) && negb (is_excluded_symbol ptr exclude) = bool_decide (usable exclude ptr).
Proof.
  unfold usable, is_excluded_symbol. symmetry. destruct (Z.eqb_spec ptr 0) as [Hz|Hz]; cbn.
  { apply bool_decide_eq_false. tauto. }
  destruct exclude as [x|]; [|by apply bool_decide_eq_true].
  destruct (Z.eqb_spec ptr x) as [->|Hx]; [apply bool_decide_eq_false; tauto|].
  apply bool_decide_eq_true. split; congruence.
Qed.

Section laws.
Context `{!LinkerLaws L}.

(** What a search leaves open, against before: the library of its answer, if any. *)
Lemma search_spec name exclude libraries l :
  let r := search_libraries name exclude libraries l in
  match r.1 with
  | None => ∀ h, opens r.2 h = opens l h
  | Some ptr => usable exclude ptr ∧ ∃ handle l', handle ≠ 0 ∧ ptr = dlsym handle name l' ∧
      ∀ h, opens r.2 h = (opens l h + if decide (h = handle) then 1 else 0)%nat
  end.
Proof.
  revert l. induction libraries as [|lib libraries IH]; intros l; [done|].
  cbn [search_libraries]. rewrite bind_run. pose proof (dlopen_opens lib l) as Hopen.
  destruct (dlopen lib l) as [handle l1]. cbn [fst snd] in *.
  destruct (Z.eqb_spec handle 0) as [->|Hh].
  - assert (E : ∀ h, opens l1 h = opens l h).
    { intros h. rewrite Hopen. case_decide as D; [|lia]. by destruct D as [<- []]. }
    specialize (IH l1). cbv zeta in *. destruct (search_libraries name exclude libraries l1) as [[ptr|] l2].
    + destruct IH as [Hu (handle & l' & ? & ? & IH)]. split; [done|]. exists handle, l'.
      split_and!; try done. intros h. by rewrite IH, E.
    + intros h. by rewrite IH, E.
  - rewrite bind_run, gets_run. cbn [fst snd]. rewrite usable_spec.
    destruct (bool_decide_reflect (usable exclude (dlsym handle name l1))) as [Hu|Hu].
    + rewrite ret_run. cbn [fst snd]. split; [done|]. exists handle, l1. split_and!; try done.
      intros h. rewrite Hopen. f_equal. apply decide_ext. by split; [intros [-> _]|intros ->].
    + rewrite bind_run. pose proof (dlclose_opens handle l1) as Hclose.
      destruct (dlclose handle l1) as [[] l2]. cbn [fst snd] in *.
      assert (E : ∀ h, opens l2 h = opens l h).
      { intros h. rewrite Hclose, Hopen.
        rewrite (decide_ext (handle = h ∧ h ≠ 0) (handle = h))
          by by split; [intros [-> _]|intros <-]. lia. }
      specialize (IH l2). cbv zeta in *. destruct (search_libraries name exclude libraries l2) as [[ptr|] l3].
      * destruct IH as [Hu' (handle' & l' & ? & ? & IH)]. split; [done|]. exists handle', l'.
        split_and!; try done. intros h. by rewrite IH, E.
      * intros h. by rewrite IH, E.
Qed.

(** A TLS hook never calls itself, nor null, through its original; without a usable
    original the hook is told so.  A search leaves open only the library that the
    original is in. *)
Lemma optional_spec name exclude l :
  let r := get_optional_ssl_original_fn name exclude l in
  match r.1 with
  | None => ¬ usable exclude (dlsym_next name l) ∧ ∀ h, opens r.2 h = opens l h
  | Some ptr => usable exclude ptr ∧
      ((ptr = dlsym_next name l ∧ r.2 = l) ∨
       ∃ handle l', handle ≠ 0 ∧ ptr = dlsym handle name l' ∧
         ∀ h, opens r.2 h = (opens l h + if decide (h = handle) then 1 else 0)%nat)
  end.
Proof.
  unfold get_optional_ssl_original_fn. rewrite bind_run, gets_run. cbn [fst snd]. rewrite usable_spec.
  destruct (bool_decide_reflect (usable exclude (dlsym_next name l))) as [Hu|Hu].
  - rewrite ret_run. cbn [fst snd]. split; [done|by left].
  - pose proof (search_spec name exclude ssl_libraries l) as Hs. cbv zeta in *.
    destruct (search_libraries name exclude ssl_libraries l) as [[ptr|] l']; cbn [fst snd] in *.
    + destruct Hs as [? ?]. split; [done|by right].
    + done.
Qed.

Lemma resolve_optional_usable symbols l :
  Forall2 (λ symbol ptr, ∀ a, ptr = Some a → usable symbol.2 a) symbols (resolve_optional symbols l).1.
Proof.
  revert l. induction symbols as [|[name exclude] symbols IH]; intros l; [constructor|].
  cbn [resolve_optional]. rewrite !bind_run, ret_run. cbn [fst snd]. constructor; [|apply IH].
  intros ptr Hptr. pose proof (optional_spec name exclude l) as Hs. cbv zeta in Hs.
  rewrite Hptr in Hs. apply Hs.
Qed.

(** The process ends exactly when the C library lacks one of the fifteen functions;
    otherwise each has its next definition, and every TLS original is usable. *)
Theorem originals_resolved own l :
  let r := resolve_originals own l in
  match r.1 with
  | None => ∃ name, name ∈ required_symbols ∧ dlsym_next name l = 0
  | Some (required, optional) =>
      required = (λ name, dlsym_next name l) <$> required_symbols ∧ Forall (λ a, a ≠ 0) required ∧
      Forall2 (λ symbol ptr, ∀ a, ptr = Some a → usable symbol.2 a) (optional_symbols own) optional
  end.
Proof.
  unfold resolve_originals. destruct (mapM _ required_symbols) as [required|] eqn:E; cbn [fst snd].
  - apply mapM_Some in E.
    assert (Hreq : required = (λ name, dlsym_next name l) <$> required_symbols ∧ Forall (λ a, a ≠ 0) required).
    { revert E. generalize required_symbols. intros names E. induction E as [|name a names required Ha _ [-> IH]];
        [done|]. unfold get_original_fn in Ha. destruct (Z.eqb_spec (dlsym_next name l) 0); [done|].
      injection Ha as <-. by split; [|constructor]. }
    destruct Hreq. split_and!; [done..|]. apply resolve_optional_usable.
  - apply mapM_None_1, Exists_exists in E as (name & Hin & Hn). exists name. split; [done|].
    unfold get_original_fn in Hn. by destruct (Z.eqb_spec (dlsym_next name l) 0).
Qed.
End laws.
End symbols.

(** ** A concrete linker *)

(** The libraries that are open; the first is not installed, the second does not
    have the symbol, the third has the hook's own, the next one. *)
#[export] Instance example_linker : Linker (list Z) := {|
  dlsym_next name l := 4096;
  dlsym h name l := if h =? 3 then 8192 else 0;
  dlopen name l := if bool_decide (name = "libssl.so.3"%string) then (0, l)
                   else if bool_decide (name = "libssl.so.1.1"%string) then (2, 2 :: l) else (3, 3 :: l);
  dlclose h l := (tt, remove Z.eq_dec h l);
|}.

Example example_search :
  get_optional_ssl_original_fn "SSL_ctrl" (Some 4096) [] = (Some 8192, [3]) ∧
  get_optional_ssl_original_fn "SSL_get_fd" None [] = (Some 4096, []).
Proof. done. Qed.
