(* ===== verification/Interceptor.v ===== *)
(** * What a hook does around an original call

    The helpers of [faultcore_interceptor/src/lib.rs]: duplicates, the datagrams
    held back for reordering, the server names of TLS handles, and the two
    handlers every sending and every receiving hook instantiates. *)

From S2P Require Import Prelude.
From S2P Require Import Config.
From S2P Require Import ShmContract.
From S2P Require Import RustStr.
From S2P Require Import ShmRuntime.
From S2P Require Import Layers.
From S2P Require Import Sockets.
From S2P Require Import Observability.
From S2P Require Import ChaosEngine.
From S2P Require Import Runtime.
From S2P Require Import Bridge.
From S2P Require Import RecordReplay.
From S2P Require Import Tls.
From S2P Require Import Process.

Open Scope Z_scope.

(** [O_NONBLOCK] of Linux. *)
Definition O_NONBLOCK : Z := 2048.

Definition is_stage_reorder (d : LayerDecision) : bool :=
  match d with StageReorder => true | _ => false end.

(** [for x in xs { f(x) }], and [for _ in 0..n { c }]. *)
Fixpoint for_each {S A} (f : A → M S unit) (xs : list A) : M S unit :=
  match xs with [] => mret tt | x :: xs => f x;; for_each f xs end.

Definition times {S} (n : nat) (c : M S unit) : M S unit := for_each (λ _, c) (replicate n tt).

(** The buffers of a receiving caller: its bytes, and for [recvfrom] the address. *)
Record Caller : Type := mkCaller {
  buffer : option (list Z);
  address : option (list Z * Z)
}.

#[export] Instance eta_PendingDatagram : Eta PendingDatagram := λ p,
  mkPendingDatagram (p.(data)) (p.(flags)) (p.(addr)) (p.(addr_len)) (p.(staged_at)).
#[export] Instance eta_Caller : Eta Caller := λ c, mkCaller (c.(buffer)) (c.(address)).

Section interceptor.
Context `{Host} `{HashOrder} `{Os} `{Storage} {N : Type} `{Sockets N} `{Libc N}.
Abbreviation P := (Process N).
Abbreviation Q := (list PendingDatagram).

(* faultcore_interceptor/src/lib.rs:138-140 record_stream_bytes *)
Definition record_stream_bytes (fd bytes : Z) : M P unit :=
  modify (λ p, p <| chaos ::= ChaosEngine.record_stream_bytes fd bytes |>).

(* faultcore_interceptor/src/lib.rs:149-157 record_mutation *)
Definition record_mutation (applied : bool) (input_len output_len : Z) : M P unit :=
  modify (λ p, p <| runtime ::=
    record_mutation_outcome (mkMutationOutcome applied input_len output_len
                               (if applied then 0 else 1) 0) |>).

(** ** Duplicates *)

(* faultcore_interceptor/src/lib.rs:159-179 maybe_duplicate_common *)
Definition maybe_duplicate_common (at_site : string) (sent : Z) (count_lookup : M P Z)
    (send_fn : M P unit) : M P unit :=
  if sent <=? 0 then mret tt else
  d ← replaying_at at_site
        (count ← count_lookup;
         mret (if count =? 0 then Continue else Duplicate count));
  times (Z.to_nat (duplicate_count_from_decision d)) send_fn.

(* faultcore_interceptor/src/lib.rs:181-190 maybe_duplicate_send *)
Definition maybe_duplicate_send (fd : Z) (b : option (list Z)) (sent f : Z) : M P unit :=
  maybe_duplicate_common "stream_uplink_post_send" sent (uplink_duplicate_count_for_fd fd)
    (call (SysSend fd b sent f);; mret tt).

(* faultcore_interceptor/src/lib.rs:192-201 maybe_duplicate_write *)
Definition maybe_duplicate_write (fd : Z) (b : option (list Z)) (sent : Z) : M P unit :=
  maybe_duplicate_common "stream_uplink_post_write" sent (uplink_duplicate_count_for_fd fd)
    (call (SysWrite fd b sent);; mret tt).

(* faultcore_interceptor/src/lib.rs:203-221 maybe_duplicate_sendto *)
Definition maybe_duplicate_sendto (fd : Z) (b : option (list Z)) (sent f : Z)
    (a : option (list Z)) (addr_len : Z) : M P unit :=
  maybe_duplicate_common "stream_uplink_post_sendto" sent
    (uplink_duplicate_count_for_addr_or_fd fd a addr_len)
    (call (SysSendto fd b sent f a addr_len);; mret tt).

(** The call that sends a datagram held back earlier. *)
Definition pending_call (fd : Z) (pkt : PendingDatagram) : Syscall :=
  SysSendto fd (Some pkt.(data)) (Z.of_nat (length pkt.(data))) pkt.(flags)
    (match pkt.(addr) with [] => None | a => Some a end) pkt.(addr_len).

(* faultcore_interceptor/src/lib.rs:223-239 send_pending_datagram *)
Definition send_pending_datagram (fd : Z) (pkt : PendingDatagram) : M P unit :=
  call (pending_call fd pkt);; mret tt.

(** ** Entering and leaving a hook *)

(* faultcore_interceptor/src/lib.rs:249-260 enter_hook *)
Definition enter_hook : M P bool :=
  inside ← gets in_hook;
  if inside : bool then mret false else
  fails ← gets (λ p, setspecific_fails p.(kernel));
  if fails : bool then mret false else
  modify (λ p, p <| in_hook := true |>);; mret true.

(* faultcore_interceptor/src/lib.rs:262-266 exit_hook *)
Definition exit_hook : M P unit := modify (λ p, p <| in_hook := false |>).

(** The originals are resolved before; a missing one aborts the process. *)
(* faultcore_interceptor/src/lib.rs:268-291 initialize *)
Definition initialize : M P unit :=
  done ← gets INITIALIZED;
  modify (λ p, p <| INITIALIZED := true |>);;
  if done : bool then mret tt else
  zoom segment (λ s p, p <| segment := s |>) init_runtime_shm;; mret tt.

(* faultcore_interceptor/src/lib.rs:293-299 is_non_blocking *)
Definition is_non_blocking (fd : Z) : M P bool :=
  fl ← gets (λ p, fcntl_getfl fd p.(kernel));
  mret (if fl <? 0 then false else negb (Z.land fl O_NONBLOCK =? 0)).

(** ** Server names of TLS handles *)

(* faultcore_interceptor/src/lib.rs:303-313 normalized_name_from_cstr *)
Definition normalized_name_from_cstr (raw : option (list Z)) : option str :=
  raw ← raw;
  observed ← from_utf8 (take_while (λ b, negb (b =? 0)) raw);
  let normalized := to_ascii_lowercase (trim_end_matches 46 (trim observed)) in
  match normalized with [] => None | _ => Some normalized end.

(* faultcore_interceptor/src/lib.rs:319-321 ssl_key *)
Definition ssl_key (ssl : Z) : option Z := if ssl =? 0 then None else Some ssl.

Definition on_observations {A} (c : M Bridge A) : M P A :=
  zoom bridge (λ b p, p <| bridge := b |>) c.

(* faultcore_interceptor/src/lib.rs:323-328 remember_ssl_sni *)
Definition remember_ssl_sni (ssl : Z) (sni : str) : M P unit :=
  match ssl_key ssl with
  | None => mret tt
  | Some key => modify (λ p, p <| SNI_BY_SSL ::= <[key := sni]> |>)
  end.

(* faultcore_interceptor/src/lib.rs:330-336 forget_ssl_state *)
Definition forget_ssl_state (ssl : Z) : M P unit :=
  match ssl_key ssl with
  | None => mret tt
  | Some key => modify (λ p, p <| SNI_BY_SSL ::= delete key |> <| FD_BY_SSL ::= delete key |>)
  end.

(* faultcore_interceptor/src/lib.rs:338-361 forget_ssl_bindings_for_fd *)
Definition forget_ssl_bindings_for_fd (fd : Z) : M P unit :=
  if fd <? 0 then mret tt else
  keys ← gets (λ p, (map_to_list (filter (λ kv, kv.2 = fd) p.(FD_BY_SSL))).*1);
  match keys with
  | [] => mret tt
  | keys =>
      modify (λ p, p <| FD_BY_SSL ::= λ map, foldl (λ map key, delete key map) map keys |>);;
      modify (λ p, p <| SNI_BY_SSL ::= λ map, foldl (λ map key, delete key map) map keys |>)
  end.

(* faultcore_interceptor/src/lib.rs:363-375 remember_ssl_fd *)
Definition remember_ssl_fd (ssl fd : Z) : M P unit :=
  if fd <? 0 then mret tt else
  match ssl_key ssl with
  | None => mret tt
  | Some key =>
      modify (λ p, p <| FD_BY_SSL ::= <[key := fd]> |>);;
      sni ← gets (λ p, p.(SNI_BY_SSL) !! key);
      match sni with
      | None => mret tt
      | Some sni => on_observations (observe_sni_for_fd fd sni)
      end
  end.

(** The last branch, on the descriptor remembered for the handle. *)
Definition observe_on_remembered (key : Z) (sni : str) : M P unit :=
  fd ← gets (λ p, p.(FD_BY_SSL) !! key);
  match fd with
  | None => mret tt
  | Some fd => on_observations (observe_sni_for_fd fd sni)
  end.

(* faultcore_interceptor/src/lib.rs:377-392 bind_ssl_sni_if_possible *)
Definition bind_ssl_sni_if_possible (ssl : Z) (sni : str) : M P unit :=
  match ssl_key ssl with
  | None => mret tt
  | Some key =>
      if has_ssl_get_fd then
        fd ← call_ret (SysSslGetFd ssl);
        if 0 <=? fd then
          remember_ssl_fd ssl fd;; on_observations (observe_sni_for_fd fd sni)
        else observe_on_remembered key sni
      else observe_on_remembered key sni
  end.

(* faultcore_interceptor/src/lib.rs:394-400 call_ssl_ctrl_orig *)
Definition call_ssl_ctrl_orig (ssl cmd larg : Z) (parg : option (list Z)) : M P Z :=
  if has_ssl_ctrl then call_ret (SysSslCtrl ssl cmd larg parg) else mret 0.

(* faultcore_interceptor/src/lib.rs:402-408 call_ssl_set_fd_orig *)
Definition call_ssl_set_fd_orig (ssl fd : Z) : M P Z :=
  if has_ssl_set_fd then call_ret (SysSslSetFd ssl fd) else mret 0.

(* faultcore_interceptor/src/lib.rs:410-414 call_ssl_free_orig *)
Definition call_ssl_free_orig (ssl : Z) : M P unit :=
  if has_ssl_free then call (SysSslFree ssl);; mret tt else mret tt.

(** A panic of the parser would abort; there is none ([tls_safe]). *)
(* faultcore_interceptor/src/lib.rs:515-523 observe_tls_sni_from_send_buffer *)
Definition observe_tls_sni_from_send_buffer (fd : Z) (b : option (list Z)) (l : Z) : M P unit :=
  match b with
  | None => mret tt
  | Some b =>
      if (fd <? 0) || (l <? 5) then mret tt else
      match tls_client_hello_sni (copy_bytes b l) with
      | Ok sni => on_observations (observe_sni_for_fd fd sni)
      | _ => mret tt
      end
  end.

(** ** Sending *)

Section uplink.
Context (at_site : string) (s l : Z) (payload : option (list Z)) (non_blocking : bool).
Context (config_lookup : M P (option Config)) (call_orig : list Z → M P Z).
Context (stage_reorder : list Z → M (Q * P) Z) (duplicate_after_success : Z → list Z → M P unit).

(** What the payload layer makes of the bytes. *)
(* faultcore_interceptor/src/lib.rs:562-580 handle_uplink_send *)
Definition uplink_mutation (network_cfg : Config) : M P (option (list Z)) :=
  match payload with
  | None => mret None
  | Some raw_payload =>
      let raw_len := Z.of_nat (length raw_payload) in
      r ← on_engine_of (evaluate_r7_with_buffer s network_cfg Uplink raw_len raw_payload);
      replaying_at "stream_uplink_l6_mutation" (mret r.1);;
      match r.2 with
      | Some data => record_mutation true raw_len (Z.of_nat (length data))
      | None => record_mutation false raw_len raw_len
      end;;
      mret r.2
  end.

(** The result, [staged_reorder], and [effective_payload]. *)
(* faultcore_interceptor/src/lib.rs:547-604 handle_uplink_send *)
Definition uplink_faults (network_cfg : Config) : M (Q * P) (Z * bool * list Z) :=
  expired ← on_queue (flush_expired_reorder network_cfg.(reorder_max_delay_ns));
  on_process (for_each (send_pending_datagram s) expired);;
  decision ← on_process (replaying_at at_site
    (on_engine_of (evaluate_stream_pre s network_cfg l Uplink)));
  maybe_mutated ← on_process (uplink_mutation network_cfg);
  let effective_payload := default (default [] payload) maybe_mutated in
  directive ← on_process (on_runtime (map_stream_decision s decision non_blocking));
  error ← on_process (on_thread (apply_stream_directive directive));
  match error with
  | Some error => mret (error, false, effective_payload)
  | None =>
      if is_stage_reorder decision then
        staged ← stage_reorder effective_payload;
        evicted ← on_queue (enforce_reorder_window network_cfg.(reorder_window));
        on_process (for_each (send_pending_datagram s) evicted);;
        mret (staged, true, effective_payload)
      else
        result ← on_process (call_orig effective_payload);
        mret (result, false, effective_payload)
  end.

(* faultcore_interceptor/src/lib.rs:525-622 handle_uplink_send *)
Definition handle_uplink_send : M (Q * P) Z :=
  network_cfg ← on_process config_lookup;
  match network_cfg with
  | None =>
      result ← on_process (call_orig (default [] payload));
      (if 0 <? result then on_process (record_stream_bytes s result) else mret tt);;
      mret result
  | Some network_cfg =>
      r ← uplink_faults network_cfg;
      let '(result, staged_reorder, effective_payload) := r in
      if 0 <? result then
        on_process (record_stream_bytes s result);;
        (if negb staged_reorder then on_process (duplicate_after_success result effective_payload)
         else mret tt);;
        popped ← on_queue (pop_reorder_after_success staged_reorder);
        match popped with
        | Some pkt => on_process (send_pending_datagram s pkt)
        | None => mret tt
        end;;
        mret result
      else mret result
  end.
End uplink.

(** ** Receiving *)

Section downlink.
Context (at_site : string) (s l : Z) (non_blocking : bool).
Context (call_orig : M (Caller * P) Z).
Context (snapshot : Z → M (Caller * P) (option PendingDatagram)).
Context (write_staged : PendingDatagram → M (Caller * P) Z).
Abbreviation R := (Q * (Caller * P))%type.

Definition with_caller {A} (c : M (Caller * P) A) : M R A := zoom snd (λ x s, (s.1, x)) c.
Definition in_process {A} (c : M P A) : M R A := with_caller (on_process c).

(** [pending.push_back], and [pending.pop_front]. *)
Definition push_back (pkt : PendingDatagram) : M R unit := modify (λ s, (s.1 ++ [pkt], s.2)).
Definition pop_front : M R (option PendingDatagram) := λ s, (head s.1, (tail s.1, s.2)).

(** A blocking call that reorders: hold one datagram back and receive the next. *)
(* faultcore_interceptor/src/lib.rs:658-673 handle_downlink_recv *)
Definition receive_two : M R Z :=
  first_recv ← with_caller call_orig;
  if first_recv <=? 0 then mret first_recv else
  held ← with_caller (snapshot first_recv);
  match held with
  | None => mret first_recv
  | Some pkt =>
      push_back pkt;;
      second_recv ← with_caller call_orig;
      if 0 <? second_recv then mret second_recv else
      staged ← pop_front;
      match staged with
      | Some staged => with_caller (write_staged staged)
      | None => mret second_recv
      end
  end.

(* faultcore_interceptor/src/lib.rs:675-686 handle_downlink_recv *)
Definition receive_one (decision : LayerDecision) : M R Z :=
  recv_result ← with_caller call_orig;
  if non_blocking && is_stage_reorder decision && (0 <? recv_result) then
    held ← with_caller (snapshot recv_result);
    match held with
    | Some pkt =>
        push_back pkt;;
        in_process (on_thread (modify (λ t, t <| errno := EAGAIN |>)));;
        mret (-1)
    | None => mret recv_result
    end
  else mret recv_result.

(** What the payload layer makes of the received bytes: it is asked about what is
    in the caller's buffer, and its answer is written over it. *)
(* faultcore_interceptor/src/lib.rs:689-708 handle_downlink_recv *)
Definition downlink_mutation (network_cfg : Config) (out : Z) : M R Z :=
  if out <=? 0 then mret out else
  pkt ← with_caller (snapshot out);
  match pkt with
  | None => mret out
  | Some pkt =>
      r ← in_process (on_engine_of (evaluate_r7_with_buffer s network_cfg Downlink out pkt.(data)));
      in_process (replaying_at "stream_downlink_l6_mutation" (mret r.1));;
      match r.2 with
      | Some bytes =>
          out ← with_caller (write_staged (pkt <| data := bytes |>));
          in_process (record_mutation true out (Z.of_nat (length bytes)));;
          mret out
      | None => in_process (record_mutation false out out);; mret out
      end
  end.

(** The result, and whether the caller records its bytes. *)
(* faultcore_interceptor/src/lib.rs:624-714 handle_downlink_recv *)
Definition handle_downlink_recv : M R (Z * bool) :=
  network_cfg ← in_process (runtime_config_for_fd s);
  match network_cfg with
  | None => out ← with_caller call_orig; mret (out, true)
  | Some network_cfg =>
      front ← pop_front;
      match front with
      | Some pkt => out ← with_caller (write_staged pkt); mret (out, false)
      | None =>
          decision ← in_process (replaying_at at_site
            (on_engine_of (evaluate_stream_pre s network_cfg l Downlink)));
          directive ← in_process (on_runtime (map_stream_decision s decision non_blocking));
          error ← in_process (on_thread (apply_stream_directive directive));
          out ← match error with
                | Some error => mret error
                | None =>
                    if negb non_blocking && is_stage_reorder decision then receive_two
                    else receive_one decision
                end;
          out ← downlink_mutation network_cfg out;
          mret (out, true)
      end
  end.
End downlink.
End interceptor.
