(* ===== verification/Hooks.v ===== *)
(** * The hooked functions

    The symbols [faultcore_interceptor/src/lib.rs] exports: the socket calls, the
    TLS calls and [setpriority] in place of the C library's, and the calls by
    which the controlling package reads the metrics. *)

From S2P Require Import Prelude.
From S2P Require Import Config.
From S2P Require Import ShmContract.
From S2P Require Import RustStr.
From S2P Require Import ShmRuntime.
From S2P Require Import Layers.
From S2P Require Import Sockets.
From S2P Require Import Observability.
From S2P Require Import ChaosEngine.
From S2P Require Import Runtime.
From S2P Require Import Bridge.
From S2P Require Import SetPriority.
From S2P Require Import RecordReplay.
From S2P Require Import Process.
From S2P Require Import Interceptor.

Open Scope Z_scope.

(* faultcore_interceptor/src/lib.rs:60-61 SSL_CTRL_SET_TLSEXT_HOSTNAME *)
Definition SSL_CTRL_SET_TLSEXT_HOSTNAME : Z := 55.
Definition TLSEXT_NAMETYPE_HOST_NAME : Z := 0.
Definition ENOSYS : Z := 38.

Section hooks.
Context `{Host} `{HashOrder} `{Os} `{Storage} {N : Type} `{Sockets N} `{Libc N}.
Abbreviation P := (Process N).
Abbreviation Q := (list PendingDatagram).

(** Every hook but [setpriority]: a call from inside a hook goes to the original,
    another runs the hook's body with the guard taken. *)
Definition guarded {S A} (getp : S → P) (putp : P → S → S) (orig body : M S A) : M S A :=
  entered ← zoom getp putp enter_hook;
  if negb entered then orig else
  zoom getp putp initialize;;
  result ← body;
  zoom getp putp exit_hook;;
  mret result.

Definition hook {A} (orig body : M P A) : M P A := guarded id (λ p _, p) orig body.
Definition hook_caller {A} (orig body : M (Caller * P) A) : M (Caller * P) A :=
  guarded snd (λ p s, (s.1, p)) orig body.

(** The queue of a descriptor, taken from the runtime and put back, around an
    operation on the whole process. *)
(* faultcore_network/src/runtime.rs:324-352 InterceptorRuntime::with_reorder_pending *)
Definition with_send_queue {A} (fd : Z) (op : M (Q * P) A) : M P A := λ p,
  let queue := default [] (p.(runtime).(reorder_pending_by_fd) !! fd) in
  let r := op (queue, p) in
  (r.1, r.2.2 <| runtime ::= λ rt, rt <| reorder_pending_by_fd ::= λ map,
    match r.2.1 with [] => delete fd map | q => <[fd := q]> map end |> |>).

(* faultcore_network/src/runtime.rs:354-382 InterceptorRuntime::with_reorder_pending_recv *)
Definition with_recv_queue {A} (fd : Z) (op : M (Q * (Caller * P)) A) : M (Caller * P) A := λ s,
  let queue := default [] (s.2.(runtime).(reorder_pending_recv_by_fd) !! fd) in
  let r := op (queue, s) in
  (r.1, (r.2.2.1, r.2.2.2 <| runtime ::= λ rt, rt <| reorder_pending_recv_by_fd ::= λ map,
    match r.2.1 with [] => delete fd map | q => <[fd := q]> map end |> |>)).

(** ** Descriptors *)

Definition on_binding {A} (c : M (Bridge * ShmState) A) : M P A := on_bridge_of c.

Definition bind_current (fd : Z) : M P unit :=
  thread_id ← gets tid; on_binding (bind_fd_to_current_thread thread_id fd).

(* faultcore_interceptor/src/lib.rs:716-731 socket *)
Definition socket (domain ty proto : Z) : M P Z :=
  let orig := call_ret (SysSocket domain ty proto) in
  hook orig (fd ← orig; (if 0 <=? fd then bind_current fd else mret tt);; mret fd).

Definition clear_states (fd : Z) : M P unit :=
  modify (λ p, p <| chaos ::= ChaosEngine.clear_fd_state fd |>
                 <| runtime ::= Runtime.clear_fd_state fd |>).

(* faultcore_interceptor/src/lib.rs:733-748 close *)
Definition close (fd : Z) : M P Z :=
  let orig := call_ret (SysClose fd) in
  hook orig
    (clear_states fd;;
     forget_ssl_bindings_for_fd fd;;
     on_binding (clear_fd_binding fd);;
     orig).

(* faultcore_interceptor/src/lib.rs:750-764 dup *)
Definition dup (oldfd : Z) : M P Z :=
  let orig := call_ret (SysDup oldfd) in
  hook orig
    (newfd ← orig;
     (if 0 <=? newfd then on_binding (clone_fd_binding oldfd newfd) else mret tt);;
     mret newfd).

(** What [dup2] and [dup3] do with the descriptor [out] they replaced. *)
Definition rebind (oldfd out : Z) : M P unit :=
  if 0 <=? out then
    (if negb (oldfd =? out) then clear_states out else mret tt);;
    on_binding (clone_fd_binding oldfd out)
  else mret tt.

(* faultcore_interceptor/src/lib.rs:766-784 dup2 *)
Definition dup2 (oldfd newfd : Z) : M P Z :=
  let orig := call_ret (SysDup2 oldfd newfd) in
  hook orig (out ← orig; rebind oldfd out;; mret out).

(* faultcore_interceptor/src/lib.rs:786-804 dup3 *)
Definition dup3 (oldfd newfd fl : Z) : M P Z :=
  let orig := call_ret (SysDup3 oldfd newfd fl) in
  hook orig (out ← orig; rebind oldfd out;; mret out).

Definition inherit (s : Z) (orig : M P Answer) : M P Answer :=
  a ← orig;
  (if 0 <=? a.(ret) then on_binding (clone_fd_binding s a.(ret)) else mret tt);;
  mret a.

(* faultcore_interceptor/src/lib.rs:806-822 accept *)
Definition accept (s : Z) (a : option (list Z * Z)) : M P Answer :=
  let orig := call (SysAccept s a) in hook orig (inherit s orig).

(* faultcore_interceptor/src/lib.rs:824-845 accept4 *)
Definition accept4 (s : Z) (a : option (list Z * Z)) (fl : Z) : M P Answer :=
  let orig := call (SysAccept4 s a fl) in hook orig (inherit s orig).

(* faultcore_interceptor/src/lib.rs:1029-1056 connect *)
Definition connect (s : Z) (a : option (list Z)) (l : Z) : M P Z :=
  let orig := call_ret (SysConnect s a l) in
  hook orig
    (bind_current s;;
     network_cfg ← runtime_config_for_addr_or_fd s a l;
     match network_cfg with
     | None => orig
     | Some network_cfg =>
         decision ← replaying_at "connect_pre" (on_engine_of (evaluate_connect s network_cfg));
         error ← on_thread (apply_connect_directive (map_connect_decision decision));
         match error with Some error => mret error | None => orig end
     end).

(** ** Sending *)

(** The buffer a hook sees, and the arguments it sends: the payload as the layers
    left it, or the caller's own when that is empty. *)
Definition payload_of (b : option (list Z)) (l : Z) : option (list Z) :=
  b ← b; if 0 <? l then Some (copy_bytes b l) else None.

Definition buffer_of (b : option (list Z)) (payload : list Z) : option (list Z) :=
  match payload with [] => b | _ => Some payload end.
Definition length_of (l : Z) (payload : list Z) : Z :=
  match payload with [] => l | _ => Z.of_nat (length payload) end.

(* faultcore_interceptor/src/lib.rs:847-904 write *)
Definition write (s : Z) (b : option (list Z)) (l : Z) : M P Z :=
  hook (call_ret (SysWrite s b l))
    (observe_tls_sni_from_send_buffer s b l;;
     with_send_queue s
       (non_blocking ← on_process (is_non_blocking s);
        handle_uplink_send "stream_uplink_pre_write" s l (payload_of b l) non_blocking
          (runtime_config_for_fd s)
          (λ payload, call_ret (SysWrite s (buffer_of b payload) (length_of l payload)))
          (λ payload,
             r ← on_queue (stage_reorder_send (buffer_of b payload) (length_of l payload) 0);
             mret (default l r))
          (λ sent payload, maybe_duplicate_write s (buffer_of b payload) sent))).

(* faultcore_interceptor/src/lib.rs:938-995 send *)
Definition send (s : Z) (b : option (list Z)) (l f : Z) : M P Z :=
  hook (call_ret (SysSend s b l f))
    (observe_tls_sni_from_send_buffer s b l;;
     with_send_queue s
       (non_blocking ← on_process (is_non_blocking s);
        handle_uplink_send "stream_uplink_pre_send" s l (payload_of b l) non_blocking
          (runtime_config_for_fd s)
          (λ payload, call_ret (SysSend s (buffer_of b payload) (length_of l payload) f))
          (λ payload,
             r ← on_queue (stage_reorder_send (buffer_of b payload) (length_of l payload) f);
             mret (default l r))
          (λ sent payload, maybe_duplicate_send s (buffer_of b payload) sent f))).

(* faultcore_interceptor/src/lib.rs:1058-1139 sendto *)
Definition sendto (s : Z) (b : option (list Z)) (l f : Z) (a : option (list Z)) (al : Z) : M P Z :=
  hook (call_ret (SysSendto s b l f a al))
    (observe_tls_sni_from_send_buffer s b l;;
     with_send_queue s
       (non_blocking ← on_process (is_non_blocking s);
        handle_uplink_send "stream_uplink_pre_sendto" s l (payload_of b l) non_blocking
          (runtime_config_for_addr_or_fd s a al)
          (λ payload, call_ret (SysSendto s (buffer_of b payload) (length_of l payload) f a al))
          (λ payload,
             r ← on_queue (stage_reorder_sendto (buffer_of b payload) (length_of l payload) f a al);
             mret (default l r))
          (λ sent payload, maybe_duplicate_sendto s (buffer_of b payload) sent f a al))).

(** ** Receiving *)

(** An original that fills the caller's buffer, and for [recvfrom] its address. *)
Definition receive (k : Caller → Syscall) : M (Caller * P) Z := λ s,
  let r := call (k s.1) s.2 in (r.1.(ret), (s.1 <| buffer := r.1.(filled) |>, r.2)).
Definition receive_from (k : Caller → Syscall) : M (Caller * P) Z := λ s,
  let r := call (k s.1) s.2 in (r.1.(ret), (mkCaller r.1.(filled) r.1.(from), r.2)).

Definition snapshot_caller (f n : Z) : M (Caller * P) (option PendingDatagram) :=
  c ← gets fst; on_process (on_clock (snapshot_recv_datagram c.(buffer) n f)).
Definition snapshot_caller_from (f n : Z) : M (Caller * P) (option PendingDatagram) :=
  c ← gets fst; on_process (on_clock (snapshot_recvfrom_datagram c.(buffer) n f c.(address))).

Definition write_caller (l : Z) (pkt : PendingDatagram) : M (Caller * P) Z := λ s,
  let r := write_pending_recv_result pkt s.1.(buffer) l in (r.1, (s.1 <| buffer := r.2 |>, s.2)).
Definition write_caller_from (l : Z) (pkt : PendingDatagram) : M (Caller * P) Z := λ s,
  let r := write_pending_recvfrom_result pkt s.1.(buffer) l s.1.(address) in
  (r.1.1, (mkCaller r.1.2 r.2, s.2)).

(** The bytes of a call that was not served from the queue count. *)
Definition record_received (s : Z) (r : Z * bool) : M (Caller * P) Z :=
  (if r.2 && (0 <? r.1) then on_process (record_stream_bytes s r.1) else mret tt);; mret r.1.

(* faultcore_interceptor/src/lib.rs:906-936 read *)
Definition read (s l : Z) : M (Caller * P) Z :=
  let orig := receive (λ c, SysRead s c.(buffer) l) in
  hook_caller orig
    (non_blocking ← on_process (is_non_blocking s);
     r ← with_recv_queue s (handle_downlink_recv "stream_downlink_pre_read" s l non_blocking orig
           (snapshot_caller 0) (write_caller l));
     record_received s r).

(* faultcore_interceptor/src/lib.rs:997-1027 recv *)
Definition recv (s l f : Z) : M (Caller * P) Z :=
  let orig := receive (λ c, SysRecv s c.(buffer) l f) in
  hook_caller orig
    (non_blocking ← on_process (is_non_blocking s);
     r ← with_recv_queue s (handle_downlink_recv "stream_downlink_pre_recv" s l non_blocking orig
           (snapshot_caller f) (write_caller l));
     record_received s r).

(* faultcore_interceptor/src/lib.rs:1141-1181 recvfrom *)
Definition recvfrom (s l f : Z) : M (Caller * P) Z :=
  let orig := receive_from (λ c, SysRecvfrom s c.(buffer) l f c.(address)) in
  hook_caller orig
    (non_blocking ← on_process (is_non_blocking s);
     r ← with_recv_queue s (handle_downlink_recv "stream_downlink_pre_recvfrom" s l non_blocking
           orig (snapshot_caller_from f) (write_caller_from l));
     record_received s r).

(** ** Names *)

(* faultcore_interceptor/src/lib.rs:1197-1213 getaddrinfo *)
Definition dns_fault (observed_hostname : option str) : M P (option Z) :=
  dns_cfg ←
    (thread_id ← gets tid;
     cfg ← on_bridge_of (runtime_dns_config_for_query thread_id observed_hostname None);
     match cfg with
     | Some cfg => mret (Some cfg)
     | None => on_bridge_of (runtime_dns_config_for_current_thread thread_id)
     end);
  match dns_cfg with
  | None => mret None
  | Some network_cfg =>
      decision ← replaying_at "dns_lookup" (on_engine_of (evaluate_dns_lookup network_cfg));
      on_thread (modify (λ t,
        match decision with
        | DelayNs ns => t <| slept_ns ::= Z.add ns |>
        | TimeoutMs ms => t <| slept_ns ::= Z.add (ms * 1000000) |>
        | _ => t
        end));;
      mret (map_dns_decision_to_eai decision)
  end.

(** The list [*res] is observed from; nothing is when [res] is null. *)
(* faultcore_interceptor/src/lib.rs:1215-1234 getaddrinfo *)
Definition observe_answers (observed_hostname : option str) (res_null : bool) (a : Answer) : M P unit :=
  match observed_hostname with
  | None => mret tt
  | Some hostname =>
      if (a.(ret) =? 0) && negb res_null then
        for_each (λ item : option (list Z) * Z,
          match item.1 with
          | None => mret tt
          | Some ai_addr =>
              if 0 <? item.2 then
                observe_hostname_for_current_thread_addr (Some ai_addr) item.2 hostname
              else mret tt
          end) a.(infos)
      else mret tt
  end.

(* faultcore_interceptor/src/lib.rs:1183-1237 getaddrinfo *)
Definition getaddrinfo (node service hints : option (list Z)) (res_null : bool) : M P Answer :=
  let orig := call (SysGetaddrinfo node service hints) in
  hook orig
    (let observed_hostname := normalized_name_from_cstr node in
     eai ← dns_fault observed_hostname;
     match eai with
     | Some eai => mret (mkAnswer eai None None [])
     | None => a ← orig; observe_answers observed_hostname res_null a;; mret a
     end).

(* faultcore_interceptor/src/lib.rs:1239-1266 SSL_ctrl *)
Definition SSL_ctrl (ssl cmd larg : Z) (parg : option (list Z)) : M P Z :=
  hook (call_ssl_ctrl_orig ssl cmd larg parg)
    ((if (cmd =? SSL_CTRL_SET_TLSEXT_HOSTNAME) && (larg =? TLSEXT_NAMETYPE_HOST_NAME) then
        match normalized_name_from_cstr parg with
        | Some sni => bind_ssl_sni_if_possible ssl sni;; remember_ssl_sni ssl sni
        | None => forget_ssl_state ssl
        end
      else mret tt);;
     call_ssl_ctrl_orig ssl cmd larg parg).

(* faultcore_interceptor/src/lib.rs:1268-1283 SSL_set_fd *)
Definition SSL_set_fd (ssl fd : Z) : M P Z :=
  hook (call_ssl_set_fd_orig ssl fd)
    (out ← call_ssl_set_fd_orig ssl fd;
     (if out =? 1 then remember_ssl_fd ssl fd else mret tt);;
     mret out).

(* faultcore_interceptor/src/lib.rs:1285-1298 SSL_free *)
Definition SSL_free (ssl : Z) : M P unit :=
  hook (call_ssl_free_orig ssl) (forget_ssl_state ssl;; call_ssl_free_orig ssl).

(** ** The side channel, and what the controller reads *)

Definition set_errno (e : Z) : M P unit := on_thread (modify (λ t, t <| errno := e |>)).

(* faultcore_interceptor/src/lib.rs:1300-1320 setpriority *)
Definition setpriority (which who prio : Z) : M P Z :=
  thread_id ← gets tid;
  outcome ← zoom segment (λ s p, p <| segment := s |>)
              (handle_setpriority_compat thread_id which who prio);
  match outcome with
  | Handled => mret 0
  | FaultcoreError e => set_errno e;; mret (-1)
  | NotHandled =>
      if has_setpriority then call_ret (SysSetpriority which who prio)
      else set_errno ENOSYS;; mret (-1)
  end.

(* faultcore_interceptor/src/lib.rs:1322-1325 faultcore_interceptor_is_active *)
Definition faultcore_interceptor_is_active : bool := true.

(** What is written to [*out], [None] with [false] when [out] is null. *)
(* faultcore_interceptor/src/lib.rs:1327-1339 faultcore_metrics_snapshot *)
Definition faultcore_metrics_snapshot (out_null : bool) (p : P) : option FaultOsiMetricsSnapshot :=
  if out_null then None else Some (global_fault_osi_metrics_snapshot p).

(* faultcore_interceptor/src/lib.rs:1341-1355 faultcore_advanced_metrics_snapshot *)
Definition faultcore_advanced_metrics_snapshot (out_null : bool) (p : P) : option Observability.Snapshot :=
  if out_null then None else Some (Observability.snapshot p.(bridge).(Bridge.metrics)).

(* faultcore_interceptor/src/lib.rs:1357-1360 faultcore_metrics_reset *)
Definition faultcore_metrics_reset : M P unit := modify reset_global_fault_osi_metrics.

(** The bytes the returned pointer points to, [None] for null. *)
(* faultcore_interceptor/src/lib.rs:1362-1378 faultcore_get_policy_name *)
Definition faultcore_get_policy_name : M P (option (list Z)) :=
  name ← gets (λ p, get_current_policy_name p.(segment));
  match name with
  | None => mret None
  | Some name =>
      let encoded := as_bytes name in
      if bool_decide (0 ∈ encoded) then mret None else
      modify (λ p, p <| LAST_NAME := Some encoded |>);;
      mret (Some encoded)
  end.
End hooks.
