(* ===== verification/HookSpecs.v ===== *)
(** * What the hooks guarantee

    Theorems about whole calls of the hooked functions ([Hooks]), through every
    component they use: which original calls they make, what becomes of the
    datagrams held back for reordering, what a receiving caller finds in its
    buffer, and that hooks do not re-enter. *)

From S2P Require Import Prelude.
From S2P Require Import Config.
From S2P Require Import ShmContract.
From S2P Require Import RustStr.
From S2P Require Import ShmRuntime.
From S2P Require Import Layers.
From S2P Require Import Sockets.
From S2P Require Import Observability.
From S2P Require Import ChaosEngine.
From S2P Require Import Runtime.
From S2P Require Import Bridge.
From S2P Require Import SetPriority.
From S2P Require Import RecordReplay.
From S2P Require Import Process.
From S2P Require Import Interceptor.
From S2P Require Import Hooks.

Open Scope Z_scope.

Section specs.
Context `{Host} `{HashOrder} `{Os} `{Storage} {N : Type} `{Sockets N} `{Libc N}.
Abbreviation P := (Process N).
Abbreviation Q := (list PendingDatagram).

(** ** Computations that make no original call and leave the queues alone *)

(** What the world sees of a process: the original calls, and what it holds back. *)
Definition seen (p : P) : list (Syscall * Answer) * gmap Z Q * gmap Z Q :=
  (p.(trace), p.(runtime).(reorder_pending_by_fd), p.(runtime).(reorder_pending_recv_by_fd)).

Definition quiet {A} (c : M P A) : Prop := ∀ p, seen (c p).2 = seen p.

Lemma quiet_ret {A} (a : A) : quiet (mret a).
Proof. done. Qed.

Lemma quiet_bind {A B} (c : M P A) (f : A → M P B) :
  quiet c → (∀ a, quiet (f a)) → quiet (c ≫= f).
Proof. intros Hc Hf p. rewrite bind_run, Hf. apply Hc. Qed.

Lemma quiet_gets {A} (f : P → A) : quiet (gets f).
Proof. done. Qed.

Lemma quiet_modify f : (∀ p, seen (f p) = seen p) → quiet (modify f).
Proof. intros Hf p. apply Hf. Qed.

Lemma quiet_on_engine_of {A} (c : M Sys A) : quiet (on_engine_of c).
Proof. done. Qed.

Lemma quiet_on_bridge_of {A} (c : M (Bridge * ShmState) A) : quiet (on_bridge_of c).
Proof. done. Qed.

Lemma quiet_on_observations {A} (c : M Bridge A) : quiet (on_observations c).
Proof. done. Qed.

Lemma quiet_on_clock {A} (c : M World A) : quiet (on_clock c).
Proof. done. Qed.

Lemma quiet_on_thread {A} (c : M Thread A) : quiet (on_thread c).
Proof. done. Qed.

Lemma quiet_replaying_at site (c : M P LayerDecision) : quiet c → quiet (replaying_at site c).
Proof.
  intros Hc p. unfold replaying_at. rewrite zoom_run. cbn [snd].
  unfold record_replay_evaluate_or_replay, evaluate_or_replay. cbn [fst snd].
  set (r := core_evaluate_or_replay _ _ _ _). change (seen r.2.2 = seen p). subst r.
  unfold core_evaluate_or_replay. run_simpl. destruct (fail_fast _); [done|].
  destruct (RecordReplay.mode _); run_simpl; [apply Hc..|].
  destruct (replay_events _); run_simpl; [done|]. destruct (negb _); run_simpl; [done|].
  by destruct (to_decision _).
Qed.

Lemma quiet_record_mutation applied i o : quiet (record_mutation applied i o).
Proof. intros p. by destruct applied. Qed.

Lemma quiet_record_stream_bytes fd bytes : quiet (record_stream_bytes fd bytes).
Proof. done. Qed.

Lemma nonblocking_delay_pending_queues fd ns s :
  (nonblocking_delay_pending fd ns s).2.1.(reorder_pending_by_fd) = s.1.(reorder_pending_by_fd) ∧
  (nonblocking_delay_pending fd ns s).2.1.(reorder_pending_recv_by_fd) = s.1.(reorder_pending_recv_by_fd).
Proof.
  unfold nonblocking_delay_pending. destruct (ns =? 0); [done|]. run_simpl.
  destruct (latency_start_by_fd _ !! fd); run_simpl; [|done].
  by destruct (_ <=? _); run_simpl.
Qed.

Lemma quiet_map_stream_decision fd d nb : quiet (on_runtime (map_stream_decision fd d nb)).
Proof.
  intros p. unfold on_runtime. rewrite zoom_run. unfold map_stream_decision, seen.
  destruct d; try done. run_simpl. destruct nb; run_simpl.
  - pose proof (nonblocking_delay_pending_queues fd ns (p.(runtime), p.(bridge).(Bridge.world))) as [Hs Hr].
    cbn in *. by rewrite Hs, Hr.
  - done.
Qed.

Lemma quiet_if {A} (b : bool) (c d : M P A) : quiet c → quiet d → quiet (if b then c else d).
Proof. by destruct b. Qed.
End specs.

Create HintDb quiet.
#[export] Hint Resolve quiet_ret quiet_bind quiet_gets quiet_on_engine_of quiet_on_bridge_of
  quiet_on_observations quiet_on_clock quiet_on_thread quiet_replaying_at quiet_record_mutation
  quiet_record_stream_bytes quiet_map_stream_decision quiet_if : quiet.

(** Splits a computation into its steps; each is quiet by a hint, or a case more. *)
Ltac quiet :=
  repeat first
    [ solve [auto with quiet]
    | lazymatch goal with
      | |- quiet (if ?b then _ else _) => destruct b
      | |- quiet (match ?x with _ => _ end) => destruct x
      | |- quiet (mbind _ _) => apply quiet_bind; [|intros ?]
      | |- quiet (modify _) => apply quiet_modify; intros ?; try reflexivity
      | |- quiet (zoom _ _ _) => intros ?; try reflexivity
      | |- ∀ _, _ => intros ?
      end ].

Section quiet_parts.
Context `{Host} `{HashOrder} `{Os} `{Storage} {N : Type} `{Sockets N} `{Libc N}.
Abbreviation P := (Process N).
Abbreviation Q := (list PendingDatagram).

Lemma quiet_runtime_config_for_fd fd : quiet (N:=N) (runtime_config_for_fd fd).
Proof. unfold runtime_config_for_fd. quiet. Qed.

Lemma quiet_runtime_config_for_addr_or_fd fd a al : quiet (N:=N) (runtime_config_for_addr_or_fd fd a al).
Proof. unfold runtime_config_for_addr_or_fd. quiet. Qed.

Lemma quiet_uplink_duplicate_count fd : quiet (N:=N) (uplink_duplicate_count_for_fd fd).
Proof. unfold uplink_duplicate_count_for_fd, runtime_config_for_fd. quiet. Qed.

Lemma quiet_uplink_duplicate_count_addr fd a al :
  quiet (N:=N) (uplink_duplicate_count_for_addr_or_fd fd a al).
Proof. unfold uplink_duplicate_count_for_addr_or_fd, runtime_config_for_addr_or_fd. quiet. Qed.

Lemma quiet_observe_tls fd b l : quiet (N:=N) (observe_tls_sni_from_send_buffer fd b l).
Proof. unfold observe_tls_sni_from_send_buffer. quiet. Qed.

Lemma quiet_is_non_blocking fd : quiet (N:=N) (is_non_blocking fd).
Proof. unfold is_non_blocking. quiet. Qed.

Lemma quiet_initialize : quiet (N:=N) initialize.
Proof. unfold initialize. quiet. Qed.

Lemma quiet_enter_hook : quiet (N:=N) enter_hook.
Proof. unfold enter_hook. quiet. Qed.

Lemma quiet_uplink_mutation s payload cfg : quiet (N:=N) (uplink_mutation s payload cfg).
Proof. unfold uplink_mutation. quiet. Qed.
End quiet_parts.

#[export] Hint Resolve quiet_runtime_config_for_fd quiet_runtime_config_for_addr_or_fd
  quiet_uplink_duplicate_count quiet_uplink_duplicate_count_addr quiet_observe_tls
  quiet_is_non_blocking quiet_initialize quiet_uplink_mutation : quiet.

(** ** A logic for the sending handler

    [triple q c Post]: from the queue [q], [c] makes some original calls and ends
    with a value and a queue related by [Post] to them. *)

Section logic.
Context `{Host} `{HashOrder} `{Os} `{Storage} {N : Type} `{Sockets N} `{Libc N}.
Abbreviation P := (Process N).
Abbreviation Q := (list PendingDatagram).

Abbreviation Trace := (list (Syscall * Answer)).

Definition emit (es : Trace) (v : Trace * gmap Z Q * gmap Z Q) := (v.1.1 ++ es, v.1.2, v.2).

Lemma emit_nil v : emit [] v = v.
Proof. destruct v as [[t q] r]. unfold emit. cbn. by rewrite app_nil_r. Qed.

Lemma emit_emit es es' v : emit es' (emit es v) = emit (es ++ es') v.
Proof. unfold emit. cbn. by rewrite app_assoc. Qed.

(** The original calls of a computation, whatever they answer. *)
Definition emits {A} (c : M P A) (ks : list Syscall) : Prop :=
  ∀ p, ∃ es, es.*1 = ks ∧ seen (c p).2 = emit es (seen p).

Definition triple {A} (q : Q) (c : M (Q * P) A) (Post : A → Q → Trace → Prop) : Prop :=
  ∀ p, ∃ es, seen (c (q, p)).2.2 = emit es (seen p) ∧ Post (c (q, p)).1 (c (q, p)).2.1 es.

Lemma triple_ret {A} q (a : A) (Post : A → Q → Trace → Prop) :
  Post a q [] → triple q (mret a) Post.
Proof. intros HP p. exists []. by rewrite emit_nil. Qed.

Lemma triple_bind {A B} q (c : M (Q * P) A) (f : A → M (Q * P) B) Post :
  triple q c (λ a q' es, triple q' (f a) (λ b q'' es', Post b q'' (es ++ es'))) →
  triple q (c ≫= f) Post.
Proof.
  intros Hc p. destruct (Hc p) as (es & Hs & Hf). rewrite bind_run.
  destruct (c (q, p)) as [a [q' p']]. cbn [fst snd] in *. destruct (Hf p') as (es' & Hs' & HP).
  exists (es ++ es'). by rewrite Hs', Hs, emit_emit.
Qed.

Lemma triple_weaken {A} q (c : M (Q * P) A) (Post Post' : A → Q → Trace → Prop) :
  triple q c Post → (∀ a q' es, Post a q' es → Post' a q' es) → triple q c Post'.
Proof. intros Hc HP p. destruct (Hc p) as (es & Hs & Hes). exists es. auto. Qed.

Lemma triple_emits {A} q (c : M P A) ks (Post : A → Q → Trace → Prop) :
  emits c ks → (∀ p es, es.*1 = ks → Post (c p).1 q es) → triple q (on_process c) Post.
Proof. intros Hc HP p. destruct (Hc p) as (es & He & Hs). exists es. split; [exact Hs|by apply HP]. Qed.

Lemma triple_quiet {A} q (c : M P A) (Post : A → Q → Trace → Prop) :
  quiet c → (∀ p, Post (c p).1 q []) → triple q (on_process c) Post.
Proof. intros Hc HP p. exists []. rewrite emit_nil. split; [apply Hc|apply HP]. Qed.

Lemma triple_call q k (Post : Z → Q → Trace → Prop) :
  (∀ a, Post a.(ret) q [(k, a)]) → triple q (on_process (call_ret k)) Post.
Proof. intros HP p. eexists. split; [reflexivity|]. apply HP. Qed.

Lemma triple_queue {A} q (c : M (Q * World) A) (Post : A → Q → Trace → Prop) :
  (∀ w, Post (c (q, w)).1 (c (q, w)).2.1 []) → triple q (on_queue c) Post.
Proof. intros HP p. exists []. rewrite emit_nil. split; [done|apply HP]. Qed.

Lemma emits_call k : emits (call k) [k].
Proof. intros p. eexists [(k, _)]. split; reflexivity. Qed.

Lemma emits_bind {A B} (c : M P A) (f : A → M P B) ks ks' :
  emits c ks → (∀ a, emits (f a) ks') → emits (c ≫= f) (ks ++ ks').
Proof.
  intros Hc Hf p. rewrite bind_run. destruct (Hc p) as (es & <- & Hs).
  destruct (Hf (c p).1 (c p).2) as (es' & <- & Hs'). exists (es ++ es').
  by rewrite fmap_app, Hs', Hs, emit_emit.
Qed.

Lemma emits_quiet {A} (c : M P A) : quiet c → emits c [].
Proof. intros Hc p. exists []. by rewrite emit_nil. Qed.

Lemma emits_call_unit k : emits (call k;; mret tt) [k].
Proof. apply (emits_bind _ _ [k] []); [apply emits_call|by intros _; apply emits_quiet]. Qed.

Lemma emits_for_each {X} (f : X → M P unit) (g : X → Syscall) xs :
  (∀ x, emits (f x) [g x]) → emits (for_each f xs) (g <$> xs).
Proof.
  intros Hf. induction xs as [|x xs IH]; [by apply emits_quiet|].
  change (g <$> x :: xs) with ([g x] ++ (g <$> xs)). cbn [for_each]. by apply emits_bind.
Qed.

Lemma emits_send_all s pkts :
  emits (for_each (send_pending_datagram s) pkts) (pending_call s <$> pkts).
Proof. apply emits_for_each. intros pkt. apply emits_call_unit. Qed.

Lemma emits_times n k : emits (times n (call k;; mret tt)) (replicate n k).
Proof.
  unfold times. rewrite <- (fmap_replicate (λ _, k) n tt). apply emits_for_each.
  intros _. apply emits_call_unit.
Qed.

(** Duplicates: the same call, some number of times, and none of a failed one. *)
Lemma maybe_duplicate_emits site sent lookup k :
  quiet (N:=N) lookup →
  ∀ p, ∃ n es, (sent ≤ 0 → n = 0%nat) ∧ es.*1 = replicate n k ∧
    seen (maybe_duplicate_common site sent lookup (call k;; mret tt) p).2 = emit es (seen p).
Proof.
  intros Hq p. unfold maybe_duplicate_common. destruct (Z.leb_spec sent 0).
  - exists 0%nat, []. by rewrite emit_nil.
  - rewrite bind_run. set (r := replaying_at _ _ p).
    assert (Hr : seen r.2 = seen p) by (apply quiet_replaying_at; quiet). clearbody r.
    set (n := Z.to_nat _). destruct (emits_times n k r.2) as (es & He & Hs).
    exists n, es. split_and!; [lia|done|]. by rewrite Hs, Hr.
Qed.
End logic.

(** ** The sending hooks *)

(** A call of [write], [send] or [sendto], the hook and the original of it. *)
Inductive SendCall : Type :=
  | Write (s : Z) (b : option (list Z)) (l : Z)
  | Send (s : Z) (b : option (list Z)) (l f : Z)
  | Sendto (s : Z) (b : option (list Z)) (l f : Z) (a : option (list Z)) (al : Z).

Definition call_fd (c : SendCall) : Z :=
  match c with Write s _ _ | Send s _ _ _ | Sendto s _ _ _ _ _ => s end.
Definition call_buf (c : SendCall) : option (list Z) :=
  match c with Write _ b _ | Send _ b _ _ | Sendto _ b _ _ _ _ => b end.
Definition call_len (c : SendCall) : Z :=
  match c with Write _ _ l | Send _ _ l _ | Sendto _ _ l _ _ _ => l end.

Definition original_call (c : SendCall) (b : option (list Z)) (l : Z) : Syscall :=
  match c with
  | Write s _ _ => SysWrite s b l
  | Send s _ _ f => SysSend s b l f
  | Sendto s _ _ f a al => SysSendto s b l f a al
  end.

Section sending.
Context `{Host} `{HashOrder} `{Os} `{Storage} {N : Type} `{Sockets N} `{Libc N}.
Abbreviation P := (Process N).
Abbreviation Q := (list PendingDatagram).

Definition send_hook (c : SendCall) : M P Z :=
  match c with
  | Write s b l => write s b l
  | Send s b l f => send s b l f
  | Sendto s b l f a al => sendto s b l f a al
  end.

(** The payload the hook hands on: the caller's, or what the payload layer made of it. *)
Definition payload_as (c : SendCall) (eff : list Z) : Prop :=
  let payload := payload_of (call_buf c) (call_len c) in
  eff = default [] payload ∨
  ∃ raw cfg sys, payload = Some raw ∧
    (evaluate_r7_with_buffer (call_fd c) cfg Uplink (Z.of_nat (length raw)) raw sys).1.2 = Some eff.

(** The bytes and length it is handed on with. *)
Definition out_buf (c : SendCall) (eff : list Z) : option (list Z) := buffer_of (call_buf c) eff.
Definition out_len (c : SendCall) (eff : list Z) : Z := length_of (call_len c) eff.

(** What becomes of the payload: the original calls made for it and their answers,
    whether it is held back, the datagrams released after it, and the result, which
    is the original's when there was a call. *)
Inductive outcome (c : SendCall) (eff : list Z) : list (Syscall * Answer) → Q → Q → Z → Prop :=
  | refused : outcome c eff [] [] [] (-1)
  | held pkt bs evicted :
      out_buf c eff = Some bs → out_len c eff ≠ 0 → pkt.(data) = copy_bytes bs (out_len c eff) →
      outcome c eff [] [pkt] evicted (out_len c eff)
  | nothing_to_hold evicted :
      out_buf c eff = None ∨ out_len c eff = 0 →
      outcome c eff [] [] evicted (call_len c)
  | passed a duplicates n popped :
      (length popped ≤ 1)%nat → (a.(ret) ≤ 0 → n = 0%nat ∧ popped = []) →
      duplicates.*1 = replicate n (original_call c (out_buf c eff) a.(ret)) →
      outcome c eff ((original_call c (out_buf c eff) (out_len c eff), a) :: duplicates)
        [] popped a.(ret).

(** The calls and the queue after a sending handler that started from [q]. *)
Definition conserved (c : SendCall) (q : Q) (r : Z) (q' : Q) (es : list (Syscall * Answer)) : Prop :=
  ∃ eff before middle after expired staged released,
    payload_as c eff ∧ es = before ++ middle ++ after ∧
    before.*1 = pending_call (call_fd c) <$> expired ∧
    after.*1 = pending_call (call_fd c) <$> released ∧
    q ++ staged = expired ++ released ++ q' ∧
    outcome c eff middle staged released r.

(** The closures the hooks give the handler. *)
Definition stage_for (c : SendCall) (payload : list Z) : M (Q * P) Z :=
  let l := call_len c in
  r ← on_queue (match c with
                | Write s b _ => stage_reorder_send (buffer_of b payload) (length_of l payload) 0
                | Send s b _ f => stage_reorder_send (buffer_of b payload) (length_of l payload) f
                | Sendto s b _ f a al =>
                    stage_reorder_sendto (buffer_of b payload) (length_of l payload) f a al
                end);
  mret (default l r).

Definition staged_as (c : SendCall) (eff : list Z) (q : Q) (r : Z) (q' : Q) : Prop :=
  (∃ pkt bs, out_buf c eff = Some bs ∧ out_len c eff ≠ 0 ∧ pkt.(data) = copy_bytes bs (out_len c eff) ∧
     q' = q ++ [pkt] ∧ r = out_len c eff) ∨
  ((out_buf c eff = None ∨ out_len c eff = 0) ∧ q' = q ∧ r = call_len c).

Lemma stage_for_triple c eff q :
  triple q (stage_for c eff) (λ r q' ks, ks = [] ∧ staged_as c eff q r q').
Proof.
  unfold stage_for, staged_as, out_buf, out_len. apply triple_bind, triple_queue. intros w.
  apply triple_ret. rewrite app_nil_r. split; [done|].
  destruct c as [s b l|s b l f|s b l f a al]; cbn [call_buf call_len];
    unfold stage_reorder_send, stage_reorder_sendto;
    (destruct (buffer_of b eff) as [bs|]; [|right; by split_and!; [left| |]]);
    (destruct (Z.eqb_spec (length_of l eff) 0); [right; by split_and!; [right| |]|]); left;
    (eexists _, bs; split_and!; [done|done| |reflexivity|reflexivity]; reflexivity).
Qed.

(** The directive of a fault returns -1. *)
Lemma directive_error s d nb rw t r :
  (apply_stream_directive (map_stream_decision s d nb rw).1 t).1 = Some r → r = -1.
Proof.
  unfold map_stream_decision. destruct d; run_simpl; cbn; try congruence.
  destruct nb; run_simpl; [|done].
  destruct (nonblocking_delay_pending _ _ _).1; cbn; congruence.
Qed.

(** The payload layer's answer, in the process it is asked in. *)
Lemma uplink_mutation_payload c cfg (p : P) :
  payload_as c (default (default [] (payload_of (call_buf c) (call_len c)))
    (uplink_mutation (N:=N) (call_fd c) (payload_of (call_buf c) (call_len c)) cfg p).1).
Proof.
  unfold uplink_mutation, payload_as. destruct (payload_of _ _) as [raw|]; [|by left].
  run_simpl. unfold on_engine_of. rewrite zoom_run. cbn [fst].
  set (sys := mkSys _ _ _ _). clearbody sys.
  destruct (evaluate_r7_with_buffer _ cfg Uplink _ raw sys).1.2 as [eff|] eqn:E; [right|by left].
  exists raw, cfg, sys. by rewrite E.
Qed.

Section handler.
Context (c : SendCall) (at_site : string) (nb : bool).
Context (config_lookup : M P (option Config)) (Hconfig : quiet config_lookup).
Context (lookup : M P Z) (Hlookup : quiet lookup) (dup_site : string).
Let s := call_fd c.
Let payload := payload_of (call_buf c) (call_len c).
Let orig (eff : list Z) : M P Z := call_ret (original_call c (out_buf c eff) (out_len c eff)).
Let duplicates (sent : Z) (eff : list Z) : M P unit :=
  maybe_duplicate_common dup_site sent lookup (call (original_call c (out_buf c eff) sent);; mret tt).

(** The first part: the faults, down to the call or the staging. *)
Definition faulted (q : Q) (r : Z * bool * list Z) (q' : Q) (es : list (Syscall * Answer)) : Prop :=
  let '(result, staged_reorder, eff) := r in
  payload_as c eff ∧ ∃ before expired, before.*1 = pending_call s <$> expired ∧
    ((∃ after staged released, es = before ++ after ∧ after.*1 = pending_call s <$> released ∧
        q ++ staged = expired ++ released ++ q' ∧ outcome c eff [] staged released result ∧
        (staged_reorder = true ∨ result = -1)) ∨
     (∃ a, staged_reorder = false ∧ q = expired ++ q' ∧ result = a.(ret) ∧
        es = before ++ [(original_call c (out_buf c eff) (out_len c eff), a)])).

Lemma held_back eff expired before after q1 result q2 evicted q3 :
  payload_as c eff → staged_as c eff q1 result q2 → q2 = evicted ++ q3 →
  before.*1 = pending_call s <$> expired → after.*1 = pending_call s <$> evicted →
  faulted (expired ++ q1) (result, true, eff) q3 (before ++ after).
Proof.
  intros Heff [(pkt & bs & Hb & Hl & Hd & -> & ->)|(He & -> & ->)] Hq Hbe Haf; split; try done;
    exists before, expired; (split; [done|]); left.
  - exists after, [pkt], evicted. split_and!; [done|done|by rewrite <- app_assoc, Hq|by econstructor|by left].
  - exists after, [], evicted. split_and!; [done|done|by rewrite app_nil_r, Hq|by constructor|by left].
Qed.

Lemma uplink_faults_triple cfg q :
  triple q (uplink_faults at_site s (call_len c) payload nb orig (stage_for c) cfg) (faulted q).
Proof.
  unfold uplink_faults. apply triple_bind, triple_queue. intros w.
  set (r := flush_expired_reorder _ _). assert (Hq : q = r.1 ++ r.2.1).
  { subst r. unfold flush_expired_reorder. case_match; [done|]. by rewrite flush_loop_app. }
  set (expired := r.1) in *. set (q1 := r.2.1) in *. clearbody expired q1. rewrite Hq.
  apply triple_bind. eapply triple_emits; [apply emits_send_all|intros p0 before Hbefore].
  apply triple_bind, triple_quiet; [quiet|intros p1]. set (decision := (_ p1).1). clearbody decision.
  apply triple_bind, triple_quiet; [quiet|intros p2].
  pose proof (uplink_mutation_payload c cfg p2) as Heff. fold s payload in Heff.
  set (mutated := (_ p2).1) in *. clearbody mutated. cbn zeta.
  set (eff := default _ mutated) in *. clearbody eff.
  apply triple_bind, triple_quiet; [quiet|intros p3].
  apply triple_bind, triple_quiet; [quiet|intros p4].
  destruct ((on_thread _ p4).1) as [e|] eqn:E.
  { apply triple_ret. unfold on_thread, on_runtime in E. rewrite !zoom_run in E. cbn [fst] in E.
    apply directive_error in E as ->. split; [done|]. exists before, expired. split; [done|]. left.
    exists [], [], []. split_and!; [by rewrite !app_nil_r|done|by rewrite app_nil_r|constructor|by right]. }
  destruct (is_stage_reorder decision).
  - apply triple_bind. eapply triple_weaken; [apply stage_for_triple|]. intros result q2 es [-> Hst].
    apply triple_bind, triple_queue. intros w2.
    set (r2 := enforce_reorder_window _ _). assert (Hq2 : q2 = r2.1 ++ r2.2.1).
    { subst r2. unfold enforce_reorder_window. cbn [fst snd]. rewrite window_loop_spec by lia.
      cbn [fst snd]. by rewrite take_drop. }
    apply triple_bind. eapply triple_emits; [apply emits_send_all|intros p5 after Hafter].
    apply triple_ret. rewrite !app_nil_l, !app_nil_r. by eapply held_back.
  - apply triple_bind, triple_call. intros a.
    apply triple_ret. rewrite !app_nil_l, !app_nil_r. split; [done|].
    exists before, expired. split; [done|]. right. by exists a.
Qed.

Lemma triple_duplicates q sent eff (Post : unit → Q → list (Syscall * Answer) → Prop) :
  (∀ n es, (sent ≤ 0 → n = 0%nat) →
     es.*1 = replicate n (original_call c (out_buf c eff) sent) → Post tt q es) →
  triple q (on_process (duplicates sent eff)) Post.
Proof.
  intros HP p. destruct (maybe_duplicate_emits dup_site sent lookup
    (original_call c (out_buf c eff) sent) Hlookup p) as (n & es & Hn & He & Hs).
  exists es. split; [exact Hs|]. destruct ((on_process _ (q, p)).1). by eapply HP.
Qed.

(** A payload handed on: the call for it, duplicates, and what is released after. *)
Lemma conserved_passed before expired q1 eff a n dups after popped q' es :
  payload_as c eff → before.*1 = pending_call s <$> expired → q1 = popped ++ q' →
  (length popped ≤ 1)%nat → (a.(ret) ≤ 0 → n = 0%nat ∧ popped = []) →
  dups.*1 = replicate n (original_call c (out_buf c eff) a.(ret)) →
  after.*1 = pending_call s <$> popped →
  es = before ++ [(original_call c (out_buf c eff) (out_len c eff), a)] ++ dups ++ after →
  conserved c (expired ++ q1) a.(ret) q' es.
Proof.
  intros Heff Hbe -> Hp Hr Hd Haf ->. exists eff, before.
  exists ((original_call c (out_buf c eff) (out_len c eff), a) :: dups), after, expired, [], popped.
  split_and!; [done|done|done|done|by rewrite app_nil_r|by econstructor].
Qed.

(** What is left to do once the payload has been handed on. *)
Lemma finish_passed before expired q1 eff a :
  payload_as c eff → before.*1 = pending_call s <$> expired →
  triple q1
    (if 0 <? a.(ret) then
       on_process (record_stream_bytes s a.(ret));;
       (if negb false then on_process (duplicates a.(ret) eff) else mret tt);;
       popped ← on_queue (pop_reorder_after_success false);
       match popped with
       | Some pkt => on_process (send_pending_datagram s pkt)
       | None => mret tt
       end;;
       mret a.(ret)
     else mret a.(ret))
    (λ r q' es, conserved c (expired ++ q1) r q' (before ++
       [(original_call c (out_buf c eff) (out_len c eff), a)] ++ es)).
Proof.
  intros Heff Hbe. destruct (Z.ltb_spec 0 a.(ret)).
  - apply triple_bind, triple_quiet; [quiet|intros _]. cbn [negb].
    apply triple_bind, triple_duplicates. intros n dups Hn Hd. apply triple_bind, triple_queue. intros w.
    cbn [pop_reorder_after_success fst snd]. apply triple_bind.
    destruct q1 as [|pkt q1]; cbn [head tail].
    + do 2 apply triple_ret.
      apply (conserved_passed before _ _ eff a n dups [] []);
        [done|done|done|cbn; lia|lia|done|done|by rewrite ?app_nil_r, ?app_nil_l].
    + eapply triple_emits; [apply emits_call_unit|intros p after Hafter]. apply triple_ret.
      apply (conserved_passed before _ _ eff a n dups after [pkt]);
        [done|done|done|cbn; lia|lia|done|done|by rewrite ?app_nil_r, ?app_nil_l].
  - apply triple_ret.
    apply (conserved_passed before _ _ eff a 0 [] [] []); try done; cbn; lia.
Qed.

Lemma handle_uplink_send_triple q :
  triple q (handle_uplink_send at_site s (call_len c) payload nb config_lookup orig (stage_for c)
              duplicates) (conserved c q).
Proof.
  unfold handle_uplink_send. apply triple_bind, triple_quiet; [done|intros p1].
  destruct ((config_lookup p1).1) as [cfg|].
  - apply triple_bind. eapply triple_weaken; [apply uplink_faults_triple|].
    intros [[result staged_reorder] eff] q1 es [Heff (before & expired & Hbe & Hout)].
    destruct Hout as [(after & staged & released & -> & Haf & Hq & Hout & Hst)|(a & -> & -> & -> & ->)].
    + destruct (Z.ltb_spec 0 result).
      * destruct Hst as [->| ->]; [|lia].
        apply triple_bind, triple_quiet; [quiet|intros _]. cbn [negb].
        apply triple_bind, triple_ret, triple_bind, triple_queue. intros w.
        cbn [pop_reorder_after_success fst snd]. apply triple_bind, triple_ret, triple_ret.
        exists eff, before, [], after, expired, staged, released. by rewrite !app_nil_l, !app_nil_r.
      * apply triple_ret. exists eff, before, [], after, expired, staged, released.
        by rewrite app_nil_r.
    + eapply triple_weaken; [by apply (finish_passed before expired)|].
      intros r q' es. by rewrite app_nil_l, <- app_assoc.
  - apply triple_bind, triple_call. intros a.
    apply triple_bind. apply triple_weaken with (Post := λ _ q' es, q' = q ∧ es = []).
    { destruct (0 <? _); [apply triple_quiet; [quiet|done]|by apply triple_ret]. }
    intros _ q' es [-> ->]. apply triple_ret.
    apply (conserved_passed [] [] q (default [] payload) a 0 [] [] []);
      [by left|done|done|cbn; lia|done|done|done|done].
Qed.
End handler.
End sending.

(** ** Whole hooks *)

Section hooked.
Context `{Host} `{HashOrder} `{Os} `{Storage} {N : Type} `{Sockets N} `{Libc N}.
Abbreviation P := (Process N).
Abbreviation Q := (list PendingDatagram).

(** A call that is not made from inside a hook. *)
Definition outside (p : P) : Prop := p.(in_hook) = false ∧ setspecific_fails p.(kernel) = false.

(** The process in which the body of a hook runs. *)
Definition entered (p : P) : P := (initialize (p <| in_hook := true |>)).2.

Lemma hook_run {A} (orig body : M P A) p :
  outside p →
  hook orig body p = ((body (entered p)).1, (body (entered p)).2 <| in_hook := false |>).
Proof. intros [Hin Hset]. unfold hook, guarded. run_simpl. unfold enter_hook, id. run_simpl. rewrite Hin. run_simpl. by rewrite Hset. Qed.

Lemma hook_inside {A} (orig body : M P A) p :
  ¬ outside p → hook orig body p = orig p.
Proof.
  intros Hout. unfold hook, guarded. run_simpl. unfold enter_hook, id. run_simpl. unfold outside in Hout.
  destruct (in_hook p); [done|]. run_simpl. destruct (setspecific_fails _); [done|]. by destruct Hout.
Qed.

Lemma seen_entered p : seen (entered p) = seen p.
Proof. exact (quiet_initialize (p <| in_hook := true |>)). Qed.

Definition queue_of (p : P) (fd : Z) : Q := default [] (p.(runtime).(reorder_pending_by_fd) !! fd).

Lemma queue_of_put (map : gmap Z Q) (fd : Z) (q : Q) i :
  default [] ((match q with [] => delete fd map | x :: l => <[fd := x :: l]> map end) !! i) =
  if decide (i = fd) then q else default [] (map !! i).
Proof. destruct q; by case_decide; simplify_map_eq. Qed.

(** An operation on a descriptor's queue, in the process. *)
Lemma with_send_queue_triple {A} fd (op : M (Q * P) A) (Post : A → Q → list (Syscall * Answer) → Prop) p :
  triple (queue_of p fd) op Post →
  let r := with_send_queue fd op p in
  ∃ ks, r.2.(trace) = p.(trace) ++ ks ∧ Post r.1 (queue_of r.2 fd) ks ∧
    ∀ i, i ≠ fd → queue_of r.2 i = queue_of p i.
Proof.
  intros Hop. destruct (Hop p) as (ks & Hs & HP). unfold with_send_queue.
  change (default [] (reorder_pending_by_fd (runtime p) !! fd)) with (queue_of p fd).
  destruct (op (queue_of p fd, p)) as [a [q' p']]. cbn [fst snd] in *. cbv zeta. cbn [fst snd].
  unfold seen, emit in Hs. cbn [fst snd] in Hs. injection Hs as Ht Hq _.
  match goal with |- context [queue_of ?x fd] => set (pf := x) end.
  assert (Hall : ∀ i, queue_of pf i = if decide (i = fd) then q' else queue_of p i).
  { intros i. unfold queue_of. rewrite <- Hq. exact (queue_of_put _ fd q' i). }
  exists ks. split; [exact Ht|]. split; [by rewrite Hall, decide_True|].
  intros i Hi. by rewrite Hall, decide_False.
Qed.

(** The three sending hooks are one handler. *)
(** The endpoint a send is resolved for, and the configuration it looks up. *)
Definition call_endpoint (c : SendCall) (n : N) : option Endpoint :=
  match c with
  | Sendto s _ _ _ a al => endpoint_for_addr_or_fd s a al n
  | _ => endpoint_for_fd (call_fd c) n
  end.

Definition call_config (c : SendCall) : M P (option Config) :=
  match c with
  | Sendto s _ _ _ a al => runtime_config_for_addr_or_fd s a al
  | _ => runtime_config_for_fd (call_fd c)
  end.

Lemma quiet_call_config c : quiet (N:=N) (call_config c).
Proof. destruct c; cbn [call_config]; auto with quiet. Qed.

Lemma call_config_run c (p : P) :
  let r := resolve_runtime_config_for_endpoint p.(tid) (call_fd c) (call_endpoint c p.(kernel))
             (p.(bridge), p.(segment)) in
  call_config c p = (r.1, p <| bridge := r.2.1 |> <| segment := r.2.2 |>).
Proof. by destruct c. Qed.

Lemma send_hook_shape c : ∃ at_site dup_site lookup,
  quiet (N:=N) lookup ∧
  send_hook c =
    hook (call_ret (original_call c (call_buf c) (call_len c)))
      (observe_tls_sni_from_send_buffer (call_fd c) (call_buf c) (call_len c);;
       with_send_queue (call_fd c)
         (nb ← on_process (is_non_blocking (call_fd c));
          handle_uplink_send at_site (call_fd c) (call_len c) (payload_of (call_buf c) (call_len c))
            nb (call_config c) (λ eff, call_ret (original_call c (out_buf c eff) (out_len c eff)))
            (stage_for c)
            (λ sent eff, maybe_duplicate_common dup_site sent lookup
               (call (original_call c (out_buf c eff) sent);; mret tt)))).
Proof.
  destruct c as [s b l|s b l f|s b l f a al].
  - exists "stream_uplink_pre_write"%string, "stream_uplink_post_write"%string,
      (uplink_duplicate_count_for_fd s). split; [auto with quiet|exact eq_refl].
  - exists "stream_uplink_pre_send"%string, "stream_uplink_post_send"%string,
      (uplink_duplicate_count_for_fd s). split; [auto with quiet|exact eq_refl].
  - exists "stream_uplink_pre_sendto"%string, "stream_uplink_post_sendto"%string,
      (uplink_duplicate_count_for_addr_or_fd s a al). split; [auto with quiet|exact eq_refl].
Qed.
End hooked.

Section theorems.
Context `{Host} `{HashOrder} `{Os} `{Storage} {N : Type} `{Sockets N} `{Libc N}.

(** C5. No datagram is lost or made up by a sending hook.  Whatever the
    configuration and the decisions, [write], [send] and [sendto] make the original
    calls for datagrams whose deadline has passed, then for the payload (once, and
    again for every duplicate), then for datagrams that are released; what was held
    back before, with the payload if it is held back now, is exactly what was sent
    of it and what is held back after, in that order.  A call that is refused sends
    nothing of its own and returns -1, and the queues of other descriptors are not
    touched. *)
Theorem sends_conserve c (p : Process N) :
  outside p →
  let r := send_hook c p in
  ∃ ks, r.2.(trace) = p.(trace) ++ ks ∧
    conserved c (queue_of p (call_fd c)) r.1 (queue_of r.2 (call_fd c)) ks ∧
    ∀ fd, fd ≠ call_fd c → queue_of r.2 fd = queue_of p fd.
Proof.
  intros Hout r. subst r. destruct (send_hook_shape c) as (at_site & dup_site & lookup & Hl & ->).
  pose proof (quiet_call_config c) as Hc.
  rewrite hook_run by done. rewrite bind_run. cbn [fst snd].
  set (p1 := (observe_tls_sni_from_send_buffer _ _ _ (entered p)).2).
  assert (Hp1 : seen p1 = seen p) by (unfold p1; rewrite quiet_observe_tls; apply seen_entered).
  unfold seen in Hp1. injection Hp1 as Ht Hq _.
  assert (Hq1 : ∀ fd, queue_of p1 fd = queue_of p fd) by (intros fd; unfold queue_of; by rewrite Hq).
  match goal with |- context [with_send_queue (call_fd c) ?op p1] =>
    destruct (with_send_queue_triple (call_fd c) op (conserved c (queue_of p1 (call_fd c))) p1)
      as (ks & Hks & HP & Hothers) end.
  { apply triple_bind, triple_quiet; [apply quiet_is_non_blocking|intros p2].
    eapply triple_weaken; [by apply handle_uplink_send_triple|done]. }
  exists ks. split; [by rewrite <- Ht|]. rewrite <- Hq1. split; [exact HP|].
  intros fd Hfd. rewrite <- Hq1. by apply Hothers.
Qed.
End theorems.

(** ** Witnesses *)

#[local] Existing Instance example_host.
#[local] Existing Instance example_os.

(** Thread 1 reorders everything, with room for one datagram; one is held back. *)
Definition example_reordering : Process (list (list Z)) :=
  let s := example_row (λ c, c <| Fc.reorder_prob_ppm := 1000000 |> <| Fc.reorder_window := 1 |>) in
  let p := example_process s [] in
  p <| runtime := InterceptorRuntime_new <| reorder_pending_by_fd := {[9 := [example_pkt 7 0]]} |> |>.

(** The third call's payload is held back, and the datagram held before goes out. *)
Lemma sends_conserve_witness :
  let r := send_hook (Send 9 (Some [1; 2; 3]) 3 0) example_reordering in
  r.1 = 3 ∧ r.2.(trace).*1 = [pending_call 9 (example_pkt 7 0)] ∧
  data <$> queue_of r.2 9 = [[1; 2; 3]] ∧
  ∃ es, r.2.(trace) = [] ++ es ∧
    conserved (Send 9 (Some [1; 2; 3]) 3 0) [example_pkt 7 0] r.1 (queue_of r.2 9) es.
Proof.
  split_and!; [by vm_compute..|].
  destruct (sends_conserve (Send 9 (Some [1; 2; 3]) 3 0) example_reordering ltac:(done))
    as (es & Ht & Hc & _). exists es. split; [exact Ht|exact Hc].
Defined.
