(* ===== verification/HookTransparent.v ===== *)
(** * Hooks that do nothing

    When hooks get out of the way: a call made from inside a hook goes to the
    original, and a process without a segment (interception disabled, or no
    controller) cannot tell a hooked function from the original. *)

From S2P Require Import Prelude.
From S2P Require Import Config.
From S2P Require Import ShmContract.
From S2P Require Import RustStr.
From S2P Require Import ShmRuntime.
From S2P Require Import Layers.
From S2P Require Import Sockets.
From S2P Require Import ChaosEngine.
From S2P Require Import Runtime.
From S2P Require Import Bridge.
From S2P Require Import RecordReplay.
From S2P Require Import Process.
From S2P Require Import Interceptor.
From S2P Require Import Hooks.
From S2P Require Import HookSpecs.

Open Scope Z_scope.

(** The guarded hooks, with their arguments; the buffers of a receiving call are
    in [Caller], and an [accept] fills its address. *)
Inductive Hooked : Type :=
  | HSocket (domain ty proto : Z)
  | HClose (fd : Z)
  | HDup (oldfd : Z)
  | HDup2 (oldfd newfd : Z)
  | HDup3 (oldfd newfd fl : Z)
  | HAccept (s : Z)
  | HAccept4 (s fl : Z)
  | HConnect (s : Z) (a : option (list Z)) (l : Z)
  | HSend (c : SendCall)
  | HRead (s l : Z)
  | HRecv (s l f : Z)
  | HRecvfrom (s l f : Z)
  | HGetaddrinfo (node service hints : option (list Z)) (res_null : bool)
  | HSslCtrl (ssl cmd larg : Z) (parg : option (list Z))
  | HSslSetFd (ssl fd : Z)
  | HSslFree (ssl : Z).

Section hooked.
Context `{Host} `{HashOrder} `{Os} `{Storage} {N : Type} `{Sockets N} `{Libc N}.
Abbreviation P := (Process N).

Definition accepting (c : option (list Z * Z) → M P Answer) : M (Caller * P) Z := λ s,
  let r := c s.1.(address) s.2 in (r.1.(ret), (s.1 <| address := r.1.(from) |>, r.2)).

Definition run_hook (h : Hooked) : M (Caller * P) Z :=
  match h with
  | HSocket d t p => on_process (socket d t p)
  | HClose fd => on_process (close fd)
  | HDup o => on_process (dup o)
  | HDup2 o n => on_process (dup2 o n)
  | HDup3 o n f => on_process (dup3 o n f)
  | HAccept s => accepting (accept s)
  | HAccept4 s f => accepting (λ a, accept4 s a f)
  | HConnect s a l => on_process (connect s a l)
  | HSend c => on_process (send_hook c)
  | HRead s l => read s l
  | HRecv s l f => recv s l f
  | HRecvfrom s l f => recvfrom s l f
  | HGetaddrinfo n sv hs r => on_process (a ← getaddrinfo n sv hs r; mret a.(ret))
  | HSslCtrl ssl cmd larg parg => on_process (SSL_ctrl ssl cmd larg parg)
  | HSslSetFd ssl fd => on_process (SSL_set_fd ssl fd)
  | HSslFree ssl => on_process (SSL_free ssl;; mret 0)
  end.

(** The same call of the original function. *)
Definition run_original (h : Hooked) : M (Caller * P) Z :=
  match h with
  | HSocket d t p => on_process (call_ret (SysSocket d t p))
  | HClose fd => on_process (call_ret (SysClose fd))
  | HDup o => on_process (call_ret (SysDup o))
  | HDup2 o n => on_process (call_ret (SysDup2 o n))
  | HDup3 o n f => on_process (call_ret (SysDup3 o n f))
  | HAccept s => accepting (λ a, call (SysAccept s a))
  | HAccept4 s f => accepting (λ a, call (SysAccept4 s a f))
  | HConnect s a l => on_process (call_ret (SysConnect s a l))
  | HSend c => on_process (call_ret (original_call c (call_buf c) (call_len c)))
  | HRead s l => receive (λ c, SysRead s c.(buffer) l)
  | HRecv s l f => receive (λ c, SysRecv s c.(buffer) l f)
  | HRecvfrom s l f => receive_from (λ c, SysRecvfrom s c.(buffer) l f c.(address))
  | HGetaddrinfo n sv hs r => on_process (call_ret (SysGetaddrinfo n sv hs))
  | HSslCtrl ssl cmd larg parg => on_process (call_ssl_ctrl_orig ssl cmd larg parg)
  | HSslSetFd ssl fd => on_process (call_ssl_set_fd_orig ssl fd)
  | HSslFree ssl => on_process (call_ssl_free_orig ssl;; mret 0)
  end.

Lemma hook_caller_inside {A} (orig body : M (Caller * P) A) s :
  ¬ outside s.2 → hook_caller orig body s = orig s.
Proof.
  intros Hout. unfold hook_caller, guarded. run_simpl. unfold enter_hook. run_simpl. unfold outside in Hout.
  destruct s as [c p]. cbn [fst snd] in *.
  destruct (in_hook p); [done|]. run_simpl. destruct (setspecific_fails _); [done|]. by destruct Hout.
Qed.

Lemma hook_caller_run {A} (orig body : M (Caller * P) A) s :
  outside s.2 →
  hook_caller orig body s =
    let r := body (s.1, entered s.2) in (r.1, (r.2.1, r.2.2 <| in_hook := false |>)).
Proof.
  intros [Hin Hset]. destruct s as [c p]. cbn [fst snd] in *. unfold hook_caller, guarded. run_simpl.
  unfold enter_hook. run_simpl. rewrite Hin. run_simpl. by rewrite Hset.
Qed.

(** Hooks do not re-enter.  A hooked function called while the thread is inside
    a hook (as the C library does of itself), or when the guard cannot be taken, is
    the original function, with nothing else read or changed; and every hook that
    takes the guard has released it when it returns, whatever the original did and
    on every path. *)
Theorem hooks_do_not_reenter h (s : Caller * P) :
  (¬ outside s.2 → run_hook h s = run_original h s) ∧
  (outside s.2 → (run_hook h s).2.2.(in_hook) = false).
Proof.
  destruct s as [c p]. split; intros Hout; cbn [snd] in Hout.
  - destruct h; cbn [run_hook run_original];
      first [ by apply hook_caller_inside | idtac ];
      unfold accepting, on_process; rewrite ?zoom_run; cbn [fst snd];
      try (destruct c0; cbn [send_hook original_call call_buf call_len]);
      unfold socket, close, dup, dup2, dup3, accept, accept4, connect, write, send, sendto,
        getaddrinfo, SSL_ctrl, SSL_set_fd, SSL_free; rewrite ?bind_run; by rewrite hook_inside.
  - destruct h; cbn [run_hook]; unfold read, recv, recvfrom;
      first [ by rewrite hook_caller_run | idtac ];
      unfold accepting, on_process; rewrite ?zoom_run; cbn [fst snd];
      try (destruct c0; cbn [send_hook]);
      unfold socket, close, dup, dup2, dup3, accept, accept4, connect, write, send, sendto,
        getaddrinfo, SSL_ctrl, SSL_set_fd, SSL_free; rewrite ?bind_run; by rewrite hook_run.
Qed.
End hooked.

(** ** Without a segment *)

(** No segment is mapped, and opening one fails: interception is disabled, or no
    controller made one. *)
Definition no_segment `{Os} (s : ShmState) : Prop :=
  s.(SHM_POINTER) = 0 ∧ (try_open_shm s).2 = s.

Section no_segment.
Context `{Os} (s : ShmState) (Hs : no_segment s).

Lemma no_segment_ensure b : ensure_open b s = (tt, s).
Proof. unfold ensure_open. destruct Hs as [_ Ho]. case_match; by rewrite ?Ho. Qed.

Lemma no_segment_config tid : get_config_for_tid tid s = (None, s).
Proof.
  unfold get_config_for_tid. run_simpl. rewrite no_segment_ensure. run_simpl.
  unfold get_config_ptr. by rewrite (proj1 Hs).
Qed.

Lemma no_segment_owner fd : get_tid_slot_for_fd fd s = (None, s).
Proof.
  unfold get_tid_slot_for_fd. run_simpl. rewrite no_segment_ensure. run_simpl.
  unfold get_fd_owner_base_ptr. rewrite (proj1 Hs). by case_match.
Qed.

Lemma no_segment_assign fd tid : assign_rule_to_fd fd tid s = (tt, s).
Proof. unfold assign_rule_to_fd, get_fd_owner_base_ptr. rewrite (proj1 Hs). by case_match. Qed.

Lemma no_segment_clear fd : clear_rule_for_fd fd s = (tt, s).
Proof.
  unfold clear_rule_for_fd, get_fd_owner_base_ptr, get_config_ptr. destruct (_ || _); [done|].
  rewrite (proj1 Hs). cbn. by rewrite (proj1 Hs).
Qed.

Lemma no_segment_clone src dst : clone_rule_for_fd src dst s = (tt, s).
Proof. unfold clone_rule_for_fd, get_fd_owner_base_ptr. rewrite (proj1 Hs). by case_match. Qed.
End no_segment.

Section transparent.
Context `{Host} `{HashOrder} `{Os} `{Storage} {N : Type} `{Sockets N} `{Libc N}.
Abbreviation P := (Process N).

(** What the caller and the kernel can tell of a process. *)
Definition facade (p : P) : N * Thread * list (Syscall * Answer) := (p.(kernel), p.(thread), p.(trace)).

Definition unconfigured (p : P) : Prop := no_segment p.(segment).

(** Nobody can tell that the computation ran. *)
Definition silent {A} (c : M P A) : Prop :=
  ∀ p, unconfigured p → facade (c p).2 = facade p ∧ unconfigured (c p).2.

Lemma silent_ret {A} (a : A) : silent (mret a).
Proof. done. Qed.

Lemma silent_gets {A} (f : P → A) : silent (gets f).
Proof. done. Qed.

Lemma silent_bind {A B} (c : M P A) (f : A → M P B) :
  silent c → (∀ a, silent (f a)) → silent (c ≫= f).
Proof.
  intros Hc Hf p Hp. rewrite bind_run. destruct (Hc p Hp) as [Hs Hu].
  destruct (Hf (c p).1 _ Hu) as [Hs' Hu']. by rewrite Hs'.
Qed.

Lemma silent_modify f :
  (∀ p, facade (f p) = facade p ∧ segment (f p) = segment p) → silent (modify f).
Proof. intros Hf p Hp. destruct (Hf p) as [Hs Hg]. split; [exact Hs|]. unfold unconfigured. cbn. by rewrite Hg. Qed.

Lemma silent_on_observations {A} (c : M Bridge A) : silent (on_observations c).
Proof. done. Qed.

(** On the segment: what leaves an absent one alone. *)
Lemma silent_on_bridge_of {A} (c : M (Bridge * ShmState) A) :
  (∀ b s, no_segment s → (c (b, s)).2.2 = s) → silent (on_bridge_of c).
Proof.
  intros Hc p Hp. split; [done|]. unfold unconfigured, on_bridge_of. rewrite zoom_run. cbn.
  by rewrite Hc.
Qed.

Lemma silent_initialize : silent initialize.
Proof.
  unfold initialize. apply silent_bind; [done|intros done_]. apply silent_bind; [done|intros _].
  destruct done_; [done|]. apply silent_bind; [|done]. intros p Hp. split; [done|].
  change (no_segment (try_open_shm p.(segment)).2). by rewrite (proj2 Hp).
Qed.

Lemma silent_observe_tls fd b l : silent (observe_tls_sni_from_send_buffer fd b l).
Proof. unfold observe_tls_sni_from_send_buffer. repeat case_match; try apply silent_ret; done. Qed.

Lemma silent_is_non_blocking fd : silent (is_non_blocking fd).
Proof. unfold is_non_blocking. apply silent_bind; [done|intros ?; done]. Qed.

(** No configuration is found, from a descriptor, an address or a name. *)
Lemma resolve_unconfigured thread_id fd e b s :
  no_segment s → resolve_runtime_config_for_endpoint thread_id fd e (b, s) = (None, (b, s)).
Proof.
  intros Hs. unfold resolve_runtime_config_for_endpoint, on_env. run_simpl.
  unfold base_config. run_simpl. rewrite (no_segment_owner s Hs). run_simpl.
  rewrite (no_segment_config s Hs). done.
Qed.

Lemma dns_unconfigured thread_id hn sni b s :
  no_segment s → runtime_dns_config_for_query thread_id hn sni (b, s) = (None, (b, s)).
Proof.
  intros Hs. unfold runtime_dns_config_for_query, on_env. run_simpl.
  by rewrite (no_segment_config s Hs).
Qed.

Lemma runtime_config_unconfigured fd p :
  unconfigured p → runtime_config_for_fd fd p = (None, p).
Proof.
  intros Hp. unfold runtime_config_for_fd. run_simpl. unfold on_bridge_of. rewrite zoom_run.
  rewrite resolve_unconfigured by done. by destruct p.
Qed.

Lemma runtime_config_addr_unconfigured fd a al p :
  unconfigured p → runtime_config_for_addr_or_fd fd a al p = (None, p).
Proof.
  intros Hp. unfold runtime_config_for_addr_or_fd. run_simpl. unfold on_bridge_of. rewrite zoom_run.
  rewrite resolve_unconfigured by done. by destruct p.
Qed.

(** [c] is to its caller and the kernel what [d] is. *)
Definition like {A} (c d : M P A) : Prop :=
  ∀ p p', unconfigured p → facade p = facade p' →
    (c p).1 = (d p').1 ∧ facade (c p).2 = facade (d p').2.

Lemma like_call k : like (call k) (call k).
Proof.
  intros p p' _ Hp. unfold facade in Hp. injection Hp as Hk Ht Hc. unfold facade, call. cbn.
  by rewrite Hk, Ht, Hc.
Qed.

Lemma call_unconfigured k p : unconfigured p → unconfigured (call k p).2.
Proof. done. Qed.

Lemma like_bind {A B} (c d : M P A) (f g : A → M P B) :
  like c d → (∀ p, unconfigured p → unconfigured (c p).2) → (∀ a, like (f a) (g a)) →
  like (c ≫= f) (d ≫= g).
Proof.
  intros Hc Hu Hf p p' Hp Hpp. rewrite !bind_run. destruct (Hc p p' Hp Hpp) as [Ha Hs]. rewrite Ha.
  apply Hf; auto.
Qed.

Lemma like_ret {A} (a : A) : like (mret a) (mret a).
Proof. by intros p p' _ Hp. Qed.

Lemma like_call_ret k : like (call_ret k) (call_ret k).
Proof. apply like_bind; [apply like_call|done|intros; apply like_ret]. Qed.

Lemma like_before {A B} (c : M P A) (f : A → M P B) d : silent c → (∀ a, like (f a) d) → like (c ≫= f) d.
Proof.
  intros Hc Hf p p' Hp Hpp. rewrite bind_run. destruct (Hc p Hp) as [Hs Hu]. apply Hf; [done|].
  by rewrite Hs.
Qed.

Lemma like_after {A} (c d : M P A) (f : A → M P unit) :
  like c d → (∀ p, unconfigured p → unconfigured (c p).2) → (∀ a, silent (f a)) →
  like (a ← c; f a;; mret a) d.
Proof.
  intros Hc Hu Hf p p' Hp Hpp. rewrite !bind_run. run_simpl. destruct (Hc p p' Hp Hpp) as [Ha Hs].
  destruct (Hf (c p).1 (c p).2 (Hu p Hp)) as [Hs' _]. by rewrite Hs'.
Qed.

Lemma entered_silent p : unconfigured p → facade (entered p) = facade p ∧ unconfigured (entered p).
Proof. intros Hp. pose proof (silent_initialize (p <| in_hook := true |>)) as Hi. exact (Hi Hp). Qed.

Lemma like_hook {A} (orig body : M P A) p :
  outside p → unconfigured p → like body orig →
  (hook orig body p).1 = (orig p).1 ∧ facade (hook orig body p).2 = facade (orig p).2.
Proof.
  intros Hout Hp Hb. rewrite hook_run by done. destruct (entered_silent p Hp) as [Hs Hu].
  exact (Hb (entered p) p Hu Hs).
Qed.

(** ** The parts of the hooks *)

Lemma silent_clone src dst : silent (on_binding (clone_fd_binding src dst)).
Proof.
  apply silent_on_bridge_of. intros b s Hs. unfold clone_fd_binding, on_env, on_bridge. run_simpl.
  by rewrite no_segment_clone.
Qed.

Lemma silent_clear fd : silent (on_binding (clear_fd_binding fd)).
Proof.
  apply silent_on_bridge_of. intros b s Hs. unfold clear_fd_binding, on_env, on_bridge. run_simpl.
  by rewrite no_segment_clear.
Qed.

Lemma silent_bind_current fd : silent (bind_current fd).
Proof.
  apply silent_bind; [done|intros t]. apply silent_on_bridge_of. intros b s Hs.
  unfold bind_fd_to_current_thread, on_env. destruct (fd <? 0); [done|]. run_simpl.
  by rewrite no_segment_assign.
Qed.

Lemma silent_clear_states fd : silent (clear_states fd).
Proof. by apply silent_modify. Qed.

Lemma silent_rebind oldfd out : silent (rebind oldfd out).
Proof.
  unfold rebind. destruct (0 <=? out); [|done]. apply silent_bind; [|intros _; apply silent_clone].
  destruct (negb _); [apply silent_clear_states|done].
Qed.

Lemma silent_forget_bindings fd : silent (forget_ssl_bindings_for_fd fd).
Proof.
  unfold forget_ssl_bindings_for_fd. destruct (fd <? 0); [done|]. apply silent_bind; [done|].
  intros [|key keys]; [done|]. apply silent_bind; [by apply silent_modify|intros _; by apply silent_modify].
Qed.

Lemma silent_forget_state ssl : silent (forget_ssl_state ssl).
Proof. unfold forget_ssl_state. destruct (ssl_key ssl); [by apply silent_modify|done]. Qed.

Lemma silent_remember_fd ssl fd : silent (remember_ssl_fd ssl fd).
Proof.
  unfold remember_ssl_fd. destruct (fd <? 0); [done|]. destruct (ssl_key ssl); [|done].
  apply silent_bind; [by apply silent_modify|intros _]. apply silent_bind; [done|].
  by intros [sni|].
Qed.

Lemma silent_observe_addr a al hn : silent (observe_hostname_for_current_thread_addr a al hn).
Proof.
  unfold observe_hostname_for_current_thread_addr. apply silent_bind; [done|intros t].
  apply silent_bind; [done|intros n]. destruct (endpoint_for_addr_or_fd _ _ _ _); [|done].
  apply silent_on_bridge_of. done.
Qed.

Lemma silent_for_each {X} (f : X → M P unit) xs : (∀ x, silent (f x)) → silent (for_each f xs).
Proof.
  intros Hf. induction xs as [|x xs IH]; [done|]. cbn [for_each]. by apply silent_bind.
Qed.

Lemma silent_observe_answers hn res_null a : silent (observe_answers hn res_null a).
Proof.
  unfold observe_answers. destruct hn; [|done]. destruct (_ && _); [|done].
  apply silent_for_each. intros [[b|] l]; cbn [fst snd]; [|done].
  destruct (0 <? l); [apply silent_observe_addr|done].
Qed.

(** A buffer and its length as the caller gives them. *)
Definition whole_buffer (c : SendCall) : Prop :=
  match call_buf c with Some bs => call_len c = Z.of_nat (length bs) | None => True end.

Lemma whole_payload c :
  whole_buffer c →
  let eff := default [] (payload_of (call_buf c) (call_len c)) in
  out_buf c eff = call_buf c ∧ out_len c eff = call_len c.
Proof.
  unfold whole_buffer, payload_of, out_buf, out_len. destruct (call_buf c) as [bs|]; [|done].
  intros Hl. cbn [mbind option_bind]. destruct (Z.ltb_spec 0 (call_len c)); [|done].
  unfold copy_bytes. rewrite Hl, Nat2Z.id, take_ge by done. cbn [default].
  by destruct bs.
Qed.

Lemma with_send_queue_run {A} fd (op : M (list PendingDatagram * P) A) p :
  (with_send_queue fd op p).1 = (op (queue_of p fd, p)).1 ∧
  facade (with_send_queue fd op p).2 = facade (op (queue_of p fd, p)).2.2.
Proof. done. Qed.

Lemma with_recv_queue_run {A} fd (op : M (list PendingDatagram * (Caller * P)) A) s :
  ∃ q, (with_recv_queue fd op s).1 = (op (q, s)).1 ∧
    (with_recv_queue fd op s).2.1 = (op (q, s)).2.2.1 ∧
    facade (with_recv_queue fd op s).2.2 = facade (op (q, s)).2.2.2.
Proof. by eexists. Qed.

(** Without a configuration a sending handler makes the original call only. *)
Lemma uplink_unconfigured site fd l payload nb lookup orig stage dups q p :
  lookup p = (None, p) →
  let r := handle_uplink_send (N:=N) site fd l payload nb lookup orig stage dups (q, p) in
  r.1 = (orig (default [] payload) p).1 ∧ facade r.2.2 = facade (orig (default [] payload) p).2.
Proof.
  intros Hl. cbv zeta. unfold handle_uplink_send, on_process. run_simpl. rewrite Hl. run_simpl.
  by case_match.
Qed.

Lemma downlink_unconfigured site fd l nb orig snap put q s :
  unconfigured s.2 →
  handle_downlink_recv (N:=N) site fd l nb orig snap put (q, s) =
    ((orig s).1, true, (q, (orig s).2)).
Proof.
  intros Hu. destruct s as [c p]. unfold handle_downlink_recv, in_process, with_caller, on_process.
  run_simpl. rewrite runtime_config_unconfigured by done. done.
Qed.

Lemma like_send c p :
  outside p → unconfigured p → whole_buffer c →
  let orig := call_ret (original_call c (call_buf c) (call_len c)) in
  (send_hook c p).1 = (orig p).1 ∧ facade (send_hook c p).2 = facade (orig p).2.
Proof.
  intros Hout Hp Hw. cbv zeta.
  destruct (send_hook_shape c) as (site & dup & lookup & _ & ->).
  apply like_hook; [done|done|]. apply like_before; [apply silent_observe_tls|intros _].
  intros p1 p2 Hp1 Hpp.
  match goal with |- context [with_send_queue (call_fd c) ?op p1] =>
    destruct (with_send_queue_run (call_fd c) op p1) as [-> ->] end.
  rewrite !bind_run.
  change (on_process (is_non_blocking (call_fd c)) (queue_of p1 (call_fd c), p1)) with
    ((is_non_blocking (call_fd c) p1).1,
     (queue_of p1 (call_fd c), (is_non_blocking (call_fd c) p1).2)).
  cbn [fst snd].
  destruct (silent_is_non_blocking (call_fd c) p1 Hp1) as [Hs Hu].
  assert (Hlookup : call_config c (is_non_blocking (call_fd c) p1).2 = (None, (is_non_blocking (call_fd c) p1).2)).
  { destruct c; cbn [call_config]; by first [apply runtime_config_addr_unconfigured
                                            |apply runtime_config_unconfigured]. }
  match goal with |- context [handle_uplink_send ?a ?b ?d ?e ?f ?g ?h ?i ?j (?q, ?x)] =>
    destruct (uplink_unconfigured a b d e f g h i j q x Hlookup) as [-> ->] end.
  destruct (whole_payload c Hw) as [-> ->]. apply like_call_ret; [done|by rewrite Hs].
Qed.

(** A receiving hook around the original [orig]. *)
Lemma like_receive s at_site nb_fd l orig snap put :
  outside s.2 → unconfigured s.2 →
  (∀ c p p', unconfigured p → facade p = facade p' →
     (orig (c, p)).1 = (orig (c, p')).1 ∧ (orig (c, p)).2.1 = (orig (c, p')).2.1 ∧
     facade (orig (c, p)).2.2 = facade (orig (c, p')).2.2) →
  let r := hook_caller (N:=N) orig
    (nb ← on_process (is_non_blocking nb_fd);
     r ← with_recv_queue nb_fd (handle_downlink_recv at_site nb_fd l nb orig snap put);
     record_received nb_fd r) s in
  r.1 = (orig s).1 ∧ r.2.1 = (orig s).2.1 ∧ facade r.2.2 = facade (orig s).2.2.
Proof.
  intros Hout Hp Horig. destruct s as [c p]. cbn [snd] in Hp. cbv zeta. rewrite hook_caller_run by done.
  cbn [fst snd]. destruct (entered_silent p Hp) as [Hs Hu].
  destruct (silent_is_non_blocking nb_fd (entered p) Hu) as [Hs1 Hu1]. rewrite !bind_run.
  change (on_process (is_non_blocking nb_fd) (c, entered p)) with
    ((is_non_blocking nb_fd (entered p)).1, (c, (is_non_blocking nb_fd (entered p)).2)).
  cbn [fst snd].
  set (nb := (is_non_blocking nb_fd (entered p)).1). set (p1 := (is_non_blocking nb_fd (entered p)).2) in *.
  destruct (Horig c p1 p Hu1 ltac:(by rewrite Hs1, Hs)) as (H1' & H2' & H3').
  destruct (with_recv_queue_run nb_fd (handle_downlink_recv at_site nb_fd l nb orig snap put) (c, p1))
    as (q & Hr & Hc & Hf). rewrite downlink_unconfigured in Hr, Hc, Hf by done.
  cbn [fst snd] in Hr, Hc, Hf. unfold record_received, on_process. run_simpl. rewrite Hr. cbn [fst snd].
  split; [exact H1'|]. destruct (true && _); run_simpl; rewrite ?Hc, <- ?H2', <- ?H3', <- ?Hf; done.
Qed.

(** The hooks whose original call is given and answered whole: a sender's length
    is its buffer's, and no host name is set on a TLS handle, which asks for the
    handle's descriptor by a further original call. *)
Definition plain (h : Hooked) : Prop :=
  match h with
  | HSend c => whole_buffer c
  | HSslCtrl _ cmd larg _ =>
      (cmd =? SSL_CTRL_SET_TLSEXT_HOSTNAME) && (larg =? TLSEXT_NAMETYPE_HOST_NAME) = false
  | _ => True
  end.

Lemma like_orig_then {A} (k : M P A) (f : A → M P unit) :
  like k k → (∀ p, unconfigured p → unconfigured (k p).2) → (∀ a, silent (f a)) →
  like (a ← k; f a;; mret a) k.
Proof. apply like_after. Qed.

Lemma call_ret_unconfigured k p : unconfigured p → unconfigured (call_ret k p).2.
Proof. done. Qed.

Lemma like_connect s a l : like
  (bind_current s;;
   network_cfg ← runtime_config_for_addr_or_fd s a l;
   match network_cfg with
   | None => call_ret (SysConnect s a l)
   | Some network_cfg =>
       decision ← replaying_at "connect_pre" (on_engine_of (evaluate_connect s network_cfg));
       error ← on_thread (apply_connect_directive (map_connect_decision decision));
       match error with Some error => mret error | None => call_ret (SysConnect s a l) end
   end) (call_ret (SysConnect s a l)).
Proof.
  apply like_before; [apply silent_bind_current|intros _]. intros p p' Hp Hpp. rewrite bind_run.
  rewrite runtime_config_addr_unconfigured by done. by apply like_call_ret.
Qed.

Lemma like_getaddrinfo n sv hs res_null : like
  (eai ← dns_fault (normalized_name_from_cstr n);
   match eai with
   | Some eai => mret (mkAnswer eai None None [])
   | None =>
       a ← call (SysGetaddrinfo n sv hs);
       observe_answers (normalized_name_from_cstr n) res_null a;; mret a
   end) (call (SysGetaddrinfo n sv hs)).
Proof.
  intros p p' Hp Hpp. rewrite bind_run.
  assert (Hf : dns_fault (normalized_name_from_cstr n) p = (None, p)).
  { unfold dns_fault, on_bridge_of. run_simpl. rewrite dns_unconfigured by done. cbn [fst snd].
    run_simpl. unfold runtime_dns_config_for_current_thread.
    rewrite dns_unconfigured by done. by destruct p. }
  rewrite Hf. cbn [fst snd]. clear Hf. revert p p' Hp Hpp.
  apply like_after; [apply like_call|done|intros a; apply silent_observe_answers].
Qed.

Lemma like_ssl_ctrl ssl cmd larg parg :
  like (call_ssl_ctrl_orig ssl cmd larg parg) (call_ssl_ctrl_orig ssl cmd larg parg).
Proof. unfold call_ssl_ctrl_orig. destruct has_ssl_ctrl; [apply like_call_ret|apply like_ret]. Qed.

Lemma like_ssl_set_fd ssl fd : like (call_ssl_set_fd_orig ssl fd) (call_ssl_set_fd_orig ssl fd).
Proof. unfold call_ssl_set_fd_orig. destruct has_ssl_set_fd; [apply like_call_ret|apply like_ret]. Qed.

Lemma like_ssl_free ssl : like (call_ssl_free_orig ssl) (call_ssl_free_orig ssl).
Proof.
  unfold call_ssl_free_orig. destruct has_ssl_free; [|apply like_ret].
  apply like_bind; [apply like_call|done|intros; apply like_ret].
Qed.

(** A hook's body, beside its original, for the hooks that receive nothing. *)
Lemma like_on_process {A} (c d : M P A) (s : Caller * P) :
  (c s.2).1 = (d s.2).1 ∧ facade (c s.2).2 = facade (d s.2).2 →
  let r := on_process c s in let o := on_process d s in
  r.1 = o.1 ∧ r.2.1 = o.2.1 ∧ facade r.2.2 = facade o.2.2.
Proof. intros [Ha Hs]. by split_and!. Qed.

Lemma like_accepting (c d : option (list Z * Z) → M P Answer) (s : Caller * P) :
  (∀ a, (c a s.2).1 = (d a s.2).1 ∧ facade (c a s.2).2 = facade (d a s.2).2) →
  let r := accepting c s in let o := accepting d s in
  r.1 = o.1 ∧ r.2.1 = o.2.1 ∧ facade r.2.2 = facade o.2.2.
Proof.
  intros Hcd. destruct (Hcd s.1.(address)) as [Ha Hs]. unfold accepting. cbn [fst snd]. by rewrite Ha.
Qed.

Lemma like_inherit s k : like (inherit s (call k)) (call k).
Proof.
  unfold inherit. apply like_after; [apply like_call|done|]. intros a.
  destruct (0 <=? ret a); [apply silent_clone|done].
Qed.
End transparent.

Section transparency.
Context `{Host} `{HashOrder} `{Os} `{Storage} {N : Type} `{Sockets N} `{Libc N}.

Lemma like_received k (upd : Caller → Answer → Caller) (orig : M (Caller * Process N) Z) :
  (orig = λ s, let r := call (k s.1) s.2 in (r.1.(ret), (upd s.1 r.1, r.2))) →
  ∀ c p p', unconfigured p → facade p = facade p' →
    (orig (c, p)).1 = (orig (c, p')).1 ∧ (orig (c, p)).2.1 = (orig (c, p')).2.1 ∧
    facade (orig (c, p)).2.2 = facade (orig (c, p')).2.2.
Proof.
  intros -> c p p' Hp Hpp. destruct (like_call (k c) p p' Hp Hpp) as [Ha Hs]. cbv zeta. cbn [fst snd].
  by rewrite Ha, Hs.
Qed.

End transparency.

(** ** Witnesses *)

#[local] Existing Instance example_host.
#[local] Existing Instance example_os.

(** From inside a hook, [close] does not forget what is held back. *)
Lemma hooks_do_not_reenter_witness :
  let p := (example_process example_segment []) <| in_hook := true |> in
  run_hook (HClose 9) (mkCaller None None, p) = run_original (HClose 9) (mkCaller None None, p).
Proof.
  cbv zeta. apply (hooks_do_not_reenter (HClose 9) (mkCaller None None, _)). by intros [Hin _].
Defined.

(** A host on which no segment can be opened. *)
Definition example_bare_os : Os := {|
  env_var := λ _, None;
  getpid_str := "7"%string;
  os_shm_open := λ _ _, -1;
  os_ftruncate := λ _ _, 0;
  os_fstat := λ _, (0, 0);
  os_mmap := λ _, -1;
  os_mapped := λ _ _, 0;
|}.

