(* ===== verification/HookReceive.v ===== *)
(** * Receiving

    What the receiving hooks leave in the caller's buffer, and how a blocking
    receive swaps two datagrams. *)

From S2P Require Import Prelude.
From S2P Require Import Config.
From S2P Require Import ShmContract.
From S2P Require Import RustStr.
From S2P Require Import ShmRuntime.
From S2P Require Import Layers.
From S2P Require Import Sockets.
From S2P Require Import ChaosEngine.
From S2P Require Import Runtime.
From S2P Require Import Bridge.
From S2P Require Import RecordReplay.
From S2P Require Import Process.
From S2P Require Import Interceptor.
From S2P Require Import Hooks.
From S2P Require Import HookSpecs.
From S2P Require Import HookTransparent.

Open Scope Z_scope.

(** [b'] is [b] with nothing changed but its first [l] bytes. *)
Definition within (l : Z) (b b' : option (list Z)) : Prop :=
  match b, b' with
  | None, None => True
  | Some x, Some y => length x = length y ∧ drop (Z.to_nat l) x = drop (Z.to_nat l) y
  | _, _ => False
  end.

#[export] Instance within_trans l : Transitive (within l).
Proof. intros [x|] [y|] [z|]; cbn; try done. intros [-> ->] [-> ->]. done. Qed.

Lemma within_refl l b : within l b b.
Proof. by destruct b. Qed.

(** The arguments of a receiving call, and what the C library documents of it. *)
Definition receive_args (k : Syscall) : option (option (list Z) * Z) :=
  match k with
  | SysRecv _ b l _ | SysRead _ b l | SysRecvfrom _ b l _ _ => Some (b, l)
  | _ => None
  end.

Class LibcLaws (N : Type) `{Libc N} : Prop := {
  receives_fit k b l st :
    receive_args k = Some (b, l) → 0 ≤ l → (∀ x, b = Some x → l ≤ Z.of_nat (length x)) →
    let a := (original k st).1 in a.(ret) ≤ l ∧ within l b a.(filled);
}.

(** A staged datagram is written like a received one. *)
Lemma write_pending_within pkt b l :
  0 ≤ l → (∀ x, b = Some x → l ≤ Z.of_nat (length x)) →
  (write_pending_recv_result pkt b l).1 ≤ l ∧ within l b (write_pending_recv_result pkt b l).2.
Proof.
  intros Hl Hb. unfold write_pending_recv_result. destruct b as [x|]; [|done].
  specialize (Hb x eq_refl). destruct (Z.eqb_spec l 0) as [Hz|Hz]; [by subst|].
  set (n := Z.min l _). split; [cbn [fst]; lia|]. cbn [snd within].
  assert (Hn : length (take (Z.to_nat n) (data pkt)) = Z.to_nat n) by (rewrite length_take; lia).
  split; [rewrite length_app, length_drop, Hn; lia|].
  rewrite drop_app_ge by (rewrite Hn; lia). rewrite Hn, drop_drop. f_equal. lia.
Qed.

Lemma write_pending_from_fst pkt b l a :
  (write_pending_recvfrom_result pkt b l a).1 = write_pending_recv_result pkt b l.
Proof. unfold write_pending_recvfrom_result, write_pending_recv_result. repeat case_match; done. Qed.

Section bounds.
Context `{Host} `{HashOrder} `{Os} `{Storage} {N : Type} `{Sockets N} `{LibcLaws N}.
Abbreviation P := (Process N).
Abbreviation R := (list PendingDatagram * (Caller * P))%type.
Context (l : Z) (b : option (list Z)) (Hl : 0 ≤ l).
Context (Hb : ∀ x, b = Some x → l ≤ Z.of_nat (length x)).

(** From a caller whose buffer is still [b] outside its first [l] bytes, [c] leaves
    one, and its result satisfies [Post]. *)
Definition keeps_within {A} (c : M (Caller * P) A) (Post : A → Prop) : Prop :=
  ∀ s, within l b s.1.(buffer) → within l b (c s).2.1.(buffer) ∧ Post (c s).1.
Definition stays_within {A} (c : M R A) (Post : A → Prop) : Prop :=
  ∀ s, within l b s.2.1.(buffer) → within l b (c s).2.2.1.(buffer) ∧ Post (c s).1.

Lemma stays_bind {A B} (c : M R A) (f : A → M R B) (PA : A → Prop) (PB : B → Prop) :
  stays_within c PA → (∀ a, PA a → stays_within (f a) PB) → stays_within (c ≫= f) PB.
Proof. intros Hc Hf s Hs. rewrite bind_run. destruct (Hc s Hs) as [Hs' Ha]. by apply Hf. Qed.

Lemma stays_ret {A} (a : A) (Post : A → Prop) : Post a → stays_within (mret a) Post.
Proof. by intros HP s Hs. Qed.

Lemma stays_caller {A} (c : M (Caller * P) A) Post :
  keeps_within c Post → stays_within (with_caller c) Post.
Proof. intros Hc s Hs. exact (Hc s.2 Hs). Qed.

Lemma stays_process {A} (c : M P A) : stays_within (in_process c) (λ _, True).
Proof. by intros s Hs. Qed.

Lemma stays_queue {A} (f : R → A * R) : (∀ s, (f s).2.2 = s.2) → stays_within f (λ _, True).
Proof. intros Hf s Hs. by rewrite Hf. Qed.

Section handler.
Context (orig : M (Caller * P) Z) (snap : Z → M (Caller * P) (option PendingDatagram)).
Context (put : PendingDatagram → M (Caller * P) Z).
Context (Horig : keeps_within orig (λ n, n ≤ l)) (Hsnap : ∀ n, keeps_within (snap n) (λ _, True)).
Context (Hput : ∀ pkt, keeps_within (put pkt) (λ n, n ≤ l)).

Lemma receive_two_within : stays_within (receive_two orig snap put) (λ n, n ≤ l).
Proof.
  unfold receive_two. eapply stays_bind; [by apply stays_caller|]. intros n Hn.
  destruct (n <=? 0); [by apply stays_ret|]. eapply stays_bind; [by apply stays_caller|].
  intros [pkt|] _; [|by apply stays_ret]. eapply stays_bind; [by apply stays_queue|]. intros _ _.
  eapply stays_bind; [by apply stays_caller|]. intros m Hm. destruct (0 <? m); [by apply stays_ret|].
  eapply stays_bind; [by apply stays_queue|]. intros [pkt'|] _; [by apply stays_caller|by apply stays_ret].
Qed.

Lemma receive_one_within nb d : stays_within (receive_one nb orig snap d) (λ n, n ≤ l).
Proof.
  unfold receive_one. eapply stays_bind; [by apply stays_caller|]. intros n Hn.
  destruct (_ && _); [|by apply stays_ret]. eapply stays_bind; [by apply stays_caller|].
  intros [pkt|] _; [|by apply stays_ret]. eapply stays_bind; [by apply stays_queue|]. intros _ _.
  eapply stays_bind; [apply stays_process|]. intros _ _. apply stays_ret. lia.
Qed.

Lemma downlink_mutation_within s cfg out :
  out ≤ l → stays_within (downlink_mutation s snap put cfg out) (λ n, n ≤ l).
Proof.
  intros Hout. unfold downlink_mutation. destruct (out <=? 0); [by apply stays_ret|].
  eapply stays_bind; [by apply stays_caller|]. intros [pkt|] _; [|by apply stays_ret].
  eapply stays_bind; [apply stays_process|]. intros r _.
  eapply stays_bind; [apply stays_process|]. intros _ _. destruct r.2.
  - eapply stays_bind; [by apply stays_caller|]. intros n Hn.
    eapply stays_bind; [apply stays_process|]. intros _ _. by apply stays_ret.
  - eapply stays_bind; [apply stays_process|]. intros _ _. by apply stays_ret.
Qed.

(** A fault's result is -1. *)
Lemma handle_downlink_recv_within at_site s nb :
  stays_within (handle_downlink_recv at_site s l nb orig snap put) (λ r, r.1 ≤ l).
Proof.
  unfold handle_downlink_recv. eapply stays_bind; [apply stays_process|]. intros [cfg|] _.
  2: { eapply stays_bind; [by apply stays_caller|]. intros n Hn. by apply stays_ret. }
  eapply stays_bind; [by apply stays_queue|]. intros [pkt|] _.
  { eapply stays_bind; [by apply stays_caller|]. intros n Hn. by apply stays_ret. }
  eapply stays_bind; [apply stays_process|]. intros d _.
  apply stays_bind with (PA := λ dir, ∀ t r, (apply_stream_directive dir t).1 = Some r → r = -1).
  { intros st Hst. split; [exact Hst|]. intros t r. apply directive_error. }
  intros dir Hdir. apply stays_bind with (PA := λ e, ∀ r, e = Some r → r = -1).
  { intros st Hst. split; [exact Hst|]. intros r. apply Hdir. }
  intros e He. apply stays_bind with (PA := λ n, n ≤ l).
  { destruct e as [e|]; [apply stays_ret; rewrite (He e eq_refl); lia|].
    destruct (negb nb && _); [apply receive_two_within|apply receive_one_within]. }
  intros n Hn. eapply stays_bind; [by apply downlink_mutation_within|]. intros m Hm. by apply stays_ret.
Qed.
End handler.
End bounds.

Section hooks.
Context `{Host} `{HashOrder} `{Os} `{Storage} {N : Type} `{Sockets N} `{LibcLaws N}.
Abbreviation P := (Process N).

Lemma within_length l b b' x :
  within l b b' → b' = Some x → (∀ y, b = Some y → l ≤ Z.of_nat (length y)) → l ≤ Z.of_nat (length x).
Proof. destruct b as [y|]; [|by intros Hw ->]. intros Hw -> Hy. destruct Hw as [<- _]. by apply Hy. Qed.

Lemma receive_keeps l b (k : Caller → Syscall) :
  0 ≤ l → (∀ x, b = Some x → l ≤ Z.of_nat (length x)) →
  (∀ c, receive_args (k c) = Some (c.(buffer), l)) → keeps_within (N:=N) l b (receive k) (λ n, n ≤ l).
Proof.
  intros Hl Hb Hk [c p] Hs. cbn [fst] in Hs.
  destruct (receives_fit (k c) c.(buffer) l (p.(kernel), p.(thread)) (Hk c) Hl) as [Hr Hw].
  { intros x Hx. by eapply within_length. }
  split; [|exact Hr]. by transitivity (buffer c).
Qed.

Lemma receive_from_keeps l b (k : Caller → Syscall) :
  0 ≤ l → (∀ x, b = Some x → l ≤ Z.of_nat (length x)) →
  (∀ c, receive_args (k c) = Some (c.(buffer), l)) → keeps_within (N:=N) l b (receive_from k) (λ n, n ≤ l).
Proof.
  intros Hl Hb Hk [c p] Hs. cbn [fst] in Hs.
  destruct (receives_fit (k c) c.(buffer) l (p.(kernel), p.(thread)) (Hk c) Hl) as [Hr Hw].
  { intros x Hx. by eapply within_length. }
  split; [|exact Hr]. by transitivity (buffer c).
Qed.

Lemma write_caller_keeps l b pkt :
  0 ≤ l → (∀ x, b = Some x → l ≤ Z.of_nat (length x)) →
  keeps_within (N:=N) l b (write_caller l pkt) (λ n, n ≤ l).
Proof.
  intros Hl Hb [c p] Hs. cbn [fst] in Hs.
  destruct (write_pending_within pkt c.(buffer) l Hl) as [Hr Hw].
  { intros x Hx. by eapply within_length. }
  split; [|exact Hr]. by transitivity (buffer c).
Qed.

Lemma write_caller_from_keeps l b pkt :
  0 ≤ l → (∀ x, b = Some x → l ≤ Z.of_nat (length x)) →
  keeps_within (N:=N) l b (write_caller_from l pkt) (λ n, n ≤ l).
Proof.
  intros Hl Hb [c p] Hs. cbn [fst] in Hs.
  destruct (write_pending_within pkt c.(buffer) l Hl) as [Hr Hw].
  { intros x Hx. by eapply within_length. }
  unfold write_caller_from. cbn [fst snd]. rewrite write_pending_from_fst.
  split; [|exact Hr]. by transitivity (buffer c).
Qed.

(** The hook's body around such an original. *)
Lemma hook_within l b at_site s orig snap put (st : Caller * P) :
  0 ≤ l → (∀ x, st.1.(buffer) = Some x → l ≤ Z.of_nat (length x)) → b = st.1.(buffer) →
  keeps_within l b orig (λ n, n ≤ l) → (∀ n, keeps_within l b (snap n) (λ _, True)) →
  (∀ pkt, keeps_within l b (put pkt) (λ n, n ≤ l)) →
  let r := hook_caller orig
    (nb ← on_process (is_non_blocking s);
     r ← with_recv_queue s (handle_downlink_recv at_site s l nb orig snap put);
     record_received s r) st in
  r.1 ≤ l ∧ within l b r.2.1.(buffer).
Proof.
  intros Hl Hb -> Horig Hsnap Hput. cbv zeta.
  destruct (decide (in_hook st.2 = false ∧ setspecific_fails (kernel st.2) = false)) as [Hout|Hout].
  2: { rewrite hook_caller_inside by done. destruct (Horig st (within_refl _ _)). done. }
  rewrite hook_caller_run by done. cbn [fst snd]. rewrite !bind_run.
  change (on_process (is_non_blocking s) (st.1, entered st.2)) with
    ((is_non_blocking s (entered st.2)).1, (st.1, (is_non_blocking s (entered st.2)).2)).
  cbn [fst snd]. set (nb := (is_non_blocking s (entered st.2)).1).
  set (p1 := (is_non_blocking s (entered st.2)).2).
  destruct (with_recv_queue_run s (handle_downlink_recv at_site s l nb orig snap put) (st.1, p1))
    as (q & Hr & Hc & _).
  destruct (handle_downlink_recv_within l st.1.(buffer) Hl orig snap put Horig Hsnap Hput at_site s nb
    (q, (st.1, p1)) (within_refl _ _)) as [Hw Hle].
  rewrite <- Hr in Hle. rewrite <- Hc in Hw. unfold record_received. rewrite bind_run.
  split; [exact Hle|]. by destruct (_ && _).
Qed.

(** The receiving hooks, with the length they are given. *)
Definition receive_len (h : Hooked) : option Z :=
  match h with HRead _ l | HRecv _ l _ | HRecvfrom _ l _ => Some l | _ => None end.

Lemma snapshot_keeps l b f n : keeps_within (N:=N) l b (snapshot_caller f n) (λ _, True).
Proof. by intros s Hs. Qed.

Lemma snapshot_from_keeps l b f n : keeps_within (N:=N) l b (snapshot_caller_from f n) (λ _, True).
Proof. by intros s Hs. Qed.

End hooks.

(** ** What becomes of received datagrams *)

(** A receiving call: its arguments for a caller, what its answer leaves with the
    caller, and how a datagram held back is given to the caller. *)
Record Receiving : Type := mkReceiving {
  rcv_call : Caller → Syscall;
  rcv_fill : Caller → Answer → Caller;
  rcv_put : PendingDatagram → Caller → Z * Caller
}.

Definition receiving (h : Hooked) : option (Z * Receiving) :=
  let put l pkt c := let r := write_pending_recv_result pkt c.(buffer) l in (r.1, c <| buffer := r.2 |>) in
  let fill c a := c <| buffer := a.(filled) |> in
  match h with
  | HRead s l => Some (s, mkReceiving (λ c, SysRead s c.(buffer) l) fill (put l))
  | HRecv s l f => Some (s, mkReceiving (λ c, SysRecv s c.(buffer) l f) fill (put l))
  | HRecvfrom s l f =>
      Some (s, mkReceiving (λ c, SysRecvfrom s c.(buffer) l f c.(address))
        (λ _ a, mkCaller a.(filled) a.(from))
        (λ pkt c, let r := write_pending_recvfrom_result pkt c.(buffer) l c.(address) in
                  (r.1.1, mkCaller r.1.2 r.2)))
  | _ => None
  end.

Section outcome.
Context `{Host} (s : Z) (k : Receiving) (c : Caller).
Abbreviation Q := (list PendingDatagram).

(** The datagram of [n] bytes in a caller's buffer. *)
Definition holds (c : Caller) (n : Z) (pkt : PendingDatagram) : Prop :=
  ∃ x, c.(buffer) = Some x ∧ pkt.(data) = copy_bytes x n.

(** The payload layer leaves a result and a caller, or overwrites them by what it
    makes of the bytes received. *)
Definition delivered (c : Caller) (n r : Z) (c' : Caller) : Prop :=
  (r = n ∧ c' = c) ∨
  ∃ pkt pkt' cfg sys, 0 < n ∧ holds c n pkt ∧
    (evaluate_r7_with_buffer s cfg Downlink n pkt.(data) sys).1.2 = Some pkt'.(data) ∧
    (r, c') = k.(rcv_put) pkt' c.

(** What a receiving call makes of the network: the original calls and their
    answers, what it holds back, its result, and what it leaves with the caller. *)
Inductive received : list (Syscall * Answer) → Q → Z → Caller → Prop :=
  | got_fault : received [] [] (-1) c
  | got_one a r c' :
      delivered (k.(rcv_fill) c a) a.(ret) r c' →
      received [(k.(rcv_call) c, a)] [] r c'
  | got_later a pkt :
      0 < a.(ret) → holds (k.(rcv_fill) c a) a.(ret) pkt →
      received [(k.(rcv_call) c, a)] [pkt] (-1) (k.(rcv_fill) c a)
  | got_second a pkt a2 r c' :
      0 < a.(ret) → holds (k.(rcv_fill) c a) a.(ret) pkt → 0 < a2.(ret) →
      delivered (k.(rcv_fill) (k.(rcv_fill) c a) a2) a2.(ret) r c' →
      received [(k.(rcv_call) c, a); (k.(rcv_call) (k.(rcv_fill) c a), a2)] [pkt] r c'
  | got_first_back a pkt a2 n c1 r c' :
      0 < a.(ret) → holds (k.(rcv_fill) c a) a.(ret) pkt → a2.(ret) ≤ 0 →
      (n, c1) = k.(rcv_put) pkt (k.(rcv_fill) (k.(rcv_fill) c a) a2) →
      delivered c1 n r c' →
      received [(k.(rcv_call) c, a); (k.(rcv_call) (k.(rcv_fill) c a), a2)] [] r c'.
End outcome.

Section logic.
Context `{Host} `{HashOrder} `{Os} `{Storage} {N : Type} `{Sockets N} `{Libc N}.
Abbreviation P := (Process N).
Abbreviation Q := (list PendingDatagram).
Abbreviation R := (Q * (Caller * P))%type.

(** As [HookSpecs.triple], with the caller. *)
Definition rtriple {A} (q : Q) (c : Caller) (op : M R A)
    (Post : A → Q → Caller → list (Syscall * Answer) → Prop) : Prop :=
  ∀ p, ∃ es, seen (op (q, (c, p))).2.2.2 = emit es (seen p) ∧
    Post (op (q, (c, p))).1 (op (q, (c, p))).2.1 (op (q, (c, p))).2.2.1 es.

Lemma rtriple_ret {A} q c (a : A) (Post : A → Q → Caller → list (Syscall * Answer) → Prop) :
  Post a q c [] → rtriple q c (mret a) Post.
Proof. intros HP p. exists []. by rewrite emit_nil. Qed.

Lemma rtriple_bind {A B} q c (op : M R A) (f : A → M R B) Post :
  rtriple q c op (λ a q' c' es, rtriple q' c' (f a) (λ b q'' c'' es', Post b q'' c'' (es ++ es'))) →
  rtriple q c (op ≫= f) Post.
Proof.
  intros Hop p. destruct (Hop p) as (es & Hs & Hf). rewrite bind_run.
  destruct (op (q, (c, p))) as [a [q' [c' p']]]. cbn [fst snd] in *. destruct (Hf p') as (es' & Hs' & HP).
  exists (es ++ es'). by rewrite Hs', Hs, emit_emit.
Qed.

Lemma rtriple_weaken {A} q c (op : M R A) (Post Post' : A → Q → Caller → list (Syscall * Answer) → Prop) :
  rtriple q c op Post → (∀ a q' c' es, Post a q' c' es → Post' a q' c' es) → rtriple q c op Post'.
Proof. intros Hop HP p. destruct (Hop p) as (es & Hs & Hes). exists es. auto. Qed.

Lemma rtriple_quiet {A} q c (op : M P A) (Post : A → Q → Caller → list (Syscall * Answer) → Prop) :
  quiet op → (∀ p, Post (op p).1 q c []) → rtriple q c (in_process op) Post.
Proof. intros Hop HP p. exists []. rewrite emit_nil. split; [apply Hop|apply HP]. Qed.

Lemma rtriple_queue {A} q c (op : M R A) (Post : A → Q → Caller → list (Syscall * Answer) → Prop) q' a :
  (∀ x, op (q, x) = (a, (q', x))) → Post a q' c [] → rtriple q c op Post.
Proof. intros Hop HP p. exists []. by rewrite emit_nil, Hop. Qed.

(** The closures of a receiving hook do what [Receiving] says. *)
Section handler.
Context (s : Z) (k : Receiving).
Context (orig : M (Caller * P) Z) (snap : Z → M (Caller * P) (option PendingDatagram)).
Context (put : PendingDatagram → M (Caller * P) Z).
Context (Horig : ∀ c p, orig (c, p) =
  let r := call (k.(rcv_call) c) p in (r.1.(ret), (k.(rcv_fill) c r.1, r.2))).
Context (Hsnap : ∀ n c p, seen (snap n (c, p)).2.2 = seen p ∧ (snap n (c, p)).2.1 = c ∧
  ∀ pkt, (snap n (c, p)).1 = Some pkt → 0 < n ∧ holds c n pkt).
Context (Hput : ∀ pkt c p, put pkt (c, p) =
  let r := k.(rcv_put) pkt c in (r.1, (r.2, p))).

Lemma rtriple_orig q c (Post : Z → Q → Caller → list (Syscall * Answer) → Prop) :
  (∀ a, Post a.(ret) q (k.(rcv_fill) c a) [(k.(rcv_call) c, a)]) →
  rtriple q c (with_caller orig) Post.
Proof.
  intros HP p. unfold with_caller. rewrite zoom_run. cbn [fst snd]. rewrite Horig. cbn [fst snd].
  eexists. split; [reflexivity|]. apply HP.
Qed.

Lemma rtriple_snap q c n (Post : option PendingDatagram → Q → Caller → list (Syscall * Answer) → Prop) :
  Post None q c [] → (∀ pkt, 0 < n → holds c n pkt → Post (Some pkt) q c []) →
  rtriple q c (with_caller (snap n)) Post.
Proof.
  intros Hn Hp p. unfold with_caller. rewrite zoom_run. cbn [fst snd].
  destruct (Hsnap n c p) as (Hs & Hc & Hpkt). exists []. rewrite emit_nil. split; [exact Hs|].
  rewrite Hc. destruct (snap n (c, p)).1 as [pkt|]; [|exact Hn]. by destruct (Hpkt pkt eq_refl); apply Hp.
Qed.

Lemma rtriple_put q c pkt (Post : Z → Q → Caller → list (Syscall * Answer) → Prop) :
  Post (k.(rcv_put) pkt c).1 q (k.(rcv_put) pkt c).2 [] →
  rtriple q c (with_caller (put pkt)) Post.
Proof.
  intros HP p. unfold with_caller. rewrite zoom_run. cbn [fst snd]. rewrite Hput. cbn [fst snd].
  exists []. by rewrite emit_nil.
Qed.

Lemma downlink_mutation_triple cfg q c n :
  rtriple q c (downlink_mutation s snap put cfg n)
    (λ r q' c' es, q' = q ∧ es = [] ∧ delivered s k c n r c').
Proof.
  unfold downlink_mutation. destruct (n <=? 0); [apply rtriple_ret; by split_and!; [| |left]|].
  apply rtriple_bind, rtriple_snap; [apply rtriple_ret; by split_and!; [| |left]|].
  intros pkt Hn Hpkt. apply rtriple_bind, rtriple_quiet; [quiet|intros p1].
  apply rtriple_bind, rtriple_quiet; [quiet|intros _].
  unfold on_engine_of. rewrite zoom_run. cbn [fst]. set (sys := mkSys _ _ _ _). clearbody sys.
  destruct (evaluate_r7_with_buffer s cfg Downlink n pkt.(data) sys).1.2 as [bytes|] eqn:E.
  - apply rtriple_bind, rtriple_put, rtriple_bind, rtriple_quiet; [quiet|intros _]. apply rtriple_ret.
    split_and!; [done|done|]. right. exists pkt, (pkt <| data := bytes |>), cfg, sys.
    split_and!; [done|done|done|symmetry; apply surjective_pairing].
  - apply rtriple_bind, rtriple_quiet; [quiet|intros _]. apply rtriple_ret. by split_and!; [| |left].
Qed.

(** What the payload layer is given completes to an outcome. *)
Definition gotten (q : Q) (c : Caller) (n : Z) (q' : Q) (c1 : Caller) (es : list (Syscall * Answer)) : Prop :=
  ∃ held, q' = q ++ held ∧ ∀ r c', delivered s k c1 n r c' → received s k c es held r c'.

Lemma delivered_fault c n r c' : n ≤ 0 → delivered s k c n r c' → r = n ∧ c' = c.
Proof. intros Hn [?|(pkt & pkt' & cfg & sys & Hpos & _)]; [done|lia]. Qed.

Lemma gotten_one q c a : gotten q c a.(ret) q (k.(rcv_fill) c a) [(k.(rcv_call) c, a)].
Proof. exists []. split; [by rewrite app_nil_r|]. intros r c'. by constructor. Qed.

Lemma receive_two_triple c : rtriple [] c (receive_two orig snap put) (gotten [] c).
Proof.
  unfold receive_two. apply rtriple_bind, rtriple_orig. intros a.
  destruct (a.(ret) <=? 0); [apply rtriple_ret, gotten_one|].
  apply rtriple_bind, rtriple_snap; [apply rtriple_ret, gotten_one|]. intros pkt Ha Hpkt.
  apply rtriple_bind. apply rtriple_queue with (q' := [pkt]) (a := tt); [done|].
  apply rtriple_bind, rtriple_orig. intros a2. destruct (Z.ltb_spec 0 a2.(ret)).
  - apply rtriple_ret. exists [pkt]. split; [done|]. intros r c'. by econstructor.
  - apply rtriple_bind. apply rtriple_queue with (q' := []) (a := Some pkt); [done|].
    apply rtriple_put. exists []. split; [done|]. intros r c' Hd.
    eapply got_first_back; [exact Ha|exact Hpkt|done|symmetry; apply surjective_pairing|exact Hd].
Qed.

Lemma receive_one_triple nb d c : rtriple [] c (receive_one nb orig snap d) (gotten [] c).
Proof.
  unfold receive_one. apply rtriple_bind, rtriple_orig. intros a.
  destruct (_ && _) eqn:E; [|apply rtriple_ret, gotten_one].
  apply rtriple_bind, rtriple_snap; [apply rtriple_ret, gotten_one|]. intros pkt Ha Hpkt.
  apply rtriple_bind. apply rtriple_queue with (q' := [pkt]) (a := tt); [done|].
  apply rtriple_bind, rtriple_quiet; [quiet|intros _]. apply rtriple_ret.
  exists [pkt]. split; [done|]. intros r c' Hd. apply delivered_fault in Hd as [-> ->]; [|lia].
  by constructor.
Qed.

(** A call serves what was held back first, or makes the outcome of [received]. *)
Definition serves (q : Q) (c : Caller) (r : Z) (q' : Q) (c' : Caller) (es : list (Syscall * Answer)) : Prop :=
  (∃ pkt, q = pkt :: q' ∧ es = [] ∧ (r, c') = k.(rcv_put) pkt c) ∨
  (∃ held, q' = q ++ held ∧ received s k c es held r c').

Lemma gotten_fault c : gotten [] c (-1) [] c [].
Proof.
  exists []. split; [done|]. intros r c' Hd. apply delivered_fault in Hd as [-> ->]; [|lia]. constructor.
Qed.

Lemma handle_downlink_recv_triple at_site l nb q c :
  rtriple q c (handle_downlink_recv at_site s l nb orig snap put) (λ r q' c' es, serves q c r.1 q' c' es).
Proof.
  unfold handle_downlink_recv. apply rtriple_bind, rtriple_quiet; [apply quiet_runtime_config_for_fd|].
  intros p1. destruct ((runtime_config_for_fd s p1).1) as [cfg|].
  2: { apply rtriple_bind, rtriple_orig. intros a. apply rtriple_ret. right. exists [].
       split; [by rewrite app_nil_r|]. constructor. by left. }
  apply rtriple_bind. apply rtriple_queue with (q' := tail q) (a := head q); [done|].
  destruct q as [|pkt q]; cbn [head tail].
  2: { apply rtriple_bind, rtriple_put, rtriple_ret. left. exists pkt.
       split_and!; [done|done|cbn [fst]; by destruct (rcv_put k pkt c)]. }
  apply rtriple_bind, rtriple_quiet; [quiet|intros p2]. set (d := (_ p2).1). clearbody d.
  apply rtriple_bind, rtriple_quiet; [quiet|intros p3].
  apply rtriple_bind, rtriple_quiet; [quiet|intros p4].
  apply rtriple_bind. apply rtriple_weaken with (Post := gotten [] c).
  - destruct ((on_thread _ p4).1) as [e|] eqn:E.
    + apply rtriple_ret. unfold on_thread, on_runtime in E. rewrite !zoom_run in E. cbn [fst] in E.
      apply directive_error in E as ->. apply gotten_fault.
    + destruct (negb nb && _); [apply receive_two_triple|apply receive_one_triple].
  - intros n q' c1 es (held & -> & Hgot). apply rtriple_bind.
    eapply rtriple_weaken; [apply downlink_mutation_triple|]. intros r q'' c' es' (-> & -> & Hd).
    apply rtriple_ret. rewrite !app_nil_l, !app_nil_r. right. exists held. split; [done|]. by apply Hgot.
Qed.
End handler.
End logic.

Section receive_theorem.
Context `{Host} `{HashOrder} `{Os} `{Storage} {N : Type} `{Sockets N} `{Libc N}.
Abbreviation P := (Process N).
Abbreviation Q := (list PendingDatagram).

Definition recv_queue_of (p : P) (fd : Z) : Q :=
  default [] (p.(runtime).(reorder_pending_recv_by_fd) !! fd).

Lemma with_recv_queue_triple {A} fd (op : M (Q * (Caller * P)) A) c p
    (Post : A → Q → Caller → list (Syscall * Answer) → Prop) :
  rtriple (recv_queue_of p fd) c op Post →
  let r := with_recv_queue fd op (c, p) in
  ∃ es, r.2.2.(trace) = p.(trace) ++ es ∧ Post r.1 (recv_queue_of r.2.2 fd) r.2.1 es ∧
    ∀ i, i ≠ fd → recv_queue_of r.2.2 i = recv_queue_of p i.
Proof.
  intros Hop. destruct (Hop p) as (es & Hs & HP). unfold with_recv_queue. cbn [snd].
  change (default [] (reorder_pending_recv_by_fd (runtime p) !! fd)) with (recv_queue_of p fd).
  destruct (op (recv_queue_of p fd, (c, p))) as [a [q' [c' p']]]. cbn [fst snd] in *. cbv zeta.
  cbn [fst snd]. unfold seen, emit in Hs. cbn [fst snd] in Hs. injection Hs as Ht _ Hq.
  match goal with |- context [recv_queue_of ?x fd] => set (pf := x) end.
  assert (Hall : ∀ i, recv_queue_of pf i = if decide (i = fd) then q' else recv_queue_of p i).
  { intros i. unfold recv_queue_of. rewrite <- Hq. exact (queue_of_put _ fd q' i). }
  exists es. split; [exact Ht|]. split; [by rewrite Hall, decide_True|].
  intros i Hi. by rewrite Hall, decide_False.
Qed.

(** The body of a receiving hook around the closures of [k]. *)
Lemma hook_serves at_site fd l k orig snap put (s : Caller * P) :
  outside s.2 →
  (∀ c p, orig (c, p) = let r := call (k.(rcv_call) c) p in (r.1.(ret), (k.(rcv_fill) c r.1, r.2))) →
  (∀ n c p, seen (snap n (c, p)).2.2 = seen p ∧ (snap n (c, p)).2.1 = c ∧
     ∀ pkt, (snap n (c, p)).1 = Some pkt → 0 < n ∧ holds c n pkt) →
  (∀ pkt c p, put pkt (c, p) = let r := k.(rcv_put) pkt c in (r.1, (r.2, p))) →
  let r := hook_caller orig
    (nb ← on_process (is_non_blocking fd);
     r ← with_recv_queue fd (handle_downlink_recv at_site fd l nb orig snap put);
     record_received fd r) s in
  ∃ es, r.2.2.(trace) = s.2.(trace) ++ es ∧
    serves fd k (recv_queue_of s.2 fd) s.1 r.1 (recv_queue_of r.2.2 fd) r.2.1 es ∧
    ∀ i, i ≠ fd → recv_queue_of r.2.2 i = recv_queue_of s.2 i.
Proof.
  intros Hout Horig Hsnap Hput. destruct s as [c p]. cbv zeta. rewrite hook_caller_run by done.
  cbn [fst snd]. rewrite !bind_run.
  change (on_process (is_non_blocking fd) (c, entered p)) with
    ((is_non_blocking fd (entered p)).1, (c, (is_non_blocking fd (entered p)).2)). cbn [fst snd].
  set (nb := (is_non_blocking fd (entered p)).1). set (p1 := (is_non_blocking fd (entered p)).2).
  assert (Hp1 : seen p1 = seen p) by (unfold p1; rewrite quiet_is_non_blocking; apply seen_entered).
  unfold seen in Hp1. injection Hp1 as Ht _ Hq.
  assert (Hq1 : ∀ i, recv_queue_of p1 i = recv_queue_of p i)
    by (intros i; unfold recv_queue_of; by rewrite Hq).
  destruct (with_recv_queue_triple fd (handle_downlink_recv at_site fd l nb orig snap put) c p1
    (λ r q' c' es, serves fd k (recv_queue_of p1 fd) c r.1 q' c' es)) as (es & Hes & HP & Hothers).
  { by apply handle_downlink_recv_triple. }
  set (r := with_recv_queue _ _ (c, p1)) in *. clearbody r. rewrite Hq1 in HP. rewrite Ht in Hes.
  destruct r as [[n recorded] [c' p']]. cbn [fst snd] in *. unfold record_received. cbn [fst snd].
  exists es. rewrite bind_run. destruct (recorded && _); cbn;
    (split; [exact Hes|]; split; [exact HP|]; intros i Hi; rewrite <- Hq1; by apply Hothers).
Qed.

Lemma snapshot_caller_holds f n c (p : P) :
  seen (snapshot_caller f n (c, p)).2.2 = seen p ∧ (snapshot_caller f n (c, p)).2.1 = c ∧
  ∀ pkt, (snapshot_caller f n (c, p)).1 = Some pkt → 0 < n ∧ holds c n pkt.
Proof.
  split; [done|]. split; [done|]. intros pkt. unfold snapshot_caller, on_process, on_clock. run_simpl.
  unfold snapshot_recv_datagram, holds. destruct (buffer c) as [x|]; [|done].
  destruct (Z.leb_spec n 0); run_simpl; [done|]. intros E. apply (inj Some) in E as <-.
  split; [lia|]. by exists x.
Qed.

Lemma snapshot_caller_from_holds f n c (p : P) :
  seen (snapshot_caller_from f n (c, p)).2.2 = seen p ∧ (snapshot_caller_from f n (c, p)).2.1 = c ∧
  ∀ pkt, (snapshot_caller_from f n (c, p)).1 = Some pkt → 0 < n ∧ holds c n pkt.
Proof.
  split; [done|]. split; [done|]. intros pkt. unfold snapshot_caller_from, on_process, on_clock. run_simpl.
  unfold snapshot_recvfrom_datagram, holds. destruct (buffer c) as [x|]; [|done].
  destruct (Z.leb_spec n 0); run_simpl; [done|].
  destruct (match address c with Some _ => _ | None => _ end) as [addr_bytes len]. run_simpl.
  intros E. apply (inj Some) in E as <-. split; [lia|]. by exists x.
Qed.

End receive_theorem.

(** ** Witnesses *)

#[local] Existing Instance example_host.
#[local] Existing Instance example_os.

#[export] Instance example_libc_laws : LibcLaws (list (list Z)).
Proof.
  split. intros k b l st Hk Hl Hb. destruct k; try discriminate Hk; cbn [receive_args] in Hk;
    apply (inj Some) in Hk; injection Hk as <- <-; cbn [original example_libc];
    (destruct (st.1) as [|d rest]; cbn [fst ret filled];
      [split; [lia|apply within_refl]|by apply write_pending_within]).
Qed.

(** Thread 1 reorders everything, over a network that delivers two datagrams. *)
Definition example_swapping : Process (list (list Z)) :=
  example_process (example_row (λ c, c <| Fc.reorder_prob_ppm := 1000000 |> <| Fc.reorder_window := 2 |>))
    [[1; 1; 1]; [2; 2]].


