(* ===== verification/HookLifecycle.v ===== *)
(** * Descriptors across hooks

    What the hooks make of a descriptor's bindings: the owner table of the segment
    as an abstract map over the calls of a process, and what closing forgets. *)

From S2P Require Import Prelude.
From S2P Require Import Config.
From S2P Require Import ShmContract.
From S2P Require Import RustStr.
From S2P Require Import ShmRuntime.
From S2P Require Import Layers.
From S2P Require Import R1SessionGuard.
From S2P Require Import R5TransportFaults.
From S2P Require Import Sockets.
From S2P Require Import ChaosEngine.
From S2P Require Import Runtime.
From S2P Require Import Bridge.
From S2P Require Import RecordReplay.
From S2P Require Import Process.
From S2P Require Import Interceptor.
From S2P Require Import Hooks.
From S2P Require Import HookSpecs.
From S2P Require Import HookTransparent.
From S2P Require Import HookReceive.

Open Scope Z_scope.

Section still.
Context `{Host} `{HashOrder} `{Os} `{Storage} {N : Type} `{Sockets N} `{Libc N}.
Abbreviation P := (Process N).
Abbreviation Q := (list PendingDatagram).

(** ** Computations that leave a mapped segment alone *)

Definition still {A} (c : M P A) : Prop :=
  ∀ p, ready p.(segment) → (c p).2.(segment) = p.(segment).

Lemma still_ret {A} (a : A) : still (mret a).
Proof. done. Qed.

Lemma still_gets {A} (f : P → A) : still (gets f).
Proof. done. Qed.

Lemma still_bind {A B} (c : M P A) (f : A → M P B) : still c → (∀ a, still (f a)) → still (c ≫= f).
Proof. intros Hc Hf p Hp. rewrite bind_run, Hf; rewrite ?Hc; done. Qed.

Lemma still_modify f : (∀ p, segment (f p) = segment p) → still (modify f).
Proof. intros Hf p _. apply Hf. Qed.

Lemma still_on_engine_of {A} (c : M Sys A) : still (on_engine_of c).
Proof. done. Qed.

Lemma still_on_runtime {A} (c : M (InterceptorRuntime * World) A) : still (on_runtime c).
Proof. done. Qed.

Lemma still_on_observations {A} (c : M Bridge A) : still (on_observations c).
Proof. done. Qed.

Lemma still_on_clock {A} (c : M World A) : still (on_clock c).
Proof. done. Qed.

Lemma still_on_thread {A} (c : M Thread A) : still (on_thread c).
Proof. done. Qed.

Lemma still_call k : still (call k).
Proof. done. Qed.

Lemma still_call_ret k : still (call_ret k).
Proof. done. Qed.

Lemma still_replaying_at site (c : M P LayerDecision) : still c → still (replaying_at site c).
Proof.
  intros Hc p Hp. unfold replaying_at. rewrite zoom_run. cbn [snd].
  unfold record_replay_evaluate_or_replay, evaluate_or_replay. cbn [fst snd].
  set (r := core_evaluate_or_replay _ _ _ _). change (segment r.2.2 = segment p). subst r.
  unfold core_evaluate_or_replay. run_simpl. destruct (fail_fast _); [done|].
  destruct (RecordReplay.mode _); run_simpl; [by apply Hc..|].
  destruct (replay_events _); run_simpl; [done|]. destruct (negb _); run_simpl; [done|].
  by destruct (to_decision _).
Qed.

Lemma still_on_bridge_of {A} (c : M (Bridge * ShmState) A) :
  (∀ b s, ready s → (c (b, s)).2.2 = s) → still (on_bridge_of c).
Proof. intros Hc p Hp. exact (Hc p.(bridge) p.(segment) Hp). Qed.

Lemma still_for_each {X} (f : X → M P unit) xs : (∀ x, still (f x)) → still (for_each f xs).
Proof. intros Hf. induction xs as [|x xs IH]; [done|]. cbn [for_each]. by apply still_bind. Qed.

(** ** The readers of a mapped segment *)

Lemma ready_ensure s b : ready s → ensure_open b s = (tt, s).
Proof.
  intros Hs. unfold ensure_open, try_open_shm. rewrite ready_open by done. cbn [negb orb].
  destruct b; [|done]. by rewrite orb_true_r.
Qed.

Lemma ready_config s tid : ready s → (get_config_for_tid tid s).2 = s.
Proof. intros Hs. unfold get_config_for_tid. run_simpl. by rewrite ready_ensure. Qed.

Lemma ready_slot_config s slot : ready s → (get_config_for_tid_slot slot s).2 = s.
Proof. intros Hs. unfold get_config_for_tid_slot. run_simpl. by rewrite ready_ensure. Qed.

Lemma ready_owner s fd : ready s → (get_tid_slot_for_fd fd s).2 = s.
Proof. intros Hs. unfold get_tid_slot_for_fd. run_simpl. by rewrite ready_ensure. Qed.

Lemma ready_rules s slot : ready s → (get_target_rules_for_tid_slot slot s).2 = s.
Proof. intros Hs. unfold get_target_rules_for_tid_slot. run_simpl. by rewrite ready_ensure. Qed.

Lemma ready_read_cfg s slot : ready s → (read_cfg_of_slot slot s).2 = s.
Proof. intros Hs. unfold read_cfg_of_slot. run_simpl. by apply ready_slot_config. Qed.

Lemma reload_still slot e sem n cfg b s :
  ready s →
  (reload_loop slot e sem (get_target_rules_for_tid_slot slot) (read_cfg_of_slot slot) n cfg (b, s)).2.2 = s.
Proof.
  intros Hs. revert cfg b. induction n as [|n IH]; intros cfg b; cbn [reload_loop]; [done|].
  destruct (_ =? 0); [done|]. unfold on_env. run_simpl. rewrite ready_rules by done.
  destruct (get_target_rules_for_tid_slot slot s).1; run_simpl; [|done].
  rewrite ready_read_cfg by done. destruct (read_cfg_of_slot slot s).1; run_simpl; [|done].
  destruct (negb _); [|by destruct (select_best_target_rule _ _ _ _) as [[? ?]|]].
  rewrite bind_run. unfold on_bridge. rewrite zoom_run. cbn [fst snd]. apply IH.
Qed.

Lemma base_config_still thread_id fd s : ready s → (base_config thread_id fd s).2 = s.
Proof.
  intros Hs. unfold base_config. run_simpl. rewrite ready_owner by done.
  destruct (get_tid_slot_for_fd fd s).1; run_simpl.
  - rewrite ready_read_cfg by done. destruct (read_cfg_of_slot z s).1; [done|].
    cbn [fmap option_fmap option_map]. run_simpl. by apply ready_config.
  - by apply ready_config.
Qed.

Lemma resolve_still thread_id fd e b s :
  ready s → (resolve_runtime_config_for_endpoint thread_id fd e (b, s)).2.2 = s.
Proof.
  intros Hs. unfold resolve_runtime_config_for_endpoint, on_env. run_simpl.
  rewrite base_config_still by done. destruct (base_config thread_id fd s).1 as [[cfg slot]|]; [|done].
  run_simpl. unfold on_bridge. run_simpl. destruct e as [e|]; run_simpl;
    unfold apply_multi_target_for_tid; (destruct (_ =? 0); [done|]); [|done].
  by apply reload_still.
Qed.

Lemma dns_still thread_id hn sni b s :
  ready s → (runtime_dns_config_for_query thread_id hn sni (b, s)).2.2 = s.
Proof.
  intros Hs. unfold runtime_dns_config_for_query, on_env. run_simpl. rewrite ready_config by done.
  destruct (get_config_for_tid thread_id s).1 as [cfg|]; [|done]. destruct (_ =? 0); [done|].
  by apply reload_still.
Qed.
End still.

Create HintDb still.
#[export] Hint Resolve still_ret still_gets still_bind still_on_engine_of still_on_runtime
  still_on_observations still_on_clock still_on_thread still_call still_call_ret
  still_replaying_at still_for_each : still.

(** Splits a computation into its steps, as [quiet]. *)
Ltac still :=
  repeat first
    [ solve [auto with still]
    | lazymatch goal with
      | |- still (if ?b then _ else _) => destruct b
      | |- still (match ?x with _ => _ end) => destruct x
      | |- still (mbind _ _) => apply still_bind; [|intros ?]
      | |- still (modify _) => apply still_modify; intros ?; try reflexivity
      | |- ∀ _, _ => intros ?
      end ].

Section still_parts.
Context `{Host} `{HashOrder} `{Os} `{Storage} {N : Type} `{Sockets N} `{Libc N}.
Abbreviation P := (Process N).
Abbreviation Q := (list PendingDatagram).

Lemma still_record_mutation applied i o : still (N:=N) (record_mutation applied i o).
Proof. unfold record_mutation. still. Qed.

Lemma still_record_stream_bytes fd bytes : still (N:=N) (record_stream_bytes fd bytes).
Proof. unfold record_stream_bytes. still. Qed.

Lemma still_runtime_config_for_fd fd : still (N:=N) (runtime_config_for_fd fd).
Proof.
  unfold runtime_config_for_fd. apply still_bind; [auto with still|intros t]. apply still_bind; [auto with still|intros n].
  apply still_on_bridge_of. intros b s Hs. by apply resolve_still.
Qed.

Lemma still_runtime_config_for_addr_or_fd fd a al : still (N:=N) (runtime_config_for_addr_or_fd fd a al).
Proof.
  unfold runtime_config_for_addr_or_fd. apply still_bind; [auto with still|intros t].
  apply still_bind; [auto with still|intros n].
  apply still_on_bridge_of. intros b s Hs. by apply resolve_still.
Qed.
Hint Resolve still_record_mutation still_record_stream_bytes still_runtime_config_for_fd
  still_runtime_config_for_addr_or_fd : still.

Lemma still_uplink_mutation s payload cfg : still (N:=N) (uplink_mutation s payload cfg).
Proof. unfold uplink_mutation. still. Qed.

Lemma still_send_pending s pkt : still (N:=N) (send_pending_datagram s pkt).
Proof. unfold send_pending_datagram. still. Qed.

Lemma still_uplink_duplicate_count fd : still (N:=N) (uplink_duplicate_count_for_fd fd).
Proof. unfold uplink_duplicate_count_for_fd. still. Qed.

Lemma still_uplink_duplicate_count_addr fd a al :
  still (N:=N) (uplink_duplicate_count_for_addr_or_fd fd a al).
Proof. unfold uplink_duplicate_count_for_addr_or_fd. still. Qed.

Lemma still_maybe_duplicate site sent lookup k :
  still lookup → still (N:=N) (maybe_duplicate_common site sent lookup (call k;; mret tt)).
Proof. intros Hl. unfold maybe_duplicate_common, times. still. Qed.

Lemma still_observe_tls fd b l : still (N:=N) (observe_tls_sni_from_send_buffer fd b l).
Proof. unfold observe_tls_sni_from_send_buffer. still. Qed.

Lemma still_is_non_blocking fd : still (N:=N) (is_non_blocking fd).
Proof. unfold is_non_blocking. still. Qed.

Lemma still_initialize : still (N:=N) initialize.
Proof.
  unfold initialize. still. intros p Hp. rewrite zoom_run. cbn [snd segment update].
  unfold init_runtime_shm, try_open_shm. rewrite ready_open, orb_true_r by done. done.
Qed.

Lemma still_forget_state ssl : still (N:=N) (forget_ssl_state ssl).
Proof. unfold forget_ssl_state. still. Qed.

Lemma still_remember_sni ssl sni : still (N:=N) (remember_ssl_sni ssl sni).
Proof. unfold remember_ssl_sni. still. Qed.

Lemma still_remember_fd ssl fd : still (N:=N) (remember_ssl_fd ssl fd).
Proof. unfold remember_ssl_fd. still. Qed.

Lemma still_observe_on_remembered key sni : still (N:=N) (observe_on_remembered key sni).
Proof. unfold observe_on_remembered. still. Qed.
Hint Resolve still_remember_fd still_observe_on_remembered : still.

Lemma still_bind_sni ssl sni : still (N:=N) (bind_ssl_sni_if_possible ssl sni).
Proof. unfold bind_ssl_sni_if_possible. still. Qed.

Lemma still_forget_bindings fd : still (N:=N) (forget_ssl_bindings_for_fd fd).
Proof. unfold forget_ssl_bindings_for_fd. still. Qed.

Lemma still_clear_states fd : still (N:=N) (clear_states fd).
Proof. unfold clear_states. still. Qed.

Lemma still_observe_addr a al hn : still (N:=N) (observe_hostname_for_current_thread_addr a al hn).
Proof.
  unfold observe_hostname_for_current_thread_addr. still. by apply still_on_bridge_of.
Qed.

Lemma still_observe_answers hn res_null a : still (N:=N) (observe_answers hn res_null a).
Proof.
  unfold observe_answers. still. apply still_for_each. intros x. still. apply still_observe_addr.
Qed.

Lemma still_dns_fault hn : still (N:=N) (dns_fault hn).
Proof.
  unfold dns_fault. still; apply still_on_bridge_of; intros b s Hs; by apply dns_still.
Qed.
End still_parts.

#[export] Hint Resolve still_record_mutation still_record_stream_bytes still_runtime_config_for_fd
  still_runtime_config_for_addr_or_fd still_uplink_mutation still_send_pending
  still_uplink_duplicate_count still_uplink_duplicate_count_addr still_maybe_duplicate
  still_observe_tls still_is_non_blocking still_forget_state still_remember_sni
  still_remember_fd still_bind_sni still_forget_bindings still_clear_states
  still_observe_answers still_dns_fault : still.

(** ** The handlers, beside a queue and a caller *)

Section still_in.
Context `{Host} `{HashOrder} `{Os} `{Storage} {N : Type} `{Sockets N} `{Libc N}.
Abbreviation P := (Process N).
Abbreviation Q := (list PendingDatagram).

Definition still_in {S A} (getp : S → P) (c : M S A) : Prop :=
  ∀ s, ready (getp s).(segment) → (getp (c s).2).(segment) = (getp s).(segment).

Lemma still_in_ret {S A} (getp : S → P) (a : A) : still_in getp (mret a).
Proof. done. Qed.

Lemma still_in_bind {S A B} (getp : S → P) (c : M S A) (f : A → M S B) :
  still_in getp c → (∀ a, still_in getp (f a)) → still_in getp (c ≫= f).
Proof. intros Hc Hf s Hs. rewrite bind_run, Hf; rewrite ?Hc; done. Qed.

Lemma still_in_process {S A} (c : M P A) : still c → still_in (S:=S * P) snd (on_process c).
Proof. intros Hc s Hs. by apply Hc. Qed.

Lemma still_in_queue {A} (c : M (Q * World) A) : still_in (S:=Q * P) snd (on_queue c).
Proof. done. Qed.

Lemma still_in_caller {A} (c : M (Caller * P) A) :
  still_in snd c → still_in (S:=Q * (Caller * P)) (λ s, s.2.2) (with_caller c).
Proof. intros Hc s Hs. by apply Hc. Qed.

Lemma still_in_pop : still_in (S:=Q * (Caller * P)) (λ s, s.2.2) pop_front.
Proof. done. Qed.

Lemma still_in_push pkt : still_in (S:=Q * (Caller * P)) (λ s, s.2.2) (push_back pkt).
Proof. done. Qed.
End still_in.

#[export] Hint Resolve still_in_ret still_in_process still_in_queue still_in_caller still_in_pop
  still_in_push : still.

Ltac still_in :=
  repeat first
    [ solve [auto with still]
    | lazymatch goal with
      | |- still_in _ (if ?b then _ else _) => destruct b
      | |- still_in _ (match ?x with _ => _ end) => destruct x
      | |- still_in _ (mbind _ _) => apply still_in_bind; [|intros ?]
      | |- still_in _ (on_process _) => apply still_in_process
      | |- still_in _ (in_process _) => apply still_in_caller, still_in_process
      | |- still_in _ (with_caller _) => apply still_in_caller
      end
    | still ].

Section still_handlers.
Context `{Host} `{HashOrder} `{Os} `{Storage} {N : Type} `{Sockets N} `{Libc N}.
Abbreviation P := (Process N).
Abbreviation Q := (list PendingDatagram).

Lemma still_in_uplink site s l payload nb config orig stage dups :
  still (N:=N) config → (∀ eff, still (orig eff)) → (∀ eff, still_in snd (stage eff)) →
  (∀ n eff, still (dups n eff)) →
  still_in snd (handle_uplink_send site s l payload nb config orig stage dups).
Proof. intros Hc Ho Hs Hd. unfold handle_uplink_send, uplink_faults. still_in. Qed.

Lemma still_in_stage_for c eff : still_in (N:=N) snd (stage_for c eff).
Proof. unfold stage_for. still_in. Qed.

Lemma still_in_downlink site s l nb orig snap put :
  still_in (N:=N) snd orig → (∀ n, still_in snd (snap n)) → (∀ pkt, still_in snd (put pkt)) →
  still_in (λ x, x.2.2) (handle_downlink_recv site s l nb orig snap put).
Proof.
  intros Ho Hs Hp. unfold handle_downlink_recv, receive_two, receive_one, downlink_mutation. still_in.
Qed.

Lemma still_with_send_queue {A} fd (op : M (Q * P) A) : still_in snd op → still (with_send_queue fd op).
Proof. intros Hop p Hp. exact (Hop (_, p) Hp). Qed.

Lemma still_with_recv_queue {A} fd (op : M (Q * (Caller * P)) A) :
  still_in (λ s, s.2.2) op → still_in snd (with_recv_queue fd op).
Proof. intros Hop [c p] Hp. exact (Hop (_, (c, p)) Hp). Qed.
End still_handlers.

(** ** The owner table over whole calls *)

(** Binding a descriptor to the slot of a thread, copying a binding, dropping it. *)
Definition upd (i : Z) (v : option Z) (own : Z → option Z) : Z → option Z :=
  λ x, if decide (x = i) then v else own x.

(** What a hooked call that returned [r] does to the owners: a new socket and a
    connected one belong to the calling thread, duplicates and accepted
    connections to the owner of the descriptor they come from. *)
Definition bind_step (h : Hooked) (slot r : Z) (own : Z → option Z) : Z → option Z :=
  match h with
  | HSocket _ _ _ => if 0 <=? r then upd r (Some slot) own else own
  | HConnect s _ _ => upd s (Some slot) own
  | HClose fd => upd fd None own
  | HDup o | HDup2 o _ | HDup3 o _ _ | HAccept o | HAccept4 o _ =>
      if 0 <=? r then upd r (own o) own else own
  | _ => own
  end.

(** The descriptor a duplicate comes from is in the table. *)
Definition source_in_table (h : Hooked) : Prop :=
  match h with
  | HDup o | HDup2 o _ | HDup3 o _ _ | HAccept o | HAccept4 o _ => 0 ≤ o < MAX_FDS
  | _ => True
  end.

Section owners.
Context `{Os}.

Lemma out_of_table fd : ¬ (0 ≤ fd < MAX_FDS) → (fd <? 0) || (MAX_FDS <=? fd) = true.
Proof. lia. Qed.

Lemma owner_assign s fd tid x :
  ready s → 0 ≤ x < MAX_FDS →
  let s' := (assign_rule_to_fd fd tid s).2 in
  ready s' ∧ owner s' x = upd fd (Some (tid_slot tid)) (owner s) x.
Proof.
  intros Hs Hx. unfold upd. cbv zeta. destruct (decide (0 ≤ fd < MAX_FDS)) as [Hfd|Hfd].
  - rewrite assign_rule_to_fd_ready by done. cbn [snd].
    pose proof (set_owner_ready s fd (tid_slot tid) Hs) as Hs'. split; [done|].
    pose proof (tid_slot_range tid) as Ht. change MAX_TIDS with 65536 in Ht.
    rewrite !owner_ready, set_owner_word_spec by (done || mach).
    case_decide; [apply slot_of_word_slot|done].
  - unfold assign_rule_to_fd. rewrite out_of_table by done. by rewrite decide_False by (intros ->; done).
Qed.

Lemma owner_clone s src dst x :
  ready s → 0 ≤ src < MAX_FDS → 0 ≤ x < MAX_FDS →
  let s' := (clone_rule_for_fd src dst s).2 in
  ready s' ∧ owner s' x = upd dst (owner s src) (owner s) x.
Proof.
  intros Hs Hsrc Hx. pose proof Hs as (_ & _ & Hm). unfold upd. cbv zeta.
  destruct (decide (0 ≤ dst < MAX_FDS)) as [Hfd|Hfd].
  - rewrite clone_rule_for_fd_ready by done. cbn [snd].
    pose proof (set_owner_ready s dst (owner_word s src) Hs) as Hs'. split; [done|].
    rewrite !owner_ready, set_owner_word_spec by (done || by apply read_u64_range).
    by case_decide.
  - unfold clone_rule_for_fd. replace ((src <? 0) || (dst <? 0) || (MAX_FDS <=? src) || (MAX_FDS <=? dst))
      with true by lia. by rewrite decide_False by (intros ->; done).
Qed.

Lemma owner_clear s fd x :
  ready s → 0 ≤ x < MAX_FDS →
  let s' := (clear_rule_for_fd fd s).2 in
  ready s' ∧ owner s' x = upd fd None (owner s) x.
Proof.
  intros Hs Hx. unfold upd. cbv zeta. destruct (decide (0 ≤ fd < MAX_FDS)) as [Hfd|Hfd].
  - pose proof (clear_ready s fd Hs Hfd) as Hs'. split; [done|].
    rewrite !owner_ready, clear_owner_word by (done || lia). by case_decide.
  - unfold clear_rule_for_fd. rewrite out_of_table by done. by rewrite decide_False by (intros ->; done).
Qed.
End owners.

Section binding.
Context `{Host} `{HashOrder} `{Os} `{Storage} {N : Type} `{Sockets N} `{Libc N}.
Abbreviation P := (Process N).

(** [c] leaves a mapped segment mapped, its thread as it is, and makes of the
    owners what [f] says of its value. *)
Definition rebinds {A} (c : M P A) (f : A → Z → (Z → option Z) → Z → option Z) : Prop :=
  ∀ p x, ready p.(segment) → 0 ≤ x < MAX_FDS →
    ready (c p).2.(segment) ∧
    owner (c p).2.(segment) x = f (c p).1 (tid_slot p.(tid)) (owner p.(segment)) x.

Definition unbound {A} : A → Z → (Z → option Z) → Z → option Z := λ _ _ own, own.

Lemma rebinds_still {A} (c : M P A) : still c → rebinds c unbound.
Proof. intros Hc p x Hp Hx. by rewrite Hc. Qed.

Lemma rebinds_first {A B} (c : M P A) (f : A → M P B) g :
  still c → (∀ p, (c p).2.(tid) = p.(tid)) → (∀ a, rebinds (f a) g) → rebinds (c ≫= f) g.
Proof.
  intros Hc Ht Hf p x Hp Hx. rewrite bind_run.
  destruct (Hf (c p).1 (c p).2 x) as [Hr Ho]; [by rewrite Hc|done|].
  split; [exact Hr|]. by rewrite Ho, Hc, Ht.
Qed.

(** A binding made of an original's answer, which is returned. *)
Lemma rebinds_then {A} (c : M P A) (f : A → M P unit) (g : A → Z → (Z → option Z) → Z → option Z) :
  still c → (∀ p, (c p).2.(tid) = p.(tid)) → (∀ a, rebinds (f a) (λ _, g a)) →
  rebinds (a ← c; f a;; mret a) g.
Proof.
  intros Hc Ht Hf p x Hp Hx. rewrite !bind_run. run_simpl.
  destruct (Hf (c p).1 (c p).2 x) as [Hr Ho]; [by rewrite Hc|done|].
  split; [exact Hr|]. by rewrite Ho, Hc, Ht.
Qed.

Lemma rebinds_bind_current fd : rebinds (bind_current fd) (λ _ slot, upd fd (Some slot)).
Proof.
  intros p x Hp Hx. unfold bind_current, bind_fd_to_current_thread, on_binding, on_bridge_of. run_simpl.
  destruct (Z.ltb_spec fd 0); run_simpl; cbn [segment update].
  - split; [done|]. unfold upd. by rewrite decide_False by lia.
  - unfold on_env. run_simpl. by apply owner_assign.
Qed.

Lemma rebinds_clone src dst :
  0 ≤ src < MAX_FDS → rebinds (on_binding (clone_fd_binding src dst)) (λ _ _ own, upd dst (own src) own).
Proof.
  intros Hsrc p x Hp Hx. unfold clone_fd_binding, on_binding, on_bridge_of, on_env, on_bridge. run_simpl.
  cbn [segment update]. by apply owner_clone.
Qed.

Lemma rebinds_clear fd : rebinds (on_binding (clear_fd_binding fd)) (λ _ _, upd fd None).
Proof.
  intros p x Hp Hx. unfold clear_fd_binding, on_binding, on_bridge_of, on_env, on_bridge. run_simpl.
  cbn [segment update]. by apply owner_clear.
Qed.

Lemma rebinds_rebind oldfd out :
  0 ≤ oldfd < MAX_FDS →
  rebinds (rebind oldfd out) (λ _ _ own, if 0 <=? out then upd out (own oldfd) own else own).
Proof.
  intros Ho. unfold rebind. destruct (0 <=? out); [|by apply rebinds_still].
  apply rebinds_first; [destruct (negb _); auto with still|by destruct (negb _)|].
  intros _. by apply rebinds_clone.
Qed.

(** The hooks around such bodies. *)
Lemma rebinds_hook {A} (orig body : M P A) g p x :
  outside p → ready p.(segment) → 0 ≤ x < MAX_FDS → rebinds body g →
  let r := hook orig body p in
  ready r.2.(segment) ∧ owner r.2.(segment) x = g r.1 (tid_slot p.(tid)) (owner p.(segment)) x.
Proof.
  intros Hout Hp Hx Hb. cbv zeta. rewrite hook_run by done. cbn [fst snd segment update].
  assert (He : segment (entered p) = segment p).
  { pose proof (still_initialize (p <| in_hook := true |>)) as Hi. exact (Hi Hp). }
  assert (Ht : tid (entered p) = tid p).
  { unfold entered, initialize. run_simpl. by destruct (INITIALIZED _). }
  destruct (Hb (entered p) x) as [Hr Ho]; [by rewrite He|done|].
  split; [exact Hr|]. by rewrite <- Ht, <- He.
Qed.
End binding.

Section lifecycle.
Context `{Host} `{HashOrder} `{Os} `{Storage} {N : Type} `{Sockets N} `{Libc N}.
Abbreviation P := (Process N).

Lemma rebinds_socket_then (k : Syscall) :
  rebinds (N:=N) (fd ← call_ret k; (if 0 <=? fd then bind_current fd else mret tt);; mret fd)
    (λ r slot own, if 0 <=? r then upd r (Some slot) own else own).
Proof.
  apply rebinds_then; [auto with still|done|]. intros r. destruct (0 <=? r).
  - apply rebinds_bind_current.
  - by apply rebinds_still.
Qed.

Definition cloned (src : Z) (r : Z) (slot : Z) (own : Z → option Z) : Z → option Z :=
  if 0 <=? r then upd r (own src) own else own.

Lemma rebinds_dup_then src (k : Syscall) :
  0 ≤ src < MAX_FDS →
  rebinds (N:=N) (fd ← call_ret k; (if 0 <=? fd then on_binding (clone_fd_binding src fd) else mret tt);;
                  mret fd) (cloned src).
Proof.
  intros Hs. apply rebinds_then; [auto with still|done|]. intros r. unfold cloned. destruct (0 <=? r).
  - by apply rebinds_clone.
  - by apply rebinds_still.
Qed.

Lemma rebinds_inherit src (k : Syscall) :
  0 ≤ src < MAX_FDS → rebinds (N:=N) (inherit src (call k)) (λ a, cloned src a.(ret)).
Proof.
  intros Hs. apply rebinds_then; [auto with still|done|]. intros a. unfold cloned. destruct (0 <=? ret a).
  - by apply rebinds_clone.
  - by apply rebinds_still.
Qed.

Lemma rebinds_connect s a l :
  rebinds (N:=N)
    (bind_current s;;
     network_cfg ← runtime_config_for_addr_or_fd s a l;
     match network_cfg with
     | None => call_ret (SysConnect s a l)
     | Some network_cfg =>
         decision ← replaying_at "connect_pre" (on_engine_of (evaluate_connect s network_cfg));
         error ← on_thread (apply_connect_directive (map_connect_decision decision));
         match error with Some error => mret error | None => call_ret (SysConnect s a l) end
     end) (λ _ slot, upd s (Some slot)).
Proof.
  intros p x Hp Hx. rewrite bind_run. destruct (rebinds_bind_current s p x Hp Hx) as [Hr Ho].
  set (p1 := (bind_current s p).2) in *. clearbody p1.
  assert (Hs : still (N:=N) (network_cfg ← runtime_config_for_addr_or_fd s a l;
     match network_cfg with
     | None => call_ret (SysConnect s a l)
     | Some network_cfg =>
         decision ← replaying_at "connect_pre" (on_engine_of (evaluate_connect s network_cfg));
         error ← on_thread (apply_connect_directive (map_connect_decision decision));
         match error with Some error => mret error | None => call_ret (SysConnect s a l) end
     end)) by still.
  rewrite Hs by done. by split.
Qed.

Lemma still_send_hook c (p : P) x :
  outside p → ready p.(segment) → 0 ≤ x < MAX_FDS →
  let r := send_hook c p in
  ready r.2.(segment) ∧ owner r.2.(segment) x = owner p.(segment) x.
Proof.
  intros Hout Hp Hx. cbv zeta.
  assert (Hbody : ∃ body, send_hook (N:=N) c = hook (call_ret (original_call c (call_buf c) (call_len c))) body
    ∧ still body).
  { destruct c as [s b l|s b l f|s b l f a al]; (eexists; split; [reflexivity|]);
      (apply still_bind; [auto with still|intros _]); apply still_with_send_queue;
      (apply still_in_bind; [auto with still|intros nb]); apply still_in_uplink;
      try (intros; unfold maybe_duplicate_write, maybe_duplicate_send, maybe_duplicate_sendto);
      auto with still; still_in. }
  destruct Hbody as (body & -> & Hb). by apply (rebinds_hook _ body unbound), rebinds_still.
Qed.

(** A receiving hook around closures that leave the segment alone. *)
Lemma still_receive at_site fd l orig snap put (s : Caller * P) x :
  outside s.2 → ready s.2.(segment) → 0 ≤ x < MAX_FDS →
  still_in snd orig → (∀ n, still_in snd (snap n)) → (∀ pkt, still_in snd (put pkt)) →
  let r := hook_caller orig
    (nb ← on_process (is_non_blocking fd);
     r ← with_recv_queue fd (handle_downlink_recv at_site fd l nb orig snap put);
     record_received fd r) s in
  ready r.2.2.(segment) ∧ owner r.2.2.(segment) x = owner s.2.(segment) x.
Proof.
  intros Hout Hp Hx Ho Hsn Hpu. cbv zeta. rewrite hook_caller_run by done. cbn [fst snd segment update].
  assert (He : segment (entered s.2) = segment s.2).
  { pose proof (still_initialize (s.2 <| in_hook := true |>)) as Hi. exact (Hi Hp). }
  assert (Hs : still_in snd (nb ← on_process (is_non_blocking fd);
     r ← with_recv_queue fd (handle_downlink_recv at_site fd l nb orig snap put);
     record_received fd r)).
  { apply still_in_bind; [auto with still|intros nb]. apply still_in_bind.
    - by apply still_with_recv_queue, still_in_downlink.
    - intros r. unfold record_received. still_in. }
  rewrite (Hs (s.1, entered s.2)) by (cbn [snd]; by rewrite He). cbn [snd]. by rewrite He.
Qed.

Lemma still_in_receive k : still_in (S:=Caller * P) snd (receive k).
Proof. done. Qed.

Lemma still_in_receive_from k : still_in (S:=Caller * P) snd (receive_from k).
Proof. done. Qed.

Lemma still_in_snapshot f n : still_in (S:=Caller * P) snd (snapshot_caller f n).
Proof. done. Qed.

Lemma still_in_snapshot_from f n : still_in (S:=Caller * P) snd (snapshot_caller_from f n).
Proof. done. Qed.

Lemma still_in_write l pkt : still_in (S:=Caller * P) snd (write_caller l pkt).
Proof. done. Qed.

Lemma still_in_write_from l pkt : still_in (S:=Caller * P) snd (write_caller_from l pkt).
Proof. done. Qed.
End lifecycle.

#[export] Hint Resolve still_in_receive still_in_receive_from still_in_snapshot still_in_snapshot_from
  still_in_write still_in_write_from : still.

Section refinement.
Context `{Host} `{HashOrder} `{Os} `{Storage} {N : Type} `{Sockets N} `{Libc N}.

(** C7. The owner table refines an abstract map of descriptors to threads, over
    every hooked call.  In a mapped segment, a socket made or connected by a thread
    belongs to it; a duplicate or an accepted connection belongs to the owner of the
    descriptor it came from, whatever that number was bound to before; a closed
    descriptor belongs to nobody; and no other call of a hooked function, sending,
    receiving, resolving or of the TLS library, changes any owner. *)
Theorem bindings_refine h (s : Caller * Process N) x :
  outside s.2 → ready s.2.(segment) → source_in_table h → 0 ≤ x < MAX_FDS →
  let r := run_hook h s in
  ready r.2.2.(segment) ∧
  owner r.2.2.(segment) x = bind_step h (tid_slot s.2.(tid)) r.1 (owner s.2.(segment)) x.
Proof.
  intros Hout Hp Hsrc Hx. destruct s as [c p]. cbn [snd] in *.
  destruct h; cbn [run_hook bind_step source_in_table] in *; unfold accepting, on_process;
    rewrite ?zoom_run; cbn [fst snd].
  - by apply (rebinds_hook _ _ _ p x Hout Hp Hx (rebinds_socket_then _)).
  - apply (rebinds_hook _ _ (λ _ _, upd fd None) p x Hout Hp Hx).
    apply rebinds_first; [auto with still|done|intros _].
    apply rebinds_first; [auto with still| |intros _].
    { intros p0. unfold forget_ssl_bindings_for_fd. destruct (fd <? 0); [done|]. run_simpl. by case_match. }
    intros p1 y Hp1 Hy. rewrite bind_run.
    destruct (rebinds_clear fd p1 y Hp1 Hy) as [Hr Ho]. by split.
  - by apply (rebinds_hook _ _ _ p x Hout Hp Hx (rebinds_dup_then oldfd _ Hsrc)).
  - apply (rebinds_hook _ _ _ p x Hout Hp Hx
      (rebinds_then _ (rebind oldfd) (cloned oldfd) (still_call_ret _) (λ _, eq_refl)
         (λ out, rebinds_rebind oldfd out Hsrc))).
  - apply (rebinds_hook _ _ _ p x Hout Hp Hx
      (rebinds_then _ (rebind oldfd) (cloned oldfd) (still_call_ret _) (λ _, eq_refl)
         (λ out, rebinds_rebind oldfd out Hsrc))).
  - by apply (rebinds_hook _ _ _ p x Hout Hp Hx (rebinds_inherit s _ Hsrc)).
  - by apply (rebinds_hook _ _ _ p x Hout Hp Hx (rebinds_inherit s _ Hsrc)).
  - by apply (rebinds_hook _ _ _ p x Hout Hp Hx (rebinds_connect s a l)).
  - by apply still_send_hook.
  - apply still_receive; auto with still.
  - apply still_receive; auto with still.
  - apply still_receive; auto with still.
  - rewrite bind_run. apply (rebinds_hook _ _ unbound p x Hout Hp Hx), rebinds_still. cbv zeta. still.
  - apply (rebinds_hook _ _ unbound p x Hout Hp Hx), rebinds_still.
    unfold call_ssl_ctrl_orig. still.
  - apply (rebinds_hook _ _ unbound p x Hout Hp Hx), rebinds_still.
    unfold call_ssl_set_fd_orig. still.
  - rewrite bind_run. apply (rebinds_hook _ _ unbound p x Hout Hp Hx), rebinds_still.
    unfold call_ssl_free_orig. still.
Qed.
End refinement.

(** ** What closing forgets *)

Section closing.
Context `{Host} `{HashOrder} `{Os} `{Storage} {N : Type} `{Sockets N} `{Libc N}.
Abbreviation P := (Process N).

(** What the process itself keeps about a descriptor, in each of its tables. *)
Definition kept (p : P) (fd : Z) :=
  (queue_of p fd, recv_queue_of p fd, p.(runtime).(latency_start_by_fd) !! fd,
   p.(chaos).(ChaosEngine.r1).(state_by_fd) !! fd, p.(chaos).(r5).(stream_bytes) !! fd,
   p.(bridge).(OBSERVED_SNI_BY_FD) !! fd).

Lemma foldl_delete {A} (map : gmap Z A) keys key :
  foldl (λ map key, delete key map) map keys !! key = if decide (key ∈ keys) then None else map !! key.
Proof.
  revert map. induction keys as [|k keys IH]; intros map; cbn [foldl].
  { rewrite decide_False; [done|apply not_elem_of_nil]. }
  rewrite IH. destruct (decide (key ∈ keys)) as [Hin|Hin]; [rewrite decide_True; [done|by right]|].
  destruct (decide (key = k)) as [->|Hne].
  - rewrite decide_True; [by rewrite lookup_delete_eq|by left].
  - rewrite decide_False, lookup_delete_ne; [done|congruence|]. rewrite elem_of_cons. tauto.
Qed.

(** The TLS handles bound to a descriptor, and no others, are forgotten. *)
Lemma forget_bindings_run fd (p : P) :
  0 ≤ fd →
  let r := (forget_ssl_bindings_for_fd fd p).2 in
  (∀ i, kept r i = kept p i) ∧ r.(trace) = p.(trace) ∧
  ∀ key,
    r.(FD_BY_SSL) !! key = (if decide (p.(FD_BY_SSL) !! key = Some fd) then None else p.(FD_BY_SSL) !! key) ∧
    r.(SNI_BY_SSL) !! key = (if decide (p.(FD_BY_SSL) !! key = Some fd) then None else p.(SNI_BY_SSL) !! key).
Proof.
  intros Hfd. cbv zeta. unfold forget_ssl_bindings_for_fd. rewrite (proj2 (Z.ltb_ge fd 0)) by done.
  set (keys := (map_to_list (filter (λ kv, kv.2 = fd) p.(FD_BY_SSL))).*1).
  assert (Hkeys : ∀ key, key ∈ keys ↔ p.(FD_BY_SSL) !! key = Some fd).
  { intros key. unfold keys. rewrite list_elem_of_fmap. split.
    - intros ([k v] & -> & Hin). apply elem_of_map_to_list, map_lookup_filter_Some in Hin as [Hl <-]. done.
    - intros Hl. exists (key, fd). split; [done|]. by apply elem_of_map_to_list, map_lookup_filter_Some. }
  run_simpl. fold keys. destruct keys as [|k0 ks] eqn:E; run_simpl.
  - split; [done|]. split; [done|]. intros key. by rewrite !decide_False by (rewrite <- Hkeys; apply not_elem_of_nil).
  - split; [done|]. split; [done|]. intros key. cbn [FD_BY_SSL SNI_BY_SSL update].
    rewrite !foldl_delete. destruct (decide (key ∈ k0 :: ks)) as [Hin|Hin].
    + by rewrite !decide_True by by apply Hkeys.
    + by rewrite !decide_False by by rewrite <- Hkeys.
Qed.

Lemma entered_kept (p : P) i :
  kept (entered p) i = kept p i ∧ (entered p).(FD_BY_SSL) = p.(FD_BY_SSL) ∧
  (entered p).(SNI_BY_SSL) = p.(SNI_BY_SSL) ∧ (entered p).(trace) = p.(trace).
Proof. unfold entered, initialize. run_simpl. by destruct (INITIALIZED _). Qed.

(** The states of a descriptor, and no other's. *)
Lemma clear_states_kept fd (p : P) i :
  0 ≤ fd →
  kept (clear_states fd p).2 i =
    if decide (i = fd) then ([], [], None, None, None, p.(bridge).(OBSERVED_SNI_BY_FD) !! i) else kept p i.
Proof.
  intros Hfd. unfold clear_states. run_simpl. unfold kept, queue_of, recv_queue_of. cbn [runtime chaos bridge update].
  unfold ChaosEngine.clear_fd_state, R1SessionGuard.clear_fd_state,
    R5TransportFaults.clear_fd_state, Runtime.clear_fd_state.
  rewrite (proj2 (Z.ltb_ge fd 0)) by done. cbn.
  case_decide as Hi; [subst i; by rewrite !lookup_delete_eq|by rewrite !lookup_delete_ne by congruence].
Qed.

(** The observed name of a descriptor, and no other's. *)
Lemma clear_binding_kept fd (p : P) i :
  0 ≤ fd →
  let p' := (on_binding (clear_fd_binding fd) p).2 in
  kept p' i = ((kept p i).1, if decide (i = fd) then None else (kept p i).2) ∧
  p'.(FD_BY_SSL) = p.(FD_BY_SSL) ∧ p'.(SNI_BY_SSL) = p.(SNI_BY_SSL) ∧ p'.(trace) = p.(trace).
Proof.
  intros Hfd. cbv zeta. split; [|by split_and!]. unfold on_binding, on_bridge_of, clear_fd_binding, on_env, on_bridge.
  run_simpl. unfold kept, queue_of, recv_queue_of. cbn [runtime chaos bridge update fst snd].
  unfold clear_observed_semantic_for_fd. rewrite (proj2 (Z.ltb_ge fd 0)) by done. run_simpl.
  cbn [OBSERVED_SNI_BY_FD update].
  case_decide as Hi; [subst i; by rewrite lookup_delete_eq|by rewrite lookup_delete_ne by congruence].
Qed.

End closing.

(** ** Witnesses *)

#[local] Existing Instance example_host.
#[local] Existing Instance example_os.

(** A new socket, descriptor 12, belongs to thread 1. *)
Lemma bindings_refine_witness :
  let s := (mkCaller None None, example_process example_segment []) in
  let r := run_hook (HSocket 2 1 0) s in
  r.1 = 12 ∧ owner r.2.2.(segment) 12 = Some (tid_slot 1).
Proof.
  intros s r. split; [by vm_compute|].
  destruct (bindings_refine (HSocket 2 1 0) s 12) as [_ Ho]; [done|exact example_segment_ready|done|done|].
  etransitivity; [exact Ho|by vm_compute].
Defined.


(** ** Two behaviours to know of *)

(** A payload that the payload layer truncates to nothing is sent whole: an empty
    effective payload is taken for the absence of one. *)
Lemma emptied_payload_sent_whole :
  let p := example_process (example_row (λ c, c <| Fc.payload_mutation_enabled := 1 |>
    <| Fc.payload_mutation_prob_ppm := 1000000 |> <| Fc.payload_mutation_type := 1 |>
    <| Fc.payload_mutation_truncate_size := 0 |> <| Fc.payload_mutation_max_buffer_size := 64 |>)) [] in
  let r := send 9 (Some [1; 2; 3]) 3 0 p in
  r.2.(runtime).(mutation_applied_total) = 1 ∧ r.2.(runtime).(mutation_bytes_out_total) = 0 ∧
  r.1 = 3 ∧ r.2.(trace).*1 = [SysSend 9 (Some [1; 2; 3]) 3 0].
Proof. by vm_compute. Qed.

(** The bytes a received datagram had are not what is counted when it is mutated:
    the count of bytes in is taken after the result has been overwritten.  Here three
    bytes come in and one goes out. *)
Lemma mutated_receive_miscounted :
  let p := example_process (example_row (λ c, c <| Fc.payload_mutation_enabled := 1 |>
    <| Fc.payload_mutation_prob_ppm := 1000000 |> <| Fc.payload_mutation_type := 1 |>
    <| Fc.payload_mutation_truncate_size := 1 |> <| Fc.payload_mutation_max_buffer_size := 64 |>))
    [[4; 5; 6]] in
  let r := recv 9 3 0 (mkCaller (Some [0; 0; 0]) None, p) in
  r.1 = 1 ∧ r.2.2.(runtime).(mutation_bytes_in_total) = 1 ∧
  r.2.2.(runtime).(mutation_bytes_out_total) = 1.
Proof. by vm_compute. Qed.
