(* ===== verification/Gates.v ===== *)
(** * The gates of the hooks

    Where a hook looks its configuration up, and what comes of it: total loss through
    the layers ([chaos_engine.rs]) ends the call before the original, and a call that
    no configuration applies to is the original (the interceptor's [lib.rs]).  No
    code. *)

From S2P Require Import Prelude.
From S2P Require Import Config.
From S2P Require Import ShmContract.
From S2P Require Import ShmRuntime.
From S2P Require Import Layers.
From S2P Require Import R1SessionGuard.
From S2P Require Import R2ChaosBase.
From S2P Require Import Sockets.
From S2P Require Import ChaosEngine.
From S2P Require Import Runtime.
From S2P Require Import SetPriority.
From S2P Require Import RustStr.
From S2P Require Import Bridge.
From S2P Require Import Tls.
From S2P Require Import RecordReplay.
From S2P Require Import Process.
From S2P Require Import Interceptor.
From S2P Require Import Hooks.
From S2P Require Import HookSpecs.
From S2P Require Import HookTransparent.
From S2P Require Import HookReceive.
From S2P Require Import HookLifecycle.

Open Scope Z_scope.

(** ** Total loss, layer by layer *)

(** A configuration that loses everything in a direction, and has nothing that
    answers before the loss does. *)
Definition loses (d : Direction) (c : Config) : Prop :=
  c.(session_budget_enabled) = 0 ∧ c.(ge_enabled) = 0 ∧
  (effective d c).(packet_loss_ppm) = 1000000.

Section layers.
Context `{Host}.

Lemma R2_loses_all ctx (r : R2ChaosBase) w :
  ctx.(config).(ge_enabled) = 0 → ctx.(config).(packet_loss_ppm) = 1000000 →
  (R2_process ctx (r, w)).1 = Drop.
Proof.
  intros Hge Hloss. destruct (burst_left_dec r ctx.(fd)) as [Hb|Hb].
  - by destruct (R2_process_in_burst ctx r w Hb) as (-> & _).
  - rewrite R2_process_no_burst by done. cbn zeta.
    unfold correlated_loss_ppm. rewrite Hge. cbn [Z.eqb]. rewrite ret_run. cbn [fst snd default].
    rewrite Hloss. reflexivity.
Qed.

Lemma stream_pre_loses fd c bytes d s :
  loses d c → (evaluate_stream_pre fd c bytes d s).1 = Drop.
Proof.
  intros (Hs & Hge & Hloss).
  assert (Hr : ∀ now g, precheck fd bytes d (effective d c) now g = (Continue, g)).
  { intros. unfold precheck. replace (session_budget_enabled (effective d c)) with c.(session_budget_enabled) by by destruct d.
    by rewrite Hs, orb_true_r. }
  assert (Hp : ∀ now e w,
    (process_pipeline (mkPacketContext fd bytes (operation_of d) (Some d) (effective d c) now) (e, w)).1 = Drop).
  { intros. apply run_stages_drop; [by destruct d|]. cbn [dyn obj_process]. rewrite on_layer_run.
    apply R2_loses_all; [by destruct d|exact Hloss]. }
  rewrite stream_pre_faulted; cbn [fst operation_of]; rewrite ?Hr; try done; by rewrite Hp.
Qed.

Lemma connect_loses fd c s : loses Uplink c → (evaluate_connect fd c s).1 = Drop.
Proof.
  intros (_ & Hge & Hloss). unfold evaluate_connect. run_simpl.
  unfold on_engine at 1. rewrite zoom_run. cbn [fst]. apply run_stages_drop; [done|].
  cbn [dyn obj_process]. rewrite on_layer_run. apply R2_loses_all; [exact Hge|exact Hloss].
Qed.
End layers.

(** ** Total loss, in a sending hook *)

Section sending.
Context `{Host} `{HashOrder} `{Os} `{Storage} {N : Type} `{Sockets N} `{Libc N}.
Abbreviation P := (Process N).
Abbreviation Q := (list PendingDatagram).

(** No run is recorded or replayed. *)
Definition replay_off (p : P) : Prop :=
  p.(session).(core).(fail_fast) = false ∧ p.(session).(core).(mode) = Off.

Lemma replaying_off site c (p : P) :
  replay_off p → (replaying_at site c p).1 = (c p).1.
Proof.
  intros [Hf Hm]. unfold replaying_at. rewrite zoom_run. cbn [fst].
  unfold record_replay_evaluate_or_replay, evaluate_or_replay. cbn [fst snd].
  unfold core_evaluate_or_replay. run_simpl. rewrite Hf, Hm. by run_simpl.
Qed.

(** The process a sending hook looks its configuration up in: initialized, and
    with the server name of the bytes to be sent. *)
Definition observed (c : SendCall) (p : P) : P :=
  (observe_tls_sni_from_send_buffer (call_fd c) (call_buf c) (call_len c) (entered p)).2.

Lemma observed_seen c p : seen (observed c p) = seen p.
Proof. unfold observed. rewrite quiet_observe_tls. apply seen_entered. Qed.

(** It has the thread, the segment and the rest of the process. *)
Definition same_row (p p' : P) : Prop :=
  p'.(segment) = p.(segment) ∧ p'.(tid) = p.(tid) ∧ p'.(kernel) = p.(kernel) ∧
  p'.(session) = p.(session).

Lemma entered_same p : ready p.(segment) → same_row p (entered p) ∧ (entered p).(bridge) = p.(bridge).
Proof.
  intros Hp. split; [split_and!|].
  - pose proof (still_initialize (p <| in_hook := true |>)) as Hi. exact (Hi Hp).
  - unfold entered, initialize. run_simpl. by destruct (INITIALIZED _).
  - unfold entered, initialize. run_simpl. by destruct (INITIALIZED _).
  - unfold entered, initialize. run_simpl. by destruct (INITIALIZED _).
  - unfold entered, initialize. run_simpl. by destruct (INITIALIZED _).
Qed.

Lemma observed_same c p : ready p.(segment) → same_row p (observed c p).
Proof.
  intros [(Hs & Ht & Hk & Hss) _]%entered_same. unfold observed, observe_tls_sni_from_send_buffer.
  destruct (call_buf c) as [b|]; [|done]. destruct (_ || _); [done|].
  by destruct (Tls.tls_client_hello_sni _).
Qed.

Lemma observed_names c (p : P) :
  ready p.(segment) →
  (observed c p).(bridge).(OBSERVED_HOSTNAME_BY_ENDPOINT) = p.(bridge).(OBSERVED_HOSTNAME_BY_ENDPOINT).
Proof.
  intros [_ <-]%entered_same. unfold observed. generalize (entered p) as q. intros q.
  unfold observe_tls_sni_from_send_buffer. destruct (call_buf c) as [b|]; [|done].
  destruct (_ || _); [done|]. destruct (Tls.tls_client_hello_sni _); try done.
  unfold on_observations, observe_sni_for_fd. rewrite zoom_run. destruct (_ <? 0); [done|].
  by destruct (normalize_semantic_name _).
Qed.

Lemma on_process_run {S A} (c : M P A) (x : S) p : on_process c (x, p) = ((c p).1, (x, (c p).2)).
Proof. done. Qed.

(** A refusal by the layers ends the call before anything is sent. *)
Lemma faults_loses site fd l payload nb orig stage cfg (p : P) :
  loses Uplink cfg → replay_off p →
  let r := uplink_faults site fd l payload nb orig stage cfg ([], p) in
  r.1.1 = (-1, false) ∧ r.2.1 = [] ∧ seen r.2.2 = seen p ∧ r.2.2.(thread).(errno) = EIO.
Proof.
  intros Hc Hoff. unfold uplink_faults. rewrite bind_run.
  assert (Hflush : ∃ p1, on_queue (flush_expired_reorder cfg.(reorder_max_delay_ns)) ([], p) = ([], ([], p1)) ∧
    replay_off p1 ∧ seen p1 = seen p).
  { unfold on_queue. rewrite zoom_run. cbn [fst snd]. unfold flush_expired_reorder. cbn [fst snd].
    destruct (_ =? 0); [eexists; split_and!; [reflexivity|exact Hoff|done]|].
    cbn [flush_loop]. eexists; split_and!; [reflexivity|exact Hoff|done]. }
  destruct Hflush as (p1 & -> & Hoff1 & Hseen1). cbn [fst snd for_each].
  rewrite bind_run, on_process_run, ret_run. cbn [fst snd].
  rewrite bind_run, on_process_run. cbn [fst snd].
  set (c := on_engine_of (evaluate_stream_pre fd cfg l Uplink)).
  assert (Hd : (replaying_at site c p1).1 = Drop).
  { rewrite replaying_off by done. unfold c, on_engine_of. rewrite zoom_run. cbn [fst].
    by apply stream_pre_loses. }
  assert (Hs2 : seen (replaying_at site c p1).2 = seen p) by by rewrite quiet_replaying_at.
  rewrite Hd. set (p2 := (replaying_at site c p1).2) in *. clearbody p2.
  rewrite bind_run, on_process_run. cbn [fst snd].
  set (m := uplink_mutation fd payload cfg p2).
  assert (Hs3 : seen m.2 = seen p) by (unfold m; by rewrite quiet_uplink_mutation).
  clearbody m. cbn zeta. split_and!; [done|done|exact Hs3|done].
Qed.

(** The hook, from the configuration it looks up. *)
Lemma send_refused c cfg (p : P) :
  outside p → (call_config c (observed c p)).1 = Some cfg → loses Uplink cfg →
  replay_off (observed c p) → queue_of p (call_fd c) = [] →
  let r := send_hook c p in
  r.1 = -1 ∧ r.2.(thread).(errno) = EIO ∧ r.2.(trace) = p.(trace) ∧ queue_of r.2 (call_fd c) = [].
Proof.
  intros Hout Hcfg Hc Hoff Hq. cbv zeta. destruct (send_hook_shape c) as (site & dup & lookup & _ & ->).
  rewrite hook_run by done. rewrite bind_run. fold (observed c p).
  pose proof (observed_seen c p) as Hs1. set (p1 := observed c p) in *. clearbody p1.
  unfold with_send_queue.
  change (default [] (reorder_pending_by_fd (runtime p1) !! call_fd c)) with (queue_of p1 (call_fd c)).
  assert (Hq1 : queue_of p1 (call_fd c) = []).
  { rewrite <- Hq. unfold seen in Hs1. injection Hs1 as _ Hqs _. unfold queue_of. by rewrite Hqs. }
  rewrite Hq1, bind_run, on_process_run. cbn [fst snd].
  change (is_non_blocking (call_fd c) p1).2 with p1.
  unfold handle_uplink_send. rewrite bind_run, on_process_run.
  pose proof (quiet_call_config c p1) as Hs2. rewrite call_config_run in Hcfg, Hs2 |- *.
  cbn [fst snd] in *. rewrite Hcfg.
  match type of Hs2 with seen ?x = _ => set (p2 := x) in * end.
  assert (Hoff2 : replay_off p2) by exact Hoff. clearbody p2. rewrite bind_run.
  match goal with |- context [uplink_faults ?site ?fd ?l ?pl ?nb ?o ?st cfg ([], p2)] =>
    destruct (faults_loses site fd l pl nb o st cfg p2 Hc Hoff2) as (Hr & Hq2 & Hs & He);
    destruct (uplink_faults site fd l pl nb o st cfg ([], p2)) as [[[result staged] eff] [q p3]] end.
  cbn [fst snd] in *. injection Hr as -> ->. subst q. cbn [Z.ltb Z.compare]. rewrite ret_run. cbn [fst snd].
  rewrite Hs2, Hs1 in Hs. unfold seen in Hs. injection Hs as Ht _ _.
  split_and!; [done|exact He|exact Ht|]. unfold queue_of. cbn. by rewrite lookup_delete_eq.
Qed.

(** Nothing applies to the call: it is made as it was, and queues are left alone. *)
Lemma send_passed c (p : P) :
  outside p → (call_config c (observed c p)).1 = None →
  let r := send_hook c p in
  let eff := default [] (payload_of (call_buf c) (call_len c)) in
  ∃ a, r.1 = a.(ret) ∧
    r.2.(trace) = p.(trace) ++ [(original_call c (out_buf c eff) (out_len c eff), a)] ∧
    queue_of r.2 (call_fd c) = queue_of p (call_fd c).
Proof.
  intros Hout Hcfg. cbv zeta. destruct (send_hook_shape c) as (site & dup & lookup & _ & ->).
  rewrite hook_run by done. rewrite bind_run. fold (observed c p).
  pose proof (observed_seen c p) as Hs1. set (p1 := observed c p) in *. clearbody p1.
  unfold with_send_queue.
  change (default [] (reorder_pending_by_fd (runtime p1) !! call_fd c)) with (queue_of p1 (call_fd c)).
  rewrite bind_run, on_process_run. cbn [fst snd].
  change (is_non_blocking (call_fd c) p1).2 with p1.
  unfold handle_uplink_send. rewrite bind_run, on_process_run.
  pose proof (quiet_call_config c p1) as Hs2. rewrite call_config_run in Hcfg, Hs2 |- *.
  cbn [fst snd] in *. rewrite Hcfg. rewrite Hs1 in Hs2.
  match type of Hs2 with seen ?x = _ => set (p2 := x) in * end.
  assert (Hq : queue_of p1 (call_fd c) = queue_of p (call_fd c))
    by (unfold seen in Hs1; injection Hs1 as _ Hqs _; unfold queue_of; by rewrite Hqs).
  rewrite Hq. clearbody p2. unfold seen in Hs2. injection Hs2 as Ht _ _. clear Hs1 Hq Hcfg.
  rewrite bind_run, on_process_run. unfold call_ret at 1. rewrite bind_run, ret_run. cbn [fst snd].
  set (eff := default [] (payload_of (call_buf c) (call_len c))).
  set (k := original_call c (out_buf c eff) (out_len c eff)).
  set (a := (call k p2).1). exists a.
  assert (Hend : ∀ q (p3 : P), trace p3 = p.(trace) ++ [(k, a)] →
    let r := ((if 0 <? ret a then on_process (record_stream_bytes (call_fd c) (ret a)) else mret tt);;
              mret (ret a) : M (Q * P) Z) (q, p3) in
    r.1 = ret a ∧ r.2.1 = q ∧ trace r.2.2 = p.(trace) ++ [(k, a)]).
  { intros q p3 Hp3. by destruct (0 <? ret a). }
  destruct (Hend (queue_of p (call_fd c)) (call k p2).2) as (Hr & Hq & Htr); [cbn; by rewrite Ht|].
  split; [exact Hr|]. split; [exact Htr|]. unfold queue_of at 1. cbn [runtime reorder_pending_by_fd update].
  change (call_ret k p2).1 with (ret a). change (call_ret k p2).2 with (call k p2).2.
  rewrite Hq. unfold queue_of. destruct (reorder_pending_by_fd (runtime p) !! call_fd c) as [[|x l]|]; cbn.
  - by rewrite lookup_delete_eq.
  - by rewrite lookup_insert_eq.
  - by rewrite lookup_delete_eq.
Qed.
End sending.

(** ** Total loss, in a receiving hook *)

Section receiving.
Context `{Host} `{HashOrder} `{Os} `{Storage} {N : Type} `{Sockets N} `{Libc N}.
Abbreviation P := (Process N).
Abbreviation Q := (list PendingDatagram).

(** The body of the three hooks, around the original. *)
Definition receive_body at_site s l (orig : M (Caller * P) Z) snap put : M (Caller * P) Z :=
  hook_caller orig
    (nb ← on_process (is_non_blocking s);
     r ← with_recv_queue s (handle_downlink_recv at_site s l nb orig snap put);
     record_received s r).

Lemma receive_body_run at_site s l orig snap put c (p : P) :
  outside p →
  let op := handle_downlink_recv at_site s l (is_non_blocking s (entered p)).1 orig snap put in
  let r := op (recv_queue_of p s, (c, entered p)) in
  let x := receive_body at_site s l orig snap put (c, p) in
  x.1 = r.1.1 ∧ x.2.1 = r.2.2.1 ∧ x.2.2.(trace) = r.2.2.2.(trace) ∧
  x.2.2.(thread) = r.2.2.2.(thread) ∧ recv_queue_of x.2.2 s = r.2.1 ∧
  x.2.2.(runtime).(reorder_pending_by_fd) = r.2.2.2.(runtime).(reorder_pending_by_fd).
Proof.
  intros Hout op r x. unfold x, receive_body. rewrite hook_caller_run by done. cbn [fst snd].
  rewrite !bind_run.
  change (on_process (is_non_blocking s) (c, entered p)) with
    ((is_non_blocking s (entered p)).1, (c, entered p)). cbn [fst snd]. fold op.
  assert (Hq : recv_queue_of (entered p) s = recv_queue_of p s).
  { pose proof (seen_entered p) as E. unfold seen in E. injection E as _ _ E. unfold recv_queue_of. by rewrite E. }
  unfold with_recv_queue. cbn [snd].
  change (default [] (reorder_pending_recv_by_fd (runtime (entered p)) !! s)) with (recv_queue_of (entered p) s).
  rewrite Hq. fold r. clearbody r. destruct r as [[n recorded] [q [c' p']]]. cbn [fst snd].
  assert (Hall : ∀ p2 : P, p2.(runtime).(reorder_pending_recv_by_fd) =
    match q with [] => delete s | _ => <[s := q]> end p'.(runtime).(reorder_pending_recv_by_fd) →
    recv_queue_of p2 s = q).
  { intros p2 E. unfold recv_queue_of. rewrite E. destruct q; by rewrite ?lookup_delete_eq, ?lookup_insert_eq. }
  unfold record_received. cbn [fst snd]. rewrite bind_run. destruct (recorded && _); cbn;
    (split_and!; [done..| |done]); apply Hall; by destruct q.
Qed.


(** A receiving hook is this body around the closures of its [Receiving]. *)
Lemma receiving_shape h fd k :
  receiving h = Some (fd, k) →
  ∃ site l orig snap put,
    run_hook h = receive_body site fd l orig snap put ∧
    (∀ c (p : P), orig (c, p) = let r := call (k.(rcv_call) c) p in (r.1.(ret), (k.(rcv_fill) c r.1, r.2))).
Proof.
  intros Hh. destruct h; try discriminate Hh; cbn [receiving] in Hh;
    apply (inj Some) in Hh; injection Hh as <- <-; cbn [run_hook]; unfold read, recv, recvfrom, receive_body;
    do 5 eexists; split.
  1,3,5: reflexivity.
  all: intros; reflexivity.
Qed.

Lemma in_process_run {A} (m : M P A) (q : Q) (c : Caller) (p : P) :
  in_process m (q, (c, p)) = ((m p).1, (q, (c, (m p).2))).
Proof. done. Qed.

(** A refusal by the layers ends the call before anything is received. *)
Lemma recv_refused h s k cfg c (p : P) :
  receiving h = Some (s, k) → outside p → (runtime_config_for_fd s (entered p)).1 = Some cfg →
  loses Downlink cfg → replay_off (entered p) → recv_queue_of p s = [] →
  let r := run_hook h (c, p) in
  r.1 = -1 ∧ r.2.1 = c ∧ r.2.2.(thread).(errno) = EIO ∧ r.2.2.(trace) = p.(trace) ∧
  recv_queue_of r.2.2 s = [].
Proof.
  intros Hk Hout Hcfg Hc Hoff Hq. cbv zeta.
  destruct (receiving_shape h s k Hk) as (site & l & orig & snap & put & -> & _).
  destruct (receive_body_run site s l orig snap put c p Hout) as (-> & -> & -> & -> & -> & _).
  rewrite Hq. pose proof (seen_entered p) as Hs. set (p1 := entered p) in *. clearbody p1.
  unfold handle_downlink_recv. rewrite bind_run, in_process_run, Hcfg. cbn [fst snd].
  pose proof (quiet_runtime_config_for_fd s p1) as Hs2. rewrite Hs in Hs2. clear Hs.
  assert (Hoff2 : replay_off (runtime_config_for_fd s p1).2) by exact Hoff.
  set (p2 := (runtime_config_for_fd s p1).2) in *. clearbody p2. clear Hcfg Hoff.
  rewrite bind_run. cbn [pop_front fst snd head tail]. rewrite bind_run, in_process_run. cbn [fst snd].
  set (e := on_engine_of (evaluate_stream_pre s cfg l Downlink)).
  assert (Hd : (replaying_at site e p2).1 = Drop).
  { rewrite replaying_off by done. unfold e, on_engine_of. rewrite zoom_run. cbn [fst].
    by apply stream_pre_loses. }
  assert (Hs3 : seen (replaying_at site e p2).2 = seen p) by by rewrite quiet_replaying_at.
  rewrite Hd. set (p3 := (replaying_at site e p2).2) in *. clearbody p3.
  unfold seen in Hs3. injection Hs3 as Ht _ _. by split_and!.
Qed.

(** Nothing applies to the call: the original answers it. *)
Lemma recv_passed h s k c (p : P) :
  receiving h = Some (s, k) → outside p → (runtime_config_for_fd s (entered p)).1 = None →
  let r := run_hook h (c, p) in
  ∃ a, r.1 = a.(ret) ∧ r.2.1 = k.(rcv_fill) c a ∧ r.2.2.(trace) = p.(trace) ++ [(k.(rcv_call) c, a)] ∧
    recv_queue_of r.2.2 s = recv_queue_of p s.
Proof.
  intros Hk Hout Hcfg. cbv zeta.
  destruct (receiving_shape h s k Hk) as (site & l & orig & snap & put & -> & Horig).
  destruct (receive_body_run site s l orig snap put c p Hout) as (-> & -> & -> & _ & -> & _).
  pose proof (seen_entered p) as Hs. set (p1 := entered p) in *. clearbody p1.
  unfold handle_downlink_recv. rewrite bind_run, in_process_run, Hcfg. cbn [fst snd].
  pose proof (quiet_runtime_config_for_fd s p1) as Hs2. rewrite Hs in Hs2.
  set (p2 := (runtime_config_for_fd s p1).2) in *. clearbody p2.
  unfold seen in Hs2. injection Hs2 as Ht _ _.
  rewrite bind_run. unfold with_caller. rewrite zoom_run, ret_run. cbn [fst snd]. rewrite Horig. cbn [fst snd].
  eexists. split_and!; [done|done| |done]. cbn. by rewrite Ht.
Qed.
End receiving.

(** ** Total loss, connecting *)

Section connecting.
Context `{Host} `{HashOrder} `{Os} `{Storage} {N : Type} `{Sockets N} `{Libc N}.
Abbreviation P := (Process N).

(** The process [connect] looks its configuration up in: the descriptor is the
    thread's already. *)
Definition bound (s : Z) (p : P) : P := (bind_current s (entered p)).2.

Lemma bound_seen s p : seen (bound s p) = seen p.
Proof.
  unfold bound, bind_current, on_binding, on_bridge_of. rewrite bind_run, gets_run. cbn [fst snd].
  rewrite zoom_run. apply seen_entered.
Qed.

Lemma connect_refused s a l cfg (p : P) :
  outside p → (runtime_config_for_addr_or_fd s a l (bound s p)).1 = Some cfg → loses Uplink cfg →
  replay_off (bound s p) →
  let r := connect s a l p in
  r.1 = -1 ∧ r.2.(thread).(errno) = ECONNREFUSED ∧ r.2.(trace) = p.(trace).
Proof.
  intros Hout Hcfg Hc Hoff. cbv zeta. unfold connect. rewrite hook_run by done. rewrite bind_run.
  fold (bound s p). pose proof (bound_seen s p) as Hs. set (p1 := bound s p) in *. clearbody p1.
  rewrite bind_run, Hcfg. pose proof (quiet_runtime_config_for_addr_or_fd s a l p1) as Hs2. rewrite Hs in Hs2.
  assert (Hoff2 : replay_off (runtime_config_for_addr_or_fd s a l p1).2) by exact Hoff.
  set (p2 := (runtime_config_for_addr_or_fd s a l p1).2) in *. clearbody p2.
  rewrite bind_run. set (e := on_engine_of (evaluate_connect s cfg)).
  assert (Hd : (replaying_at "connect_pre" e p2).1 = Drop).
  { rewrite replaying_off by done. unfold e, on_engine_of. rewrite zoom_run. cbn [fst]. by apply connect_loses. }
  assert (Hs3 : seen (replaying_at "connect_pre" e p2).2 = seen p) by by rewrite quiet_replaying_at.
  rewrite Hd. set (p3 := (replaying_at "connect_pre" e p2).2) in *. clearbody p3.
  unfold seen in Hs3. injection Hs3 as Ht _ _. by split_and!.
Qed.

Lemma connect_passed s a l (p : P) :
  outside p → (runtime_config_for_addr_or_fd s a l (bound s p)).1 = None →
  let r := connect s a l p in
  ∃ an, r.1 = an.(ret) ∧ r.2.(trace) = p.(trace) ++ [(SysConnect s a l, an)].
Proof.
  intros Hout Hcfg. cbv zeta. unfold connect. rewrite hook_run by done. rewrite bind_run.
  fold (bound s p). pose proof (bound_seen s p) as Hs. set (p1 := bound s p) in *. clearbody p1.
  rewrite bind_run, Hcfg. pose proof (quiet_runtime_config_for_addr_or_fd s a l p1) as Hs2. rewrite Hs in Hs2.
  set (p2 := (runtime_config_for_addr_or_fd s a l p1).2) in *. clearbody p2.
  unfold seen in Hs2. injection Hs2 as Ht _ _. unfold call_ret. rewrite bind_run, ret_run. cbn [fst snd].
  eexists. split; [done|]. cbn. by rewrite Ht.
Qed.
End connecting.

(** ** The configuration of a row with rules *)

Section rules.
Context `{Host} `{HashOrder} `{Os}.

Lemma always_scheduled c now : c.(schedule_type) = 0 → apply_schedule c now = c.
Proof. intros E. unfold apply_schedule. by rewrite E. Qed.

(** The rules in force, without a schedule. *)
Lemma resolve_named thread_id fd e b sg cfg slot rules :
  ready sg → 0 ≤ fd < MAX_FDS → configuring_row sg thread_id fd = Some (cfg, slot) →
  cfg.(target_enabled) ≠ 0 → cfg.(schedule_type) = 0 →
  get_target_rules_for_tid_slot slot sg = (Some rules, sg) →
  (resolve_runtime_config_for_endpoint thread_id fd (Some e) (b, sg)).1 =
    (λ sel, with_rule cfg sel.2) <$> select_best_target_rule (Some e)
      (mkSemanticContext (endpoint_name slot (Some e) b).1 (b.(OBSERVED_SNI_BY_FD) !! fd)) rules
      (Z.to_nat cfg.(target_enabled) `min` length rules).
Proof.
  intros Hs Hfd Hrow Hen Hsch Hrules.
  pose proof (resolve_targets thread_id fd e b sg cfg slot rules Hs Hfd Hrow Hen Hrules) as [_ E].
  etrans; [exact E|]. clear E.
  destruct (select_best_target_rule _ _ _ _) as [[i rule]|]; [|done]. cbn [fmap option_fmap option_map snd].
  f_equal. by apply always_scheduled.
Qed.
End rules.

(** ** The gated hooks *)

Section gates.
Context `{Host} `{HashOrder} `{Os} `{Storage} {N : Type} `{Sockets N} `{Libc N}.
Abbreviation P := (Process N).
Abbreviation Q := (list PendingDatagram).

(** What the hooks that look a configuration up differ in: the descriptor, the
    direction whose faults apply, the error of total loss, what is noted before the
    lookup, the endpoint it is made for, the data held back on the descriptor, the
    original and what its answer leaves with the caller. *)
Record Gate : Type := mkGate {
  gate_fd : Z;
  gate_direction : Direction;
  gate_errno : Z;
  gate_notes : M P unit;
  gate_endpoint : N → option Endpoint;
  gate_held : P → Q;
  gate_original : Caller → Syscall;
  gate_fill : Caller → Answer → Caller
}.

Definition gate (h : Hooked) : option Gate :=
  match h with
  | HSend c =>
      let bytes := default [] (payload_of (call_buf c) (call_len c)) in
      Some (mkGate (call_fd c) Uplink EIO
        (observe_tls_sni_from_send_buffer (call_fd c) (call_buf c) (call_len c))
        (call_endpoint c) (λ p, queue_of p (call_fd c))
        (λ _, original_call c (out_buf c bytes) (out_len c bytes)) (λ x _, x))
  | HConnect s a l =>
      Some (mkGate s Uplink ECONNREFUSED (bind_current s) (endpoint_for_addr_or_fd s a l) (λ _, [])
        (λ _, SysConnect s a l) (λ x _, x))
  | h =>
      (λ r, mkGate r.1 Downlink EIO (mret tt) (endpoint_for_fd r.1) (λ p, recv_queue_of p r.1)
        r.2.(rcv_call) r.2.(rcv_fill)) <$> receiving h
  end.

(** The process in which the configuration is looked up, and the configuration. *)
Definition at_gate (g : Gate) (p : P) : P := (g.(gate_notes) (entered p)).2.
Definition gate_config (g : Gate) (p : P) : option Config :=
  (resolve_runtime_config_for_endpoint p.(tid) g.(gate_fd) (g.(gate_endpoint) p.(kernel))
     (p.(bridge), p.(segment))).1.

Lemma gate_held_seen h g (p p' : P) :
  gate h = Some g → seen p' = seen p → g.(gate_held) p' = g.(gate_held) p.
Proof.
  intros Hg Hs. unfold seen in Hs. injection Hs as _ Hq Hr.
  destruct h; cbn in Hg; try discriminate Hg; apply (inj Some) in Hg as <-;
    cbn [gate_held]; unfold queue_of, recv_queue_of; by rewrite ?Hq, ?Hr.
Qed.

(** The call is refused with the gate's error, and nothing else happens. *)
Definition refused (h : Hooked) (g : Gate) (s : Caller * P) : Prop :=
  let r := run_hook h s in
  r.1 = -1 ∧ r.2.1 = s.1 ∧ r.2.2.(thread).(errno) = g.(gate_errno) ∧
  r.2.2.(trace) = s.2.(trace) ∧ g.(gate_held) r.2.2 = [].

(** The call is the original's, and no more is held back. *)
Definition passed (h : Hooked) (g : Gate) (s : Caller * P) : Prop :=
  let r := run_hook h s in
  ∃ a, r.1 = a.(ret) ∧ r.2.1 = g.(gate_fill) s.1 a ∧
    r.2.2.(trace) = s.2.(trace) ++ [(g.(gate_original) s.1, a)] ∧
    g.(gate_held) r.2.2 = g.(gate_held) s.2.

Lemma gate_cases h g :
  gate h = Some g →
  (∃ c, h = HSend c) ∨ (∃ s a l, h = HConnect s a l) ∨
  (∃ s k, receiving h = Some (s, k) ∧
     g = mkGate s Downlink EIO (mret tt) (endpoint_for_fd s) (λ p, recv_queue_of p s) k.(rcv_call) k.(rcv_fill)).
Proof.
  destruct h; cbn [gate]; try discriminate; eauto 6; cbn [receiving fmap option_fmap option_map];
    intros Hg; apply (inj Some) in Hg as <-; right; right; eauto.
Qed.

Lemma gate_refused h g cfg (s : Caller * P) :
  gate h = Some g → outside s.2 → replay_off (at_gate g s.2) →
  gate_config g (at_gate g s.2) = Some cfg → loses g.(gate_direction) cfg → g.(gate_held) s.2 = [] →
  refused h g s.
Proof.
  destruct s as [c p]. cbn [fst snd]. intros Hg Hout Hoff Hcfg Hc Hq.
  destruct (gate_cases h g Hg) as [[k ->]|[(fd & a & l & ->)|(fd & k & Hk & ->)]].
  - cbn [gate] in Hg. apply (inj Some) in Hg as <-. cbn in Hcfg, Hoff, Hc, Hq. fold (observed k p) in *.
    destruct (send_refused k cfg p Hout) as (Hr & He & Ht & Hq'); [by rewrite call_config_run|done..|].
    by split_and!.
  - cbn [gate] in Hg. apply (inj Some) in Hg as <-.
    destruct (connect_refused fd a l cfg p Hout Hcfg Hc Hoff) as (Hr & He & Ht). by split_and!.
  - exact (recv_refused h fd k cfg c p Hk Hout Hcfg Hc Hoff Hq).
Qed.

Lemma gate_passed h g (s : Caller * P) :
  gate h = Some g → outside s.2 → gate_config g (at_gate g s.2) = None → passed h g s.
Proof.
  destruct s as [c p]. cbn [fst snd]. intros Hg Hout Hcfg.
  destruct (gate_cases h g Hg) as [[k ->]|[(fd & a & l & ->)|(fd & k & Hk & ->)]].
  - cbn [gate] in Hg. apply (inj Some) in Hg as <-.
    destruct (send_passed k p Hout) as (an & Hr & Ht & Hq); [by rewrite call_config_run|].
    exists an. by split_and!.
  - cbn [gate] in Hg. apply (inj Some) in Hg as <-.
    destruct (connect_passed fd a l p Hout Hcfg) as (an & Hr & Ht). exists an. by split_and!.
  - exact (recv_passed h fd k c p Hk Hout Hcfg).
Qed.

(** ** The thread's own row *)

(** The configuration of a thread's row, without rules and schedule. *)
Definition thread_config (s : ShmState) (thread_id : Z) : option Config :=
  Fc.into_network_config <$> (get_config_for_tid thread_id s).1.

Lemma slot_of_word_range w slot : is_u64 w → slot_of_word w = Some slot → 0 ≤ slot < MAX_TIDS.
Proof.
  unfold slot_of_word, is_u64. destruct (_ || _) eqn:E; [done|]. intros Hw [= <-].
  apply orb_false_iff in E as [_ E]. lia.
Qed.

(** Nobody else with a valid row owns the descriptor. *)
Definition unclaimed (s : ShmState) (thread_id fd : Z) : Prop :=
  ∀ slot, owner s fd = Some slot →
    slot = tid_slot thread_id ∨ read_stable_config s.(shm_mem) ((MAX_FDS + slot) * CONFIG_SIZE) = None.

(** A call of the thread looks at its row when nobody else's applies, or when it is a
    [connect], which makes the descriptor the thread's. *)
Definition own_call (h : Hooked) (g : Gate) (p : P) : Prop :=
  match h with
  | HConnect _ _ _ => True
  | _ => unclaimed p.(segment) p.(tid) g.(gate_fd)
  end.

Lemma unclaimed_none s thread_id fd : owner s fd = None → unclaimed s thread_id fd.
Proof. intros E slot. by rewrite E. Qed.

Lemma unclaimed_own s thread_id fd : owner s fd = Some (tid_slot thread_id) → unclaimed s thread_id fd.
Proof. intros E slot. rewrite E. intros [= <-]. by left. Qed.

Lemma own_row s thread_id fd c :
  ready s → 0 ≤ fd < MAX_FDS → unclaimed s thread_id fd →
  thread_config s thread_id = Some c → configuring_row s thread_id fd = Some (c, tid_slot thread_id).
Proof.
  intros Hs Hfd Howner. unfold thread_config. rewrite get_config_for_tid_ready by done. cbn [fst].
  unfold configuring_row, unclaimed in *. rewrite owner_ready in Howner by done. unfold owner_word in Howner. cbv zeta.
  intros Hc. assert (Hrow : (λ r, (Fc.into_network_config r, tid_slot thread_id)) <$>
    read_stable_config s.(shm_mem) ((MAX_FDS + tid_slot thread_id) * CONFIG_SIZE) = Some (c, tid_slot thread_id)).
  { destruct (read_stable_config _ _); [|done]. by apply (inj Some) in Hc as <-. }
  destruct (slot_of_word _) as [slot|]; cbn [mbind option_bind]; [|exact Hrow].
  destruct (Howner slot eq_refl) as [-> | ->]; [by rewrite Hrow|exact Hrow].
Qed.

Lemma bound_same s (p : P) :
  ready p.(segment) → 0 ≤ s < MAX_FDS →
  bound s p = (entered p) <| segment := set_owner_word (entered p).(segment) s (tid_slot p.(tid)) |>.
Proof.
  intros Hp Hs. destruct (entered_same p Hp) as [(Es & Et & _) _]. unfold bound. generalize dependent (entered p).
  intros q Es Et. unfold bind_current, on_binding, on_bridge_of. rewrite bind_run, gets_run. cbn [fst snd].
  rewrite zoom_run. cbn [fst snd]. unfold bind_fd_to_current_thread. rewrite (proj2 (Z.ltb_ge _ _)) by lia.
  unfold on_env. rewrite zoom_run. cbn [fst snd]. rewrite assign_rule_to_fd_ready by (by rewrite ?Es).
  cbn [fst snd]. rewrite Et. by destruct q.
Qed.

(** What a gate leaves of the process, and what it finds in it. *)
Lemma at_gate_same h g (p : P) :
  gate h = Some g → ready p.(segment) → 0 ≤ g.(gate_fd) < MAX_FDS →
  let q := at_gate g p in
  ready q.(segment) ∧ q.(tid) = p.(tid) ∧ q.(kernel) = p.(kernel) ∧ q.(session) = p.(session) ∧
  q.(bridge).(OBSERVED_HOSTNAME_BY_ENDPOINT) = p.(bridge).(OBSERVED_HOSTNAME_BY_ENDPOINT) ∧
  thread_config q.(segment) p.(tid) = thread_config p.(segment) p.(tid) ∧
  (own_call h g p → unclaimed q.(segment) p.(tid) g.(gate_fd)).
Proof.
  intros Hg Hp Hfd q. destruct (entered_same p Hp) as [(Es & Et & Ek & Ess) Eb].
  destruct (gate_cases h g Hg) as [[c ->]|[(fd & a & l & ->)|(fd & k & Hk & ->)]].
  - cbn [gate] in Hg. apply (inj Some) in Hg as <-. change q with (observed c p).
    destruct (observed_same c p Hp) as (-> & -> & -> & ->). rewrite observed_names by done. by split_and!.
  - cbn [gate] in Hg. apply (inj Some) in Hg as <-. change q with (bound fd p). cbn [gate_fd] in *.
    rewrite bound_same by done. cbn [segment tid kernel session bridge update]. rewrite Es, Et, Ek, Ess, Eb.
    pose proof (set_owner_ready p.(segment) fd (tid_slot p.(tid)) Hp) as Hp'.
    pose proof (tid_slot_range p.(tid)) as Ht. change MAX_TIDS with 65536 in Ht. split_and!; try done.
    + unfold thread_config. rewrite !get_config_for_tid_ready by done. cbn [fst].
      rewrite set_owner_rows; [done|lia|]. change MAX_TIDS with 65536. lia.
    + intros _. apply unclaimed_own.
      by rewrite owner_ready, set_owner_word_spec, decide_True, slot_of_word_slot by (done || mach).
  - change q with (entered p). cbn [gate_fd] in *. rewrite Es, Et, Ek, Ess, Eb. split_and!; try done.
    intros Hown. by destruct h.
Qed.

(** The rules of a thread lie below the owner table. *)
Lemma owner_rules s fd w slot rules :
  ready s → 0 ≤ fd → 0 ≤ slot < MAX_TIDS →
  get_target_rules_for_tid_slot slot s = (Some rules, s) →
  get_target_rules_for_tid_slot slot (set_owner_word s fd w) = (Some rules, set_owner_word s fd w).
Proof.
  intros Hs Hfd Hslot. unfold get_target_rules_for_tid_slot. run_simpl.
  rewrite !ensure_open_ready by auto using set_owner_ready. run_simpl. unfold get_target_rules_base_ptr.
  rewrite (proj2 (Z.leb_gt _ _)) by lia. cbn [SHM_POINTER set_owner_word update].
  destruct (_ =? 0); cbn [mbind option_bind]; [done|]. intros Hr.
  apply (f_equal fst) in Hr. cbn [fst] in Hr. rewrite <- Hr. do 2 f_equal.
  apply list_fmap_ext. intros j i Hi. apply lookup_seq in Hi as [-> Hi]. unfold row_at. do 2 f_equal.
  apply read_bytes_ext. intros x Hx. apply write_u64_outside.
  change (row_size (row_layout Rule.TargetRule)) with (Z.to_nat RULE_SIZE) in Hx.
  unfold FD_OWNER_REGION_OFFSET, TARGET_RULES_REGION_SIZE.
  change (Z.to_nat MAX_TARGET_RULES_PER_TID) with 8%nat in Hi. change MAX_TARGET_RULES_PER_TID with 8.
  assert (0 < RULE_SIZE) by done. generalize dependent RULE_SIZE. intros. nia.
Qed.

Lemma at_gate_rules h g slot rules (p : P) :
  gate h = Some g → ready p.(segment) → 0 ≤ g.(gate_fd) < MAX_FDS → 0 ≤ slot < MAX_TIDS →
  get_target_rules_for_tid_slot slot p.(segment) = (Some rules, p.(segment)) →
  let q := at_gate g p in
  get_target_rules_for_tid_slot slot q.(segment) = (Some rules, q.(segment)).
Proof.
  intros Hg Hp Hfd Hslot Hr q. destruct (entered_same p Hp) as [(Es & _) _].
  destruct (gate_cases h g Hg) as [[c ->]|[(fd & a & l & ->)|(fd & k & Hk & ->)]].
  - cbn [gate] in Hg. apply (inj Some) in Hg as <-. change q with (observed c p).
    destruct (observed_same c p Hp) as (-> & _). exact Hr.
  - cbn [gate] in Hg. apply (inj Some) in Hg as <-. change q with (bound fd p). cbn [gate_fd] in *.
    rewrite bound_same by done. cbn [segment update]. rewrite Es. apply owner_rules; [done|lia|done|done].
  - change q with (entered p). by rewrite Es.
Qed.

(** So a call of the thread is resolved from its row. *)
Lemma gate_row h g c (p : P) :
  gate h = Some g → ready p.(segment) → 0 ≤ g.(gate_fd) < MAX_FDS → own_call h g p →
  thread_config p.(segment) p.(tid) = Some c →
  configuring_row (at_gate g p).(segment) p.(tid) g.(gate_fd) = Some (c, tid_slot p.(tid)).
Proof.
  intros Hg Hp Hfd Hown Hc. destruct (at_gate_same h g p Hg Hp Hfd) as (Hq & _ & _ & _ & _ & Hrow & Ho).
  apply own_row; [done|done|by apply Ho|by rewrite Hrow].
Qed.
(** A call of the thread whose row loses everything in its direction, for the target
    rules [rules] only, and at any time. *)
Record ruled (h : Hooked) (gt : Gate) (cfg : Config) (rules : list Rule.TargetRule) (p : P) : Prop := {
  ruled_gate : gate h = Some gt;
  ruled_fd : 0 ≤ gt.(gate_fd) < MAX_FDS;
  ruled_own : own_call h gt p;
  ruled_row : thread_config p.(segment) p.(tid) = Some cfg;
  ruled_enabled : cfg.(target_enabled) ≠ 0;
  ruled_always : cfg.(schedule_type) = 0;
  ruled_loses : loses gt.(gate_direction) cfg;
  ruled_rules : get_target_rules_for_tid_slot (tid_slot p.(tid)) p.(segment) = (Some rules, p.(segment));
}.

(** The rules the call is resolved with decide about it. *)
Lemma ruled_outcome h gt cfg rules e (s : Caller * P) :
  outside s.2 → ready s.2.(segment) → replay_off s.2 → ruled h gt cfg rules s.2 →
  gt.(gate_held) s.2 = [] → gt.(gate_endpoint) s.2.(kernel) = Some e →
  let found := (at_gate gt s.2).(bridge) in
  match select_best_target_rule (Some e)
          (mkSemanticContext (endpoint_name (tid_slot s.2.(tid)) (Some e) found).1
             (found.(OBSERVED_SNI_BY_FD) !! gt.(gate_fd))) rules
          (Z.to_nat cfg.(target_enabled) `min` length rules) with
  | Some _ => refused h gt s
  | None => passed h gt s
  end.
Proof.
  intros Hout Hp Hoff [Hg Hfd Hown Hrow Hen Hsch Hloses Hrules] Hq He found.
  pose proof (at_gate_rules h gt _ rules s.2 Hg Hp Hfd (tid_slot_range _) Hrules) as Hrules'.
  pose proof (gate_row h gt cfg s.2 Hg Hp Hfd Hown Hrow) as Hrow'.
  destruct (at_gate_same h gt s.2 Hg Hp Hfd) as (Hq' & Et & Ek & Ess & _).
  pose proof (resolve_named s.2.(tid) gt.(gate_fd) e found _ cfg (tid_slot s.2.(tid)) rules
    Hq' Hfd Hrow' Hen Hsch Hrules') as Hcfg.
  assert (Egc : gate_config gt (at_gate gt s.2) = (resolve_runtime_config_for_endpoint s.2.(tid) gt.(gate_fd)
    (Some e) (found, (at_gate gt s.2).(segment))).1) by (unfold gate_config; by rewrite Et, Ek, He).
  rewrite <- Egc in Hcfg. clear Egc.
  destruct (select_best_target_rule _ _ _ _) as [[i rule]|]; cbn [fmap option_fmap option_map snd] in Hcfg.
  - apply (gate_refused h gt (with_rule cfg rule)); [done|done|unfold replay_off; by rewrite Ess|done| |done].
    clear -Hloses. by destruct (gate_direction gt).
  - by apply gate_passed.
Qed.

(** ** What most calls leave alone *)

(** The thread, the segment and what is held back; and the names observed at endpoints. *)
Definition view (p : P) : Z * ShmState * (gmap Z Q * gmap Z Q) :=
  (p.(tid), p.(segment), (p.(runtime).(reorder_pending_by_fd), p.(runtime).(reorder_pending_recv_by_fd))).
Definition names (p : P) : Observations := p.(bridge).(OBSERVED_HOSTNAME_BY_ENDPOINT).

Definition steady {A} (c : M P A) : Prop :=
  ∀ p, ready p.(segment) → replay_off p →
    view (c p).2 = view p ∧ names (c p).2 = names p ∧ replay_off (c p).2.

Lemma steady_ret {A} (a : A) : steady (mret a).
Proof. done. Qed.

Lemma steady_gets {A} (f : P → A) : steady (gets f).
Proof. done. Qed.

Lemma steady_bind {A B} (c : M P A) (f : A → M P B) : steady c → (∀ a, steady (f a)) → steady (c ≫= f).
Proof.
  intros Hc Hf p Hp Hoff. rewrite bind_run. destruct (Hc p Hp Hoff) as (E & En & Hoff').
  assert (Hp' : ready (segment (c p).2)) by (unfold view in E; by injection E as _ -> _ _).
  destruct (Hf (c p).1 (c p).2 Hp' Hoff') as (E' & En' & Hoff''). by rewrite E', En'.
Qed.

Lemma steady_on_engine_of {A} (c : M Sys A) : steady (on_engine_of c).
Proof. done. Qed.

Lemma steady_on_thread {A} (c : M Thread A) : steady (on_thread c).
Proof. done. Qed.

Lemma steady_call k : steady (call k).
Proof. done. Qed.

Lemma steady_replaying_at site (c : M P LayerDecision) : steady c → steady (replaying_at site c).
Proof.
  intros Hc p Hp Hoff. pose proof Hoff as [Hf Hm]. destruct (Hc p Hp Hoff) as (E & En & _).
  unfold replaying_at. rewrite zoom_run. cbn [snd].
  unfold record_replay_evaluate_or_replay, evaluate_or_replay. cbn [fst snd].
  unfold core_evaluate_or_replay. run_simpl. rewrite Hf, Hm. run_simpl. by split.
Qed.

Lemma steady_entered p :
  ready p.(segment) → replay_off p →
  view (entered p) = view p ∧ names (entered p) = names p ∧ replay_off (entered p).
Proof.
  intros Hp Hoff. destruct (entered_same p Hp) as [(Es & Et & _ & Ess) Eb].
  pose proof (seen_entered p) as E. unfold seen in E. injection E as _ Eq Er.
  split; [unfold view; by rewrite Es, Et, Eq, Er|]. split; [unfold names; by rewrite Eb|].
  unfold replay_off. by rewrite Ess.
Qed.

Lemma steady_hook {A} (orig body : M P A) : steady orig → steady body → steady (hook orig body).
Proof.
  intros Ho Hb p Hp Hoff.
  destruct (decide (in_hook p = false ∧ setspecific_fails (kernel p) = false)) as [Hout|Hout].
  - rewrite hook_run by done. destruct (steady_entered p Hp Hoff) as (Ev & En & Hoff').
    assert (Hp' : ready (entered p).(segment)) by (unfold view in Ev; by injection Ev as _ -> _ _).
    rewrite <- Ev, <- En. exact (Hb _ Hp' Hoff').
  - rewrite hook_inside by done. by apply Ho.
Qed.

Lemma view_ruled h gt cfg rules (p p' : P) :
  view p' = view p → ruled h gt cfg rules p → ruled h gt cfg rules p'.
Proof.
  unfold view. intros [= Et Es _ _] []. split; rewrite ?Es, ?Et; try done. unfold own_call in *. by rewrite Es, Et.
Qed.

Lemma view_held h gt (p p' : P) :
  gate h = Some gt → view p' = view p → gt.(gate_held) p' = gt.(gate_held) p.
Proof.
  unfold view. intros Hg [= _ _ Eq Er].
  destruct h; cbn in Hg; try discriminate Hg; apply (inj Some) in Hg as <-;
    cbn [gate_held]; unfold queue_of, recv_queue_of; by rewrite ?Eq, ?Er.
Qed.
End gates.

Create HintDb steady.
#[export] Hint Resolve steady_ret steady_gets steady_on_engine_of steady_on_thread steady_call
  steady_replaying_at : steady.

(** Proves a computation steady along its binds and matches. *)
Ltac steady :=
  repeat first
    [ progress auto with steady
    | match goal with
      | |- steady (mbind _ _) => apply steady_bind; [|intros ?]
      | |- steady (match ?x with _ => _ end) => destruct x
      end ].
