(* ===== verification/EndToEnd.v ===== *)
(** * From a command, and from a server name, to a hooked call

    The components composed: a thread that asks for total loss through [setpriority]
    ([setpriority_compat.rs]), the row that is published ([shm_runtime.rs]), its
    resolution for a descriptor ([interceptor_bridge.rs]), the decision of the layers
    ([chaos_engine.rs]) and what the hook the call goes through does about it (the
    interceptor's [lib.rs]); and, with target rules, the server name in the TLS hello
    that is being sent. *)

From S2P Require Import Prelude.
From S2P Require Import Config.
From S2P Require Import ShmContract.
From S2P Require Import ShmRuntime.
From S2P Require Import Layers.
From S2P Require Import R1SessionGuard.
From S2P Require Import R2ChaosBase.
From S2P Require Import Sockets.
From S2P Require Import ChaosEngine.
From S2P Require Import Runtime.
From S2P Require Import SetPriority.
From S2P Require Import RustStr.
From S2P Require Import Bridge.
From S2P Require Import Tls.
From S2P Require Import RecordReplay.
From S2P Require Import Process.
From S2P Require Import Interceptor.
From S2P Require Import Hooks.
From S2P Require Import HookSpecs.
From S2P Require Import HookTransparent.
From S2P Require Import HookReceive.
From S2P Require Import HookLifecycle.
From S2P Require Import Gates.

Open Scope Z_scope.

(** A configuration that loses everything in a direction, for every target and at
    any time. *)
Definition loses_all (d : Direction) (c : Config) : Prop :=
  c.(target_enabled) = 0 ∧ c.(schedule_type) = 0 ∧ loses d c.

Section resolution.
Context `{Host} `{HashOrder} `{Os}.

Lemma resolve_loses_all d thread_id fd ep b s c slot :
  0 ≤ fd < MAX_FDS → ready s → configuring_row s thread_id fd = Some (c, slot) → loses_all d c →
  (resolve_runtime_config_for_endpoint thread_id fd ep (b, s)).1 = Some c.
Proof.
  intros Hfd Hs Hrow (Ht & Hsch & _).
  assert (Hb : base_config thread_id fd s = (Some (c, slot), s)) by by rewrite base_config_ready, Hrow.
  rewrite (resolve_run thread_id fd ep b s c slot) by (done || lia).
  unfold apply_multi_target_for_tid. rewrite Ht. cbn [Z.eqb]. unfold filtered_now.
  rewrite bind_run, ret_run. cbn [fst]. unfold runtime_filtered, matches_target, apply_schedule.
  by rewrite Ht, Hsch.
Qed.
End resolution.

(** ** From the command to the call *)

(** A row with nothing in it that answers a call of a direction before its loss does. *)
Definition plain_row (d : Direction) (r : Fc.FaultcoreConfig) : Prop :=
  Fc.is_valid (r <| Fc.latency_ns := 0 |> <| Fc.packet_loss_ppm := 0 |>
                 <| Fc.magic := FAULTCORE_MAGIC |>) = true ∧
  r.(Fc.target_enabled) = 0 ∧ r.(Fc.schedule_type) = 0 ∧ r.(Fc.session_budget_enabled) = 0 ∧
  r.(Fc.ge_enabled) = 0 ∧
  match d with Uplink => r.(Fc.uplink_packet_loss_ppm) | Downlink => r.(Fc.downlink_packet_loss_ppm) end = 0.

Abbreviation thread_row s thread_id :=
  (config_row s.(shm_mem) ((MAX_FDS + tid_slot thread_id) * CONFIG_SIZE)).

Lemma command_effect d who r g g' :
  plain_row d r → 0 ≤ who ≤ 60000 →
  let row := (compat_update FAULTCORE_SETPRIORITY_LATENCY who 1000000
                (r <| Fc.ruleset_generation := g |>)) <| Fc.magic := FAULTCORE_MAGIC |>
               <| Fc.ruleset_generation := g' |> in
  Fc.is_valid row = true ∧ loses_all d (Fc.into_network_config row).
Proof.
  intros (Hv & Ht & Hsch & Hses & Hge & Hdir) Hwho row. split.
  - pose proof (latency_validity who 1000000 (r <| Fc.ruleset_generation := g |>) g' Hv) as E.
    cbv zeta in E. etrans; [exact E|].
    change ((wrapping_mul (as_u64 who) 1000000 <=? MAX_LATENCY_NS) && true = true).
    rewrite andb_true_r. apply Z.leb_le. unfold as_u64. rewrite Z.mod_small by lia.
    unfold wrapping_mul. rewrite Z.mod_small by lia. unfold MAX_LATENCY_NS. lia.
  - refine (conj Ht (conj Hsch (conj Hses (conj Hge _)))).
    assert (Hloss : ∀ x, x = 0 → (if 0 <? x then x else as_u64 1000000) = 1000000) by by intros x ->.
    destruct d; exact (Hloss _ Hdir).
Qed.

Lemma handle_latency thread_id who s :
  0 ≤ who →
  handle_setpriority_compat thread_id FAULTCORE_SETPRIORITY_LATENCY who 1000000 s =
    let r := update_config_for_tid thread_id (compat_update FAULTCORE_SETPRIORITY_LATENCY who 1000000) s in
    (if r.1 then Handled else FaultcoreError EIO, r.2).
Proof.
  intros Hwho. unfold handle_setpriority_compat, is_valid_faultcore_args. rewrite Z.eqb_refl.
  rewrite (proj2 (Z.leb_le 0 who)) by done. change (negb (is_faultcore_mode _)) with false.
  change (negb (true && _)) with false. cbn match. by rewrite bind_run.
Qed.

(** The command publishes such a row for the thread, and claims no descriptor. *)
Lemma command_row `{Os} d s thread_id who :
  ready s → 0 ≤ who ≤ 60000 → plain_row d (thread_row s thread_id) →
  let r := handle_setpriority_compat thread_id FAULTCORE_SETPRIORITY_LATENCY who 1000000 s in
  r.1 = Handled ∧ ready r.2 ∧
  (∀ fd, 0 ≤ fd < MAX_FDS → unclaimed s thread_id fd → unclaimed r.2 thread_id fd) ∧
  ∃ c, thread_config r.2 thread_id = Some c ∧ loses_all d c.
Proof.
  intros Hs Hwho Hplain. cbv zeta.
  pose proof (compat_update_wf FAULTCORE_SETPRIORITY_LATENCY who 1000000 _
    (locked_row_wf s thread_id Hs)) as Hwf.
  assert (Hf : ∀ g g',
    let row := (compat_update FAULTCORE_SETPRIORITY_LATENCY who 1000000
                ((thread_row s thread_id) <| Fc.ruleset_generation := g |>)) <| Fc.magic := FAULTCORE_MAGIC |>
               <| Fc.ruleset_generation := g' |> in
    Fc.is_valid row = true ∧ loses_all d (Fc.into_network_config row))
    by (intros g g'; by apply command_effect).
  rewrite handle_latency by lia. clear Hplain.
  revert Hwf Hf. generalize (compat_update FAULTCORE_SETPRIORITY_LATENCY who 1000000). intros f Hwf Hf.
  pose proof (update_ready s thread_id f Hs) as Hready.
  pose proof (update_read s thread_id f Hs Hwf) as Hread.
  pose proof (update_owner_words s thread_id f Hs Hwf) as Hword.
  pose proof (update_rows s thread_id f Hs Hwf) as Hrows.
  rewrite (update_run s thread_id f Hs). cbn [fst snd]. split; [done|]. split; [exact Hready|]. split.
  { intros fd Hfd Hun slot. rewrite owner_ready by done. unfold owner_word. cbn [shm_mem update].
    rewrite Hword by lia. intros Hslot. pose proof (slot_of_word_range _ slot (read_u64_range _ _ (proj2 (proj2 Hs))) Hslot).
    destruct (decide (slot = tid_slot thread_id)) as [->|Hne]; [by left|right]. rewrite Hrows by lia.
    destruct (Hun slot) as [?|?]; [by rewrite owner_ready|done|done]. }
  unfold thread_config. rewrite Hread. clear Hread Hword Hready Hrows.
  match goal with |- context [Fc.is_valid ?row] => assert (Hrow : Fc.is_valid row = true ∧
    loses_all d (Fc.into_network_config row)) by apply Hf end.
  destruct Hrow as [-> Hloses]. by eexists.
Qed.

Section theorem.
Context `{Host} `{HashOrder} `{Os} `{Storage} {N : Type} `{Sockets N} `{Libc N}.

(** What a gate finds after the command. *)
Lemma command_at_gate who h g (p : Process N) :
  gate h = Some g → outside p → ready p.(segment) → replay_off p →
  plain_row g.(gate_direction) (thread_row p.(segment) p.(tid)) →
  0 ≤ g.(gate_fd) < MAX_FDS → own_call h g p → 0 ≤ who ≤ 60000 →
  let r := setpriority FAULTCORE_SETPRIORITY_LATENCY who 1000000 p in
  r.1 = 0 ∧ outside r.2 ∧ r.2.(trace) = p.(trace) ∧ seen r.2 = seen p ∧ replay_off (at_gate g r.2) ∧
  ∃ cfg, gate_config g (at_gate g r.2) = Some cfg ∧ loses g.(gate_direction) cfg.
Proof.
  intros Hg Hout Hs Hoff Hplain Hfd Hown Hwho. cbv zeta.
  destruct (command_row (gate_direction g) p.(segment) p.(tid) who Hs Hwho Hplain)
    as (Hh & Hready & Howners & cfg & Hrow & Hc).
  unfold setpriority. rewrite bind_run, gets_run. cbn [fst snd]. rewrite bind_run, zoom_run. cbn [fst snd].
  rewrite Hh, ret_run. cbn [fst snd]. split; [done|].
  destruct (handle_setpriority_compat _ _ _ _ _) as [o s']. cbn [fst snd] in *.
  set (p' := p <| segment := s' |>). do 3 (split; [done|]).
  destruct (at_gate_same h g p' Hg Hready Hfd) as (Hq & Et & _ & Ess & _).
  split; [unfold replay_off; by rewrite Ess|]. exists cfg. split; [|apply Hc].
  assert (Hown' : own_call h g p') by (destruct h; try done; by apply Howners).
  pose proof (gate_row h g cfg p' Hg Hready Hfd Hown' Hrow) as Hcr.
  unfold gate_config. rewrite Et. by eapply resolve_loses_all.
Qed.


(** In particular the next send. *)
Theorem command_reaches_send who c (p : Process N) :
  outside p → ready p.(segment) → replay_off p → plain_row Uplink (thread_row p.(segment) p.(tid)) →
  0 ≤ call_fd c < MAX_FDS → unclaimed p.(segment) p.(tid) (call_fd c) →
  queue_of p (call_fd c) = [] → 0 ≤ who ≤ 60000 →
  let r := setpriority FAULTCORE_SETPRIORITY_LATENCY who 1000000 p in
  let s := send_hook c r.2 in
  r.1 = 0 ∧ s.1 = -1 ∧ s.2.(thread).(errno) = EIO ∧ s.2.(trace) = p.(trace) ∧
  queue_of s.2 (call_fd c) = [].
Proof.
  intros Hout Hs Hoff Hplain Hfd Howner Hq Hwho. cbv zeta.
  destruct (command_at_gate who (HSend c) _ p eq_refl Hout Hs Hoff Hplain Hfd Howner Hwho)
    as (Hr & Hout' & Ht & Hseen & Hoff' & cfg & Hcfg & Hc).
  split; [exact Hr|]. set (p' := (setpriority _ _ _ p).2) in *. clearbody p'.
  destruct (gate_refused (HSend c) _ cfg (mkCaller None None, p') eq_refl Hout' Hoff' Hcfg Hc)
    as (Hsend & _ & He & Htr & Hheld); [rewrite <- Hq; by apply (gate_held_seen (HSend c) _ _ _ eq_refl)|].
  cbn [snd] in Htr. rewrite Ht in Htr. by split_and!.
Qed.

(** ** Server names *)

Lemma endpoint_name_sni slot ep f b :
  (endpoint_name slot ep (b <| OBSERVED_SNI_BY_FD ::= f |>)).1 = (endpoint_name slot ep b).1.
Proof.
  unfold endpoint_name, observed_hostname_for_slot_endpoint. destruct ep as [e|]; [|done].
  destruct (hostname_observation_key slot e); [|done]. run_simpl. cbn.
  destruct (select_observation _ _ _ _) as [[k x]|]; [|done]. by destruct (_ <? _).
Qed.

(** The bytes of a call are a hello for [m]. *)
Record naming (c : SendCall) (h : ClientHello) (m : str) : Prop := {
  naming_ok : hello_ok h;
  naming_host : ∃ s n, h.(host) = as_bytes s ∧ Forall is_scalar s ∧
    normalize_semantic_name s = Some n ∧ normalize_semantic_name n = Some m;
  naming_payload : payload_of (call_buf c) (call_len c) = Some (client_hello h);
}.

Lemma client_hello_length h : hello_ok h → 5 ≤ Z.of_nat (length (client_hello h)).
Proof.
  intros Hok. unfold client_hello. cbn [length]. rewrite !length_app, length_vec, (ok_record_version h Hok). lia.
Qed.

Lemma observed_hello c h m (p : Process N) :
  ready p.(segment) → 0 ≤ call_fd c → naming c h m →
  (observed c p).(bridge) = p.(bridge) <| OBSERVED_SNI_BY_FD ::= <[call_fd c := m]> |>.
Proof.
  intros Hp Hfd [Hok (s & n & Hhost & Hs & Hn & Hm) Hpay].
  destruct (entered_same p Hp) as [_ Eb]. pose proof (client_hello_length h Hok) as Hlen.
  unfold payload_of in Hpay. unfold observed, observe_tls_sni_from_send_buffer.
  destruct (call_buf c) as [b|]; [|done]. cbn [mbind option_bind] in Hpay.
  destruct (Z.ltb_spec 0 (call_len c)); [|done]. injection Hpay as Hpay. rewrite Hpay.
  assert (5 ≤ call_len c).
  { pose proof (f_equal length Hpay) as Hl. unfold copy_bytes in Hl. rewrite length_take in Hl. lia. }
  rewrite (proj2 (Z.ltb_ge _ _) Hfd), (proj2 (Z.ltb_ge (call_len c) 5)) by done. cbn [orb].
  rewrite (client_hello_read h s n Hok) by (rewrite ?Hhost; auto using from_utf8_as_bytes).
  unfold on_observations, observe_sni_for_fd. rewrite zoom_run, Hm, (proj2 (Z.ltb_ge _ _) Hfd).
  rewrite modify_run. cbn [snd bridge update]. by rewrite Eb.
Qed.

(** The configuration such a call is resolved to. *)
Lemma call_config_hello c h m cfg slot rules e (p : Process N) :
  ready p.(segment) → 0 ≤ call_fd c < MAX_FDS → naming c h m →
  configuring_row p.(segment) p.(tid) (call_fd c) = Some (cfg, slot) → cfg.(target_enabled) ≠ 0 →
  cfg.(schedule_type) = 0 →
  get_target_rules_for_tid_slot slot p.(segment) = (Some rules, p.(segment)) →
  call_endpoint c p.(kernel) = Some e →
  (call_config c (observed c p)).1 =
    (λ sel, with_rule cfg sel.2) <$> select_best_target_rule (Some e)
      (mkSemanticContext (endpoint_name slot (Some e) p.(bridge)).1 (Some m)) rules
      (Z.to_nat cfg.(target_enabled) `min` length rules).
Proof.
  intros Hp Hfd Hh Hrow Hen Hsch Hrules He.
  destruct (observed_same c p Hp) as (Es & Et & Ek & _).
  pose proof (observed_hello c h m p Hp ltac:(lia) Hh) as Eb.
  rewrite call_config_run. cbn [fst]. rewrite Ek, He, Es, Et, Eb.
  rewrite (resolve_named p.(tid) (call_fd c) e _ p.(segment) cfg slot rules Hp Hfd Hrow Hen Hsch Hrules).
  rewrite endpoint_name_sni. cbn [OBSERVED_SNI_BY_FD update]. by rewrite lookup_insert_eq.
Qed.

(** C11. Rules for server names decide about the very call that names the server.
    When a thread whose row loses everything it sends, for its target rules only,
    writes, sends or sends to a descriptor a client hello, the rules are matched
    against the name in it, whatever extensions and names precede the name in the
    hello.  If a rule matches, the hook makes no original call and returns -1 with
    [errno] set to EIO; if none does, the original is called once with the caller's
    bytes and its answer returned.  Either way nothing is held back.  (The name is
    normalized by the parser and again by the bridge; the row has no schedule,
    session budget or correlated loss, nothing is recorded or replayed, and nothing
    was held back on the descriptor.) *)
Theorem server_name_rules c h m cfg slot rules e (p : Process N) :
  outside p → ready p.(segment) → replay_off p → 0 ≤ call_fd c < MAX_FDS →
  queue_of p (call_fd c) = [] → naming c h m →
  configuring_row p.(segment) p.(tid) (call_fd c) = Some (cfg, slot) → cfg.(target_enabled) ≠ 0 →
  cfg.(schedule_type) = 0 → loses Uplink cfg →
  get_target_rules_for_tid_slot slot p.(segment) = (Some rules, p.(segment)) →
  call_endpoint c p.(kernel) = Some e →
  let hostname := (endpoint_name slot (Some e) p.(bridge)).1 in
  let r := send_hook c p in
  match select_best_target_rule (Some e) (mkSemanticContext hostname (Some m)) rules
          (Z.to_nat cfg.(target_enabled) `min` length rules) with
  | Some _ => r.1 = -1 ∧ r.2.(thread).(errno) = EIO ∧ r.2.(trace) = p.(trace)
  | None => ∃ a, r.1 = a.(ret) ∧ r.2.(trace) = p.(trace) ++
      [(original_call c (Some (client_hello h)) (Z.of_nat (length (client_hello h))), a)]
  end ∧ queue_of r.2 (call_fd c) = [].
Proof.
  intros Hout Hp Hoff Hfd Hq Hh Hrow Hen Hsch Hc Hrules He. cbv zeta.
  pose proof (call_config_hello c h m cfg slot rules e p Hp Hfd Hh Hrow Hen Hsch Hrules He) as Hcfg.
  destruct (observed_same c p Hp) as (_ & _ & _ & Ess).
  destruct (select_best_target_rule _ _ _ _) as [[i rule]|]; cbn [fmap option_fmap option_map snd] in Hcfg.
  - destruct (send_refused c (with_rule cfg rule) p) as (Hr & Herr & Ht & Hq');
      [done|done|exact Hc|unfold replay_off; by rewrite Ess|done|done].
  - destruct (send_passed c p Hout Hcfg) as (a & Hr & Ht & Hq'). rewrite Hq in Hq'. split; [|done].
    exists a. split; [done|]. rewrite Ht. destruct Hh as [Hok _ Hpay]. rewrite Hpay. cbn [default from_option id].
    unfold out_buf, out_len, buffer_of, length_of. pose proof (client_hello_length h Hok).
    by destruct (client_hello h).
Qed.
End theorem.

#[local] Existing Instance example_host.
#[local] Existing Instance example_os.


(** A rule for a server name. *)
Definition name_rule (name : list Z) : list Z :=
  encode (Rule.TargetRule_default <| Rule.enabled := 1 |>
            <| Rule.sni := name ++ replicate (32 - length name) 0 |>).

(** Thread 1 loses everything where its only rule matches; the owner of descriptor 9
    has no valid row. *)
Definition ruled_segment (rule : list Z) : ShmState :=
  let s := example_row (λ c, c <| Fc.packet_loss_ppm := 1000000 |> <| Fc.target_enabled := 1 |>) in
  s <| shm_mem := write_bytes s.(shm_mem)
         (TARGET_RULES_REGION_OFFSET + tid_slot 1 * MAX_TARGET_RULES_PER_TID * RULE_SIZE) rule |>.

Lemma ruled_ready rule : Forall is_byte rule → ready (ruled_segment rule).
Proof.
  intros Hr. split_and!; [done|done|]. apply write_bytes_ok; [|done].
  apply publish_ok. intros x. cbn. unfold is_byte. lia.
Qed.

(** Thread 1 sends the hello for [Ex.]. *)
Definition hello_call : SendCall :=
  Send 9 (Some (client_hello example_hello)) (Z.of_nat (length (client_hello example_hello))) 0.

Lemma hello_call_naming : naming hello_call example_hello [101; 120].
Proof.
  split; [constructor; apply (bool_decide_unpack _); by vm_compute| |by vm_compute].
  exists [69; 120; 46], [101; 120]. split_and!; [by vm_compute| |by vm_compute|by vm_compute].
  apply (bool_decide_unpack _). by vm_compute.
Qed.

Definition example_server : Endpoint :=
  mkEndpoint 1 [10; 1; 200; 7; 0; 0; 0; 0; 0; 0; 0; 0; 0; 0; 0; 0] 167888903 443 1.

(** A rule for [ex] refuses it, and a rule for the names below [ex] does not. *)
Lemma server_name_rules_witness :
  let send name := send_hook hello_call (example_process (ruled_segment (name_rule name)) []) in
  (send [101; 120]).1 = -1 ∧ (send [42; 46; 101; 120]).1 = 83.
Proof.
  intros send. split; [|by vm_compute].
  set (p := example_process (ruled_segment (name_rule [101; 120])) []).
  assert (Hout : outside p) by by split.
  assert (Hoff : replay_off p) by by split.
  assert (Hfd : 0 ≤ call_fd hello_call < MAX_FDS) by by vm_compute.
  assert (Hq : queue_of p (call_fd hello_call) = []) by by vm_compute.
  assert (He : call_endpoint hello_call p.(kernel) = Some example_server) by by vm_compute.
  assert (Hp : ready p.(segment)) by (apply ruled_ready, (bool_decide_unpack _); by vm_compute).
  destruct (configuring_row p.(segment) p.(tid) (call_fd hello_call)) as [[cfg slot]|] eqn:Hrow;
    [|exfalso; revert Hrow; by vm_compute].
  assert (Hcfg : cfg.(target_enabled) = 1 ∧ cfg.(schedule_type) = 0 ∧ loses Uplink cfg ∧ slot = tid_slot 1).
  { clear -Hrow. revert Hrow. vm_compute. intros Hrow. injection Hrow as <- <-. by split_and!. }
  destruct Hcfg as (Hen & Hsch & Hloses & ->).
  destruct (target_rules_ready p.(segment) (tid_slot 1) Hp) as (rules & Hrules & Hlen); [by vm_compute|].
  assert (Hen' : cfg.(target_enabled) ≠ 0) by by rewrite Hen.
  pose proof (server_name_rules hello_call example_hello [101; 120] cfg (tid_slot 1) rules example_server p
    Hout Hp Hoff Hfd Hq hello_call_naming Hrow Hen' Hsch Hloses Hrules He) as [H _].
  cbv zeta in H. rewrite Hen in H.
  destruct (select_best_target_rule _ _ _ _) as [[i rule]|] eqn:Hsel in H; [exact (proj1 H)|].
  exfalso. revert Hsel. replace rules with
    (default [] (get_target_rules_for_tid_slot (tid_slot 1) p.(segment)).1) by by rewrite Hrules.
  by vm_compute.
Defined.
