(* ===== verification/HostNames.v ===== *)
(** * From a resolved name to a hooked call

    The components composed: the host name a thread resolves with [getaddrinfo]
    (the interceptor's [lib.rs]), its observation at the addresses of the answer and
    the rules for host names ([interceptor_bridge.rs]), and a later call to one of
    these addresses. *)

From S2P Require Import Prelude.
From S2P Require Import Runtime.
From S2P Require Import Config.
From S2P Require Import ShmContract.
From S2P Require Import RustStr.
From S2P Require Import ShmRuntime.
From S2P Require Import Layers.
From S2P Require Import Sockets.
From S2P Require Import ChaosEngine.
From S2P Require Import Bridge.
From S2P Require Import RecordReplay.
From S2P Require Import Process.
From S2P Require Import Interceptor.
From S2P Require Import Hooks.
From S2P Require Import HookSpecs.
From S2P Require Import HookTransparent.
From S2P Require Import HookReceive.
From S2P Require Import HookLifecycle.
From S2P Require Import Gates.
From S2P Require Import EndToEnd.

Open Scope Z_scope.

(** ** Observations of one address *)

(** The observations a thread slot has of an address. *)
Definition at_address (slot : Z) (e : Endpoint) (k : HostnameObservationKey) : Prop :=
  k.(key_tid_slot) = slot ∧ k.(key_address_family) = e.(address_family) ∧ k.(key_addr) = e.(addr).

#[export] Instance at_address_dec slot e k : Decision (at_address slot e k).
Proof. unfold at_address. apply _. Defined.

Definition unobserved (slot : Z) (e : Endpoint) (m : Observations) : Prop :=
  ∀ k x, m !! k = Some x → ¬ at_address slot e k.

(** All its observations of the address are of one name at one time. *)
Definition observed_as (slot : Z) (e : Endpoint) (item : ObservedName) (m : Observations) : Prop :=
  (∃ k, m !! k = Some item ∧ at_address slot e k) ∧
  ∀ k x, m !! k = Some x → at_address slot e k → x = item.

Lemma endpoint_key slot e k :
  hostname_observation_key slot e = Some k →
  k = mkHostnameObservationKey slot e.(address_family) e.(addr) e.(port) e.(protocol).
Proof. unfold hostname_observation_key. case_match; [done|]. by intros [= <-]. Qed.

Section observations.
Context `{Host} `{HashOrderLaw}.

Lemma max_by_key_some {A} (f : A → Z) (l : list A) : l ≠ [] → is_Some (max_by_key f l).
Proof.
  intros Hl. unfold max_by_key. destruct l as [|x l]; [done|]. cbn [foldl].
  assert (Hb : is_Some (Some x)) by done. revert Hb. generalize (Some x). clear Hl.
  induction l as [|y l IH]; intros best [b ->]; [done|]. cbn [foldl]. apply IH. by case_match.
Qed.

Lemma select_observed slot e item m k :
  hostname_observation_key slot e = Some k → observed_as slot e item m →
  ∃ k', select_observation m slot e k = Some (k', item).
Proof.
  intros Hk [(k0 & Hk0 & Hat0) Honly]. unfold select_observation.
  destruct (m !! k) as [x|] eqn:Hx.
  { exists k. apply endpoint_key in Hk as ->. by rewrite (Honly _ _ Hx). }
  match goal with |- context [max_by_key ?f ?l] =>
    destruct (max_by_key_some f l) as [[k' x] Hmax] end.
  { intros Hnil. apply (filter_nil_not_elem_of _ _ (k0, item) Hnil Hat0).
    rewrite hash_iter_perm. by apply elem_of_map_to_list. }
  rewrite Hmax. exists k'. apply max_by_key_elem, list_elem_of_filter in Hmax as [Hat Hin].
  rewrite hash_iter_perm in Hin. apply elem_of_map_to_list in Hin. by rewrite (Honly _ _ Hin).
Qed.

(** The name found for an endpoint of the address, until it is too old. *)
Lemma lookup_observed slot e item b :
  address_family e = 1 ∨ address_family e = 2 →
  observed_as slot e item b.(OBSERVED_HOSTNAME_BY_ENDPOINT) → fresh (now_of b) item →
  (observed_hostname_for_slot_endpoint slot e b).1 = Some item.(hostname).
Proof.
  intros Hf Hobs Hfresh. unfold observed_hostname_for_slot_endpoint.
  destruct (hostname_observation_key slot e) as [k|] eqn:Hk.
  2:{ unfold hostname_observation_key in Hk. case_match eqn:E; [|done].
      apply andb_true_iff in E as [?%negb_true_iff ?%negb_true_iff]. lia. }
  rewrite bind_run. fold (now_of b). change (bridge_now b).2 with (bridge_now b).2.
  destruct (select_observed slot e item _ k Hk Hobs) as [k' Hsel].
  rewrite bind_run, gets_run. cbn [fst snd].
  change (OBSERVED_HOSTNAME_BY_ENDPOINT (bridge_now b).2) with (OBSERVED_HOSTNAME_BY_ENDPOINT b).
  rewrite Hsel. unfold fresh in Hfresh. by rewrite (proj2 (Z.ltb_ge _ _)) by done.
Qed.

(** Observing a name at an endpoint whose address had none. *)
Lemma observe_new slot e name host b :
  normalize_semantic_name name = Some host → address_family e = 1 ∨ address_family e = 2 →
  unobserved slot e b.(OBSERVED_HOSTNAME_BY_ENDPOINT) →
  (size b.(OBSERVED_HOSTNAME_BY_ENDPOINT) < HOSTNAME_OBSERVATION_MAX_ENTRIES)%nat →
  observed_as slot e (mkObservedName host (now_of b))
    (observe_hostname_for_slot_endpoint slot e name b).2.(OBSERVED_HOSTNAME_BY_ENDPOINT).
Proof.
  intros Hn Hf Hun Hsize. unfold observe_hostname_for_slot_endpoint. rewrite Hn.
  destruct (hostname_observation_key slot e) as [k|] eqn:Hk.
  2:{ unfold hostname_observation_key in Hk. case_match eqn:E; [|done].
      apply andb_true_iff in E as [?%negb_true_iff ?%negb_true_iff]. lia. }
  rewrite bind_run, modify_run. fold (now_of b). cbn [snd OBSERVED_HOSTNAME_BY_ENDPOINT update].
  change (OBSERVED_HOSTNAME_BY_ENDPOINT (bridge_now b).2) with (OBSERVED_HOSTNAME_BY_ENDPOINT b).
  set (m := OBSERVED_HOSTNAME_BY_ENDPOINT b) in *. set (item := mkObservedName host (now_of b)).
  destruct (prune_spec (<[k := item]> m) (now_of b)) as (_ & Hsub & Hkept).
  assert (Hfresh : fresh (now_of b) item) 
    by (unfold fresh, item, HOSTNAME_OBSERVATION_TTL_NS; cbn [observed_at_ns]; mach).
  split.
  - exists k. split; [|by apply endpoint_key in Hk as ->].
    destruct (prune_hostname_observations _ _ !! k) as [x|] eqn:Hx.
    + apply Hsub in Hx as [Hx _]. by rewrite lookup_insert_eq in Hx.
    + destruct (Hkept k item (lookup_insert_eq _ _ _) Hfresh Hx) as [Hgt _].
      rewrite map_size_insert in Hgt. unfold id in Hgt. case_match; lia.
  - intros k' x Hx Hat. apply Hsub in Hx as [Hx _].
    apply lookup_insert_Some in Hx as [[_ <-]|[_ Hx]]; [done|]. by destruct (Hun _ _ Hx).
Qed.
End observations.

(** ** What resolving leaves alone *)

Section resolving.
Context `{Host} `{HashOrder} `{Os} `{Storage} {N : Type} `{Sockets N} `{Libc N}.
Abbreviation P := (Process N).

(** The DNS path of the bridge looks at no observed name. *)
Lemma reload_names slot e sem n cfg b s :
  (reload_loop slot e sem (get_target_rules_for_tid_slot slot) (read_cfg_of_slot slot) n cfg (b, s)).2.1
    .(OBSERVED_HOSTNAME_BY_ENDPOINT) = b.(OBSERVED_HOSTNAME_BY_ENDPOINT).
Proof.
  revert cfg b s. induction n as [|n IH]; intros cfg b s; cbn [reload_loop]; [done|].
  destruct (_ =? 0); [done|]. unfold on_env. run_simpl.
  destruct (get_target_rules_for_tid_slot slot s).1; run_simpl; [|done].
  destruct (read_cfg_of_slot slot _).1; run_simpl; [|done].
  destruct (negb _); [|by destruct (select_best_target_rule _ _ _ _) as [[? ?]|]].
  rewrite bind_run. unfold on_bridge. rewrite zoom_run. cbn [fst snd]. by rewrite IH.
Qed.

Lemma dns_names thread_id hn sni b s :
  (runtime_dns_config_for_query thread_id hn sni (b, s)).2.1.(OBSERVED_HOSTNAME_BY_ENDPOINT) =
    b.(OBSERVED_HOSTNAME_BY_ENDPOINT).
Proof.
  unfold runtime_dns_config_for_query, on_env. run_simpl.
  destruct (get_config_for_tid thread_id s).1 as [cfg|]; [|done]. destruct (_ =? 0); [done|].
  apply reload_names.
Qed.

Lemma steady_dns thread_id hn sni : steady (N:=N) (on_bridge_of (runtime_dns_config_for_query thread_id hn sni)).
Proof.
  intros p Hp Hoff. unfold on_bridge_of. rewrite zoom_run. cbn [snd]. split; [|split; [|exact Hoff]].
  - unfold view. cbn [tid segment runtime update]. by rewrite dns_still.
  - unfold names. cbn [bridge update]. by rewrite dns_names.
Qed.

Hint Resolve steady_dns : steady.

Lemma steady_dns_fault hn : steady (N:=N) (dns_fault hn).
Proof. unfold dns_fault, runtime_dns_config_for_current_thread. steady. Qed.

(** The process in which the answer of the original is observed, and the answer. *)
Definition answered (node service hints : option (list Z)) (p : P) : Answer * P :=
  call (SysGetaddrinfo node service hints)
    (dns_fault (normalized_name_from_cstr node) (entered p)).2.

Lemma answered_steady node service hints p :
  ready p.(segment) → replay_off p →
  let q := (answered node service hints p).2 in view q = view p ∧ names q = names p ∧ replay_off q.
Proof.
  intros Hp Hoff q. destruct (steady_entered p Hp Hoff) as (Ev & En & Hoff1).
  assert (Hp1 : ready (entered p).(segment)) by (unfold view in Ev; by injection Ev as _ -> _ _).
  destruct (steady_dns_fault (normalized_name_from_cstr node) _ Hp1 Hoff1) as (Ev' & En' & Hoff2).
  rewrite <- Ev, <- En. by rewrite <- Ev', <- En'.
Qed.

(** A query that no fault answers, for one address. *)
Lemma getaddrinfo_run node service hints host bs len p :
  outside p → normalized_name_from_cstr node = Some host →
  (dns_fault (Some host) (entered p)).1 = None →
  let q := answered node service hints p in
  q.1.(ret) = 0 → q.1.(infos) = [(Some bs, len)] → 0 < len →
  getaddrinfo node service hints false p =
    (q.1, (observe_hostname_for_current_thread_addr (Some bs) len host q.2).2 <| in_hook := false |>).
Proof.
  intros Hout Hn Hdns q Hret Hinfos Hlen. unfold getaddrinfo. rewrite hook_run by done.
  rewrite Hn. cbv zeta. rewrite bind_run, Hdns. unfold q, answered in *. rewrite Hn in *.
  rewrite bind_run.
  set (x := call (SysGetaddrinfo node service hints) (dns_fault (Some host) (entered p)).2) in *.
  clearbody x. destruct x as [a p1]. cbn [fst snd] in *.
  rewrite bind_run, ret_run. cbn [fst snd]. unfold observe_answers. rewrite Hret, Hinfos. cbn [Z.eqb negb andb].
  cbn [for_each fst snd]. rewrite (proj2 (Z.ltb_lt _ _)) by done. by rewrite bind_run, ret_run.
Qed.
End resolving.

(** ** The later call *)

Section later.
Context `{Host} `{HashOrderLaw} `{Os} `{Storage} {N : Type} `{Sockets N} `{Libc N}.
Abbreviation P := (Process N).

(** A query of the thread for [host], of the normal form [name], that the C library
    answers with one address, not known under any name before. *)
Record resolves (node service hints : option (list Z)) (host name : str) (bs : list Z) (len : Z)
    (e : Endpoint) (p : P) : Prop := {
  resolves_host : normalized_name_from_cstr node = Some host;
  resolves_name : normalize_semantic_name host = Some name;
  resolves_unfaulted : (dns_fault (Some host) (entered p)).1 = None;
  resolves_ret : (answered node service hints p).1.(ret) = 0;
  resolves_infos : (answered node service hints p).1.(infos) = [(Some bs, len)];
  resolves_len : 0 < len;
  resolves_address : sockaddr_endpoint (Some bs) len = Some e;
  resolves_new : unobserved (tid_slot p.(tid)) e (names p);
  resolves_room : (size (names p) < HOSTNAME_OBSERVATION_MAX_ENTRIES)%nat;
}.

Lemma sockaddr_family bs len e :
  sockaddr_endpoint (Some bs) len = Some e → address_family e = 1 ∨ address_family e = 2.
Proof.
  unfold sockaddr_endpoint. repeat case_match; try done; intros [= <-]; [by left|by right].
Qed.

Lemma observed_as_ext slot e e' item m :
  e'.(address_family) = e.(address_family) → e'.(addr) = e.(addr) →
  observed_as slot e item m → observed_as slot e' item m.
Proof. intros Hf Ha. unfold observed_as, at_address. by rewrite Hf, Ha. Qed.

(** After the query: the name is the address's, and the rest is as it was. *)
Lemma resolved node service hints host name bs len e p :
  outside p → ready p.(segment) → replay_off p → resolves node service hints host name bs len e p →
  let g := getaddrinfo node service hints false p in
  view g.2 = view p ∧ replay_off g.2 ∧
  observed_as (tid_slot p.(tid)) e
    (mkObservedName name (now_of (answered node service hints p).2.(bridge))) (names g.2).
Proof.
  intros Hout Hp Hoff [Hhost Hname Hdns Hret Hinfos Hlen Haddr Hnew Hroom] g. unfold g.
  rewrite (getaddrinfo_run node service hints host bs len p) by done.
  destruct (answered_steady node service hints p Hp Hoff) as (Ev & En & Hoff1).
  set (q := answered node service hints p) in *. clearbody q. destruct q as [a q]. cbn [fst snd] in *.
  pose proof (f_equal (λ v, v.1.1) Ev) as Et. cbn in Et. unfold names in En.
  unfold observe_hostname_for_current_thread_addr. rewrite bind_run, gets_run. cbn [fst snd].
  rewrite bind_run, gets_run. cbn [fst snd]. unfold endpoint_for_addr_or_fd. rewrite Haddr.
  cbn [mbind option_bind]. set (e' := e <| protocol := _ |>).
  unfold on_bridge_of, on_bridge. rewrite !zoom_run. cbn [fst snd segment tid bridge update].
  rewrite Et. change (get_tid_slot_for_tid (tid p)) with (tid_slot (tid p)).
  split; [exact Ev|]. split; [exact Hoff1|]. unfold names. cbn [bridge update].
  apply (observed_as_ext _ e'); [done|done|]. apply observe_new; [done|by apply (sockaddr_family bs len e)| |].
  - rewrite En. exact Hnew.
  - by rewrite En.
Qed.

(** C12. Rules for host names decide about the addresses the name was resolved to. When a
    thread whose row loses everything for its target rules only resolves a name with
    [getaddrinfo], then connects, writes, sends or sends to the address of the answer, or
    reads, receives or receives from a descriptor whose peer it is, on any port and with
    any protocol, within thirty seconds, the rules are matched against that name.  If a
    rule matches, the hook makes no original call and returns -1 with [errno] set to EIO,
    or to ECONNREFUSED by [connect]; if none does, the original is called once, as the
    caller did, and its answer returned.  (The C library answers with one address, which
    had no name yet, no DNS fault answers instead; nobody else with a valid row owns the
    descriptor, or it is being connected; the row has no schedule, session budget or
    correlated loss; nothing is recorded or replayed, and nothing was held back on the
    descriptor.) *)
Theorem host_name_rules node service hints host name bs len e h gt e' cfg rules c (p : P) :
  outside p → ready p.(segment) → replay_off p → resolves node service hints host name bs len e p →
  ruled h gt cfg rules p →
  let g := getaddrinfo node service hints false p in
  let asked := (answered node service hints p).2.(bridge) in
  let found := (at_gate gt g.2).(bridge) in
  outside g.2 → gt.(gate_held) p = [] → gt.(gate_endpoint) g.2.(kernel) = Some e' →
  e'.(address_family) = e.(address_family) → e'.(addr) = e.(addr) →
  saturating_sub (now_of found) (now_of asked) ≤ HOSTNAME_OBSERVATION_TTL_NS →
  match select_best_target_rule (Some e')
          (mkSemanticContext (Some name) (found.(OBSERVED_SNI_BY_FD) !! gt.(gate_fd))) rules
          (Z.to_nat cfg.(target_enabled) `min` length rules) with
  | Some _ => refused h gt (c, g.2)
  | None => passed h gt (c, g.2)
  end.
Proof.
  intros Hout Hp Hoff Hres Hruled g asked found Hout' Hq He' Hfam Haddr Httl.
  destruct (resolved node service hints host name bs len e p Hout Hp Hoff Hres) as (Ev & Hoff' & Hobs).
  fold g asked in Ev, Hoff', Hobs. clearbody g asked.
  pose proof (f_equal (λ v, v.1.1) Ev) as Et. pose proof (f_equal (λ v, v.1.2) Ev) as Es. cbn in Et, Es.
  assert (Hp' : ready g.2.(segment)) by by rewrite Es.
  pose proof (view_ruled h gt cfg rules p g.2 Ev Hruled) as Hruled'.
  pose proof Hruled' as [Hg Hfd _ _ _ _ _ _]. rewrite <- (view_held h gt p g.2 Hg Ev) in Hq.
  pose proof (ruled_outcome h gt cfg rules e' (c, g.2) Hout' Hp' Hoff' Hruled' Hq He') as Hr.
  destruct (at_gate_same h gt g.2 Hg Hp' Hfd) as (_ & _ & _ & _ & Eo & _).
  assert (Hip : address_family e' = 1 ∨ address_family e' = 2).
  { rewrite Hfam. by apply (sockaddr_family bs len), (resolves_address _ _ _ _ _ _ _ _ _ Hres). }
  apply (observed_as_ext _ e e') in Hobs; [|done|done]. unfold names in Hobs. rewrite <- Eo in Hobs.
  cbn [endpoint_name snd] in Hr. rewrite Et in Hr. by rewrite (lookup_observed _ _ _ _ Hip Hobs Httl) in Hr.
Qed.
End later.

#[local] Existing Instance example_host.
#[local] Existing Instance example_os.

(** A C library that answers every query with the address 10.1.200.7, which is also
    that of the peer of descriptor 9. *)
Definition example_address : list Z := sockaddr_in 0 [10; 1; 200; 7] (replicate 8 0).

#[local] Instance resolving_libc : Libc (list (list Z)) := {|
  original k st :=
    match k with
    | SysGetaddrinfo _ _ _ => (mkAnswer 0 None None [(Some example_address, 16)], st)
    | _ => original (Libc:=example_libc) k st
    end;
  fcntl_getfl := fcntl_getfl (Libc:=example_libc);
  setspecific_fails := setspecific_fails (Libc:=example_libc);
  has_ssl_ctrl := true;
  has_ssl_set_fd := true;
  has_ssl_get_fd := true;
  has_ssl_free := true;
  has_setpriority := true
|}.

(** A rule for a host name. *)
Definition host_rule (name : list Z) : list Z :=
  encode (Rule.TargetRule_default <| Rule.enabled := 1 |>
            <| Rule.hostname := name ++ replicate (32 - length name) 0 |>).

(** The thread asks for [Ex.] and connects descriptor 8 to the address, on port 443: a
    rule for [ex] refuses the call, and a rule for the names below [ex] does not. *)
Lemma host_name_rules_witness :
  let p name := example_process (ruled_segment (host_rule name)) [] in
  let asks q := (getaddrinfo (Some [69; 120; 46; 0]) None None false q).2 in
  let https := sockaddr_in 443 [10; 1; 200; 7] (replicate 8 0) in
  let call q := (run_hook (HConnect 8 (Some https) 16) (mkCaller None None, q)).1 in
  call (asks (p [101; 120])) = -1 ∧ call (asks (p [42; 46; 101; 120])) = 0 ∧ call (p [101; 120]) = 0.
Proof.
  intros p asks https call. split; [|by vm_compute].
  set (q := p [101; 120]). set (e' := example_server <| protocol := 0 |>). set (e := e' <| port := 0 |>).
  assert (Hout : outside q) by by split.
  assert (Hoff : replay_off q) by by split.
  assert (Hq : ready q.(segment)) by (apply ruled_ready, (bool_decide_unpack _); by vm_compute).
  assert (Hres : resolves (Some [69; 120; 46; 0]) None None [101; 120] [101; 120] example_address 16 e q).
  { split; [by vm_compute..| |apply Nat.ltb_lt; by vm_compute]. intros k x Hk. by destruct (lookup_empty_Some k x). }
  assert (Hout' : outside (asks q)) by (split; by vm_compute).
  destruct (gate (HConnect 8 (Some https) 16)) as [gt|] eqn:Hgate; [|discriminate Hgate].
  destruct (thread_config q.(segment) q.(tid)) as [cfg|] eqn:Hrow; [|exfalso; revert Hrow; by vm_compute].
  assert (Hcfg : cfg.(target_enabled) = 1 ∧ cfg.(schedule_type) = 0 ∧ loses Uplink cfg).
  { clear -Hrow. revert Hrow. vm_compute. intros Hrow. injection Hrow as <-. by split_and!. }
  destruct Hcfg as (Hen & Hsch & Hloses).
  destruct (target_rules_ready q.(segment) (tid_slot q.(tid)) Hq) as (rules & Hrules & _); [by vm_compute|].
  assert (Hruled : ruled (HConnect 8 (Some https) 16) gt cfg rules q).
  { split; [exact Hgate| |exact I|exact Hrow|by rewrite Hen|exact Hsch| |exact Hrules];
      apply (inj Some) in Hgate as <-; [clear; by vm_compute|exact Hloses]. }
  assert (Hgt : gt.(gate_held) q = [] ∧
    gt.(gate_endpoint) (asks q).(kernel) = Some e' ∧ gt.(gate_fd) = 8 ∧
    saturating_sub (now_of (at_gate gt (asks q)).(bridge))
      (now_of (answered (Some [69; 120; 46; 0]) None None q).2.(bridge)) ≤ HOSTNAME_OBSERVATION_TTL_NS ∧
    (at_gate gt (asks q)).(bridge).(OBSERVED_SNI_BY_FD) !! gt.(gate_fd) = None).
  { apply (inj Some) in Hgate as <-. clear. by split_and!; vm_compute. }
  destruct Hgt as (Hheld & He & Hgfd & Httl & Hsni).
  pose proof (host_name_rules (Some [69; 120; 46; 0]) None None [101; 120] [101; 120] example_address 16 e _ gt
    e' cfg rules (mkCaller None None) q Hout Hq Hoff Hres Hruled Hout' Hheld He eq_refl eq_refl Httl) as H.
  cbv zeta in H. unfold asks in Hsni. rewrite Hen, Hsni in H.
  destruct (select_best_target_rule _ _ _ _) as [[i rule]|] eqn:Hsel in H; [exact (proj1 H)|].
  exfalso. revert Hsel. replace rules with
    (default [] (get_target_rules_for_tid_slot (tid_slot q.(tid)) q.(segment)).1) by by rewrite Hrules.
  by vm_compute.
Defined.
