(* ===== verification/TlsNames.v ===== *)
(** * From a TLS handle to a hooked call

    The components composed: the server name a thread gives the TLS library for a
    handle ([SSL_ctrl]) and the descriptor it sets for it ([SSL_set_fd], both the
    interceptor's [lib.rs]), in either order, the observation of the name and the
    rules for server names ([interceptor_bridge.rs]), and a later call on the
    descriptor. *)

From S2P Require Import Prelude.
From S2P Require Import Config.
From S2P Require Import ShmContract.
From S2P Require Import RustStr.
From S2P Require Import ShmRuntime.
From S2P Require Import Layers.
From S2P Require Import Sockets.
From S2P Require Import ChaosEngine.
From S2P Require Import Runtime.
From S2P Require Import Bridge.
From S2P Require Import Tls.
From S2P Require Import RecordReplay.
From S2P Require Import Process.
From S2P Require Import Interceptor.
From S2P Require Import Hooks.
From S2P Require Import HookSpecs.
From S2P Require Import HookTransparent.
From S2P Require Import HookReceive.
From S2P Require Import HookLifecycle.
From S2P Require Import Gates.
From S2P Require Import EndToEnd.

Open Scope Z_scope.

(** ** The calls of the TLS library *)

Section handles.
Context `{Host} `{HashOrder} `{Os} `{Storage} {N : Type} `{Sockets N} `{Libc N}.
Abbreviation P := (Process N).

Lemma steady_observe fd sni : steady (N:=N) (on_observations (observe_sni_for_fd fd sni)).
Proof.
  intros p Hp Hoff. unfold on_observations, observe_sni_for_fd. rewrite zoom_run.
  destruct (fd <? 0); [done|]. by destruct (normalize_semantic_name sni).
Qed.
Hint Resolve steady_observe : steady.

Lemma steady_remember_fd ssl fd : steady (N:=N) (remember_ssl_fd ssl fd).
Proof.
  unfold remember_ssl_fd. destruct (fd <? 0); [steady|]. destruct (ssl_key ssl); [|steady].
  apply steady_bind; [done|intros _]. steady.
Qed.

Lemma steady_remember_sni ssl sni : steady (N:=N) (remember_ssl_sni ssl sni).
Proof. unfold remember_ssl_sni. by destruct (ssl_key ssl). Qed.

Lemma steady_forget_state ssl : steady (N:=N) (forget_ssl_state ssl).
Proof. unfold forget_ssl_state. by destruct (ssl_key ssl). Qed.
Hint Resolve steady_remember_fd steady_remember_sni steady_forget_state : steady.

Lemma steady_bind_sni ssl sni : steady (N:=N) (bind_ssl_sni_if_possible ssl sni).
Proof. unfold bind_ssl_sni_if_possible, observe_on_remembered, call_ret. steady. Qed.
Hint Resolve steady_bind_sni : steady.

Lemma steady_SSL_ctrl ssl cmd larg parg : steady (N:=N) (SSL_ctrl ssl cmd larg parg).
Proof. apply steady_hook; unfold call_ssl_ctrl_orig, call_ret; steady. Qed.

Lemma steady_SSL_set_fd ssl fd : steady (N:=N) (SSL_set_fd ssl fd).
Proof. apply steady_hook; unfold call_ssl_set_fd_orig, call_ret; steady. Qed.
End handles.

(** ** The name and the descriptor of a handle *)

Section naming.
Context `{Host} `{HashOrder} `{Os} `{Storage} {N : Type} `{Sockets N} `{Libc N}.
Abbreviation P := (Process N).

(** [SSL_set_tlsext_host_name], as the header of the TLS library defines it. *)
Definition set_host_name (ssl : Z) (name : list Z) : M P Z :=
  SSL_ctrl ssl SSL_CTRL_SET_TLSEXT_HOSTNAME TLSEXT_NAMETYPE_HOST_NAME (Some name).

Definition sni_of (p : P) (fd : Z) : option str := p.(bridge).(OBSERVED_SNI_BY_FD) !! fd.

Lemma entered_handles (p : P) :
  (entered p).(SNI_BY_SSL) = p.(SNI_BY_SSL) ∧ (entered p).(FD_BY_SSL) = p.(FD_BY_SSL).
Proof. unfold entered, initialize. run_simpl. by destruct (INITIALIZED _). Qed.

Lemma observe_sni_run fd host m (p : P) :
  0 ≤ fd → normalize_semantic_name host = Some m →
  on_observations (observe_sni_for_fd fd host) p =
    (tt, p <| bridge ::= λ b, b <| OBSERVED_SNI_BY_FD ::= <[fd := m]> |> |>).
Proof.
  intros Hfd Hm. unfold on_observations, observe_sni_for_fd. by rewrite zoom_run, (proj2 (Z.ltb_ge _ _)), Hm.
Qed.

(** What [SSL_ctrl] and [SSL_set_fd] do last does not concern names. *)
Lemma ctrl_orig_handles ssl cmd larg parg (p : P) :
  let q := (call_ssl_ctrl_orig ssl cmd larg parg p).2 in
  q.(SNI_BY_SSL) = p.(SNI_BY_SSL) ∧ q.(bridge) = p.(bridge).
Proof. unfold call_ssl_ctrl_orig. by destruct has_ssl_ctrl. Qed.

Lemma set_fd_orig_handles ssl fd (p : P) :
  let q := (call_ssl_set_fd_orig ssl fd p).2 in q.(SNI_BY_SSL) = p.(SNI_BY_SSL).
Proof. unfold call_ssl_set_fd_orig. by destruct has_ssl_set_fd. Qed.

Lemma set_host_name_run ssl name host (p : P) :
  outside p → normalized_name_from_cstr (Some name) = Some host →
  (set_host_name ssl name p).2 =
    (call_ssl_ctrl_orig ssl SSL_CTRL_SET_TLSEXT_HOSTNAME TLSEXT_NAMETYPE_HOST_NAME (Some name)
       (remember_ssl_sni ssl host (bind_ssl_sni_if_possible ssl host (entered p)).2).2).2 <| in_hook := false |>.
Proof.
  intros Hout Hn. unfold set_host_name, SSL_ctrl. rewrite hook_run by done. cbn [snd].
  change ((_ =? _) && (_ =? _)) with true. cbn match. by rewrite Hn, !bind_run.
Qed.

(** The name first: it is remembered for the handle. *)
Lemma name_remembered ssl name host (p : P) :
  outside p → ssl ≠ 0 → normalized_name_from_cstr (Some name) = Some host →
  (set_host_name ssl name p).2.(SNI_BY_SSL) !! ssl = Some host.
Proof.
  intros Hout Hssl Hn. rewrite (set_host_name_run ssl name host) by done. cbn [SNI_BY_SSL update].
  rewrite (proj1 (ctrl_orig_handles _ _ _ _ _)). unfold remember_ssl_sni, ssl_key.
  rewrite (proj2 (Z.eqb_neq _ _) Hssl). apply lookup_insert_eq.
Qed.

Lemma set_fd_run ssl fd (p : P) :
  outside p → (call_ssl_set_fd_orig ssl fd (entered p)).1 = 1 →
  (SSL_set_fd ssl fd p).2 =
    (remember_ssl_fd ssl fd (call_ssl_set_fd_orig ssl fd (entered p)).2).2 <| in_hook := false |>.
Proof. intros Hout Ha. unfold SSL_set_fd. rewrite hook_run by done. rewrite bind_run, Ha. by rewrite bind_run, ret_run. Qed.

Lemma fd_then_observed ssl fd host m (p : P) :
  outside p → ssl ≠ 0 → 0 ≤ fd → p.(SNI_BY_SSL) !! ssl = Some host → normalize_semantic_name host = Some m →
  (call_ssl_set_fd_orig ssl fd (entered p)).1 = 1 → sni_of (SSL_set_fd ssl fd p).2 fd = Some m.
Proof.
  intros Hout Hssl Hfd Hn Hm Ha. rewrite set_fd_run by done.
  pose proof (set_fd_orig_handles ssl fd (entered p)) as Eo. cbv zeta in Eo.
  rewrite (proj1 (entered_handles p)) in Eo. generalize dependent (call_ssl_set_fd_orig ssl fd (entered p)).2. intros q Eo.
  unfold sni_of. cbn [bridge update]. unfold remember_ssl_fd, ssl_key.
  rewrite (proj2 (Z.ltb_ge _ _)), (proj2 (Z.eqb_neq _ _)) by done. rewrite bind_run, modify_run. cbn [snd].
  rewrite bind_run, gets_run. cbn [fst snd SNI_BY_SSL update]. rewrite Eo, Hn.
  rewrite (observe_sni_run fd host m) by done. apply lookup_insert_eq.
Qed.

(** The descriptor first: it is remembered for the handle. *)
Lemma fd_remembered ssl fd (p : P) :
  outside p → ssl ≠ 0 → 0 ≤ fd → (call_ssl_set_fd_orig ssl fd (entered p)).1 = 1 →
  (SSL_set_fd ssl fd p).2.(FD_BY_SSL) !! ssl = Some fd.
Proof.
  intros Hout Hssl Hfd Ha. rewrite set_fd_run by done. cbn [FD_BY_SSL update].
  generalize (call_ssl_set_fd_orig ssl fd (entered p)).2. intros q. unfold remember_ssl_fd, ssl_key.
  rewrite (proj2 (Z.ltb_ge _ _)), (proj2 (Z.eqb_neq _ _)) by done. rewrite bind_run, modify_run. cbn [snd].
  rewrite bind_run, gets_run. cbn [fst snd SNI_BY_SSL update]. destruct (SNI_BY_SSL q !! ssl); [|apply lookup_insert_eq].
  unfold on_observations, observe_sni_for_fd. rewrite zoom_run. cbn [snd FD_BY_SSL update]. apply lookup_insert_eq.
Qed.

Lemma name_then_observed ssl fd name host m (p : P) :
  outside p → ssl ≠ 0 → 0 ≤ fd → p.(FD_BY_SSL) !! ssl = Some fd →
  normalized_name_from_cstr (Some name) = Some host → normalize_semantic_name host = Some m →
  (has_ssl_get_fd = true → (call_ret (SysSslGetFd ssl) (entered p)).1 < 0 ∨
                           (call_ret (SysSslGetFd ssl) (entered p)).1 = fd) →
  sni_of (set_host_name ssl name p).2 fd = Some m.
Proof.
  intros Hout Hssl Hfd Hf Hn Hm Hget. rewrite (set_host_name_run ssl name host) by done.
  unfold sni_of. cbn [bridge update]. rewrite (proj2 (ctrl_orig_handles _ _ _ _ _)).
  assert (Er : ∀ q : P, (remember_ssl_sni ssl host q).2.(bridge) = q.(bridge)).
  { intros q. unfold remember_ssl_sni. by destruct (ssl_key ssl). }
  rewrite Er. clear Er. unfold bind_ssl_sni_if_possible, ssl_key. rewrite (proj2 (Z.eqb_neq _ _)) by done.
  assert (Hobs : ∀ q : P, q.(FD_BY_SSL) = p.(FD_BY_SSL) →
    (observe_on_remembered ssl host q).2.(bridge).(OBSERVED_SNI_BY_FD) !! fd = Some m).
  { intros q Eq. unfold observe_on_remembered. rewrite bind_run, gets_run. cbn [fst snd]. rewrite Eq, Hf.
    rewrite (observe_sni_run fd host m) by done. apply lookup_insert_eq. }
  destruct has_ssl_get_fd; [|apply Hobs, entered_handles].
  rewrite bind_run. set (r := call_ret (SysSslGetFd ssl) (entered p)) in *.
  assert (Hr : r.2.(FD_BY_SSL) = p.(FD_BY_SSL)) by exact (proj2 (entered_handles p)). clearbody r.
  destruct (Z.leb_spec 0 r.1); [|by apply Hobs]. destruct (Hget eq_refl) as [?| ->]; [lia|].
  rewrite bind_run, (observe_sni_run fd host m) by done. apply lookup_insert_eq.
Qed.
End naming.

(** ** The later call *)

Section later.
Context `{Host} `{HashOrder} `{Os} `{Storage} {N : Type} `{Sockets N} `{Libc N}.
Abbreviation P := (Process N).

(** A call that carries a server name of its own, in a client hello. *)
Definition names_server (h : Hooked) : Prop :=
  match h with
  | HSend c => ∃ b name, call_buf c = Some b ∧ tls_client_hello_sni (copy_bytes b (call_len c)) = Ok name
  | _ => False
  end.

Lemma at_gate_sni h gt (p : P) :
  ready p.(segment) → 0 ≤ gt.(gate_fd) < MAX_FDS → gate h = Some gt → ¬ names_server h →
  (at_gate gt p).(bridge).(OBSERVED_SNI_BY_FD) = p.(bridge).(OBSERVED_SNI_BY_FD).
Proof.
  intros Hp Hfd Hg Hno. destruct (entered_same p Hp) as [_ Eb].
  destruct (gate_cases h gt Hg) as [[c ->]|[(fd & a & l & ->)|(fd & k & Hk & ->)]].
  - cbn [gate] in Hg. apply (inj Some) in Hg as <-. unfold at_gate. cbn [gate_notes].
    rewrite <- Eb. unfold observe_tls_sni_from_send_buffer. destruct (call_buf c) as [b|] eqn:Hb; [|done].
    destruct (_ || _); [done|]. destruct (Tls.tls_client_hello_sni _) eqn:Ht; try done.
    destruct Hno. cbn [names_server]. eauto.
  - cbn [gate] in Hg. apply (inj Some) in Hg as <-. cbn [gate_fd] in Hfd.
    change (at_gate _ p) with (bound fd p). rewrite bound_same by done. cbn [bridge update]. by rewrite Eb.
  - change (at_gate _ p) with (entered p). by rewrite Eb.
Qed.

Inductive Order : Type := NameFirst | DescriptorFirst.

(** The two calls that tie a name to a descriptor through the handle [ssl]. *)
Definition tie (o : Order) (ssl : Z) (name : list Z) (fd : Z) (p : P) : P :=
  match o with
  | NameFirst => (SSL_set_fd ssl fd (set_host_name ssl name p).2).2
  | DescriptorFirst => (set_host_name ssl name (SSL_set_fd ssl fd p).2).2
  end.

(** The process the second call is made in. *)
Definition between (o : Order) (ssl : Z) (name : list Z) (fd : Z) (p : P) : P :=
  match o with
  | NameFirst => (set_host_name ssl name p).2
  | DescriptorFirst => (SSL_set_fd ssl fd p).2
  end.

(** The TLS library sets the descriptor, and does not take the handle to have
    another one afterwards. *)
Record ties (o : Order) (ssl : Z) (name : list Z) (fd : Z) (m : str) (p : P) : Prop := {
  ties_handle : ssl ≠ 0;
  ties_name : ∃ host, normalized_name_from_cstr (Some name) = Some host ∧ normalize_semantic_name host = Some m;
  ties_set : (call_ssl_set_fd_orig ssl fd
                (entered match o with NameFirst => between o ssl name fd p | DescriptorFirst => p end)).1 = 1;
  ties_get : o = DescriptorFirst → has_ssl_get_fd = true →
    let a := (call_ret (SysSslGetFd ssl) (entered (between o ssl name fd p))).1 in a < 0 ∨ a = fd;
}.

Lemma tie_steady o ssl name fd : steady (N:=N) (λ p, (tt, tie o ssl name fd p)).
Proof.
  intros p Hp Hoff. cbn [snd].
  assert (Hboth : ∀ c1 c2 : M P Z, steady c1 → steady c2 →
    view (c2 (c1 p).2).2 = view p ∧ names (c2 (c1 p).2).2 = names p ∧ replay_off (c2 (c1 p).2).2).
  { intros c1 c2 Hc1 Hc2. exact (steady_bind c1 (λ _, c2) Hc1 (λ _, Hc2) p Hp Hoff). }
  destruct o; [apply (Hboth (set_host_name ssl name) (SSL_set_fd ssl fd))|
    apply (Hboth (SSL_set_fd ssl fd) (set_host_name ssl name))];
    (apply steady_SSL_ctrl || apply steady_SSL_set_fd).
Qed.

Lemma tie_observed o ssl name fd m (p : P) :
  outside p → outside (between o ssl name fd p) → 0 ≤ fd → ties o ssl name fd m p →
  sni_of (tie o ssl name fd p) fd = Some m.
Proof.
  intros Hout Hout' Hfd [Hssl (host & Hhost & Hm) Hset Hget]. destruct o; cbn [between tie] in *.
  - apply (fd_then_observed ssl fd host m); try done. by apply name_remembered.
  - apply (name_then_observed ssl fd name host m); try done; [by apply fd_remembered|by apply Hget].
Qed.

(** C13. Rules for server names decide about the descriptors the name is tied to. When a
    thread whose row loses everything for its target rules only gives the TLS library a
    server name for a handle and a descriptor for the same handle, in either order, and
    then connects, writes, sends, sends to, reads, receives or receives from the
    descriptor, without a client hello of its own, the rules are matched against that
    name.  If a rule matches, the hook makes no original call and returns -1 with [errno]
    set to EIO, or to ECONNREFUSED by [connect]; if none does, the original is called
    once, as the caller did, and its answer returned. (The library accepts the descriptor,
    and tells it or none when it is asked; nobody else with a valid row owns the
    descriptor, or it is being connected; the row has no schedule, session budget or
    correlated loss; nothing is recorded or replayed, and nothing was held back on the
    descriptor.) *)
Theorem tls_name_rules o ssl name m h gt cfg rules e c (p : P) :
  outside p → ready p.(segment) → replay_off p → ruled h gt cfg rules p →
  ties o ssl name gt.(gate_fd) m p → ¬ names_server h →
  let t := tie o ssl name gt.(gate_fd) p in
  let found := (at_gate gt t).(bridge) in
  outside (between o ssl name gt.(gate_fd) p) → outside t → gt.(gate_held) p = [] →
  gt.(gate_endpoint) t.(kernel) = Some e →
  let hostname := (endpoint_name (tid_slot p.(tid)) (Some e) found).1 in
  match select_best_target_rule (Some e) (mkSemanticContext hostname (Some m)) rules
          (Z.to_nat cfg.(target_enabled) `min` length rules) with
  | Some _ => refused h gt (c, t)
  | None => passed h gt (c, t)
  end.
Proof.
  intros Hout Hp Hoff Hruled Hties Hno t found Hout' Hout'' Hq He hostname.
  pose proof Hruled as [Hg Hfd _ _ _ _ _ _].
  pose proof (tie_observed o ssl name _ m p Hout Hout' ltac:(lia) Hties) as Hm. fold t in Hm.
  destruct (tie_steady o ssl name gt.(gate_fd) p Hp Hoff) as (Ev & _ & Hoff'). cbn [snd] in Ev, Hoff'.
  fold t in Ev, Hoff'. unfold hostname. clear hostname Hties. clearbody t.
  pose proof (f_equal (λ v, v.1.1) Ev) as Et. pose proof (f_equal (λ v, v.1.2) Ev) as Es. cbn in Et, Es.
  assert (Hp' : ready t.(segment)) by by rewrite Es.
  rewrite <- (view_held h gt p t Hg Ev) in Hq.
  pose proof (ruled_outcome h gt cfg rules e (c, t) Hout'' Hp' Hoff' (view_ruled h gt cfg rules p t Ev Hruled) Hq He) as Hr.
  cbn [snd] in Hr. fold found in Hr. rewrite Et in Hr. unfold found in Hr at 2.
  rewrite (at_gate_sni h gt t Hp' Hfd Hg Hno) in Hr. unfold sni_of in Hm. by rewrite Hm in Hr.
Qed.
End later.

#[local] Existing Instance example_host.
#[local] Existing Instance example_os.

(** A TLS library that sets descriptor 9 for every handle. *)
#[local] Instance tls_libc : Libc (list (list Z)) := {|
  original k st :=
    match k with
    | SysSslSetFd _ _ => (mkAnswer 1 None None [], st)
    | SysSslGetFd _ => (mkAnswer 9 None None [], st)
    | _ => original (Libc:=example_libc) k st
    end;
  fcntl_getfl := fcntl_getfl (Libc:=example_libc);
  setspecific_fails := setspecific_fails (Libc:=example_libc);
  has_ssl_ctrl := true;
  has_ssl_set_fd := true;
  has_ssl_get_fd := true;
  has_ssl_free := true;
  has_setpriority := true
|}.

(** The handle 77 gets descriptor 9 and then the name [Ex.], and the thread receives:
    a rule for [ex] refuses the call, and a rule for the names below [ex] does not. *)
Lemma tls_name_rules_witness :
  let p rule := example_process (ruled_segment (name_rule rule)) [[1; 2; 3]] in
  let t rule := tie DescriptorFirst 77 [69; 120; 46; 0] 9 (p rule) in
  let receive q := (run_hook (HRecv 9 4 0) (mkCaller (Some [0; 0; 0; 0]) None, q)).1 in
  receive (t [101; 120]) = -1 ∧ receive (t [42; 46; 101; 120]) = 3 ∧ receive (p [101; 120]) = 3.
Proof.
  intros p t receive. split; [|by vm_compute].
  set (q := p [101; 120]).
  assert (Hout : outside q) by by split.
  assert (Hoff : replay_off q) by by split.
  assert (Hq : ready q.(segment)) by (apply ruled_ready, (bool_decide_unpack _); by vm_compute).
  destruct (gate (HRecv 9 4 0)) as [gt|] eqn:Hgate; [|discriminate Hgate].
  assert (Hfd : gt.(gate_fd) = 9) by by apply (inj Some) in Hgate as <-.
  destruct (thread_config q.(segment) q.(tid)) as [cfg|] eqn:Hrow; [|exfalso; revert Hrow; by vm_compute].
  assert (Hcfg : cfg.(target_enabled) = 1 ∧ cfg.(schedule_type) = 0 ∧ loses Downlink cfg).
  { clear -Hrow. revert Hrow. vm_compute. intros Hrow. injection Hrow as <-. by split_and!. }
  destruct Hcfg as (Hen & Hsch & Hloses).
  destruct (target_rules_ready q.(segment) (tid_slot q.(tid)) Hq) as (rules & Hrules & _); [by vm_compute|].
  assert (Hruled : ruled (HRecv 9 4 0) gt cfg rules q).
  { split; [exact Hgate|rewrite Hfd; clear; by vm_compute| |exact Hrow|by rewrite Hen|exact Hsch| |exact Hrules].
    - unfold own_call, unclaimed. rewrite Hfd. clear. assert (owner q.(segment) 9 = Some 0) as -> by by vm_compute.
      intros slot [= <-]. right. by vm_compute.
    - apply (inj Some) in Hgate as <-. exact Hloses. }
  assert (Hties : ties DescriptorFirst 77 [69; 120; 46; 0] gt.(gate_fd) [101; 120] q).
  { rewrite Hfd. split; [done|exists [101; 120]; clear; by vm_compute|clear; by vm_compute|].
    intros _ _. right. clear. by vm_compute. }
  assert (Hnone : ¬ names_server (HRecv 9 4 0)) by (intros []).
  assert (Hrest : outside (between DescriptorFirst 77 [69; 120; 46; 0] gt.(gate_fd) q) ∧
    outside (tie DescriptorFirst 77 [69; 120; 46; 0] gt.(gate_fd) q) ∧ gt.(gate_held) q = [] ∧
    gt.(gate_endpoint) (tie DescriptorFirst 77 [69; 120; 46; 0] gt.(gate_fd) q).(kernel) = Some example_server).
  { apply (inj Some) in Hgate as <-. clear. by split_and!; vm_compute. }
  destruct Hrest as (Hout' & Hout'' & Hheld & He).
  pose proof (tls_name_rules DescriptorFirst 77 [69; 120; 46; 0] [101; 120] (HRecv 9 4 0) gt cfg rules example_server
    (mkCaller (Some [0; 0; 0; 0]) None) q Hout Hq Hoff Hruled Hties Hnone Hout' Hout'' Hheld He) as Hr.
  cbv zeta in Hr. rewrite Hen in Hr.
  assert (Hname : (endpoint_name (tid_slot q.(tid)) (Some example_server)
    (at_gate gt (tie DescriptorFirst 77 [69; 120; 46; 0] gt.(gate_fd) q)).(bridge)).1 = None).
  { apply (inj Some) in Hgate as <-. clear. by vm_compute. }
  rewrite Hname, Hfd in Hr.
  destruct (select_best_target_rule _ _ _ _) as [[i rule]|] eqn:Hsel in Hr; [exact (proj1 Hr)|].
  exfalso. revert Hsel. replace rules with
    (default [] (get_target_rules_for_tid_slot (tid_slot q.(tid)) q.(segment)).1) by by rewrite Hrules.
  clear. by vm_compute.
Defined.
